(* ===== verification/_CoqProject ===== *)
-Q . S2P
Prelude.v
Bson.v
OverlayPtr.v
CacheTable.v
ControlBlock.v
Allocator.v
AllocatorRuns.v
Crypto.v
MemoryManager.v
ItemSet.v
NodeStore.v
ONode.v
NodeOps.v
NodeSplit.v
BTree.v
BTreeModel.v
BTreeAdd.v
BTreeIndex.v
BTreeMap.v
BTreeRemove.v
ValueStore.v
MMyISAM.v
SafeONode.v
SafeRemove.v
SafeBTree.v
SafeMode.v
SafeIsolation.v
SafeSpec.v
Script.v
TxFormat.v
P2PKH.v
BlockHeader.v
Coinbase.v
Block.v
HeaderSync.v
BlockSync.v
ChainSync.v
Ekp2pWire.v
Kademlia.v
StreamBuffer.v
Database.v
DBClient.v
DBTypes.v
UTXOSet.v
LocalFiles.v
BlockFiles.v
SyncStorage.v
TxPool.v
TxPoolSpec.v
TxPoolRuns.v
Payments.v
Validation.v
PoolTables.v
ChainState.v
Daemons.v
