(* ===== verification/Prelude.v ===== *)
(** * miya_core, verified

    A model of the core of miya_core (a UTXO block chain node with its own storage
    engine and peer-to-peer layer) and theorems about it. Names follow the source; a
    method [C::m] is [C_m] where [m] alone would be ambiguous.

    ** Parts

    Storage engine ([src/miya_db/strage_manager/MMyISAM/components/page_table/]):
    - [OverlayPtr]: overlay pointers, five big-endian bytes that address a file
      ([overlay_ptr.cpp], [optr_utils.cpp]); comparison, addition, copying and comparing
      memory behind them.
    - [CacheTable]: the page cache ([cache_table.cpp], [lru.cpp], [mapper.cpp]), three
      frames over a file with second-chance replacement. Its refinement theorem says that
      reads and writes through the cache are reads and writes of the bytes of the file;
      the class [OverlayMem] of [OverlayPtr] is the interface the files below are proved
      against, and [CacheTable_ops] its implementation.
    - [ControlBlock]: the 100-byte meta block and the 20-byte control blocks of the
      free-list file ([meta_block.cpp], [control_block.cpp]).
    - [Allocator], [AllocatorRuns]: the allocator on them
      ([overlay_memory_allocator.cpp]) with its specification on a fresh file (live
      regions are disjoint and inside the file) and the runs that break it.
    - [MemoryManager]: a data file with its allocator ([overlay_memory_manager.cpp]); the
      class [OverlayManager] is what the index is proved against (memory as an array of
      bytes, regions handed out one after the other), [Manager_manager] its implementation
      over any two memories, page caches included.

    B-tree index ([src/miya_db/strage_manager/MMyISAM/components/index_manager/]):
    - [ItemSet], [ONode], [BTree]: the code. The 103-byte item sets of nodes, the nodes with
      search, insertion, removal ([o_node.cpp]), and the index over them ([btree.cpp]).
    - [NodeStore]: item sets as records, a file as a finite map from addresses to them, and
      what every getter and setter does to it; a tactic ([node_run]) runs node code on it.
    - [NodeOps], [NodeSplit]: what adding to a node with room, splitting a full node and
      growing the root do to these records.
    - [BTreeModel]: trees as values, which trees a file stores, paths from the root.
    - [BTreeAdd], [BTreeIndex], [BTreeMap]: insertion refines insertion into the sorted list
      of entries, search is search in that list, and runs of both are a finite map that
      survives reopening. [BTreeRemove]: removal from leaves, and runs in which removal
      damages the index.

    Key-value table ([MMyISAM.cpp], [components/value_store_manager/]):
    - [ValueStore]: values behind a fragment header in a data file.
    - [MMyISAM]: the facade that joins value store and index to one table. The safe-mode
      index it calls is an interface, [SafeIndexOps].

    Database ([src/miya_db/miya_db/], [src/share/miya_db_client/], [src/share/json.hpp]):
    - [Bson]: JSON values and objects, the BSON writer and reader between which all messages
      pass, conversions, comparisons and printing (the part of the vendored library that is
      reached). The reader has three outcomes: a value, an exception, and a discarded value where
      the input ends behind the characters of a string.
    - [Database]: the query parser, the handler of every query over the class [StrageEngine]
      (instance: the facade with safe mode), and the server's thread between its queues; the
      class [TableLaws] is what its clients' theorems are proved against. Requests and responses are
      cut to a length of 16 bits, as segments do ([segment_body]).
    - [DBClient]: the client's operations and its loop for responses, in any interleaving with
      the server. [DBTypes]: requests and responses as types that both sides keep.

    Safe mode ([safe_mode_manager/], [MMyISAM.cpp]), copies of a table that can be committed:
    - [SafeONode], [SafeRemove]: copy-on-write nodes over two files and a table that says
      where a node lies; [SafeBTree]: the tree, its merge into the normal file, its manager.
    - [SafeMode]: opening and committing copies; the instance of [SafeIndexOps].
    - [SafeIsolation], [SafeSpec]: no operation of a copy changes the normal table; what a new
      copy answers; runs in which a commit damages the table.

    Chain ([src/chain/]):
    - [Crypto]: the hashing and signing wrappers ([src/share/hash], [src/share/cipher]) over
      OpenSSL, which is the class [OpenSSL] with its documented behaviour in
      [OpenSSL_laws]; a toy instance shows that the laws can hold.
    - [Script]: opcodes, the byte codec of scripts, locking and unlocking scripts, and the
      stack machine ([transaction/script/]).
    - [TxFormat], [P2PKH]: inputs, outputs and whole transactions ([transaction/tx/],
      [transaction/p2pkh/]): byte formats, signing, validation, ids. The UTXO set is the
      lookup argument of the validation.
    - [Payments]: transactions read from files of payments ([control_interface.cpp], the JSON
      readers of inputs and outputs).
    - [BlockHeader]: headers, the difficulty mask and mining ([block/block_header.cpp],
      [mining/simple_mining.cpp]).
    - [Coinbase], [Block]: coinbase transactions and blocks ([transaction/coinbase/],
      [block/block.cpp]).
    - [UTXOSet]: unspent outputs and the set of them in the database ([chain/utxo_set/]).
    - [HeaderSync]: received headers put together to chains ([chain_sync_manager/], header
      part); the clock is the class [Host]. [BlockSync]: the filter of known blocks and the
      download of the blocks of a chain, over any storage with the operations of the class
      [BlockLocalStrage], of whose behaviour nothing is assumed.
      [ChainSync]: the iterator over stored blocks and the manager that joins them all.
    - [LocalFiles], [BlockFiles]: the local storage of blocks ([chain/miya_coin/]): data files,
      the containers of blocks and of the outputs they create, and the storage that finds them
      through the database, with the mappings that a replaced manager releases a second time.
      [SyncStorage]: the synchronisation of blocks on this storage, whose writing never returns for
      a block that another node sent.
    - [TxPool]: the pool of transactions ([chain/transaction_pool/]): control blocks in rings
      below tables that branch on halves of a byte. [TxPoolSpec]: which transactions a pool
      holds, and what adding, finding and removing do to them; [TxPoolRuns]: the pool as a map,
      and what removing loses. [PoolTables]: the outputs of pooled transactions as a finite map,
      and the memory pool over the class [MultiIndex] of its container.
    - [Validation]: the checks that stand beside headers and transactions
      ([validation/validation.cpp]) and the queue of pending blocks ([daemon/block_validator/]).
    - [ChainState]: the mapped file with the head of the chain ([chain_state.cpp]).

    Peer-to-peer layer ([src/ekp2p/], [src/share/stream_buffer/]):
    - [Ekp2pWire]: node addresses, headers, messages and the receiving thread's round.
    - [Kademlia]: buckets, routing table and the queue of pinged nodes, the latter as a
      step relation.
    - [StreamBuffer]: the bounded queues between threads, as critical sections interleaved
      by a step relation.
    - [Daemons]: segments, both brokers, sender, routing manager ([ekp2p/daemon/],
      [chain/daemon/broker/]), the address exchange ([network/nat/]) and the initialisation of a
      node ([ekp2p.cpp]); the threads together as a step relation on containers.

    ** Conventions

    - Code that mutates, throws or can be undefined is a [prog]: a function from the state to
      [Ok], [Throw] (a C++ exception or a failed assert) or [Undef]. [Undef] is undefined
      behaviour (null, out-of-bounds, a lock taken twice) and a loop that does not end.
      Pure code that can be undefined returns [option].
    - Integers are [Z]; where C++ narrows or wraps, the model says so with [mod]. Fields
      kept in network order are modelled as they lie in memory, byte swaps included
      ([bswap32]). Uninitialised fields are given the value zero, noted where it happens.
    - A pointer to bytes is a [buffer]; [rd] and [sub] fail outside it.
    - A function that flows off its end without a return statement is [Undef] where its caller
      takes the value ([Block_height], [sb_rpcType]); [migrateToSafeMode] is given what the build makes
      of its missing answer as an argument, [None] standing for [Undef].
    - A destructor is run where an object is replaced and it has an effect
      ([LocalFileController_delete]); the range it releases is in use or not, which is
      kept in the state.
    - Allocation does not fail. Printing is left out but for the one print that can throw
      ([parseQuery]).

    ** Fuel

    [findFreeBlock], the rings of control blocks and [mining_loop] take fuel; theorems say
    that enough fuel gives the result (one unit per block of the ring, per candidate nonce)
    or that no fuel does ([simpleMining_diverges]). Scripts are read with as much fuel
    as declared bytes, the Merkle tree with the number of ids, relay addresses with the
    number of readable bytes, each shown to be enough. The descents into a B-tree take one
    unit per level; a tree grows by at most one level per insertion. Growing a subchain and
    exporting it take one unit per header of the chain; a header seen twice would be an
    endless recursion of the code. The waiting loops of synchronisations take one unit per
    round, and theorems say in which round they end, or that they never do. The BSON reader
    takes the length of its input, which is shown to be enough ([list_fuel]); a client's wait
    for a response takes one unit per response it takes out of the queue, and its theorems
    ask for one per pending response and one per round in which the server does not run. The
    tables of the pool get 65 units: an id of 32 bytes has 64 halves to branch on; a walk over
    a ring gets one unit per control block, since a longer walk never ends.

    ** Theorems

    Round trips: scripts, signed transactions, coinbases, headers, datagrams, BSON documents (whose
    prefixes throw or are discarded). Types: what clients send the server accepts and answers. Functional
    behaviour: the stack machine accepts exactly a matching hash and a valid signature; a
    signed transaction read by another node validates, a payment read from a file among them; the header check is a comparison
    with the target; mining finds the least nonce; an assembled block is accepted.
    Refinement and invariants: the page cache, the allocator on a fresh file, the B-tree, the
    table of keys and values on top of them (a finite map, which no safe-mode operation short
    of a commit changes), the same table behind the server for a client that shares its queues
    with others, the queues between threads, the ping queue. Synchronisation: headers in
    any order give the chain, a download of blocks comes to reading, waiting and writing on whatever
    storage there is, the loops end or do not. The block files are a log of the blocks written to
    them, while they fit into the first file and no manager is replaced after it was used; where one
    is, the behaviour is undefined. The pool of transactions is a map while nothing is removed from it, the cache of their
    outputs is one throughout, and the head of the chain outlives restarts. Threads that pass segments lose
    none, whatever their order, and deliver none. The other theorems show where the code does
    not do what it means to: the effect is stated exactly, and each is listed as a finding.

    ** Bounds

    An index file stays below 8 MiB, the range of the page cache that the manager of memory
    is proved for. Every insertion is counted as a new node on each level of the tree and a root,
    and the tree is at most as high as a binary one ([stored_height]), so that a new index takes 5817
    insertions ([room]). Values lie in a file with the same limit. A request carries a value of
    65441 bytes at most ([request_value_ok]), a response whatever arrived in one ([value_fits]).

    ** Not modelled

    Removal that underflows a node is modelled, but stated only by the runs it damages. The
    assembler of blocks, the maintainer of the chain and the thread of the block validator have
    commented-out or empty bodies. Sockets, the start of threads and the reading of files
    with addresses are input and output. The rest of the vendored JSON library is not reached; the
    rewrites of transactions, headers and blocks over a submodule that is not there
    ([export_to_binary], [get_hash]) are modelled only where their bytes do not depend on it. The node
    gateway and the managers that use it ([node_gateway/], [chain_sync_manager.cpp], [net_processing.cpp])
    are being written: they are built over an external library, most bodies are commented out, and what
    there is does not compile. The programs under [release/] and [test/] are glue. *)
From Stdlib Require Import ZArith Lia.
From Stdlib Require Export Strings.Byte.
From stdpp Require Export base list option gmap.

#[global] Open Scope Z_scope.

(** ** Bytes *)

Definition u8 (b : byte) : Z := Z.of_N (Byte.to_N b).

Definition b8 (z : Z) : byte :=
  match Byte.of_N (Z.to_N (z mod 256)) with Some b => b | None => x00 end.

Lemma u8_range (b : byte) : 0 <= u8 b < 256.
Proof.
  unfold u8. pose proof (Byte.to_N_bounded b). lia.
Qed.

Lemma b8_u8 (b : byte) : b8 (u8 b) = b.
Proof.
  unfold b8, u8. rewrite Z.mod_small by apply u8_range.
  rewrite N2Z.id, Byte.of_to_N. reflexivity.
Qed.

Lemma u8_b8 (z : Z) : u8 (b8 z) = z mod 256.
Proof.
  unfold b8, u8. pose proof (Z.mod_pos_bound z 256 ltac:(lia)) as Hb.
  destruct (Byte.of_N (Z.to_N (z mod 256))) as [b|] eqn:E.
  - apply Byte.to_of_N in E. rewrite E. lia.
  - apply Byte.of_N_None_iff in E. lia.
Qed.

Lemma u8_inj (a b : byte) : u8 a = u8 b -> a = b.
Proof. intros H. rewrite <- (b8_u8 a), <- (b8_u8 b). congruence. Qed.

#[global] Instance byte_eq_dec : EqDecision byte := Byte.byte_eq_dec.

(** ** Big- and little-endian encodings of [n]-byte unsigned integers *)

Fixpoint be_decode_acc (acc : Z) (l : list byte) : Z :=
  match l with
  | [] => acc
  | b :: l' => be_decode_acc (acc * 256 + u8 b) l'
  end.

Definition be_decode (l : list byte) : Z := be_decode_acc 0 l.

Fixpoint le_encode (n : nat) (z : Z) : list byte :=
  match n with
  | O => []
  | S n' => b8 z :: le_encode n' (z / 256)
  end.

Fixpoint le_decode (l : list byte) : Z :=
  match l with
  | [] => 0
  | b :: l' => u8 b + 256 * le_decode l'
  end.

Definition be_encode (n : nat) (z : Z) : list byte := rev (le_encode n z).

Lemma le_encode_length n z : length (le_encode n z) = n.
Proof. revert z; induction n; intros z; simpl; [reflexivity|]. now rewrite IHn. Qed.

Lemma be_encode_length n z : length (be_encode n z) = n.
Proof. unfold be_encode. now rewrite length_rev, le_encode_length. Qed.

Lemma pow256_succ n : 256 ^ Z.of_nat (S n) = 256 * 256 ^ Z.of_nat n.
Proof. rewrite Nat2Z.inj_succ, Z.pow_succ_r by lia. reflexivity. Qed.

Lemma pow256_pos n : 0 < 256 ^ Z.of_nat n.
Proof. apply Z.pow_pos_nonneg; lia. Qed.

Lemma le_decode_encode n z : le_decode (le_encode n z) = z mod 256 ^ Z.of_nat n.
Proof.
  revert z; induction n as [|n IH]; intros z; simpl le_encode; simpl le_decode.
  - now rewrite Z.mod_1_r.
  - rewrite IH, u8_b8, pow256_succ.
    pose proof (pow256_pos n). rewrite Z.rem_mul_r by lia. reflexivity.
Qed.

Lemma le_decode_range l : 0 <= le_decode l < 256 ^ Z.of_nat (length l).
Proof.
  induction l as [|b l IH]; simpl le_decode; simpl length; [simpl; lia|].
  rewrite pow256_succ. pose proof (u8_range b). lia.
Qed.

Lemma le_encode_decode l : le_encode (length l) (le_decode l) = l.
Proof.
  induction l as [|b l IH]; simpl; [reflexivity|].
  pose proof (u8_range b).
  replace (u8 b + 256 * le_decode l) with (u8 b + le_decode l * 256) by lia.
  rewrite Z.div_add, (Z.div_small (u8 b)), Z.add_0_l by lia.
  rewrite IH. f_equal. apply u8_inj. rewrite u8_b8, Z_mod_plus_full.
  apply Z.mod_small; lia.
Qed.

Lemma be_decode_acc_app l acc b :
  be_decode_acc acc (l ++ [b]) = be_decode_acc acc l * 256 + u8 b.
Proof. revert acc; induction l; intros; simpl; auto. Qed.

Lemma be_decode_rev l : be_decode (rev l) = le_decode l.
Proof.
  unfold be_decode. induction l as [|b l IH]; simpl; [reflexivity|].
  rewrite be_decode_acc_app, IH. lia.
Qed.

Lemma be_decode_encode n z : be_decode (be_encode n z) = z mod 256 ^ Z.of_nat n.
Proof. unfold be_encode. now rewrite be_decode_rev, le_decode_encode. Qed.

Lemma be_encode_decode l : be_encode (length l) (be_decode l) = l.
Proof.
  unfold be_encode. rewrite <- (rev_involutive l) at 2. rewrite be_decode_rev.
  rewrite <- length_rev at 1. rewrite le_encode_decode. apply rev_involutive.
Qed.

Lemma be_decode_range l : 0 <= be_decode l < 256 ^ Z.of_nat (length l).
Proof.
  rewrite <- (rev_involutive l), be_decode_rev, length_rev. apply le_decode_range.
Qed.

Lemma be_decode_acc_split acc l :
  be_decode_acc acc l = acc * 256 ^ Z.of_nat (length l) + be_decode l.
Proof.
  unfold be_decode. revert acc; induction l as [|b l IH]; intros acc; cbn [be_decode_acc length].
  - simpl. lia.
  - rewrite IH, (IH (0 * 256 + u8 b)), pow256_succ. lia.
Qed.

Lemma be_decode_cons b l :
  be_decode (b :: l) = u8 b * 256 ^ Z.of_nat (length l) + be_decode l.
Proof. unfold be_decode at 1. simpl. now rewrite be_decode_acc_split. Qed.

Lemma be_decode_inj l1 l2 :
  length l1 = length l2 -> be_decode l1 = be_decode l2 -> l1 = l2.
Proof.
  intros Hl Hd. rewrite <- (be_encode_decode l1), <- (be_encode_decode l2). congruence.
Qed.

(** The byte swap of [htobe32]/[be32toh]/[htonl]/[ntohl] and [be64toh] on the
    little-endian hosts the repository targets. *)
Definition bswap (n : nat) (z : Z) : Z := le_decode (be_encode n z).
Definition bswap32 : Z -> Z := bswap 4.
Definition bswap64 : Z -> Z := bswap 8.

Lemma le_encode_bswap n z : le_encode n (bswap n z) = be_encode n z.
Proof.
  unfold bswap. rewrite <- (be_encode_length n z) at 1. apply le_encode_decode.
Qed.

Lemma bswap_le_decode l : bswap (length l) (le_decode l) = be_decode l.
Proof.
  unfold bswap, be_encode. rewrite le_encode_decode.
  rewrite <- (rev_involutive l) at 2. now rewrite be_decode_rev.
Qed.

Lemma bswap_involutive n z : bswap n (bswap n z) = z mod 256 ^ Z.of_nat n.
Proof.
  unfold bswap at 2. rewrite <- (be_encode_length n z) at 1.
  rewrite bswap_le_decode. apply be_decode_encode.
Qed.

Lemma bswap_range n z : 0 <= bswap n z < 256 ^ Z.of_nat n.
Proof.
  unfold bswap. pose proof (le_decode_range (be_encode n z)) as H.
  now rewrite be_encode_length in H.
Qed.

(** [memcmp] on two buffers of which the first [n] bytes are read. *)
Fixpoint memcmp (a b : list byte) : comparison :=
  match a, b with
  | x :: a', y :: b' =>
      match u8 x ?= u8 y with Eq => memcmp a' b' | c => c end
  | _, _ => Eq
  end.

Lemma memcmp_be a b :
  length a = length b -> memcmp a b = (be_decode a ?= be_decode b).
Proof.
  revert b; induction a as [|x a IH]; intros [|y b] Hl; simpl in Hl; try lia; [reflexivity|].
  simpl memcmp. rewrite !be_decode_cons. injection Hl as Hl. rewrite Hl.
  pose proof (be_decode_range a) as Ha; rewrite Hl in Ha.
  pose proof (be_decode_range b) as Hb. pose proof (pow256_pos (length b)) as Hp.
  set (P := 256 ^ Z.of_nat (length b)) in *.
  destruct (Z.compare_spec (u8 x) (u8 y)) as [E|E|E]; symmetry.
  - rewrite E, (IH _ Hl). destruct (Z.compare_spec (be_decode a) (be_decode b));
      [apply Z.compare_eq_iff|apply Z.compare_lt_iff|apply Z.compare_gt_iff]; lia.
  - apply Z.compare_lt_iff. nia.
  - apply Z.compare_gt_iff. nia.
Qed.

Lemma memcmp_eq a b : length a = length b -> memcmp a b = Eq <-> a = b.
Proof.
  intros Hl. rewrite memcmp_be by assumption. rewrite Z.compare_eq_iff. split.
  - now apply be_decode_inj.
  - now intros ->.
Qed.

Lemma memcmp_refl a : memcmp a a = Eq.
Proof. now apply memcmp_eq. Qed.

(** ** Stateful code that can throw or run into undefined behaviour *)

(** The C++ exceptions the modelled code throws, and a failed [assert]. [JsonError] is any of
    those of the JSON library. *)
Inductive exn : Type :=
| RuntimeError
| BadFunctionCall
| AssertionFailure
| OutOfRange
| InvalidArgument
| JsonError
| BadAlloc.

(** [Undef] stands for an execution C++ gives no meaning to: a null or
    out-of-bounds access, an out-of-range conversion, a self-deadlock, a loop
    that does not end. *)
Inductive result (S A : Type) : Type :=
| Ok (a : A) (s : S)
| Throw (e : exn) (s : S)
| Undef.
Arguments Ok {S A} _ _.
Arguments Throw {S A} _ _.
Arguments Undef {S A}.

Definition prog (S A : Type) : Type := S -> result S A.

#[global] Instance prog_ret S : MRet (prog S) := fun A a s => Ok a s.
#[global] Instance prog_bind S : MBind (prog S) := fun A B k c s =>
  match c s with
  | Ok a s' => k a s'
  | Throw e s' => Throw e s'
  | Undef => Undef
  end.

Definition undef {S A} : prog S A := fun _ => Undef.
Definition throw {S A} (e : exn) : prog S A := fun s => Throw e s.
Definition get_state {S} : prog S S := fun s => Ok s s.
Definition set_state {S} (s' : S) : prog S unit := fun _ => Ok tt s'.
Definition modify {S} (f : S -> S) : prog S unit := fun s => Ok tt (f s).

(** A value that is absent exactly when computing it is undefined behaviour. *)
Definition must {S A} (o : option A) : prog S A :=
  match o with Some a => mret a | None => undef end.

(** Total correctness: the code returns normally in a state satisfying [Q]. *)
Definition wp {S A} (c : prog S A) (s : S) (Q : A -> S -> Prop) : Prop :=
  match c s with Ok a s' => Q a s' | _ => False end.

Section wp_rules.
Context {S : Type}.

Lemma wp_ret {A} (a : A) s (Q : A -> S -> Prop) : Q a s -> wp (mret a) s Q.
Proof. exact id. Qed.

Lemma wp_bind {A B} (c : prog S A) (k : A -> prog S B) s Q :
  wp c s (fun a s' => wp (k a) s' Q) -> wp (c ≫= k) s Q.
Proof. unfold wp, mbind, prog_bind. destruct (c s); auto. Qed.

Lemma wp_mono {A} (c : prog S A) s (P Q : A -> S -> Prop) :
  wp c s P -> (forall a s', P a s' -> Q a s') -> wp c s Q.
Proof. unfold wp. destruct (c s); auto. Qed.

Lemma wp_must {A} (o : option A) a s (Q : A -> S -> Prop) :
  o = Some a -> Q a s -> wp (must o) s Q.
Proof. intros ->. exact id. Qed.

Lemma wp_get s (Q : S -> S -> Prop) : Q s s -> wp get_state s Q.
Proof. exact id. Qed.

Lemma wp_set s s' (Q : unit -> S -> Prop) : Q tt s' -> wp (set_state s') s Q.
Proof. exact id. Qed.

Lemma wp_modify f s (Q : unit -> S -> Prop) : Q tt (f s) -> wp (modify f) s Q.
Proof. exact id. Qed.

Lemma wp_inv {A} (c : prog S A) s Q :
  wp c s Q -> exists a s', c s = Ok a s' /\ Q a s'.
Proof. unfold wp. destruct (c s) as [a s'| |]; [eauto|tauto|tauto]. Qed.

Lemma wp_intro {A} (c : prog S A) s a s' (Q : A -> S -> Prop) :
  c s = Ok a s' -> Q a s' -> wp c s Q.
Proof. unfold wp. now intros ->. Qed.
End wp_rules.

(** Running a sequence whose first command is known to return. *)

Lemma run_bind {S A B} (c : prog S A) (k : A -> prog S B) s a s' :
  c s = Ok a s' -> (c ≫= k) s = k a s'.
Proof. intros H. unfold mbind, prog_bind. now rewrite H. Qed.

Lemma run_must {S A B} (a : A) (k : A -> prog S B) s : (must (Some a) ≫= k) s = k a s.
Proof. reflexivity. Qed.

Lemma run_get {S B} (k : S -> prog S B) s : (get_state ≫= k) s = k s s.
Proof. reflexivity. Qed.

(** [wp_seq lem] runs the first command of a sequence by its specification
    [lem] and leaves the rest with the facts [lem] establishes. *)
Tactic Notation "wp_seq" uconstr(lem) "as" simple_intropattern(pat) :=
  apply wp_bind; eapply wp_mono; [eapply lem | intros ? ? pat; cbv beta in * ].
Tactic Notation "wp_last" uconstr(lem) "as" simple_intropattern(pat) :=
  eapply wp_mono; [eapply lem | intros ? ? pat; cbv beta in * ].
Tactic Notation "wp_last" uconstr(lem) "giving" simple_intropattern(x) "as" simple_intropattern(pat) :=
  eapply wp_mono; [eapply lem | intros x ? pat; cbv beta in * ].
Tactic Notation "wp_seq" uconstr(lem) "giving" simple_intropattern(x) "as" simple_intropattern(pat) :=
  apply wp_bind; eapply wp_mono; [eapply lem | intros x ? pat; cbv beta in * ].

(** ** Byte buffers behind pointers *)

(** A buffer behind a [shared_ptr<unsigned char>], or the null pointer. *)
Definition buffer : Type := option (list byte).

(** The first [n] bytes of a buffer; reading past its end is undefined. *)
Definition rd (n : Z) (b : buffer) : option (list byte) :=
  if n =? 0 then Some []
  else match b with
       | Some l => if n <=? Z.of_nat (length l) then Some (take (Z.to_nat n) l) else None
       | None => None
       end.

(** [n] bytes from offset [off] on, for [memcpy( dst , raw + off , n )]. *)
Definition sub (raw : list byte) (off n : Z) : option (list byte) :=
  if (0 <=? off) && (off <=? Z.of_nat (length raw)) then rd n (Some (drop (Z.to_nat off) raw)) else None.

Lemma rd_app l l' : rd (Z.of_nat (length l)) (Some (l ++ l')) = Some l.
Proof.
  unfold rd. destruct (Z.eqb_spec (Z.of_nat (length l)) 0) as [E|E].
  - destruct l; [reflexivity|simpl in E; lia].
  - rewrite length_app. destruct (Z.leb_spec (Z.of_nat (length l)) (Z.of_nat (length l + length l')));
      [|lia]. now rewrite Nat2Z.id, take_app_length.
Qed.

Lemma rd_all l : rd (Z.of_nat (length l)) (Some l) = Some l.
Proof. rewrite <- (app_nil_r l) at 2. apply rd_app. Qed.

Lemma rd_32 l : length l = 32%nat -> rd 32 (Some l) = Some l.
Proof. intros H. change 32 with (Z.of_nat 32). rewrite <- H at 1. apply rd_all. Qed.

Lemma rd_length n b l : rd n b = Some l -> 0 <= n -> Z.of_nat (length l) = n.
Proof.
  unfold rd. destruct (Z.eqb_spec n 0) as [->|]; [now intros [= <-]|].
  destruct b as [b|]; [|discriminate]. destruct (Z.leb_spec n (Z.of_nat (length b))); [|discriminate].
  intros [= <-] ?. rewrite length_take. lia.
Qed.

Lemma sub_app l1 l l2 :
  sub (l1 ++ l ++ l2) (Z.of_nat (length l1)) (Z.of_nat (length l)) = Some l.
Proof.
  unfold sub. rewrite !length_app. rewrite (proj2 (Z.leb_le 0 _)) by lia.
  rewrite (proj2 (Z.leb_le _ _)) by lia. cbn [andb].
  rewrite Nat2Z.id, drop_app_length. apply rd_app.
Qed.

Lemma sub_length raw off n l : sub raw off n = Some l -> 0 <= n -> Z.of_nat (length l) = n.
Proof. unfold sub. destruct (_ && _); [apply rd_length|discriminate]. Qed.

(** Running code on a part of the state. *)
Definition zoom {S T A} (get : S -> T) (put : T -> S -> S) (c : prog T A) : prog S A := fun s =>
  match c (get s) with
  | Ok a t => Ok a (put t s)
  | Throw e t => Throw e (put t s)
  | Undef => Undef
  end.

(** Running code on every element of a list in turn, with its position. *)
Fixpoint each_from {T A} (c : nat -> prog T A) (i : nat) (l : list T) : result (list T) (list A) :=
  match l with
  | [] => Ok [] []
  | x :: l' =>
      match c i x with
      | Ok a x' =>
          match each_from c (S i) l' with
          | Ok as_ l'' => Ok (a :: as_) (x' :: l'')
          | Throw e l'' => Throw e (x' :: l'')
          | Undef => Undef
          end
      | Throw e x' => Throw e (x' :: l')
      | Undef => Undef
      end
  end.

Definition each {T A} (c : nat -> prog T A) : prog (list T) (list A) := each_from c 0.

(** Running code repeatedly on a fresh object; the objects are collected. *)
Fixpoint repeat_new {T} (n : nat) (new : T) (c : Z -> prog T Z) (pos : Z) : result (list T) Z :=
  match n with
  | O => Ok pos []
  | S n' =>
      match c pos new with
      | Ok k x =>
          match repeat_new n' new c (pos + k) with
          | Ok pos' l => Ok pos' (x :: l)
          | Throw e l => Throw e (x :: l)
          | Undef => Undef
          end
      | Throw e _ => Throw e []
      | Undef => Undef
      end
  end.

Lemma each_from_ok {T A} (c : nat -> prog T A) (f : nat -> T -> A) (g : nat -> T -> T) i l :
  (forall j x, l !! j = Some x -> c (i + j)%nat x = Ok (f (i + j)%nat x) (g (i + j)%nat x)) ->
  each_from c i l = Ok (imap (fun j => f (i + j)%nat) l) (imap (fun j => g (i + j)%nat) l).
Proof.
  revert i; induction l as [|x l IH]; intros i H; [reflexivity|]. cbn [each_from imap].
  pose proof (H 0%nat x eq_refl) as Hx. rewrite Nat.add_0_r in Hx. rewrite Hx, IH.
  - rewrite Nat.add_0_r. do 2 f_equal; apply imap_ext; intros; cbn; f_equal; lia.
  - intros j y Hj. replace (S i + j)%nat with (i + S j)%nat by lia. now apply H.
Qed.

Lemma each_ok {T A} (c : nat -> prog T A) (f : nat -> T -> A) (g : nat -> T -> T) l :
  (forall j x, l !! j = Some x -> c j x = Ok (f j x) (g j x)) ->
  each c l = Ok (imap f l) (imap g l).
Proof. intros H. exact (each_from_ok c f g 0 l H). Qed.

Lemma each_from_length {T A} (c : nat -> prog T A) i l as_ l' :
  each_from c i l = Ok as_ l' -> length as_ = length l /\ length l' = length l.
Proof.
  revert i as_ l'; induction l as [|x l IH]; intros i as_ l'; cbn [each_from]; [now intros [= <- <-]|].
  destruct (c i x) as [a x'| |]; try discriminate. destruct (each_from c (S i) l) as [r l''| |] eqn:E; try discriminate.
  intros [= <- <-]. apply IH in E. cbn [length]. lia.
Qed.

Lemma repeat_new_ok {T B} (new : T) (c : Z -> prog T Z) (size : B -> Z) (res : B -> T) (bs : list B) pos :
  (forall l1 b l2, bs = l1 ++ b :: l2 ->
     c (pos + foldr (fun b z => size b + z) 0 l1) new = Ok (size b) (res b)) ->
  repeat_new (length bs) new c pos = Ok (pos + foldr (fun b z => size b + z) 0 bs) (map res bs).
Proof.
  revert pos; induction bs as [|b bs IH]; intros pos H; cbn [repeat_new length foldr map].
  - now rewrite Z.add_0_r.
  - pose proof (H [] b bs eq_refl) as Hb. cbn [foldr] in Hb. rewrite Z.add_0_r in Hb. rewrite Hb, IH.
    + f_equal. lia.
    + intros l1 b' l2 ->. specialize (H (b :: l1) b' l2 eq_refl). cbn [foldr] in H.
      replace (pos + size b + _) with (pos + (size b + foldr (fun b z => size b + z) 0 l1)) by lia. exact H.
Qed.

(** ** Partial correctness *)

(** The state a piece of code ends in, when it ends. *)
Definition post {S A} (c : prog S A) (s : S) (P : S -> Prop) : Prop :=
  match c s with Ok _ s' => P s' | Throw _ s' => P s' | Undef => True end.

Lemma post_bind {S A B} (c : prog S A) (k : A -> prog S B) s P :
  post c s P -> (forall a s', P s' -> post (k a) s' P) -> post (c ≫= k) s P.
Proof. unfold post, mbind, prog_bind. destruct (c s); auto. intros H1 H2. exact (H2 a s0 H1). Qed.

Lemma post_must {S A} (o : option A) s (P : S -> Prop) : P s -> post (must o) s P.
Proof. now destruct o. Qed.

Lemma post_zoom {S T A} (get : S -> T) put (c : prog T A) s (P : S -> Prop) (Q : T -> Prop) :
  post c (get s) Q -> (forall t, Q t -> P (put t s)) -> post (zoom get put c) s P.
Proof. unfold post, zoom. destruct (c (get s)); auto. Qed.

Lemma post_true {S A} (c : prog S A) s : post c s (fun _ => True).
Proof. unfold post. now destruct (c s). Qed.

Create HintDb post.
#[export] Hint Resolve post_must post_true : post.

(** ** Encodings of fields *)

Lemma be_decode_app a b : be_decode (a ++ b) = be_decode a * 256 ^ Z.of_nat (length b) + be_decode b.
Proof.
  induction a as [|x a IH]; [reflexivity|]. simpl app. rewrite !be_decode_cons, IH, length_app, Nat2Z.inj_add, Z.pow_add_r by lia. ring.
Qed.

Lemma be_decode_zeros n : be_decode (replicate n x00) = 0.
Proof. induction n as [|n IH]; [reflexivity|]. simpl replicate. rewrite be_decode_cons, IH. reflexivity. Qed.

Lemma be_encode_3 z : be_encode 3 z = [b8 (z / 2 ^ 16); b8 (z / 2 ^ 8); b8 z].
Proof. unfold be_encode. cbn [le_encode rev app]. rewrite !Z.div_div by lia. reflexivity. Qed.

(** The four bytes of a word in network order. *)
Lemma be_encode_4 z : be_encode 4 z = [b8 (z / 2 ^ 24); b8 (z / 2 ^ 16); b8 (z / 2 ^ 8); b8 z].
Proof.
  unfold be_encode. cbn [le_encode rev app]. rewrite !Z.div_div by lia. reflexivity.
Qed.

Lemma bswap_small n z : 0 <= z < 256 ^ Z.of_nat n -> bswap n (bswap n z) = z.
Proof. intros H. rewrite bswap_involutive. now apply Z.mod_small. Qed.

Lemma bswap32_inv z : 0 <= z < 2 ^ 32 -> bswap32 (bswap32 z) = z.
Proof. exact (bswap_small 4 z). Qed.

Lemma bswap64_inv z : 0 <= z < 2 ^ 64 -> bswap64 (bswap64 z) = z.
Proof. exact (bswap_small 8 z). Qed.

(** ** Slices of a message *)

Lemma sub_at (raw l1 l l2 : list byte) off n :
  raw = l1 ++ l ++ l2 -> off = Z.of_nat (length l1) -> n = Z.of_nat (length l) -> sub raw off n = Some l.
Proof. intros -> -> ->. apply sub_app. Qed.

Lemma sub_rest (raw l1 l2 : list byte) off :
  raw = l1 ++ l2 -> off = Z.of_nat (length l1) -> sub raw off (Z.of_nat (length raw) - off) = Some l2.
Proof.
  intros -> ->. apply (sub_at _ l1 l2 []); [now rewrite app_nil_r|reflexivity|]. rewrite length_app. lia.
Qed.

Lemma land_255 z : 0 <= z < 256 -> Z.land z 255 = z.
Proof. intros. change 255 with (Z.ones 8). rewrite Z.land_ones by lia. now apply Z.mod_small. Qed.

Lemma le_decode_le n z : 0 <= z < 256 ^ Z.of_nat n -> le_decode (le_encode n z) = z.
Proof. intros. rewrite le_decode_encode. now apply Z.mod_small. Qed.

Lemma le_encode_bswap32 z : le_encode 4 (bswap32 z) = be_encode 4 z.
Proof. apply le_encode_bswap. Qed.

(** ** Automation *)

Declare Scope bytes_scope.
Delimit Scope bytes_scope with bytes.
Notation "'bytelen' l" := (Z.of_nat (length l)) (at level 10, l at level 9) : bytes_scope.
#[global] Open Scope bytes_scope.

(** Lengths of buffers: [rewrite_length] turns the length of a composed buffer into the
    lengths of its parts, [buffer_lia] also closes the arithmetic. *)
Create HintDb lengths.
#[export] Hint Rewrite @length_app @length_replicate @length_take @length_drop @length_map
  @length_rev le_encode_length be_encode_length : lengths.

Ltac rewrite_length := cbn [length]; autorewrite with lengths; cbn [length].
Ltac buffer_lia := rewrite_length; lia.

(** One reduction step of the monad: everything up to the next operation that needs a lemma. *)
Ltac monad_step :=
  unfold mbind, prog_bind, option_bind, must, mret, prog_ret, get_state, set_state, modify; cbv beta iota.
