(* ===== verification/Bson.v ===== *)
(** The JSON values and the BSON format that the database and its clients exchange
    ([share/json.hpp], the part its callers reach): objects as ordered maps, the writer
    [to_bson], the reader [from_bson], and conversions of a value to a number or to bytes. *)
From S2P Require Import Prelude.
From stdpp Require Import strings.
From Stdlib Require Import Lia Numbers.DecimalString.
#[local] Open Scope Z_scope.

(** ** Values *)

(** A member name, and the literal ones of the callers. *)
#[local] Notation name := (list byte) (only parsing).
Definition key_of (s : string) : name := String.list_byte_of_string s.

(** [basic_json]. A [number_integer] and a [number_unsigned] are one constructor, since
    they compare and convert by value; a double is its 64 bits. *)
#[local] Unset Elimination Schemes.
Inductive json : Type :=
| J_null
| J_boolean (b : bool)
| J_number (z : Z)
| J_float (bits : Z)
| J_string (s : list byte)
| J_binary (l : list byte) (subtype : option Z)
| J_array (l : list json)
| J_object (m : list (name * json)).
#[local] Set Elimination Schemes.

(** Induction that reaches the members of arrays and objects. *)
Section json_ind.
Context (P : json -> Prop) (Hnull : P J_null) (Hbool : forall b, P (J_boolean b)) (Hnum : forall z, P (J_number z)).
Context (Hfloat : forall z, P (J_float z)) (Hstr : forall s, P (J_string s)) (Hbin : forall l t, P (J_binary l t)).
Context (Harr : forall l, Forall P l -> P (J_array l)) (Hobj : forall m, Forall (fun kv => P kv.2) m -> P (J_object m)).

Fixpoint json_ind (j : json) : P j :=
  match j with
  | J_null => Hnull
  | J_boolean b => Hbool b
  | J_number z => Hnum z
  | J_float z => Hfloat z
  | J_string s => Hstr s
  | J_binary l t => Hbin l t
  | J_array l =>
      Harr l ((fix go (l : list json) : Forall P l :=
        match l with [] => Forall_nil_2 P | x :: l' => Forall_cons_2 P x l' (json_ind x) (go l') end) l)
  | J_object m =>
      Hobj m ((fix go (m : list (name * json)) : Forall (fun kv => P kv.2) m :=
        match m with [] => Forall_nil_2 _ | x :: m' => Forall_cons_2 _ x m' (json_ind x.2) (go m') end) m)
  end.
End json_ind.

(** ** Objects: [std::map], sorted by the bytes of the names *)

Notation object := (list (list byte * json)) (only parsing).

Fixpoint key_compare (a b : name) : comparison :=
  match a, b with
  | [], [] => Eq
  | [], _ => Lt
  | _, [] => Gt
  | x :: a', y :: b' => match u8 x ?= u8 y with Eq => key_compare a' b' | c => c end
  end.

Fixpoint obj_get (k : name) (m : object) : option json :=
  match m with
  | [] => None
  | (k', v) :: m' => if decide (k = k') then Some v else obj_get k m'
  end.

(** Assigning to a member. *)
Fixpoint obj_set (k : name) (v : json) (m : object) : object :=
  match m with
  | [] => [(k, v)]
  | (k', v') :: m' =>
      match key_compare k k' with
      | Lt => (k, v) :: (k', v') :: m'
      | Eq => (k, v) :: m'
      | Gt => (k', v') :: obj_set k v m'
      end
  end.

Definition obj_contains (k : name) (m : object) : bool :=
  match obj_get k m with Some _ => true | None => false end.

(** [operator[]] on a member that is read: a missing one becomes null. *)
Definition obj_at (k : name) (m : object) : json * object :=
  match obj_get k m with Some v => (v, m) | None => (J_null, obj_set k J_null m) end.

(** What a range-based loop over a value passes through. *)
Definition json_items (j : json) : list json :=
  match j with J_null => [] | J_array l => l | J_object m => map snd m | _ => [j] end.

Definition obj_of (kvs : list (name * json)) : object := foldl (fun m kv => obj_set kv.1 kv.2 m) [] kvs.

(** ** The writer *)

(** [std::to_string] of an array index. *)
Definition index_name (i : nat) : name := key_of (NilEmpty.string_of_uint (Nat.to_uint i)).

Definition has_nul (k : name) : bool := existsb (fun b => u8 b =? 0) k.

(** Whether [to_bson] throws: a name with a zero byte ([calc_bson_entry_header_size]), or
    an unsigned number beyond 63 bits ([write_bson_unsigned]). *)
Fixpoint bson_throws (j : json) : bool :=
  match j with
  | J_number z => 2 ^ 63 <=? z
  | J_array l => (fix go l := match l with [] => false | v :: l' => bson_throws v || go l' end) l
  | J_object m =>
      (fix go m := match m with [] => false | (k, v) :: m' => has_nul k || bson_throws v || go m' end) m
  | _ => false
  end.

Definition is_int32 (z : Z) : bool := (- 2 ^ 31 <=? z) && (z <=? 2 ^ 31 - 1).

Definition calc_bson_entry_header_size (k : name) : Z := 1 + Z.of_nat (length k) + 1.

(** What [calc_bson_element_size] adds to the size of the header. *)
Fixpoint calc_bson_value_size (j : json) : Z :=
  match j with
  | J_null => 0
  | J_boolean _ => 1
  | J_float _ => 8
  | J_number z => if is_int32 z then 4 else 8
  | J_string s => 4 + Z.of_nat (length s) + 1
  | J_binary l _ => 4 + Z.of_nat (length l) + 1
  | J_array l =>
      4 + (fix go i l := match l with
           | [] => 0
           | v :: l' => calc_bson_entry_header_size (index_name i) + calc_bson_value_size v + go (S i) l'
           end) O l + 1
  | J_object m =>
      4 + (fix go m := match m with
           | [] => 0
           | (k, v) :: m' => calc_bson_entry_header_size k + calc_bson_value_size v + go m'
           end) m + 1
  end.

Definition calc_bson_element_size (k : name) (j : json) : Z := calc_bson_entry_header_size k + calc_bson_value_size j.

(** The element type that the [write_bson_...] function of a value passes on. *)
Definition bson_type (j : json) : byte :=
  match j with
  | J_float _ => x01
  | J_string _ => x02
  | J_object _ => x03
  | J_array _ => x04
  | J_binary _ _ => x05
  | J_boolean _ => x08
  | J_null => x0a
  | J_number z => if is_int32 z then x10 else x12
  end.

Definition write_bson_entry_header (k : name) (element_type : byte) : list byte := element_type :: k ++ [x00].

(** What they write after the header; a document starts with its size, as an [int32_t]. *)
Fixpoint write_bson_value (j : json) : list byte :=
  match j with
  | J_null => []
  | J_boolean b => [if b then x01 else x00]
  | J_float bits => le_encode 8 bits
  | J_number z => le_encode (if is_int32 z then 4 else 8) z
  | J_string s => le_encode 4 (Z.of_nat (length s) + 1) ++ s ++ [x00]
  | J_binary l subtype => le_encode 4 (Z.of_nat (length l)) ++ le_encode 1 (default 0 subtype) ++ l
  | J_array l =>
      le_encode 4 (calc_bson_value_size (J_array l)) ++
      (fix go i l := match l with
       | [] => []
       | v :: l' => write_bson_entry_header (index_name i) (bson_type v) ++ write_bson_value v ++ go (S i) l'
       end) O l ++ [x00]
  | J_object m =>
      le_encode 4 (calc_bson_value_size (J_object m)) ++
      (fix go m := match m with
       | [] => []
       | (k, v) :: m' => write_bson_entry_header k (bson_type v) ++ write_bson_value v ++ go m'
       end) m ++ [x00]
  end.

Definition write_bson_element (k : name) (j : json) : list byte :=
  write_bson_entry_header k (bson_type j) ++ write_bson_value j.

(** [write_bson] and [to_bson] on an object; [None] when they throw. *)
Definition to_bson (m : object) : option (list byte) :=
  if bson_throws (J_object m) then None else Some (write_bson_value (J_object m)).

(** ** The reader *)

(** What the reader answers: a value; the [parse_error] that it throws; or, where the input
    ends behind the characters of a string, [false] without an error, for which
    [from_bson] returns a discarded value. *)
Inductive parsed (A : Type) : Type :=
| Parsed (x : A)
| ParseError
| Discarded.
Arguments Parsed {A} _.
Arguments ParseError {A}.
Arguments Discarded {A}.

#[export] Instance parsed_inj {A} : Inj (=) (=) (@Parsed A).
Proof. intros x y. congruence. Qed.

#[export] Instance parsed_bind : MBind parsed := fun A B f r =>
  match r with Parsed x => f x | ParseError => ParseError | Discarded => Discarded end.

Definition reads (A : Type) : Type := list byte -> parsed (A * list byte).

(** [n] bytes of [get_number], [get_string] or [get_binary]. *)
Definition get_bytes (n : nat) : reads (list byte) := fun l =>
  if (n <=? length l)%nat then Parsed (take n l, drop n l) else ParseError.

Definition to_signed (w : Z) (z : Z) : Z := (z + 2 ^ (w - 1)) mod 2 ^ w - 2 ^ (w - 1).

(** [get_number] of a signed type of [n] bytes. *)
Definition get_signed (n : nat) : reads Z := fun l =>
  '(bs, l') ← get_bytes n l; Parsed (to_signed (8 * Z.of_nat n) (le_decode bs), l').

Fixpoint get_bson_cstr (l : list byte) : parsed (name * list byte) :=
  match l with
  | [] => ParseError
  | b :: l' => if u8 b =? 0 then Parsed ([], l') else '(k, l'') ← get_bson_cstr l'; Parsed (b :: k, l'')
  end.

(** The byte behind the string is skipped, whatever it is; that it is missing is no error. *)
Definition get_bson_string (len : Z) : reads (list byte) := fun l =>
  if len <? 1 then ParseError
  else '(s, l1) ← get_bytes (Z.to_nat (len - 1)) l; match l1 with [] => Discarded | _ :: l2 => Parsed (s, l2) end.

Definition get_bson_binary (len : Z) : reads json := fun l =>
  if len <? 0 then ParseError
  else '(t, l1) ← get_bytes 1 l; '(bs, l2) ← get_bytes (Z.to_nat len) l1; Parsed (J_binary bs (Some (le_decode t)), l2).

Section elements.
(** How an element list is read. *)
Context (elements : reads (list (name * json))).

(** [parse_bson_internal] and [parse_bson_array] ignore the size. *)
Definition parse_bson_internal : reads object := fun l =>
  '(_, l1) ← get_signed 4 l; '(kvs, l2) ← elements l1; Parsed (obj_of kvs, l2).

Definition parse_bson_array : reads (list json) := fun l =>
  '(_, l1) ← get_signed 4 l; '(kvs, l2) ← elements l1; Parsed (map snd kvs, l2).

(** A boolean that is missing at the end of the input is true, since [get() != 0]. *)
Definition parse_bson_element_internal (element_type : byte) : reads json := fun l =>
  let t := u8 element_type in
  if t =? 1 then '(bs, l1) ← get_bytes 8 l; Parsed (J_float (le_decode bs), l1)
  else if t =? 2 then '(len, l1) ← get_signed 4 l; '(s, l2) ← get_bson_string len l1; Parsed (J_string s, l2)
  else if t =? 3 then '(m, l1) ← parse_bson_internal l; Parsed (J_object m, l1)
  else if t =? 4 then '(vs, l1) ← parse_bson_array l; Parsed (J_array vs, l1)
  else if t =? 5 then '(len, l1) ← get_signed 4 l; get_bson_binary len l1
  else if t =? 8 then match l with [] => Parsed (J_boolean true, []) | b :: l1 => Parsed (J_boolean (negb (u8 b =? 0)), l1) end
  else if t =? 10 then Parsed (J_null, l)
  else if t =? 16 then '(z, l1) ← get_signed 4 l; Parsed (J_number z, l1)
  else if t =? 18 then '(z, l1) ← get_signed 8 l; Parsed (J_number z, l1)
  else ParseError.
End elements.

(** The names and values up to the closing zero byte; every element takes two bytes or
    more, so that a fuel beyond the length of the input is enough. *)
Fixpoint parse_bson_element_list (fuel : nat) (l : list byte) : parsed (list (name * json) * list byte) :=
  match fuel with
  | O => ParseError
  | S fuel' =>
      match l with
      | [] => ParseError
      | element_type :: l1 =>
          if u8 element_type =? 0 then Parsed ([], l1)
          else
            '(k, l2) ← get_bson_cstr l1;
            '(v, l3) ← parse_bson_element_internal (parse_bson_element_list fuel') element_type l2;
            '(kvs, l4) ← parse_bson_element_list fuel' l3;
            Parsed ((k, v) :: kvs, l4)
      end
  end.

(** [from_bson], which is strict: nothing may follow the document. *)
Definition from_bson (l : list byte) : parsed object :=
  '(m, l') ← parse_bson_internal (parse_bson_element_list (S (length l))) l;
  match l' with [] => Parsed m | _ :: _ => ParseError end.

(** ** Conversions *)

(** The integral part of a double, unless it is infinite or no number. *)
Definition double_trunc (bits : Z) : option Z :=
  let e := Z.land (Z.shiftr bits 52) 2047 in
  let f := Z.land bits (2 ^ 52 - 1) in
  let a := if e <? 1023 then 0 else Z.shiftl (2 ^ 52 + f) (e - 1075) in
  if e =? 2047 then None else Some (if Z.testbit bits 63 then - a else a).

(** Whether a double equals an integer. *)
Definition double_eqb (bits z : Z) : bool :=
  let e := Z.land (Z.shiftr bits 52) 2047 in
  let f := Z.land bits (2 ^ 52 - 1) in
  if e =? 2047 then false
  else
    let a := if e =? 0 then f else 2 ^ 52 + f in
    let x := Z.max e 1 - 1075 in
    let s := if Z.testbit bits 63 then -1 else 1 in
    if 0 <=? x then s * Z.shiftl a x =? z else s * a =? Z.shiftl z (- x).

(** [== z] for an integer [z] that a double holds exactly. *)
Definition json_eqb (j : json) (z : Z) : bool :=
  match j with
  | J_number z' => z' =? z
  | J_float bits => double_eqb bits z
  | _ => false
  end.

(** [static_cast] to an integer type of [w] bits, or an implicit conversion to one: booleans
    convert too, a double must fit, anything else throws. *)
Definition wrap (signed : bool) (w z : Z) : Z := if signed then to_signed w z else z mod 2 ^ w.

Definition json_to_int {St} (signed : bool) (w : Z) (j : json) : prog St Z :=
  match j with
  | J_number z => mret (wrap signed w z)
  | J_boolean b => mret (if b then 1 else 0)
  | J_float bits =>
      z ← must (double_trunc bits);
      if wrap signed w z =? z then mret z else undef
  | _ => throw JsonError
  end.

(** [get_binary]. *)
Definition json_get_binary {St} (j : json) : prog St (list byte) :=
  match j with J_binary l _ => mret l | _ => throw JsonError end.

Definition json_is_binary (j : json) : bool := match j with J_binary _ _ => true | _ => false end.

(** [to_bson] as the callers run it, without a handler. *)
Definition dump {St} (m : object) : prog St (list byte) :=
  match to_bson m with Some l => mret l | None => throw JsonError end.

(** [from_bson] without a handler, for callers that index the value first: [operator[]]
    throws on a discarded one. *)
Definition load {St} (l : list byte) : prog St object :=
  match from_bson l with Parsed m => mret m | ParseError | Discarded => throw JsonError end.

(** For callers that ask [contains] of every member before they read it: to them a discarded
    value is like an object without members. *)
Definition load_contains {St} (l : list byte) : prog St object :=
  match from_bson l with Parsed m => mret m | Discarded => mret [] | ParseError => throw JsonError end.

(** ** Printing *)

(** The table of [decode]: the class of each byte, then what follows each state and class. *)
Definition utf8d : list Z := Eval vm_compute in
  replicate 128 0 ++ replicate 16 1 ++ replicate 16 9 ++ replicate 32 7 ++ [8; 8] ++ replicate 30 2 ++
  [10] ++ replicate 12 3 ++ [4; 3; 3] ++ [11; 6; 6; 6; 5] ++ replicate 11 8 ++
  [0; 1; 2; 3; 5; 8; 7; 1; 1; 1; 4; 6; 1; 1; 1; 1] ++
  [1; 1; 1; 1; 1; 1; 1; 1; 1; 1; 1; 1; 1; 1; 1; 1] ++ [1; 0; 1; 1; 1; 1; 1; 0; 1; 0; 1; 1; 1; 1; 1; 1] ++
  [1; 2; 1; 1; 1; 1; 1; 2; 1; 2; 1; 1; 1; 1; 1; 1] ++ [1; 1; 1; 1; 1; 1; 1; 2; 1; 1; 1; 1; 1; 1; 1; 1] ++
  [1; 2; 1; 1; 1; 1; 1; 1; 1; 2; 1; 1; 1; 1; 1; 1] ++ [1; 1; 1; 1; 1; 1; 1; 3; 1; 3; 1; 1; 1; 1; 1; 1] ++
  [1; 3; 1; 1; 1; 1; 1; 3; 1; 3; 1; 1; 1; 1; 1; 1] ++ [1; 3; 1; 1; 1; 1; 1; 1; 1; 1; 1; 1; 1; 1; 1; 1].

Definition utf8_decode (state : Z) (b : byte) : Z :=
  nth (Z.to_nat (256 + state * 16 + nth (Z.to_nat (u8 b)) utf8d 1)) utf8d 1.

(** Whether [dump_escaped], which is strict, gets through the bytes from a state on: it
    throws at the first byte that is rejected, and at the end inside of a character. *)
Fixpoint utf8_from (state : Z) (l : list byte) : bool :=
  match l with
  | [] => state =? 0
  | b :: l' => let state' := utf8_decode state b in if state' =? 1 then false else utf8_from state' l'
  end.

Definition dump_escaped : list byte -> bool := utf8_from 0.

(** Whether [operator<<] prints a value without throwing: the strings and the names in it
    are UTF-8. *)
Fixpoint printable (j : json) : bool :=
  match j with
  | J_string s => dump_escaped s
  | J_array l => forallb printable l
  | J_object m => forallb (fun kv => dump_escaped kv.1 && printable kv.2) m
  | _ => true
  end.

(** Printing a value: its bytes go to the terminal. *)
Definition print {St} (j : json) : prog St unit := if printable j then mret tt else throw JsonError.

(** ** The document layout *)

Fixpoint write_members (m : object) : list byte :=
  match m with [] => [] | (k, v) :: m' => write_bson_element k v ++ write_members m' end.

Fixpoint write_items (i : nat) (l : list json) : list byte :=
  match l with [] => [] | v :: l' => write_bson_element (index_name i) v ++ write_items (S i) l' end.

Lemma write_object m :
  write_bson_value (J_object m) = le_encode 4 (calc_bson_value_size (J_object m)) ++ write_members m ++ [x00].
Proof.
  cbn [write_bson_value]. do 2 f_equal. induction m as [|[k v] m IH]; [reflexivity|].
  cbn [write_members]. rewrite <- IH. unfold write_bson_element. now rewrite app_assoc.
Qed.

Lemma write_array l :
  write_bson_value (J_array l) = le_encode 4 (calc_bson_value_size (J_array l)) ++ write_items 0 l ++ [x00].
Proof.
  cbn [write_bson_value]. do 2 f_equal. generalize 0%nat. induction l as [|v l IH]; intros i; [reflexivity|].
  cbn [write_items]. rewrite <- IH. unfold write_bson_element. now rewrite app_assoc.
Qed.

Lemma header_length k t : Z.of_nat (length (write_bson_entry_header k t)) = calc_bson_entry_header_size k.
Proof. unfold write_bson_entry_header, calc_bson_entry_header_size. cbn. rewrite length_app. cbn. lia. Qed.

(** The size that is written first is the size of the document. *)
Lemma value_size j : Z.of_nat (length (write_bson_value j)) = calc_bson_value_size j.
Proof.
  induction j as [|b|z|z|s|l t|l IH|m IH] using json_ind; cbn [write_bson_value calc_bson_value_size].
  - reflexivity.
  - reflexivity.
  - rewrite le_encode_length. now destruct (is_int32 z).
  - reflexivity.
  - rewrite !length_app, le_encode_length. cbn. lia.
  - rewrite !length_app, !le_encode_length. lia.
  - rewrite !length_app, le_encode_length. cbn [length].
    assert (forall i, Z.of_nat (length ((fix go i l := match l with [] => [] | v :: l' =>
      write_bson_entry_header (index_name i) (bson_type v) ++ write_bson_value v ++ go (S i) l' end) i l)) =
      (fix go i l := match l with [] => 0 | v :: l' =>
        calc_bson_entry_header_size (index_name i) + calc_bson_value_size v + go (S i) l' end) i l) as H; [|rewrite <- H; lia].
    induction IH as [|v l Hv _ IH]; intros i; [reflexivity|].
    rewrite !length_app, <- IH, <- Hv, <- (header_length _ (bson_type v)). lia.
  - rewrite !length_app, le_encode_length. cbn [length].
    assert (Z.of_nat (length ((fix go m := match m with [] => [] | (k, v) :: m' =>
      write_bson_entry_header k (bson_type v) ++ write_bson_value v ++ go m' end) m)) =
      (fix go m := match m with [] => 0 | (k, v) :: m' =>
        calc_bson_entry_header_size k + calc_bson_value_size v + go m' end) m) as H; [|rewrite <- H; lia].
    induction IH as [|[k v] m Hv _ IH]; [reflexivity|].
    cbn [snd] in Hv. rewrite !length_app, <- IH, <- Hv, <- (header_length _ (bson_type v)). lia.
Qed.

(** ** Values that survive the round trip *)

Definition is_gt (c : comparison) : bool := match c with Gt => true | _ => false end.

Fixpoint keys_sorted (l : list name) : bool :=
  match l with [] => true | k :: l' => forallb (fun k' => is_gt (key_compare k' k)) l' && keys_sorted l' end.

(** Numbers of 64 bits, sizes of 31, names without a zero byte, in order. *)
Fixpoint json_wf (j : json) : bool :=
  match j with
  | J_null | J_boolean _ => true
  | J_number z => (- 2 ^ 63 <=? z) && (z <? 2 ^ 63)
  | J_float bits => (0 <=? bits) && (bits <? 2 ^ 64)
  | J_string s => Z.of_nat (length s) + 1 <? 2 ^ 31
  | J_binary l t => (Z.of_nat (length l) <? 2 ^ 31) && match t with Some t => (0 <=? t) && (t <? 256) | None => true end
  | J_array l => forallb json_wf l
  | J_object m => keys_sorted (map fst m) && forallb (fun kv => negb (has_nul kv.1) && json_wf kv.2) m
  end.

(** What is read back: bytes without a subtype have the subtype zero. *)
Fixpoint read_back (j : json) : json :=
  match j with
  | J_binary l t => J_binary l (Some (default 0 t))
  | J_array l => J_array (map read_back l)
  | J_object m => J_object (map (fun kv => (kv.1, read_back kv.2)) m)
  | _ => j
  end.

Lemma obj_set_end k v m : forallb (fun k' => is_gt (key_compare k k')) (map fst m) = true -> obj_set k v m = m ++ [(k, v)].
Proof.
  induction m as [|[k' v'] m IH]; [reflexivity|]. cbn. destruct (key_compare k k'); try discriminate.
  intros H. now rewrite IH.
Qed.

Lemma forallb_forall_In {A} (f : A -> bool) l x : forallb f l = true -> x ∈ l -> f x = true.
Proof. intros H Hx. apply forallb_forall with (x := x) in H; [exact H|now apply list_elem_of_In]. Qed.

Lemma obj_of_sorted m : keys_sorted (map fst m) = true -> obj_of m = m.
Proof.
  intros Hs. unfold obj_of.
  enough (forall acc, (forall k, k ∈ map fst m -> forallb (fun k' => is_gt (key_compare k k')) (map fst acc) = true) ->
    foldl (fun m kv => obj_set kv.1 kv.2 m) acc m = acc ++ m) as H; [apply (H []); reflexivity|].
  induction m as [|[k v] m IH]; intros acc Ha; cbn [foldl]; [now rewrite app_nil_r|].
  cbn [map fst keys_sorted] in *. apply andb_prop in Hs as [Hk Hs]. rewrite obj_set_end by (apply Ha; left).
  rewrite IH; [now rewrite <- app_assoc|exact Hs|]. intros k' Hk'. rewrite map_app, forallb_app. cbn [fst map forallb].
  rewrite (Ha k') by now right. pose proof (forallb_forall_In _ _ _ Hk Hk') as H. cbn in H. now rewrite H.
Qed.

Lemma get_bytes_app bs rest : get_bytes (length bs) (bs ++ rest) = Parsed (bs, rest).
Proof.
  unfold get_bytes. rewrite length_app. destruct (Nat.leb_spec (length bs) (length bs + length rest)); [|lia].
  now rewrite take_app_length, drop_app_length.
Qed.

Lemma get_bytes_n n bs rest : length bs = n -> get_bytes n (bs ++ rest) = Parsed (bs, rest).
Proof. intros <-. apply get_bytes_app. Qed.

Lemma to_signed_mod n z : (n <> 0)%nat -> to_signed (8 * Z.of_nat n) (z mod 256 ^ Z.of_nat n) = to_signed (8 * Z.of_nat n) z.
Proof.
  intros Hn. unfold to_signed. f_equal. change 256 with (2 ^ 8). rewrite <- Z.pow_mul_r by lia.
  apply Zplus_mod_idemp_l.
Qed.

Lemma to_signed_small w z : 0 < w -> - 2 ^ (w - 1) <= z < 2 ^ (w - 1) -> to_signed w z = z.
Proof.
  intros Hw Hz. unfold to_signed. assert (2 ^ w = 2 * 2 ^ (w - 1)) as E by (rewrite <- Z.pow_succ_r by lia; f_equal; lia).
  rewrite E, Z.mod_small; lia.
Qed.

Lemma get_signed_app n z rest :
  (n <> 0)%nat -> get_signed n (le_encode n z ++ rest) = Parsed (to_signed (8 * Z.of_nat n) z, rest).
Proof.
  intros Hn. unfold get_signed. rewrite (get_bytes_n n) by apply le_encode_length. cbn.
  now rewrite le_decode_encode, to_signed_mod.
Qed.

Lemma get_signed_4 z rest : - 2 ^ 31 <= z < 2 ^ 31 -> get_signed 4 (le_encode 4 z ++ rest) = Parsed (z, rest).
Proof. intros H. rewrite get_signed_app by discriminate. now rewrite to_signed_small. Qed.

Lemma cstr_app k rest : has_nul k = false -> get_bson_cstr (k ++ x00 :: rest) = Parsed (k, rest).
Proof.
  induction k as [|b k IH]; [reflexivity|]. cbn [has_nul existsb app get_bson_cstr]. intros H.
  apply orb_false_elim in H as [-> H]. fold (has_nul k) in H. now rewrite IH.
Qed.

Lemma index_name_no_nul i : has_nul (index_name i) = false.
Proof.
  unfold index_name, key_of, has_nul. induction (Nat.to_uint i) as [|u IH|u IH|u IH|u IH|u IH|u IH|u IH|u IH|u IH|u IH];
    [reflexivity|exact IH..].
Qed.

(** ** Reading what was written *)

(** The items of an array as members named by their index. *)
Fixpoint numbered (i : nat) (l : list json) : object :=
  match l with [] => [] | v :: l' => (index_name i, v) :: numbered (S i) l' end.

Lemma write_items_numbered i l : write_items i l = write_members (numbered i l).
Proof. revert i; induction l as [|v l IH]; intros i; [reflexivity|]. cbn. now rewrite IH. Qed.

Lemma numbered_values i l : map snd (numbered i l) = l.
Proof. revert i; induction l as [|v l IH]; intros i; [reflexivity|]. cbn. now rewrite IH. Qed.

Lemma bson_type_nonzero j : (u8 (bson_type j) =? 0) = false.
Proof. destruct j; cbn [bson_type]; try reflexivity. now destruct (is_int32 z). Qed.

Definition reads_back (j : json) : Prop := forall fuel rest,
  json_wf j = true -> (length (write_bson_value j ++ rest) < fuel)%nat ->
  parse_bson_element_internal (parse_bson_element_list fuel) (bson_type j) (write_bson_value j ++ rest) =
    Parsed (read_back j, rest).

Lemma members_read_back m :
  Forall (fun kv => reads_back kv.2) m -> forallb (fun kv => negb (has_nul kv.1) && json_wf kv.2) m = true ->
  forall fuel rest, (length (write_members m ++ x00 :: rest) < fuel)%nat ->
  parse_bson_element_list fuel (write_members m ++ x00 :: rest) = Parsed (map (fun kv => (kv.1, read_back kv.2)) m, rest).
Proof.
  induction 1 as [|[k v] m Hv _ IH]; intros Hwf [|fuel] rest Hf; [lia|reflexivity|lia|].
  cbn [forallb fst snd] in *. apply andb_prop in Hwf as [Hkv Hwf]. apply andb_prop in Hkv as [Hk Hj].
  apply negb_true_iff in Hk. cbn [write_members] in *. unfold write_bson_element, write_bson_entry_header in *.
  cbn [app] in *. rewrite <- !app_assoc in *. cbn [app length] in *. cbn [parse_bson_element_list].
  rewrite bson_type_nonzero, cstr_app by assumption. cbn [mbind parsed_bind].
  rewrite !length_app in Hf. cbn [length] in Hf. rewrite !length_app in Hf. cbn [length] in Hf.
  rewrite Hv; [|assumption|rewrite !length_app; cbn [length]; lia]. cbn [mbind parsed_bind].
  rewrite IH; [|assumption|rewrite !length_app; cbn [length]; lia]. reflexivity.
Qed.

Lemma numbered_wf i l : forallb json_wf l = true -> forallb (fun kv => negb (has_nul kv.1) && json_wf kv.2) (numbered i l) = true.
Proof.
  revert i; induction l as [|v l IH]; intros i; [reflexivity|]. cbn. intros H. apply andb_prop in H as [-> H].
  now rewrite index_name_no_nul, IH.
Qed.

Lemma numbered_Forall (P : json -> Prop) i l : Forall P l -> Forall (fun kv : name * json => P kv.2) (numbered i l).
Proof. intros H. revert i. induction H; intros i; constructor; auto. Qed.

Lemma map_read_back_keys m : map fst (map (fun kv : name * json => (kv.1, read_back kv.2)) m) = map fst m.
Proof. rewrite map_map. now apply map_ext. Qed.

(** Selecting the branch of an element type. *)
Ltac element_branch t n :=
  unfold parse_bson_element_internal; change (u8 t) with n; cbv zeta; cbn [Z.eqb Pos.eqb].

Lemma is_int32_range z : is_int32 z = true <-> - 2 ^ 31 <= z < 2 ^ 31.
Proof. unfold is_int32. rewrite andb_true_iff, !Z.leb_le. lia. Qed.

Lemma value_reads_back j : reads_back j.
Proof.
  induction j as [|b|z|z|s|l t|l IH|m IH] using json_ind; intros fuel rest Hwf Hf; cbn [json_wf] in Hwf;
    repeat match goal with H : _ && _ = true |- _ => apply andb_prop in H as [? ?] end; rewrite ?Z.leb_le, ?Z.ltb_lt in *.
  - reflexivity.
  - now destruct b.
  - cbn [bson_type write_bson_value]. destruct (is_int32 z) eqn:E.
    + apply is_int32_range in E. element_branch x10 16. rewrite get_signed_4 by assumption. reflexivity.
    + element_branch x12 18. rewrite get_signed_app by discriminate. cbn [mbind parsed_bind].
      rewrite to_signed_small by (cbn; lia). reflexivity.
  - cbn [bson_type write_bson_value]. element_branch x01 1. rewrite (get_bytes_n 8) by apply le_encode_length.
    cbn [mbind parsed_bind]. rewrite le_decode_encode, Z.mod_small by (cbn; lia). reflexivity.
  - cbn [bson_type write_bson_value]. element_branch x02 2. rewrite <- !app_assoc. rewrite get_signed_4 by lia.
    cbn [mbind parsed_bind]. unfold get_bson_string. destruct (Z.ltb_spec (Z.of_nat (length s) + 1) 1); [lia|].
    rewrite (get_bytes_n (Z.to_nat _)) by lia. reflexivity.
  - cbn [bson_type write_bson_value]. element_branch x05 5. rewrite <- !app_assoc. rewrite get_signed_4 by lia.
    cbn [mbind parsed_bind]. unfold get_bson_binary. destruct (Z.ltb_spec (Z.of_nat (length l)) 0); [lia|].
    rewrite (get_bytes_n 1) by reflexivity. cbn [mbind parsed_bind]. rewrite (get_bytes_n (Z.to_nat _)) by lia.
    cbn [mbind parsed_bind]. rewrite le_decode_encode, Z.mod_small; [reflexivity|].
    destruct t as [t|]; [|cbn; lia]. cbn [default] in *.
    match goal with H : _ && _ = true |- _ => apply andb_prop in H as [?%Z.leb_le ?%Z.ltb_lt] end. cbn. lia.
  - rewrite write_array in *. cbn [bson_type]. element_branch x04 4. unfold parse_bson_array. rewrite <- !app_assoc in *.
    rewrite get_signed_app by discriminate. cbn [mbind parsed_bind]. rewrite write_items_numbered in *. cbn [app] in *.
    rewrite members_read_back; [|now apply numbered_Forall|now apply numbered_wf|rewrite !length_app in *; lia].
    cbn [mbind parsed_bind read_back]. rewrite map_map. cbn [snd]. rewrite <- (map_map snd read_back), numbered_values. reflexivity.
  - rewrite write_object in *. cbn [bson_type]. element_branch x03 3. unfold parse_bson_internal. rewrite <- !app_assoc in *.
    rewrite get_signed_app by discriminate. cbn [mbind parsed_bind app] in *.
    rewrite members_read_back; [|assumption|assumption|rewrite !length_app in *; lia].
    cbn [mbind parsed_bind read_back]. rewrite obj_of_sorted by now rewrite map_read_back_keys. reflexivity.
Qed.

Definition read_back_object (m : object) : object := map (fun kv => (kv.1, read_back kv.2)) m.

Lemma wf_not_throws j : json_wf j = true -> bson_throws j = false.
Proof.
  induction j as [|b|z|z|s|l t|l IH|m IH] using json_ind; cbn [json_wf bson_throws]; intros H; try reflexivity.
  - apply andb_prop in H as [_ H%Z.ltb_lt]. now apply Z.leb_gt.
  - induction IH as [|v l Hv _ IH]; [reflexivity|]. cbn [forallb] in H. apply andb_prop in H as [H1 H2].
    rewrite Hv by assumption. now apply IH.
  - apply andb_prop in H as [_ H]. induction IH as [|[k v] m Hv _ IH]; [reflexivity|]. cbn [forallb fst snd] in *.
    apply andb_prop in H as [H1 H2]. apply andb_prop in H1 as [Hk H1]. apply negb_true_iff in Hk. rewrite Hk, Hv by assumption.
    now apply IH.
Qed.

(** An object is written and read back: the form the callers use. *)
Lemma bson_reads_back m : json_wf (J_object m) = true ->
  exists l, to_bson m = Some l /\ from_bson l = Parsed (read_back_object m).
Proof.
  intros Hwf. exists (write_bson_value (J_object m)). split; [unfold to_bson; now rewrite wf_not_throws|].
  pose proof (value_reads_back (J_object m) (S (length (write_bson_value (J_object m)))) [] Hwf) as H.
  rewrite app_nil_r in H. specialize (H ltac:(lia)). cbn [bson_type read_back] in H. unfold parse_bson_element_internal in H.
  change (u8 x03) with 3 in H. cbv zeta in H. cbn [Z.eqb Pos.eqb] in H. unfold from_bson.
  destruct (parse_bson_internal _ _) as [[m' l']| |]; [|discriminate..]. cbn in *. now injection H as -> ->.
Qed.

(** ** The fuel of the reader is enough *)

Definition shrinks {A} (r : reads A) : Prop := forall l v l', r l = Parsed (v, l') -> (length l' <= length l)%nat.

(** Taking an equation [(x ← r; k) = Parsed y] apart. *)
Ltac unbind H :=
  repeat lazymatch type of H with
  | (?c ≫= _) = Parsed _ => let E := fresh "E" in destruct c as [[? ?]| |] eqn:E; [cbn [mbind parsed_bind] in H|discriminate H..]
  end.

Lemma get_bytes_shrinks n : shrinks (get_bytes n).
Proof. intros l v l'. unfold get_bytes. destruct (_ <=? _)%nat; [|discriminate]. intros [= <- <-]. rewrite length_drop. lia. Qed.

Lemma get_signed_shrinks n : shrinks (get_signed n).
Proof. intros l v l' H. unfold get_signed in H. unbind H. injection H as <- <-. now apply get_bytes_shrinks in E. Qed.

Lemma cstr_shrinks l : forall k l', get_bson_cstr l = Parsed (k, l') -> (length l' < length l)%nat.
Proof.
  induction l as [|b l IH]; intros k l'; cbn [get_bson_cstr]; [discriminate|]. destruct (_ =? _).
  - intros [= <- <-]. cbn. lia.
  - intros H. unbind H. injection H as <- <-. specialize (IH _ _ eq_refl). cbn. lia.
Qed.

Lemma string_shrinks len : shrinks (get_bson_string len).
Proof.
  intros l v l' H. unfold get_bson_string in H. destruct (_ <? _); [discriminate|]. unbind H. apply get_bytes_shrinks in E.
  destruct l1; [discriminate|]. injection H as <- <-. cbn in E. lia.
Qed.

Lemma binary_shrinks len : shrinks (get_bson_binary len).
Proof.
  intros l v l' H. unfold get_bson_binary in H. destruct (_ <? _); [discriminate|]. unbind H. injection H as <- <-.
  apply get_bytes_shrinks in E, E0. lia.
Qed.

#[local] Hint Resolve get_signed_shrinks get_bytes_shrinks string_shrinks binary_shrinks : shrinks.

Ltac shrink :=
  repeat match goal with E : ?r ?l = Parsed (_, _) |- _ =>
    let H := fresh "H" in assert (shrinks r) as H by eauto with shrinks; apply H in E; clear H end; cbn [length] in *; lia.

Lemma element_shrinks r t : shrinks r -> shrinks (parse_bson_element_internal r t).
Proof.
  intros Hr l v l' H. unfold parse_bson_element_internal, parse_bson_internal, parse_bson_array in H. cbv zeta in H.
  repeat (destruct (_ =? _) in H; [|]); try discriminate; try (destruct l; injection H as <- <-; cbn; lia).
  all: unbind H; try (injection H as <- <-); try (unbind E; injection E as <- <-); shrink.
Qed.

Lemma list_shrinks fuel : shrinks (parse_bson_element_list fuel).
Proof.
  induction fuel as [|fuel IH]; intros l v l'; cbn [parse_bson_element_list]; [discriminate|].
  destruct l as [|t l]; [discriminate|]. destruct (_ =? _); [intros [= <- <-]; cbn; lia|]. intros H. unbind H.
  injection H as <- <-. apply cstr_shrinks in E. apply (element_shrinks _ _ IH) in E0. apply IH in E1. cbn. lia.
Qed.

Lemma element_agrees r1 r2 t l :
  (forall l', (length l' <= length l)%nat -> r1 l' = r2 l') ->
  parse_bson_element_internal r1 t l = parse_bson_element_internal r2 t l.
Proof.
  intros H. unfold parse_bson_element_internal, parse_bson_internal, parse_bson_array. cbv zeta.
  repeat (destruct (_ =? _); [reflexivity || (destruct (get_signed 4 l) as [[z l']| |] eqn:E; [|reflexivity..];
    cbn [mbind parsed_bind]; rewrite H; [reflexivity|now apply get_signed_shrinks in E])|]). reflexivity.
Qed.

(** Any fuel beyond the length of the input reads the same. *)
Lemma list_fuel fuel : forall fuel' l, (length l < fuel)%nat -> (length l < fuel')%nat ->
  parse_bson_element_list fuel l = parse_bson_element_list fuel' l.
Proof.
  induction fuel as [|fuel IH]; intros fuel' l H H'; [lia|]. destruct fuel' as [|fuel']; [lia|].
  cbn [parse_bson_element_list]. destruct l as [|t l]; [reflexivity|]. destruct (_ =? _); [reflexivity|]. cbn [length] in *.
  destruct (get_bson_cstr l) as [[k l2]| |] eqn:E; [|reflexivity..]. cbn [mbind parsed_bind]. apply cstr_shrinks in E.
  rewrite (element_agrees _ (parse_bson_element_list fuel')) by (intros l' Hl'; apply IH; lia).
  destruct (parse_bson_element_internal _ t l2) as [[v l3]| |] eqn:E2; [|reflexivity..]. cbn [mbind parsed_bind].
  apply (element_shrinks _ _ (list_shrinks _)) in E2. rewrite (IH fuel') by lia. reflexivity.
Qed.

(** ** A document is not a prefix of another *)

Definition extends {A} (r : reads A) : Prop := forall l v l' s, r l = Parsed (v, l') -> r (l ++ s) = Parsed (v, l' ++ s).

Lemma get_bytes_extends n : extends (get_bytes n).
Proof.
  intros l v l' s. unfold get_bytes. destruct (Nat.leb_spec n (length l)); [|discriminate]. intros [= <- <-].
  rewrite length_app, (proj2 (Nat.leb_le n (length l + length s))) by lia. now rewrite take_app_le, drop_app_le by lia.
Qed.

Lemma get_signed_extends n : extends (get_signed n).
Proof. intros l v l' s H. unfold get_signed in *. unbind H. injection H as <- <-. now rewrite (get_bytes_extends _ _ _ _ s E). Qed.

Lemma cstr_extends : extends get_bson_cstr.
Proof.
  intros l. induction l as [|b l IH]; intros k l' s; cbn [get_bson_cstr app]; [discriminate|]. destruct (_ =? _); [now intros [= <- <-]|].
  intros H. unbind H. injection H as <- <-. now rewrite (IH _ _ s eq_refl).
Qed.

Lemma string_extends len : extends (get_bson_string len).
Proof.
  intros l v l' s H. unfold get_bson_string in *. destruct (_ <? _); [discriminate|]. unbind H.
  rewrite (get_bytes_extends _ _ _ _ s E). destruct l1; [discriminate|]. injection H as <- <-. reflexivity.
Qed.

Lemma binary_extends len : extends (get_bson_binary len).
Proof.
  intros l v l' s H. unfold get_bson_binary in *. destruct (_ <? _); [discriminate|]. unbind H. injection H as <- <-.
  rewrite (get_bytes_extends _ _ _ _ s E). cbn [mbind parsed_bind]. now rewrite (get_bytes_extends _ _ _ _ s E0).
Qed.

#[local] Hint Resolve get_signed_extends get_bytes_extends string_extends binary_extends : extends.

Ltac extend s :=
  repeat match goal with E : ?r ?l = Parsed (_, _) |- _ =>
    let H := fresh "H" in assert (extends r) as H by eauto with extends; rewrite (H _ _ _ s E); clear H; cbn [mbind parsed_bind] end.

(** A boolean alone is also read where the input ends. *)
Lemma element_extends r t : extends r ->
  forall l v l' s, l <> [] -> parse_bson_element_internal r t l = Parsed (v, l') -> parse_bson_element_internal r t (l ++ s) = Parsed (v, l' ++ s).
Proof.
  intros Hr l v l' s Hl H. unfold parse_bson_element_internal, parse_bson_internal, parse_bson_array in *. cbv zeta in *.
  repeat (destruct (_ =? _) in *; [|]); try discriminate; try (destruct l; [done|]; now injection H as <- <-); try now injection H as <- <-.
  all: unbind H; try (injection H as <- <-); try (unbind E; injection E as <- <-); extend s; reflexivity.
Qed.

Lemma element_at_end r t v l : shrinks r -> parse_bson_element_internal r t [] = Parsed (v, l) -> l = [].
Proof. intros Hr H. apply (element_shrinks _ _ Hr) in H. cbn in H. destruct l; [reflexivity|cbn in H; lia]. Qed.

Lemma list_extends fuel : extends (parse_bson_element_list fuel).
Proof.
  induction fuel as [|fuel IH]; intros l v l' s; cbn [parse_bson_element_list]; [discriminate|].
  destruct l as [|t l]; [discriminate|]. cbn [app]. destruct (_ =? _); [now intros [= <- <-]|]. intros H. unbind H.
  injection H as <- <-. rewrite (cstr_extends _ _ _ s E). cbn [mbind parsed_bind]. destruct l1 as [|b l1].
  - apply element_at_end in E0 as ->; [|apply list_shrinks]. destruct fuel; discriminate E1.
  - assert (Hne : b :: l1 <> []) by discriminate. rewrite (element_extends _ _ IH _ _ _ s Hne E0). cbn [mbind parsed_bind]. now rewrite (IH _ _ _ s E1).
Qed.

Lemma internal_extends fuel : extends (parse_bson_internal (parse_bson_element_list fuel)).
Proof.
  intros l v l' s H. unfold parse_bson_internal in *. unbind H. injection H as <- <-.
  rewrite (get_signed_extends _ _ _ _ s E). cbn [mbind parsed_bind]. now rewrite (list_extends _ _ _ _ s E0).
Qed.

Lemma internal_fuel fuel fuel' l : (length l < fuel)%nat -> (length l < fuel')%nat ->
  parse_bson_internal (parse_bson_element_list fuel) l = parse_bson_internal (parse_bson_element_list fuel') l.
Proof.
  intros H H'. unfold parse_bson_internal. destruct (get_signed 4 l) as [[z l1]| |] eqn:E; [|reflexivity..]. cbn [mbind parsed_bind].
  apply get_signed_shrinks in E. rewrite (list_fuel fuel fuel') by lia. reflexivity.
Qed.

Lemma from_bson_no_suffix l m s : from_bson l = Parsed m -> s <> [] -> from_bson (l ++ s) = ParseError.
Proof.
  unfold from_bson. intros H Hs. destruct (parse_bson_internal _ l) as [[m' [|]]| |] eqn:E; try discriminate.
  pose proof (internal_extends _ _ _ _ s E) as E'. rewrite (internal_fuel _ (S (S (length l) + length s))) in E by lia.
  pose proof (internal_extends _ _ _ _ s E) as E2. rewrite (internal_fuel _ (S (length (l ++ s)))) in E2;
    [|rewrite length_app; lia..]. rewrite E2. cbn [app mbind parsed_bind]. now destruct s.
Qed.

(** No document is read from a proper prefix of one. *)
Lemma from_bson_cut m p s : json_wf (J_object m) = true -> to_bson m = Some (p ++ s) -> s <> [] ->
  from_bson p = ParseError \/ from_bson p = Discarded.
Proof.
  intros Hwf Hl Hs. destruct (bson_reads_back m Hwf) as (l & Hl' & Hr). rewrite Hl in Hl'. apply (inj Some) in Hl'. subst l.
  destruct (from_bson p) as [m'| |] eqn:E; [|now left|now right]. now rewrite (from_bson_no_suffix p m' s E Hs) in Hr.
Qed.

(** ** A document that is cut behind the characters of a string *)

Lemma members_then m rest :
  forallb (fun kv => negb (has_nul kv.1) && json_wf kv.2) m = true ->
  (forall fuel, (length rest < fuel)%nat -> parse_bson_element_list fuel rest = Discarded) ->
  forall fuel, (length (write_members m ++ rest) < fuel)%nat ->
  parse_bson_element_list fuel (write_members m ++ rest) = Discarded.
Proof.
  intros Hwf Hrest. induction m as [|[k v] m IH]; intros [|fuel] Hf; [lia|now apply Hrest|lia|].
  cbn [forallb fst snd] in *. apply andb_prop in Hwf as [Hkv Hwf]. apply andb_prop in Hkv as [Hk Hj].
  apply negb_true_iff in Hk. cbn [write_members] in *. unfold write_bson_element, write_bson_entry_header in *.
  cbn [app] in *. rewrite <- !app_assoc in *. cbn [app length] in *. cbn [parse_bson_element_list].
  rewrite bson_type_nonzero, cstr_app by assumption. cbn [mbind parsed_bind].
  rewrite !length_app in Hf. cbn [length] in Hf. rewrite !length_app in Hf.
  rewrite (value_reads_back v); [|assumption|rewrite !length_app; lia]. cbn [mbind parsed_bind].
  rewrite (IH Hwf); [reflexivity|rewrite !length_app; lia].
Qed.

Lemma string_cut k s fuel : has_nul k = false -> Z.of_nat (length s) + 1 < 2 ^ 31 ->
  parse_bson_element_list (S fuel) (write_bson_entry_header k x02 ++ le_encode 4 (Z.of_nat (length s) + 1) ++ s) = Discarded.
Proof.
  intros Hk Hs. unfold write_bson_entry_header. cbn [app parse_bson_element_list]. change (u8 x02 =? 0) with false. cbv iota.
  rewrite <- app_assoc. cbn [app]. rewrite cstr_app by assumption. cbn [mbind parsed_bind]. element_branch x02 2.
  rewrite get_signed_4 by lia. cbn [mbind parsed_bind]. unfold get_bson_string.
  destruct (Z.ltb_spec (Z.of_nat (length s) + 1) 1); [lia|]. pose proof (get_bytes_n (Z.to_nat (Z.of_nat (length s) + 1 - 1)) s [] ltac:(lia)) as E.
  rewrite app_nil_r in E. now rewrite E.
Qed.

Lemma write_members_app m1 m2 : write_members (m1 ++ m2) = write_members m1 ++ write_members m2.
Proof. induction m1 as [|[k v] m1 IH]; [reflexivity|]. cbn [app write_members]. now rewrite IH, app_assoc. Qed.

(** What there is of the document up to the end of the characters of a member. *)
Definition cut_in (m1 : object) (k s : list byte) (m : object) : list byte :=
  le_encode 4 (calc_bson_value_size (J_object m)) ++ write_members m1 ++
  write_bson_entry_header k x02 ++ le_encode 4 (Z.of_nat (length s) + 1) ++ s.

Lemma cut_in_discarded m1 k s m2 : json_wf (J_object (m1 ++ (k, J_string s) :: m2)) = true ->
  from_bson (cut_in m1 k s (m1 ++ (k, J_string s) :: m2)) = Discarded.
Proof.
  intros Hwf. cbn [json_wf] in Hwf. apply andb_prop in Hwf as [_ Hwf]. rewrite forallb_app in Hwf. apply andb_prop in Hwf as [H1 H2].
  cbn [forallb fst snd json_wf] in H2. apply andb_prop in H2 as [H2 _]. apply andb_prop in H2 as [Hk%negb_true_iff Hs%Z.ltb_lt].
  unfold from_bson, parse_bson_internal, cut_in. rewrite get_signed_app by discriminate. cbn [mbind parsed_bind].
  rewrite members_then; [reflexivity|exact H1| |rewrite (length_app (le_encode 4 _)); lia].
  intros [|fuel] Hf; [lia|now apply string_cut].
Qed.

Lemma cut_in_prefix m1 k s m2 l : to_bson (m1 ++ (k, J_string s) :: m2) = Some l ->
  exists rest, l = cut_in m1 k s (m1 ++ (k, J_string s) :: m2) ++ x00 :: rest.
Proof.
  unfold to_bson. destruct (bson_throws _); [discriminate|]. intros H. apply (inj Some) in H as <-. exists (write_members m2 ++ [x00]).
  rewrite write_object. unfold cut_in. rewrite write_members_app. cbn [write_members]. unfold write_bson_element.
  cbn [bson_type write_bson_value]. now rewrite <- !app_assoc.
Qed.

(** ** Members *)

Lemma key_compare_eq a : forall b, key_compare a b = Eq -> a = b.
Proof.
  induction a as [|x a IH]; intros [|y b]; cbn; try discriminate; [reflexivity|].
  destruct (Z.compare_spec (u8 x) (u8 y)) as [E|E|E]; try discriminate. intros H. apply u8_inj in E. now rewrite E, (IH b H).
Qed.

Lemma obj_get_set k v m : obj_get k (obj_set k v m) = Some v.
Proof.
  induction m as [|[k' v'] m IH]; cbn [obj_set obj_get]; [now rewrite decide_True|].
  destruct (key_compare k k') eqn:E; cbn [obj_get]; [now rewrite decide_True..|].
  destruct (decide (k = k')) as [<-|]; [|exact IH]. exfalso. clear -E. induction k as [|x k IH]; cbn in E; [discriminate|].
  rewrite Z.compare_refl in E. now apply IH.
Qed.

Lemma obj_get_set_other k k' v m : k <> k' -> obj_get k (obj_set k' v m) = obj_get k m.
Proof.
  intros Hne. induction m as [|[k1 v1] m IH]; cbn [obj_set obj_get]; [now rewrite decide_False|].
  destruct (key_compare k' k1) eqn:E; cbn [obj_get].
  - apply key_compare_eq in E as <-. now rewrite !decide_False.
  - now rewrite decide_False.
  - destruct (decide (k = k1)); [reflexivity|exact IH].
Qed.

(** ** What the format promises *)

(** C19: Whatever object is written, as long as its integers lie between - 2^63 and 2^63 - 1,
    its sizes fit 31 bits and its names are in order and hold no zero byte, reading the bytes
    back gives the same object (bytes without a subtype get the subtype zero), and the four
    bytes in front say the length of the whole. No proper prefix of the bytes is taken for
    an object: the reader throws, or returns a discarded value without throwing; the latter
    does happen, where the bytes end behind the characters of a string and only its zero
    byte and what follows are missing. On the bytes followed by anything it throws. *)
Theorem bson_round_trip m :
  json_wf (J_object m) = true ->
  exists l, to_bson m = Some l /\ from_bson l = Parsed (read_back_object m) /\
    (Z.of_nat (length l) < 2 ^ 31 -> get_signed 4 l = Parsed (Z.of_nat (length l), drop 4 l)) /\
    (forall s, s <> [] -> from_bson (l ++ s) = ParseError) /\
    (forall p s, l = p ++ s -> s <> [] -> from_bson p = ParseError \/ from_bson p = Discarded) /\
    (forall m1 k s m2, m = m1 ++ (k, J_string s) :: m2 ->
      exists rest, l = cut_in m1 k s m ++ x00 :: rest /\ from_bson (cut_in m1 k s m) = Discarded).
Proof.
  intros Hwf. destruct (bson_reads_back m Hwf) as (l & Hl & Hr). exists l. split; [exact Hl|]. split; [exact Hr|]. split; [|split; [|split]].
  - intros Hlen. assert (write_bson_value (J_object m) = l) as Hw.
    { unfold to_bson in Hl. rewrite wf_not_throws in Hl by assumption. congruence. }
    pose proof (value_size (J_object m)) as Hs. rewrite Hw in Hs. rewrite write_object, <- Hs in Hw.
    set (t := write_members m ++ [x00]) in Hw. clearbody t. set (h := le_encode 4 (Z.of_nat (length l))) in Hw.
    rewrite <- Hw at 1. unfold h. rewrite get_signed_4 by lia. do 2 f_equal. rewrite <- Hw. reflexivity.
  - intros s. now apply from_bson_no_suffix with (read_back_object m).
  - intros p s ->. now apply from_bson_cut with m.
  - intros m1 k s m2 ->. destruct (cut_in_prefix m1 k s m2 l Hl) as (rest & E). exists rest. split; [exact E|].
    now apply cut_in_discarded.
Qed.

Definition sample_query : object :=
  obj_set (key_of "query") (J_number 1) (obj_set (key_of "value") (J_binary [x01; x00] None)
    (obj_set (key_of "QueryID") (J_number 4294967295) (obj_set (key_of "more")
      (J_array [J_null; J_object [(key_of "x", J_boolean true)]; J_string [x61]]) (obj_set (key_of "name") (J_string [x62]) [])))).

Lemma bson_round_trip_witness : json_wf (J_object sample_query) = true /\
  exists l, to_bson sample_query = Some l /\ from_bson l = Parsed (read_back_object sample_query) /\
    (Z.of_nat (length l) < 2 ^ 31 -> get_signed 4 l = Parsed (Z.of_nat (length l), drop 4 l)) /\
    (forall s, s <> [] -> from_bson (l ++ s) = ParseError) /\
    (forall p s, l = p ++ s -> s <> [] -> from_bson p = ParseError \/ from_bson p = Discarded) /\
    (forall m1 k s m2, sample_query = m1 ++ (k, J_string s) :: m2 ->
      exists rest, l = cut_in m1 k s sample_query ++ x00 :: rest /\ from_bson (cut_in m1 k s sample_query) = Discarded).
Proof. split; [vm_compute; reflexivity|]. apply (bson_round_trip sample_query). vm_compute. reflexivity. Defined.

Example cut_string : from_bson (cut_in [] (key_of "a") [x62] [(key_of "a", J_string [x62])]) = Discarded.
Proof. vm_compute. reflexivity. Qed.
