(* ===== verification/OverlayPtr.v ===== *)
(** miya_db overlay pointers ([optr]): 5-byte big-endian addresses into a paged
    file, their arithmetic, and the byte-copy helpers of [optr_utils].  The
    [_cacheTable] a pointer carries is the memory the operations of the class
    [OverlayMemOps] act on; [OverlayMem] is what a client may assume of it. *)
From S2P Require Import Prelude.
From Stdlib Require Import Lia.

(** ** The pointer and its arithmetic (overlay_ptr.h, overlay_ptr.cpp) *)

Record optr : Type := Optr { ad0 : byte; ad1 : byte; ad2 : byte; ad3 : byte; ad4 : byte }.

#[global] Instance optr_eq_dec : EqDecision optr.
Proof. solve_decision. Defined.

Definition OPTR_ADDR_LENGTH : nat := 5.

(** [addr()]/[caddr()]: the five address bytes. *)
Definition addr (p : optr) : list byte := [ad0 p; ad1 p; ad2 p; ad3 p; ad4 p].

(** [optr( unsigned char* )]: copies five bytes from the buffer. *)
Definition optr_of_bytes (l : list byte) : option optr :=
  match l with
  | b0 :: b1 :: b2 :: b3 :: b4 :: _ => Some (Optr b0 b1 b2 b3 b4)
  | _ => None
  end.

(** [addr( unsigned long )]: keeps the low 40 bits, most significant byte first. *)
Definition addr_set (z : Z) : optr :=
  Optr (b8 (Z.shiftr z 32)) (b8 (Z.shiftr z 24)) (b8 (Z.shiftr z 16))
       (b8 (Z.shiftr z 8)) (b8 (Z.shiftr z 0)).

(** The conversion of a (non-negative, integral) [double] to an unsigned type of
    [w] bits is undefined behaviour when the value does not fit. *)
Definition double_to_unsigned (w : Z) (x : Z) : option Z :=
  if (0 <=? x) && (x <? 2 ^ w) then Some x else None.

Definition exponentialList (i : nat) : Z := nth i [64; 32; 16; 8; 0] 0.

Definition frame (p : optr) : option Z :=
  r0 ← double_to_unsigned 16 (0 + u8 (ad0 p) * 2 ^ exponentialList 2);
  r1 ← double_to_unsigned 16 (r0 + u8 (ad1 p) * 2 ^ exponentialList 3);
  double_to_unsigned 16 (r1 + u8 (ad2 p) * 2 ^ exponentialList 4).

Definition offset (p : optr) : option Z :=
  r0 ← double_to_unsigned 16 (0 + u8 (ad3 p) * 2 ^ exponentialList 3);
  double_to_unsigned 16 (r0 + u8 (ad4 p) * 2 ^ exponentialList 4).

(** The address as [operator+] and [freeBlockSize] compute it: byte 1 is
    weighted with [2^32] where the address format says [2^24]. *)
Definition weighted_addr (p : optr) : option Z :=
  s0 ← double_to_unsigned 64 (0 + u8 (ad0 p) * 2 ^ exponentialList 0);
  s1 ← double_to_unsigned 64 (s0 + u8 (ad1 p) * 2 ^ exponentialList 1);
  s2 ← double_to_unsigned 64 (s1 + u8 (ad2 p) * 2 ^ exponentialList 2);
  s3 ← double_to_unsigned 64 (s2 + u8 (ad3 p) * 2 ^ exponentialList 3);
  double_to_unsigned 64 (s3 + u8 (ad4 p) * 2 ^ exponentialList 4).

(** [operator+( unsigned long )]. *)
Definition oplus (p : optr) (addend : Z) : option optr :=
  ulongOptr ← weighted_addr p;
  Some (addr_set ((ulongOptr + addend) mod 2 ^ 64)).

Definition optr_eqb (p q : optr) : bool :=
  match memcmp (addr p) (addr q) with Eq => true | _ => false end.

Definition optr_neqb (p q : optr) : bool := negb (optr_eqb p q).

(** The linear address the five bytes denote. *)
Definition lin (p : optr) : Z := be_decode (addr p).

Definition addrZero : optr := Optr x00 x00 x00 x00 x00.

Lemma optr_of_addr p : optr_of_bytes (addr p) = Some p.
Proof. now destruct p. Qed.

Lemma lin_unfold p :
  lin p = u8 (ad0 p) * 2 ^ 32 + u8 (ad1 p) * 2 ^ 24 + u8 (ad2 p) * 2 ^ 16
          + u8 (ad3 p) * 2 ^ 8 + u8 (ad4 p).
Proof. unfold lin, be_decode, addr. cbn [be_decode_acc]. lia. Qed.

Lemma lin_range p : 0 <= lin p < 2 ^ 40.
Proof. apply (be_decode_range (addr p)). Qed.

Lemma lin_inj p q : lin p = lin q -> p = q.
Proof.
  intros H. apply (be_decode_inj (addr p) (addr q)) in H; [|reflexivity].
  destruct p, q. unfold addr in H. cbn in H. congruence.
Qed.

Lemma optr_eqb_spec p q : optr_eqb p q = true <-> p = q.
Proof.
  unfold optr_eqb. rewrite memcmp_be by reflexivity. change (be_decode (addr p)) with (lin p).
  change (be_decode (addr q)) with (lin q).
  destruct (Z.compare_spec (lin p) (lin q)) as [E|E|E]; split; intros H; try discriminate;
    try reflexivity; try (subst; lia). now apply lin_inj.
Qed.

Lemma optr_eqb_lin p q : optr_eqb p q = (lin p =? lin q).
Proof.
  apply Bool.eq_iff_eq_true. rewrite optr_eqb_spec, Z.eqb_eq. split; [congruence|apply lin_inj].
Qed.

Lemma addr_set_bytes z : addr (addr_set z) = be_encode 5 z.
Proof.
  unfold addr_set, be_encode, addr; cbn [le_encode rev app ad0 ad1 ad2 ad3 ad4].
  rewrite !Z.shiftr_div_pow2, !Z.div_div by lia.
  change (2 ^ 0) with 1. rewrite Z.div_1_r. reflexivity.
Qed.

Lemma lin_addr_set z : lin (addr_set z) = z mod 2 ^ 40.
Proof. unfold lin. rewrite addr_set_bytes. apply be_decode_encode. Qed.

Lemma addr_set_lin p : addr_set (lin p) = p.
Proof.
  apply lin_inj. rewrite lin_addr_set. apply Z.mod_small, lin_range.
Qed.

Lemma lin_addr_set_small z : 0 <= z < 2 ^ 40 -> lin (addr_set z) = z.
Proof. intros. rewrite lin_addr_set. now apply Z.mod_small. Qed.

Lemma double_to_unsigned_some w x : 0 <= x < 2 ^ w -> double_to_unsigned w x = Some x.
Proof.
  intros [H1 H2]. unfold double_to_unsigned.
  apply Z.leb_le in H1. apply Z.ltb_lt in H2. now rewrite H1, H2.
Qed.

Lemma double_to_unsigned_none w x : 2 ^ w <= x -> double_to_unsigned w x = None.
Proof.
  intros H. unfold double_to_unsigned. apply Z.ltb_ge in H. rewrite H.
  now rewrite andb_false_r.
Qed.

Ltac optr_ranges p :=
  pose proof (u8_range (ad0 p)); pose proof (u8_range (ad1 p)); pose proof (u8_range (ad2 p));
  pose proof (u8_range (ad3 p)); pose proof (u8_range (ad4 p)).

(** Below 2^32 the frame and offset are the two halves of the address. *)
Lemma frame_spec p : lin p < 2 ^ 32 -> frame p = Some (lin p / 2 ^ 16).
Proof.
  intros Hp. rewrite lin_unfold in *. optr_ranges p. unfold frame, exponentialList; cbn [nth].
  assert (u8 (ad0 p) = 0) as -> by lia.
  rewrite double_to_unsigned_some by lia. simpl.
  rewrite double_to_unsigned_some by lia. simpl.
  rewrite double_to_unsigned_some by lia. f_equal.
  apply Z.div_unique with (u8 (ad3 p) * 256 + u8 (ad4 p)); lia.
Qed.

Lemma frame_undefined p : 2 ^ 32 <= lin p -> frame p = None.
Proof.
  intros Hp. rewrite lin_unfold in Hp. optr_ranges p. unfold frame, exponentialList; cbn [nth].
  rewrite double_to_unsigned_none; [reflexivity|lia].
Qed.

Lemma offset_spec p : offset p = Some (lin p mod 2 ^ 16).
Proof.
  rewrite lin_unfold in *. optr_ranges p. unfold offset, exponentialList; cbn [nth].
  rewrite double_to_unsigned_some by lia. simpl.
  rewrite double_to_unsigned_some by lia. f_equal.
  apply Z.mod_unique with (u8 (ad0 p) * 65536 + u8 (ad1 p) * 256 + u8 (ad2 p)); lia.
Qed.

Lemma weighted_addr_spec p :
  lin p < 2 ^ 32 -> weighted_addr p = Some (lin p + u8 (ad1 p) * (2 ^ 32 - 2 ^ 24)).
Proof.
  intros Hp. rewrite lin_unfold in *. optr_ranges p.
  unfold weighted_addr, exponentialList; cbn [nth].
  assert (u8 (ad0 p) = 0) as -> by lia.
  do 5 (rewrite double_to_unsigned_some by lia; simpl). f_equal. lia.
Qed.

Lemma ad1_zero p : lin p < 2 ^ 24 -> u8 (ad1 p) = 0.
Proof. rewrite lin_unfold. optr_ranges p. lia. Qed.

Lemma weighted_addr_small p : lin p < 2 ^ 24 -> weighted_addr p = Some (lin p).
Proof.
  intros Hp. rewrite weighted_addr_spec, ad1_zero by lia. f_equal. lia.
Qed.

Lemma oplus_small p n :
  lin p < 2 ^ 24 -> 0 <= n < 2 ^ 39 -> oplus p n = Some (addr_set (lin p + n)).
Proof.
  intros Hp Hn. unfold oplus. rewrite weighted_addr_small by assumption. simpl.
  pose proof (lin_range p). rewrite Z.mod_small by lia. reflexivity.
Qed.

(** C38: [operator+] adds to the address exactly when address byte 1 is zero: below
    16 MiB [p + n] is the pointer whose linear address is [lin p + n], and at or
    above 16 MiB it is a different pointer, because byte 1 is weighted with 2^32
    instead of 2^24. *)
Theorem oplus_exact_iff (p : optr) (n : Z)
  (Hp : lin p < 2 ^ 32) (Hn : 0 <= n < 2 ^ 39) :
  oplus p n = Some (addr_set (lin p + n)) <-> lin p < 2 ^ 24.
Proof.
  split; [|intros; now apply oplus_small].
  unfold oplus. rewrite weighted_addr_spec by assumption. cbn [mbind option_bind]. intros H. apply (inj Some) in H.
  apply (f_equal lin) in H. rewrite !lin_addr_set in H.
  pose proof (lin_range p). optr_ranges p.
  rewrite (Z.mod_small _ (2 ^ 64)) in H by lia.
  assert (u8 (ad1 p) = 0) as E.
  { destruct (Z.eq_dec (u8 (ad1 p)) 0) as [|Hne]; [assumption|exfalso].
    rewrite !(Z.mod_eq _ (2 ^ 40)) in H by lia.
    set (a := u8 (ad1 p)) in *.
    set (q1 := (lin p + a * (2 ^ 32 - 2 ^ 24) + n) / 2 ^ 40) in *.
    set (q2 := (lin p + n) / 2 ^ 40) in *.
    assert (a * 255 = 2 ^ 16 * (q1 - q2)) by lia. lia. }
  rewrite lin_unfold in *. lia.
Qed.

Lemma oplus_exact_iff_witness :
  (lin (addr_set (2 ^ 24)) < 2 ^ 32 /\ 0 <= 7 < 2 ^ 39) /\
  (oplus (addr_set (2 ^ 24)) 7 = Some (addr_set (lin (addr_set (2 ^ 24)) + 7))
   <-> lin (addr_set (2 ^ 24)) < 2 ^ 24).
Proof.
  split; [vm_compute; repeat split; discriminate|].
  apply oplus_exact_iff; vm_compute; repeat split; discriminate.
Defined.

(** ** Memory reached through overlay pointers *)

(** Byte-valued memory as a client sees it, up to pointwise equality. *)
Definition view_eq (v w : Z -> byte) : Prop := forall a, v a = w a.
Infix "≡v" := view_eq (at level 70).

#[global] Instance view_eq_equiv : Equivalence view_eq.
Proof.
  split; [intros v a; reflexivity|intros v w H a; now rewrite H|].
  intros v w x H1 H2 a. now rewrite H1.
Qed.

Definition vset (v : Z -> byte) (a : Z) (b : byte) : Z -> byte :=
  fun x => if x =? a then b else v x.

Fixpoint vlist (v : Z -> byte) (a : Z) (n : nat) : list byte :=
  match n with
  | O => []
  | S n' => v a :: vlist v (a + 1) n'
  end.

Fixpoint vwrite (v : Z -> byte) (a : Z) (bs : list byte) : Z -> byte :=
  match bs with
  | [] => v
  | b :: bs' => vwrite (vset v a b) (a + 1) bs'
  end.

#[global] Instance vset_proper : Proper (view_eq ==> eq ==> eq ==> view_eq) vset.
Proof. intros v w H ? ? -> ? ? -> a. unfold vset. case_match; auto. Qed.

#[global] Instance vlist_proper : Proper (view_eq ==> eq ==> eq ==> eq) vlist.
Proof.
  intros v w H a ? <- n ? <-. revert a. induction n as [|n IH]; intros a; simpl; [reflexivity|].
  now rewrite H, IH.
Qed.

#[global] Instance vwrite_proper : Proper (view_eq ==> eq ==> eq ==> view_eq) vwrite.
Proof.
  intros v w H a ? <- bs ? <-. revert v w H a.
  induction bs as [|b bs IH]; intros v w H a; simpl; [assumption|].
  apply IH. now rewrite H.
Qed.

Lemma vlist_length v a n : length (vlist v a n) = n.
Proof. revert a; induction n; intros; simpl; auto. Qed.

Lemma vwrite_out v a bs x :
  x < a \/ a + Z.of_nat (length bs) <= x -> vwrite v a bs x = v x.
Proof.
  revert v a. induction bs as [|b bs IH]; intros v a Hx; simpl in *; [reflexivity|].
  rewrite IH by lia. unfold vset. destruct (Z.eqb_spec x a); [lia|reflexivity].
Qed.

Lemma vlist_ext v w a n :
  (forall x, a <= x < a + Z.of_nat n -> v x = w x) -> vlist v a n = vlist w a n.
Proof.
  revert a; induction n as [|n IH]; intros a H; simpl; [reflexivity|].
  f_equal; [apply H; lia|]. apply IH. intros x Hx. apply H. lia.
Qed.

Lemma vlist_vwrite_same v a bs : vlist (vwrite v a bs) a (length bs) = bs.
Proof.
  revert v a. induction bs as [|b bs IH]; intros v a; simpl; [reflexivity|].
  f_equal; [|apply IH]. rewrite vwrite_out by lia. unfold vset. now rewrite Z.eqb_refl.
Qed.

Lemma vlist_vwrite_other v a bs x n :
  x + Z.of_nat n <= a \/ a + Z.of_nat (length bs) <= x ->
  vlist (vwrite v a bs) x n = vlist v x n.
Proof. intros H. apply vlist_ext. intros y Hy. apply vwrite_out. lia. Qed.

Lemma vlist_lookup v a n i : (i < n)%nat -> vlist v a n !! i = Some (v (a + Z.of_nat i)).
Proof.
  revert a i; induction n as [|n IH]; intros a [|i] Hi; try lia; cbn [vlist lookup list_lookup].
  - do 2 f_equal. lia.
  - rewrite IH by lia. do 2 f_equal. lia.
Qed.

(** What the memory behind a [_cacheTable] offers: [optr::value()] reads the byte
    at a pointer, [optr::value( unsigned char )] stores one.  Both may change
    the memory's bookkeeping. *)
Class OverlayMemOps (M : Type) : Type := {
  value : optr -> prog M byte;
  set_value : optr -> byte -> prog M unit;
}.

(** A memory is correct when, below 4 GiB, reads and writes act on one array
    of bytes [om_view] and never fail. *)
Class OverlayMem (M : Type) {ops : OverlayMemOps M} : Type := {
  om_inv : M -> Prop;
  om_view : M -> Z -> byte;
  om_value_spec : forall p m, om_inv m -> lin p < 2 ^ 32 ->
    wp (value p) m (fun b m' => b = om_view m (lin p) /\ om_inv m' /\ om_view m' ≡v om_view m);
  om_set_value_spec : forall p b m, om_inv m -> lin p < 2 ^ 32 ->
    wp (set_value p b) m (fun _ m' => om_inv m' /\ om_view m' ≡v vset (om_view m) (lin p) b);
}.

(** [holds m v]: memory [m] is well formed and holds the bytes [v]. *)
Definition holds {M} `{OverlayMem M} (m : M) (v : Z -> byte) : Prop :=
  om_inv m /\ om_view m ≡v v.

(** ** Byte copies and comparisons (optr_utils.cpp) *)

Section optr_utils.
Context {M : Type} `{ops : !OverlayMemOps M}.

(** [omemcpy( void* dest, optr* src, n )]: the [n] bytes it stores in [dest];
    [i] is the loop counter. *)
Fixpoint omemcpy_out_from (src : optr) (i : Z) (n : nat) : prog M (list byte) :=
  match n with
  | O => mret []
  | S n' =>
      q ← must (oplus src i);
      b ← value q;
      bs ← omemcpy_out_from src (i + 1) n';
      mret (b :: bs)
  end.

Definition omemcpy_out (src : optr) (n : nat) : prog M (list byte) :=
  omemcpy_out_from src 0 n.

(** [omemcpy( optr* dest, void* src, n )] with [n] the length of [src]. *)
Fixpoint omemcpy_in_from (dest : optr) (i : Z) (src : list byte) : prog M unit :=
  match src with
  | [] => mret ()
  | b :: src' =>
      q ← must (oplus dest i);
      _ ← set_value q b;
      omemcpy_in_from dest (i + 1) src'
  end.

Definition omemcpy_in (dest : optr) (src : list byte) : prog M unit :=
  omemcpy_in_from dest 0 src.

(** [omemcpy( optr* dest, optr* src, n )]: byte by byte, lowest first. *)
Fixpoint omemcpy_copy_from (dest src : optr) (i : Z) (n : nat) : prog M unit :=
  match n with
  | O => mret ()
  | S n' =>
      q ← must (oplus src i);
      b ← value q;
      r ← must (oplus dest i);
      _ ← set_value r b;
      omemcpy_copy_from dest src (i + 1) n'
  end.

Definition omemcpy_copy (dest src : optr) (n : nat) : prog M unit :=
  omemcpy_copy_from dest src 0 n.

(** The loop of [ocmp]: the first index at which the buffers differ. *)
Fixpoint ocmp_index (o1 : optr) (i : Z) (p2 : list byte) : prog M Z :=
  match p2 with
  | [] => mret i
  | c :: p2' =>
      q ← must (oplus o1 i);
      b ← value q;
      if decide (b = c) then ocmp_index o1 (i + 1) p2' else mret i
  end.

(** [ocmp( optr* o1, void* p2, size )] with [size] the length of [p2]. *)
Definition ocmp (o1 : optr) (p2 : list byte) : prog M Z :=
  i ← ocmp_index o1 0 p2;
  if i =? Z.of_nat (length p2) then mret 0
  else
    q ← must (oplus o1 i);
    b ← value q;
    c ← must (p2 !! Z.to_nat i);
    mret (if u8 b <=? u8 c then -1 else 1).

(** [ocmp( void* p1, optr* o2, size )]. *)
Definition ocmp_rev (p1 : list byte) (o2 : optr) : prog M Z :=
  i ← ocmp_index o2 0 p1;
  if i =? Z.of_nat (length p1) then mret 0
  else
    c ← must (p1 !! Z.to_nat i);
    q ← must (oplus o2 i);
    b ← value q;
    mret (if u8 c <=? u8 b then -1 else 1).

(** The loop and body of [ocmp( optr* o1, optr* o2, size )]. *)
Fixpoint ocmp2_index (o1 o2 : optr) (i : Z) (n : nat) : prog M Z :=
  match n with
  | O => mret i
  | S n' =>
      q1 ← must (oplus o1 i); b1 ← value q1;
      q2 ← must (oplus o2 i); b2 ← value q2;
      if decide (b1 = b2) then ocmp2_index o1 o2 (i + 1) n' else mret i
  end.

Definition ocmp2 (o1 o2 : optr) (size : nat) : prog M Z :=
  i ← ocmp2_index o1 o2 0 size;
  if i =? Z.of_nat size then mret 0
  else
    q1 ← must (oplus o1 i); b1 ← value q1;
    q2 ← must (oplus o2 i); b2 ← value q2;
    mret (if u8 b1 <=? u8 b2 then -1 else 1).

(** [mapToMemory( size )]. *)
Definition mapToMemory (p : optr) (size : nat) : prog M (list byte) := omemcpy_out p size.
End optr_utils.

(** Three-way comparison as [memcmp]-like code returns it. *)
Definition sign_of (c : comparison) : Z :=
  match c with Eq => 0 | Lt => -1 | Gt => 1 end.

Section optr_utils_specs.
Context {M : Type} `{mem : OverlayMem M}.

Lemma holds_proper m v w : v ≡v w -> holds m v -> holds m w.
Proof. intros E [? H]. split; [assumption|]. now rewrite H. Qed.

Lemma value_holds p m v :
  holds m v -> lin p < 2 ^ 32 ->
  wp (value p) m (fun b m' => b = v (lin p) /\ holds m' v).
Proof.
  intros [Hi Hv] Hp. wp_last om_value_spec as (-> & Hi' & Hv'); [assumption..|].
  split; [apply Hv|]. split; [assumption|]. now rewrite Hv'.
Qed.

Lemma set_value_holds p b m v :
  holds m v -> lin p < 2 ^ 32 ->
  wp (set_value p b) m (fun _ m' => holds m' (vset v (lin p) b)).
Proof.
  intros [Hi Hv] Hp. wp_last om_set_value_spec as (Hi' & Hv'); [assumption..|].
  split; [assumption|]. now rewrite Hv', Hv.
Qed.

(** The pointer the copy loops visit: it stays below 4 GiB. *)
Lemma oplus_lin p i :
  lin p < 2 ^ 24 -> 0 <= i < 2 ^ 24 ->
  exists q, oplus p i = Some q /\ lin q = lin p + i /\ lin q < 2 ^ 32.
Proof.
  intros Hp Hi. exists (addr_set (lin p + i)).
  rewrite oplus_small, lin_addr_set_small by (pose proof (lin_range p); lia).
  repeat split; lia.
Qed.

Lemma omemcpy_out_from_spec p i n m v :
  holds m v -> lin p < 2 ^ 24 -> 0 <= i -> i + Z.of_nat n <= 2 ^ 24 ->
  wp (omemcpy_out_from p i n) m
     (fun bs m' => bs = vlist v (lin p + i) n /\ holds m' v).
Proof.
  intros Hm Hp. revert i m Hm. induction n as [|n IH]; intros i m Hm Hi Hn; simpl.
  { apply wp_ret. auto. }
  destruct (oplus_lin p i) as (q & Hq & Hl & Hb); [lia..|].
  apply wp_bind. eapply wp_must; [exact Hq|].
  wp_seq value_holds as (-> & Hm'); [eassumption..|].
  wp_seq IH as (-> & Hm''); [assumption|lia|lia|].
  apply wp_ret. rewrite Hl, Z.add_assoc. auto.
Qed.

Lemma omemcpy_out_spec p n m v :
  holds m v -> lin p < 2 ^ 24 -> Z.of_nat n <= 2 ^ 24 ->
  wp (omemcpy_out p n) m (fun bs m' => bs = vlist v (lin p) n /\ holds m' v).
Proof.
  intros. wp_last omemcpy_out_from_spec as H'; [eassumption|lia..|].
  now rewrite Z.add_0_r in H'.
Qed.

Lemma omemcpy_in_from_spec p i bs m v :
  holds m v -> lin p < 2 ^ 24 -> 0 <= i -> i + Z.of_nat (length bs) <= 2 ^ 24 ->
  wp (omemcpy_in_from p i bs) m (fun _ m' => holds m' (vwrite v (lin p + i) bs)).
Proof.
  intros Hm Hp. revert i m v Hm. induction bs as [|b bs IH]; intros i m v Hm Hi Hn; simpl in *.
  { apply wp_ret. assumption. }
  destruct (oplus_lin p i) as (q & Hq & Hl & Hb); [lia..|].
  apply wp_bind. eapply wp_must; [exact Hq|].
  wp_seq set_value_holds as Hm'; [eassumption..|].
  wp_last IH as Hm''; [eassumption|lia|lia|]. now rewrite Hl, Z.add_assoc in Hm''.
Qed.

Lemma omemcpy_in_spec p bs m v :
  holds m v -> lin p < 2 ^ 24 -> Z.of_nat (length bs) <= 2 ^ 24 ->
  wp (omemcpy_in p bs) m (fun _ m' => holds m' (vwrite v (lin p) bs)).
Proof.
  intros. wp_last omemcpy_in_from_spec as H'; [eassumption|lia..|].
  now rewrite Z.add_0_r in H'.
Qed.

Lemma ocmp_index_spec p i bs m v :
  holds m v -> lin p < 2 ^ 24 -> 0 <= i -> i + Z.of_nat (length bs) <= 2 ^ 24 ->
  wp (ocmp_index p i bs) m (fun r m' => holds m' v /\
    let w := vlist v (lin p + i) (length bs) in
    (r = i + Z.of_nat (length bs) /\ memcmp w bs = Eq) \/
    (exists k x c, r = i + Z.of_nat k /\ (k < length bs)%nat /\ w !! k = Some x /\
      bs !! k = Some c /\ x <> c /\ memcmp w bs = (u8 x ?= u8 c))).
Proof.
  intros Hm Hp. revert i m Hm. induction bs as [|b bs IH]; intros i m Hm Hi Hn; simpl in Hn.
  { apply wp_ret. split; [assumption|]. left. split; [simpl; lia|reflexivity]. }
  destruct (oplus_lin p i) as (q & Hq & Hl & Hb); [lia..|]. cbn [ocmp_index].
  apply wp_bind. eapply wp_must; [exact Hq|].
  wp_seq value_holds as (-> & Hm'); [eassumption..|].
  rewrite Hl. destruct (decide (v (lin p + i) = b)) as [E|E].
  - wp_last IH as [Hm'' Hr]; [assumption|lia|lia|]. split; [assumption|].
    cbn [length vlist memcmp]. rewrite E, Z.compare_refl, <- Z.add_assoc.
    destruct Hr as [[-> Hc]|(k & x & c & -> & Hk & Hw & Hbk & Hne & Hc)].
    + left. split; [simpl; lia|assumption].
    + right. exists (S k), x, c. repeat split; try assumption; simpl; lia.
  - apply wp_ret. split; [assumption|]. right.
    exists 0%nat, (v (lin p + i)), b. cbn [length vlist memcmp].
    repeat split; try assumption; try lia.
    destruct (Z.compare_spec (u8 (v (lin p + i))) (u8 b)) as [He| |]; try reflexivity.
    exfalso. apply E, u8_inj, He.
Qed.

(** [ocmp] is [memcmp] on the bytes the pointer reaches. *)
Lemma ocmp_spec p bs m v :
  holds m v -> lin p < 2 ^ 24 -> Z.of_nat (length bs) <= 2 ^ 24 ->
  wp (ocmp p bs) m (fun r m' =>
    r = sign_of (memcmp (vlist v (lin p) (length bs)) bs) /\ holds m' v).
Proof.
  intros Hm Hp Hn. unfold ocmp.
  wp_seq (ocmp_index_spec p 0 bs) as [Hm' Hr]; [eassumption|lia..|].
  cbv zeta in Hr. rewrite Z.add_0_r in Hr.
  destruct Hr as [[-> Hc]|(k & x & c & -> & Hk & Hw & Hbk & Hne & Hc)].
  - rewrite Z.add_0_l, Z.eqb_refl. apply wp_ret. now rewrite Hc.
  - rewrite Z.add_0_l. destruct (Z.eqb_spec (Z.of_nat k) (Z.of_nat (length bs))) as [|_]; [lia|].
    destruct (oplus_lin p (Z.of_nat k)) as (q & Hq & Hl & Hb); [lia..|].
    apply wp_bind. eapply wp_must; [exact Hq|].
    wp_seq value_holds as (-> & Hm''); [eassumption..|].
    apply wp_bind. eapply wp_must; [rewrite Nat2Z.id; exact Hbk|]. apply wp_ret.
    split; [|assumption].
    rewrite vlist_lookup in Hw by assumption. injection Hw as Hx. rewrite <- Hl in Hx.
    rewrite Hc, Hx. destruct (Z.leb_spec (u8 x) (u8 c)), (Z.compare_spec (u8 x) (u8 c));
      try lia; try reflexivity. exfalso. now apply Hne, u8_inj.
Qed.
End optr_utils_specs.
