(* ===== verification/CacheTable.v ===== *)
(** miya_db page cache: the second-chance LRU ([cache_table_LRU]), the [Mapper] that
    maps 64 KiB frames of a file, and the [CacheTable] that resolves overlay
    pointers through at most three mapped frames.  The last part shows that the
    cache is invisible: it is an [OverlayMem]. *)
From S2P Require Import Prelude OverlayPtr.
From Stdlib Require Import Lia.

Definition CACHE_BLOCK_COUNT : nat := 3.

(** ** The LRU approximation (cache_table_LRU.h, cache_table_LRU.cpp) *)

Record LRU : Type := mkLRU {
  _invalidCacheList : list bool;
  _referencePtr : nat;
}.

(** [LRU()], and the [memset] of [CacheTable]'s constructor over it. *)
Definition LRU_init : LRU := mkLRU (replicate CACHE_BLOCK_COUNT false) 0.

Definition incrementReferencePtr (l : LRU) : LRU :=
  mkLRU (<[_referencePtr l := false]> (_invalidCacheList l))
        ((_referencePtr l + 1) mod CACHE_BLOCK_COUNT).

Definition reference (idx : nat) (l : LRU) : LRU :=
  mkLRU (<[idx := true]> (_invalidCacheList l)) (_referencePtr l).

(** The do-while loop of [targetOutPage]; [None] is a loop that has not ended
    within the fuel. *)
Fixpoint targetOutPage_loop (fuel : nat) (l : LRU) (i : nat) : option nat :=
  match fuel with
  | O => None
  | S fuel' =>
      match _invalidCacheList l !! (i mod CACHE_BLOCK_COUNT)%nat with
      | Some false => Some (i mod CACHE_BLOCK_COUNT)%nat
      | _ =>
          if decide (S i = ((_referencePtr l + CACHE_BLOCK_COUNT - 1) mod CACHE_BLOCK_COUNT)%nat)
          then Some (_referencePtr l)
          else targetOutPage_loop fuel' l (S i)
      end
  end.

(** Five rounds are enough by [targetOutPage_ends] below. *)
Definition targetOutPage (l : LRU) : option nat :=
  targetOutPage_loop 5 l (_referencePtr l).

(** What every completed [convert] leaves behind: the reference bit just behind
    the reference pointer is down. *)
Definition LRU_ok (l : LRU) : Prop :=
  length (_invalidCacheList l) = CACHE_BLOCK_COUNT /\
  (_referencePtr l < CACHE_BLOCK_COUNT)%nat /\
  _invalidCacheList l !! ((_referencePtr l + 2) mod CACHE_BLOCK_COUNT)%nat = Some false.

Lemma LRU_init_ok : LRU_ok LRU_init.
Proof. repeat split; vm_compute; lia. Qed.

Lemma LRU_ok_increment l :
  length (_invalidCacheList l) = CACHE_BLOCK_COUNT -> (_referencePtr l < CACHE_BLOCK_COUNT)%nat ->
  LRU_ok (incrementReferencePtr l).
Proof.
  destruct l as [bits r]; unfold CACHE_BLOCK_COUNT in *; simpl. intros Hl Hr.
  destruct bits as [|b0 [|b1 [|b2 [|]]]]; simpl in Hl; try lia.
  destruct r as [|[|[|]]]; try lia; repeat split; try reflexivity; vm_compute; lia.
Qed.

Lemma targetOutPage_found (l : LRU) :
  LRU_ok l -> exists i, targetOutPage l = Some i /\ (i < CACHE_BLOCK_COUNT)%nat.
Proof.
  destruct l as [bits r]; intros (Hl & Hr & Hb); unfold CACHE_BLOCK_COUNT in *; simpl in *.
  destruct bits as [|b0 [|b1 [|b2 [|]]]]; simpl in Hl; try lia.
  destruct r as [|[|[|]]]; try lia; simpl in Hb; injection Hb as ->;
    repeat match goal with b : bool |- _ => destruct b end;
    (eexists; split; [vm_compute; reflexivity|lia]).
Qed.

(** C39: the victim search of the page cache ends within three rounds and names one of
    the three slots, whatever the reference bits, as long as the bit behind the
    reference pointer is down -- which every completed access re-establishes. *)
Theorem targetOutPage_ends (l : LRU) (Hl : LRU_ok l) :
  exists i, targetOutPage_loop 3 l (_referencePtr l) = Some i /\ targetOutPage l = Some i /\
    (i < CACHE_BLOCK_COUNT)%nat /\
    (_invalidCacheList l !! i = Some false \/ i = _referencePtr l).
Proof.
  destruct l as [bits r], Hl as (Hl & Hr & Hb); unfold CACHE_BLOCK_COUNT in *; simpl in *.
  destruct bits as [|b0 [|b1 [|b2 [|]]]]; simpl in Hl; try lia.
  destruct r as [|[|[|]]]; try lia; simpl in Hb; injection Hb as ->;
    repeat match goal with b : bool |- _ => destruct b end;
    eexists; (split; [vm_compute; reflexivity|split; [vm_compute; reflexivity|]]);
    (split; [lia|]); vm_compute; tauto.
Qed.

Lemma targetOutPage_ends_witness :
  LRU_ok (mkLRU [true; false; true] 2) /\
  exists i, targetOutPage_loop 3 (mkLRU [true; false; true] 2) 2 = Some i /\
    targetOutPage (mkLRU [true; false; true] 2) = Some i /\ (i < CACHE_BLOCK_COUNT)%nat /\
    (_invalidCacheList (mkLRU [true; false; true] 2) !! i = Some false \/ i = 2%nat).
Proof.
  assert (H : LRU_ok (mkLRU [true; false; true] 2)) by (repeat split; vm_compute; lia).
  split; [exact H|exact (targetOutPage_ends _ H)].
Defined.

(** Without that bit the search can run for ever: all three bits up and the
    pointer at slot 1. *)
Example targetOutPage_needs_ok :
  targetOutPage_loop 1000 (mkLRU [true; true; true] 1) 1 = None.
Proof. vm_compute. reflexivity. Qed.

(** ** The mapper and the cache table (mapper.cpp, cache_table.cpp) *)

Definition DEFAULT_FRAME_CACHE_SIZE : Z := 65536.

(** The state of a [CacheTable], its [Mapper] and the file behind it.  A mapped
    region is the file offset it starts at; mappings are [MAP_SHARED], so the
    file is the one copy of the bytes. *)
Record CacheTable : Type := mkCacheTable {
  _file : gmap Z byte;
  _fileSize : Z;
  _systemPageSize : Z;
  _cacheingList : list Z;
  _mappingList : list (option Z);
  _LRU : LRU;
}.

(** [CacheTable( fd )]: nothing mapped, every cached frame number -1. *)
Definition CacheTable_init (file : gmap Z byte) (fileSize pageSize : Z) : CacheTable :=
  mkCacheTable file fileSize pageSize (replicate CACHE_BLOCK_COUNT (-1))
    (replicate CACHE_BLOCK_COUNT None) LRU_init.

(** Conversion to [short]. *)
Definition to_short (x : Z) : Z := (x + 2 ^ 15) mod 2 ^ 16 - 2 ^ 15.

(** [Mapper::map]: grows the file to hold the frame, then maps it.  [fstat],
    [ftruncate] and [mmap] succeed. *)
Definition Mapper_map (frameIdx : Z) : prog CacheTable (option Z) := fun c =>
  let totalByteCount := (frameIdx + 1) * DEFAULT_FRAME_CACHE_SIZE in
  let c1 := if _fileSize c <? totalByteCount
            then mkCacheTable (_file c) totalByteCount (_systemPageSize c) (_cacheingList c)
                   (_mappingList c) (_LRU c)
            else c in
  let offset := (frameIdx * DEFAULT_FRAME_CACHE_SIZE) mod 2 ^ 32 in
  if offset mod _systemPageSize c1 =? 0 then Ok (Some offset) c1 else Ok None c1.

(** [cacheFind]: the first slot whose [short] equals the frame. *)
Definition cacheFind (c : CacheTable) (frame : Z) : option nat :=
  fst <$> list_find (fun x => x = frame) (_cacheingList c).

Definition set_LRU (l : LRU) (c : CacheTable) : CacheTable :=
  mkCacheTable (_file c) (_fileSize c) (_systemPageSize c) (_cacheingList c) (_mappingList c) l.

Definition set_invalid (idx : nat) (b : bool) (l : LRU) : LRU :=
  mkLRU (<[idx := b]> (_invalidCacheList l)) (_referencePtr l).

Definition pageOut (outIdx : nat) (c : CacheTable) : CacheTable :=
  mkCacheTable (_file c) (_fileSize c) (_systemPageSize c)
    (<[outIdx := -1]> (_cacheingList c)) (<[outIdx := None]> (_mappingList c))
    (set_invalid outIdx false (_LRU c)).

Definition pageIn (outIdx : nat) (inFrame : Z) : prog CacheTable unit :=
  mapped ← Mapper_map inFrame;
  modify (fun c => mkCacheTable (_file c) (_fileSize c) (_systemPageSize c)
    (<[outIdx := to_short inFrame]> (_cacheingList c)) (<[outIdx := mapped]> (_mappingList c))
    (set_invalid outIdx true (_LRU c))).

Definition pageFault (frame : Z) : prog CacheTable nat :=
  c ← get_state;
  outPageIdx ← must (targetOutPage (_LRU c));
  _ ← modify (pageOut outPageIdx);
  _ ← pageIn outPageIdx frame;
  mret outPageIdx.

(** [convert]: the byte of the file the pointer denotes, through a mapped frame. *)
Definition convert (src : optr) : prog CacheTable Z :=
  frame ← must (frame src);
  c ← get_state;
  idx ← match cacheFind c frame with Some i => mret i | None => pageFault frame end;
  c1 ← get_state;
  ret ← must (mjoin (_mappingList c1 !! idx));
  off ← must (offset src);
  _ ← modify (fun c => set_LRU (incrementReferencePtr (reference idx (_LRU c))) c);
  mret (ret + off).

Definition file_read (pos : Z) : prog CacheTable byte := fun c =>
  if pos <? _fileSize c then Ok (default x00 (_file c !! pos)) c else Undef.

Definition file_write (pos : Z) (b : byte) : prog CacheTable unit := fun c =>
  if pos <? _fileSize c
  then Ok tt (mkCacheTable (<[pos := b]> (_file c)) (_fileSize c) (_systemPageSize c)
                (_cacheingList c) (_mappingList c) (_LRU c))
  else Undef.

(** [optr::value()] and [optr::value( unsigned char )] on a pointer that carries
    this cache table. *)
#[global] Instance CacheTable_ops : OverlayMemOps CacheTable := {
  value p := pos ← convert p; file_read pos;
  set_value p b := pos ← convert p; file_write pos b;
}.

(** ** The cache is invisible *)

(** Slot [i] is empty, or maps a frame the file is large enough for. *)
Definition slot_ok (size x : Z) (m : option Z) : Prop :=
  (x = -1 /\ m = None) \/
  exists f, 0 <= f < 65536 /\ x = to_short f /\ m = Some (f * DEFAULT_FRAME_CACHE_SIZE) /\
    (f + 1) * DEFAULT_FRAME_CACHE_SIZE <= size.

(** The part of the invariant that also holds in the middle of an access. *)
Record ct_base (c : CacheTable) : Prop := {
  ct_page : 0 < _systemPageSize c /\ DEFAULT_FRAME_CACHE_SIZE mod _systemPageSize c = 0;
  ct_bits : length (_invalidCacheList (_LRU c)) = CACHE_BLOCK_COUNT;
  ct_ref : (_referencePtr (_LRU c) < CACHE_BLOCK_COUNT)%nat;
  ct_slots : Forall2 (slot_ok (_fileSize c)) (_cacheingList c) (_mappingList c);
  ct_count : length (_cacheingList c) = CACHE_BLOCK_COUNT;
}.

Record ct_inv (c : CacheTable) : Prop := {
  ct_inv_base : ct_base c;
  ct_inv_LRU : LRU_ok (_LRU c);
}.

Lemma slot_ok_mono s s' x m : s <= s' -> slot_ok s x m -> slot_ok s' x m.
Proof. intros Hs [?|(f & ?)]; [now left|right; exists f]. intuition lia. Qed.

Lemma to_short_nonneg f x : 0 <= f < 65536 -> 0 <= x -> x = to_short f -> x = f.
Proof.
  intros Hf Hx ->. unfold to_short in *. change (2 ^ 15) with 32768 in *.
  change (2 ^ 16) with 65536 in *.
  destruct (Z_lt_ge_dec f 32768).
  - rewrite Z.mod_small by lia. lia.
  - replace (f + 32768) with (f - 32768 + 1 * 65536) in Hx by lia.
    rewrite Z_mod_plus_full, Z.mod_small in Hx by lia. lia.
Qed.

Lemma CacheTable_init_inv file size page :
  0 < page -> DEFAULT_FRAME_CACHE_SIZE mod page = 0 ->
  ct_inv (CacheTable_init file size page).
Proof.
  intros. split; [|apply LRU_init_ok]. split; simpl; auto.
  - unfold CACHE_BLOCK_COUNT. lia.
  - repeat constructor; auto.
Qed.

Lemma Mapper_map_spec c f :
  ct_base c -> 0 <= f < 65536 ->
  wp (Mapper_map f) c (fun m c' => m = Some (f * DEFAULT_FRAME_CACHE_SIZE) /\ ct_base c' /\
    (f + 1) * DEFAULT_FRAME_CACHE_SIZE <= _fileSize c' /\
    _file c' = _file c /\ _LRU c' = _LRU c).
Proof.
  intros [[Hp Hd] ? ? Hs ?] Hf. unfold wp, Mapper_map.
  match goal with |- context [if ?b then mkCacheTable ?x1 ?x2 ?x3 ?x4 ?x5 ?x6 else c] =>
    set (c1 := if b then mkCacheTable x1 x2 x3 x4 x5 x6 else c) end.
  assert (Hc1 : _systemPageSize c1 = _systemPageSize c /\ _file c1 = _file c /\
    _LRU c1 = _LRU c /\ _cacheingList c1 = _cacheingList c /\ _mappingList c1 = _mappingList c /\
    _fileSize c <= _fileSize c1 /\ (f + 1) * DEFAULT_FRAME_CACHE_SIZE <= _fileSize c1).
  { subst c1. destruct (Z.ltb_spec (_fileSize c) ((f + 1) * DEFAULT_FRAME_CACHE_SIZE));
      simpl; repeat split; lia. }
  destruct Hc1 as (E1 & E2 & E3 & E4 & E5 & Hle & Hsz). rewrite E1.
  rewrite (Z.mod_small (f * _) (2 ^ 32)) by (unfold DEFAULT_FRAME_CACHE_SIZE; lia).
  rewrite Z.mul_mod, Hd, Z.mul_0_r, Z.mod_0_l, Z.eqb_refl by lia.
  split; [reflexivity|]. split; [|auto]. split; rewrite ?E1, ?E3, ?E4, ?E5; auto.
  eapply Forall2_impl; [exact Hs|]. intros x m. now apply slot_ok_mono.
Qed.

Lemma pageFault_spec c f :
  ct_inv c -> 0 <= f < 65536 ->
  wp (pageFault f) c (fun i c' => ct_base c' /\
    _mappingList c' !! i = Some (Some (f * DEFAULT_FRAME_CACHE_SIZE)) /\
    (f + 1) * DEFAULT_FRAME_CACHE_SIZE <= _fileSize c' /\ _file c' = _file c).
Proof.
  intros [Hb Hl] Hf. destruct (targetOutPage_found _ Hl) as (i & Ht & Hi).
  unfold pageFault. apply wp_bind, wp_get, wp_bind. eapply wp_must; [exact Ht|].
  assert (Hb1 : ct_base (pageOut i c)).
  { destruct Hb as [? ? ? ? ?]. split; simpl; rewrite ?length_insert; auto.
    apply Forall2_insert; [assumption|now left]. }
  apply wp_bind, wp_modify, wp_bind. unfold pageIn. apply wp_bind.
  wp_last Mapper_map_spec as (-> & Hb2 & Hsz & Hf2 & HL); [exact Hb1|exact Hf|].
  apply wp_modify, wp_ret.
  destruct Hb2 as [? ? ? Hs Hc]. repeat split; simpl; rewrite ?length_insert; try tauto.
  - apply Forall2_insert; [assumption|]. right. exists f. auto.
  - apply list_lookup_insert_eq. rewrite <- (Forall2_length _ _ _ Hs), Hc. exact Hi.
Qed.

Lemma cacheFind_spec c f i :
  ct_base c -> 0 <= f < 65536 -> cacheFind c f = Some i ->
  _mappingList c !! i = Some (Some (f * DEFAULT_FRAME_CACHE_SIZE)) /\
  (f + 1) * DEFAULT_FRAME_CACHE_SIZE <= _fileSize c.
Proof.
  intros [_ _ _ Hs _] Hf Hi. unfold cacheFind in Hi.
  apply fmap_Some in Hi as ([i' x] & Hfind & ->). apply list_find_Some in Hfind as (Hx & -> & _).
  simpl in *. destruct (Forall2_lookup_l _ _ _ _ _ Hs Hx) as (m & Hm & [[? _]|(f' & Hf' & Ex & -> & Hsz)]).
  - lia.
  - apply to_short_nonneg in Ex; [|assumption|lia]. subst. auto.
Qed.

Lemma ct_inv_touch c i :
  ct_base c -> ct_inv (set_LRU (incrementReferencePtr (reference i (_LRU c))) c).
Proof.
  intros [? Hb Hr ? ?]. split.
  - split; simpl; rewrite ?length_insert; auto.
    apply (Nat.mod_upper_bound _ CACHE_BLOCK_COUNT). unfold CACHE_BLOCK_COUNT. lia.
  - apply LRU_ok_increment; simpl; rewrite ?length_insert; assumption.
Qed.

(** [convert] resolves a pointer below 4 GiB to the file position of its linear
    address, whether its frame was cached or had to be paged in. *)
Lemma convert_spec c p :
  ct_inv c -> lin p < 2 ^ 32 ->
  wp (convert p) c (fun pos c' => pos = lin p /\ ct_inv c' /\ lin p < _fileSize c' /\
    _file c' = _file c).
Proof.
  intros Hc Hp. pose proof (lin_range p).
  set (f := lin p / 2 ^ 16).
  assert (Hf : 0 <= f < 65536) by (subst f; split; [apply Z.div_pos|apply Z.div_lt_upper_bound]; lia).
  assert (Hdm : lin p = f * DEFAULT_FRAME_CACHE_SIZE + lin p mod 2 ^ 16)
    by (pose proof (Z.div_mod (lin p) (2 ^ 16)); unfold DEFAULT_FRAME_CACHE_SIZE; subst f; lia).
  pose proof (Z.mod_pos_bound (lin p) (2 ^ 16) ltac:(lia)) as Hm.
  unfold convert. apply wp_bind. eapply wp_must; [apply frame_spec; assumption|]. fold f.
  apply wp_bind, wp_get, wp_bind.
  eapply wp_mono with (P := fun i c' => ct_base c' /\
    _mappingList c' !! i = Some (Some (f * DEFAULT_FRAME_CACHE_SIZE)) /\
    (f + 1) * DEFAULT_FRAME_CACHE_SIZE <= _fileSize c' /\ _file c' = _file c).
  - destruct (cacheFind c f) as [i|] eqn:Hi; [|now apply pageFault_spec].
    apply wp_ret. destruct Hc as [Hb _]. destruct (cacheFind_spec _ _ _ Hb Hf Hi). auto.
  - intros i c' (Hb & Hi & Hsz & Hfile).
    apply wp_bind, wp_get, wp_bind. eapply wp_must; [rewrite Hi; reflexivity|].
    apply wp_bind. eapply wp_must; [apply offset_spec|].
    apply wp_bind, wp_modify, wp_ret.
    split; [lia|]. split; [now apply ct_inv_touch|]. simpl. split; [|assumption].
    unfold DEFAULT_FRAME_CACHE_SIZE in *. lia.
Qed.

Definition ct_view (c : CacheTable) (a : Z) : byte := default x00 (_file c !! a).

Lemma CacheTable_value_ok p c :
  ct_inv c -> lin p < 2 ^ 32 ->
  wp (value p) c (fun x c' => x = ct_view c (lin p) /\ ct_inv c' /\ ct_view c' ≡v ct_view c).
Proof.
  intros Hc Hp. cbn [value CacheTable_ops].
  wp_seq convert_spec as (-> & Hc' & Hsz & Hf); [assumption..|].
  unfold wp, file_read. apply Z.ltb_lt in Hsz. rewrite Hsz. unfold ct_view, view_eq.
  rewrite Hf. auto.
Qed.

Lemma CacheTable_set_value_ok p b c :
  ct_inv c -> lin p < 2 ^ 32 ->
  wp (set_value p b) c (fun _ c' => ct_inv c' /\ ct_view c' ≡v vset (ct_view c) (lin p) b).
Proof.
  intros Hc Hp. cbn [set_value CacheTable_ops].
  wp_seq convert_spec as (-> & [[? ? ? ? ?] ?] & Hsz & Hf); [assumption..|].
  unfold wp, file_write. apply Z.ltb_lt in Hsz. rewrite Hsz.
  split; [split; [split|]; simpl; auto|]. intros a. unfold ct_view, vset. simpl. rewrite Hf.
  destruct (Z.eqb_spec a (lin p)) as [->|Hne].
  - now rewrite lookup_insert_eq.
  - now rewrite lookup_insert_ne by congruence.
Qed.

#[global] Instance CacheTable_mem : OverlayMem CacheTable := {
  om_inv := ct_inv;
  om_view := ct_view;
  om_value_spec p c := CacheTable_value_ok p c;
  om_set_value_spec p b c := CacheTable_set_value_ok p b c;
}.

(** C12: the page cache refines a flat byte array: below 4 GiB [optr::value] reads the byte
    of the file at the pointer's linear address and leaves every byte as it was,
    and [optr::value( b )] stores [b] there and nowhere else, for every state of
    the cache slots and reference bits an access can leave behind; neither access
    fails. *)
Theorem CacheTable_refines_bytes (c : CacheTable) (p : optr) (b : byte)
  (Hc : ct_inv c) (Hp : lin p < 2 ^ 32) :
  wp (value p) c (fun x c' => x = ct_view c (lin p) /\ ct_inv c' /\ ct_view c' ≡v ct_view c) /\
  wp (set_value p b) c (fun _ c' => ct_inv c' /\ ct_view c' ≡v vset (ct_view c) (lin p) b).
Proof.
  split; [now apply CacheTable_value_ok|now apply CacheTable_set_value_ok].
Qed.

Definition CacheTable_sample : CacheTable :=
  CacheTable_init {[ 70000 := x2a ]} 65536 4096.

Lemma CacheTable_refines_bytes_witness :
  (ct_inv CacheTable_sample /\ lin (addr_set 70000) < 2 ^ 32) /\
  wp (value (addr_set 70000)) CacheTable_sample
     (fun x c' => x = ct_view CacheTable_sample (lin (addr_set 70000)) /\ ct_inv c' /\
                  ct_view c' ≡v ct_view CacheTable_sample).
Proof.
  assert (H1 : ct_inv CacheTable_sample) by (apply CacheTable_init_inv; vm_compute; reflexivity).
  assert (H2 : lin (addr_set 70000) < 2 ^ 32) by (vm_compute; reflexivity).
  split; [split; assumption|].
  exact (proj1 (CacheTable_refines_bytes CacheTable_sample (addr_set 70000) x00 H1 H2)).
Defined.


(** ** A flat memory with the same interface, used to run the code above it *)

Record FlatMem : Type := mkFlat { fm_bytes : gmap Z byte }.

#[global] Instance FlatMem_ops : OverlayMemOps FlatMem := {
  value p m := Ok (default x00 (fm_bytes m !! lin p)) m;
  set_value p b m := Ok tt (mkFlat (<[lin p := b]> (fm_bytes m)));
}.

Definition fm_view (m : FlatMem) (a : Z) : byte := default x00 (fm_bytes m !! a).

#[global] Instance FlatMem_mem : OverlayMem FlatMem.
Proof.
  refine {| om_inv := fun _ => True; om_view := fm_view |}.
  - intros p m _ _. apply wp_intro with (1 := eq_refl). repeat split.
  - intros p b m _ _. apply wp_intro with (1 := eq_refl). split; [exact I|].
    intros a. unfold fm_view, vset. simpl. destruct (Z.eqb_spec a (lin p)) as [->|Hne].
    + now rewrite lookup_insert_eq.
    + now rewrite lookup_insert_ne by congruence.
Defined.

Lemma flat_holds m : holds m (fm_view m).
Proof. split; [exact I|reflexivity]. Qed.
