(* ===== verification/ControlBlock.v ===== *)
(** miya_db free-list file: the meta block ([meta_block.cpp]) and the 20-byte control
    blocks ([control_block.cpp]) stored in it, as reads and writes through
    overlay pointers.  Every field is a 5-byte cell at a multiple of five, so a
    memory is related to a function from cell addresses to 40-bit integers. *)
From S2P Require Import Prelude OverlayPtr.
From Stdlib Require Import Lia.

(** ** Layout (overlay_memory_allocator.h) *)

Definition PREV_FREE_BLOCK_OPTR_LENGTH : Z := 5.
Definition MAPPING_OPTR_OFFSET : Z := 10.
Definition FREE_BLOCK_END_OPTR_OFFSET : Z := 15.
Definition FREE_BLOCK_CONTROL_BLOCK_LENGTH : Z := 20.
Definition CONTROL_BLOCK_LENGTH : nat := 5.
Definition DB_STATE_LENGTH : nat := 20.
Definition META_BLOCK_SIZE : Z := 100.
Definition CONTROL_BLOCK_HEAD_OFFSET : Z := 15.
Definition ALLOCATED_BLOCK_HEAD_OFFSET : Z := 20.
Definition UNUSED_BLOCK_HEAD_OFFSET : Z := 25.
Definition CONTROL_BLOCK_TAIL_OFFSET : Z := 30.
Definition DB_STATE_OFFSET : Z := 50.

(** The 15 characters of [FORMAT_ID], "HELLOMIYACOIN!!". *)
Definition FORMAT_ID : list byte :=
  [x48; x45; x4c; x4c; x4f; x4d; x49; x59; x41; x43; x4f; x49; x4e; x21; x21].

Definition zero_bytes (n : nat) : list byte := replicate n x00.

Section ControlBlock.
Context {M : Type} `{ops : !OverlayMemOps M}.

(** ** Control blocks: a block is the pointer [_blockOptr] to its first byte *)

Definition read_optr (p : optr) : prog M optr :=
  bs ← omemcpy_out p CONTROL_BLOCK_LENGTH; must (optr_of_bytes bs).

Definition prevControlBlock (b : optr) : prog M optr := read_optr b.

Definition set_prevControlBlock (b target : optr) : prog M unit :=
  omemcpy_in b (addr target).

Definition nextControlBlock (b : optr) : prog M optr :=
  p ← must (oplus b PREV_FREE_BLOCK_OPTR_LENGTH); read_optr p.

Definition set_nextControlBlock (b target : optr) : prog M unit :=
  p ← must (oplus b PREV_FREE_BLOCK_OPTR_LENGTH); omemcpy_in p (addr target).

Definition mappingOptr (b : optr) : prog M optr :=
  p ← must (oplus b MAPPING_OPTR_OFFSET); read_optr p.

Definition set_mappingOptr (b target : optr) : prog M unit :=
  p ← must (oplus b MAPPING_OPTR_OFFSET); omemcpy_in p (addr target).

(** Five zero bytes stand for "no end". *)
Definition freeBlockEnd (b : optr) : prog M (option optr) :=
  p ← must (oplus b FREE_BLOCK_END_OPTR_OFFSET);
  r ← ocmp p (zero_bytes 5);
  if r =? 0 then mret None
  else
    p ← must (oplus b FREE_BLOCK_END_OPTR_OFFSET);
    q ← read_optr p;
    mret (Some q).

Definition set_freeBlockEnd (b : optr) (target : option optr) : prog M unit :=
  p ← must (oplus b FREE_BLOCK_END_OPTR_OFFSET);
  match target with
  | None => omemcpy_in p (zero_bytes 5)
  | Some t => omemcpy_in p (addr t)
  end.

(** End minus start in [uint64_t]; 0 when there is no end. *)
Definition freeBlockSize (b : optr) : prog M Z :=
  mp ← mappingOptr b;
  ulControlBlockOptr ← must (weighted_addr mp);
  e ← freeBlockEnd b;
  match e with
  | None => mret 0
  | Some _ =>
      e2 ← freeBlockEnd b;
      ep ← must e2;
      ulFreeBlockEndOptr ← must (weighted_addr ep);
      mret ((ulFreeBlockEndOptr - ulControlBlockOptr) mod 2 ^ 64)
  end.

(** ** The meta block: [_primaryOptr] is the non-null pointer to address 0 *)

Definition primaryOptr : optr := addrZero.

(** The body shared by [freeBlockHead()], [allocatedBlockHead()] and
    [unUsedControlBlockHead()]: no block when the five bytes are zero. *)
Definition get_head (off : Z) : prog M (option optr) :=
  p ← must (oplus primaryOptr off);
  r ← ocmp p (zero_bytes 5);
  if r =? 0 then mret None
  else
    p ← must (oplus primaryOptr off);
    q ← read_optr p;
    mret (Some q).

Definition freeBlockHead : prog M (option optr) := get_head CONTROL_BLOCK_HEAD_OFFSET.
Definition allocatedBlockHead : prog M (option optr) := get_head ALLOCATED_BLOCK_HEAD_OFFSET.
Definition unUsedControlBlockHead : prog M (option optr) := get_head UNUSED_BLOCK_HEAD_OFFSET.

Definition write_head (off : Z) (bs : list byte) : prog M unit :=
  p ← must (oplus primaryOptr off); omemcpy_in p bs.

(** The body shared by the three setters: clears the head, starts a ring of
    one, or links the block in front of the head and makes it the head. *)
Definition set_head (off : Z) (target : option optr) : prog M unit :=
  match target with
  | None => write_head off (zero_bytes 5)
  | Some t =>
      h ← get_head off;
      match h with
      | None =>
          _ ← write_head off (addr t);
          h1 ← (get_head off ≫= must);
          h2 ← (get_head off ≫= must);
          _ ← set_prevControlBlock h1 h2;
          h1 ← (get_head off ≫= must);
          h2 ← (get_head off ≫= must);
          set_nextControlBlock h1 h2
      | Some _ =>
          h ← (get_head off ≫= must);
          _ ← set_nextControlBlock t h;
          h ← (get_head off ≫= must);
          hp ← prevControlBlock h;
          _ ← set_prevControlBlock t hp;
          h ← (get_head off ≫= must);
          hp ← prevControlBlock h;
          _ ← set_nextControlBlock hp t;
          h ← (get_head off ≫= must);
          _ ← set_prevControlBlock h t;
          write_head off (addr t)
      end
  end.

Definition set_freeBlockHead : option optr -> prog M unit := set_head CONTROL_BLOCK_HEAD_OFFSET.
Definition set_allocatedBlockHead : option optr -> prog M unit :=
  set_head ALLOCATED_BLOCK_HEAD_OFFSET.
Definition set_unUsedControlBlockHead : option optr -> prog M unit :=
  set_head UNUSED_BLOCK_HEAD_OFFSET.

(** [useUnUsedControlBlockHead]: hands out the head of the unused ring. *)
Definition useUnUsedControlBlockHead : prog M (option optr) :=
  h ← get_head UNUSED_BLOCK_HEAD_OFFSET;
  match h with
  | None => mret None
  | Some r =>
      n ← nextControlBlock r;
      _ ← (if optr_eqb r n then set_unUsedControlBlockHead None
           else
             n ← nextControlBlock r;
             p ← prevControlBlock r;
             _ ← set_prevControlBlock n p;
             p ← prevControlBlock r;
             n ← nextControlBlock r;
             _ ← set_nextControlBlock p n;
             n ← nextControlBlock r;
             set_unUsedControlBlockHead (Some n));
      mret (Some r)
  end.

Definition set_controlBlockTail (target : option optr) : prog M unit :=
  match target with
  | None => write_head CONTROL_BLOCK_TAIL_OFFSET (zero_bytes 5)
  | Some t => write_head CONTROL_BLOCK_TAIL_OFFSET (addr t)
  end.

Definition controlBlockTail : prog M (option optr) :=
  p ← must (oplus primaryOptr CONTROL_BLOCK_TAIL_OFFSET);
  q ← read_optr p;
  mret (if optr_eqb q addrZero then None else Some q).

(** [dbState( target )] with a non-null 20-byte target, and its getter. *)
Definition set_dbState (target : list byte) : prog M unit :=
  p ← must (oplus primaryOptr DB_STATE_OFFSET); omemcpy_in p (take DB_STATE_LENGTH target).

Definition dbState : prog M (list byte) :=
  p ← must (oplus primaryOptr DB_STATE_OFFSET); omemcpy_out p DB_STATE_LENGTH.

Definition isFileFormatted : prog M bool :=
  r ← ocmp primaryOptr FORMAT_ID; mret (r =? 0).
End ControlBlock.

(** ** Cells *)

(** The 40-bit integer stored in the five bytes at [a]. *)
Definition cell (v : Z -> byte) (a : Z) : Z := be_decode (vlist v a 5).

Definition cupd (c : Z -> Z) (a z : Z) : Z -> Z := fun x => if x =? a then z else c x.

(** [cholds m c]: the memory is well formed and its cells at multiples of five
    below 2^24 + 15 contain [c]. *)
Definition cholds {M} `{OverlayMem M} (m : M) (c : Z -> Z) : Prop :=
  exists v, holds m v /\ forall a, a mod 5 = 0 -> cell v a = c a.

Lemma cell_vwrite_same v a bs : length bs = 5%nat -> cell (vwrite v a bs) a = be_decode bs.
Proof. intros Hl. unfold cell. rewrite <- Hl at 1. now rewrite vlist_vwrite_same. Qed.

Lemma cell_vwrite_other v a bs x :
  a mod 5 = 0 -> x mod 5 = 0 -> x <> a -> length bs = 5%nat ->
  cell (vwrite v a bs) x = cell v x.
Proof.
  intros Ha Hx Hne Hl. unfold cell. rewrite vlist_vwrite_other; [reflexivity|].
  rewrite Hl. pose proof (Z.div_mod a 5). pose proof (Z.div_mod x 5). lia.
Qed.

Lemma cupd_eq c a z : cupd c a z a = z.
Proof. unfold cupd. now rewrite Z.eqb_refl. Qed.

Lemma cupd_ne c a z x : x <> a -> cupd c a z x = c x.
Proof. unfold cupd. intros. destruct (Z.eqb_spec x a); [contradiction|reflexivity]. Qed.

Lemma cell_range v a : 0 <= cell v a < 2 ^ 40.
Proof.
  pose proof (be_decode_range (vlist v a 5)) as H. now rewrite vlist_length in H.
Qed.

(** A usable control block: one of the 20-byte records that follow the 100-byte
    meta block, below 2^24.  The fields of two blocks never overlap. *)
Definition blk (b : Z) : Prop := exists k, b = 20 * k /\ 5 <= k < 838860.

Definition next_of (c : Z -> Z) (b : Z) : Z := c (b + 5).
Definition prev_of (c : Z -> Z) (b : Z) : Z := c b.
Definition mapping_of (c : Z -> Z) (b : Z) : Z := c (b + 10).
Definition end_of (c : Z -> Z) (b : Z) : Z := c (b + 15).

Lemma mod5_add b k : b mod 5 = 0 -> k mod 5 = 0 -> (b + k) mod 5 = 0.
Proof. intros Hb Hk. now rewrite Z.add_mod, Hb, Hk by lia. Qed.

Lemma blk_bounds b : blk b -> 100 <= b < 2 ^ 24 - 20 /\ b mod 5 = 0.
Proof.
  intros (k & -> & Hk). split; [lia|]. replace (20 * k) with (4 * k * 5) by lia.
  apply Z_mod_mult.
Qed.

Lemma blk_add b k : blk b -> 0 <= k <= 15 -> k mod 5 = 0 -> 0 <= b + k < 2 ^ 24 /\ (b + k) mod 5 = 0.
Proof. intros Hb ? ?. apply blk_bounds in Hb as [? ?]. split; [lia|now apply mod5_add]. Qed.

(** Side conditions on the constant offsets. *)
Ltac off_solve :=
  unfold PREV_FREE_BLOCK_OPTR_LENGTH, MAPPING_OPTR_OFFSET, FREE_BLOCK_END_OPTR_OFFSET,
    CONTROL_BLOCK_HEAD_OFFSET, ALLOCATED_BLOCK_HEAD_OFFSET, UNUSED_BLOCK_HEAD_OFFSET,
    CONTROL_BLOCK_TAIL_OFFSET in *;
  solve [assumption | reflexivity | lia].

Section cell_specs.
Context {M : Type} `{mem : OverlayMem M}.

Lemma cholds_range m c a : cholds m c -> a mod 5 = 0 -> 0 <= c a < 2 ^ 40.
Proof. intros (v & _ & Hc) Ha. rewrite <- Hc by assumption. apply cell_range. Qed.

Lemma cholds_ext m c c' :
  cholds m c -> (forall a, a mod 5 = 0 -> c a = c' a) -> cholds m c'.
Proof. intros (v & Hm & Hc) H. exists v. split; [assumption|]. intros. now rewrite Hc, H. Qed.

Lemma read_optr_cell p m c :
  cholds m c -> lin p < 2 ^ 24 -> lin p mod 5 = 0 ->
  wp (read_optr p) m (fun q m' => lin q = c (lin p) /\ cholds m' c).
Proof.
  intros (v & Hm & Hc) Hp H5. unfold read_optr.
  wp_seq (omemcpy_out_spec p) as (-> & Hm'); [eassumption|assumption|unfold CONTROL_BLOCK_LENGTH; lia|].
  assert (E : exists q, optr_of_bytes (vlist v (lin p) 5) = Some q /\
    addr q = vlist v (lin p) 5) by (eexists; split; reflexivity).
  destruct E as (q & Hq & Hqa). eapply wp_must; [exact Hq|].
  split; [|now exists v]. rewrite <- Hc by assumption. unfold lin, cell. now rewrite Hqa.
Qed.

Lemma write_cell p bs m c :
  cholds m c -> lin p < 2 ^ 24 -> lin p mod 5 = 0 -> length bs = 5%nat ->
  wp (omemcpy_in p bs) m (fun _ m' => cholds m' (cupd c (lin p) (be_decode bs))).
Proof.
  intros (v & Hm & Hc) Hp H5 Hl.
  wp_last (omemcpy_in_spec p bs) as Hm'; [eassumption|assumption|lia|].
  eexists. split; [exact Hm'|]. intros x Hx. unfold cupd. destruct (Z.eqb_spec x (lin p)) as [->|Hne].
  - now apply cell_vwrite_same.
  - rewrite cell_vwrite_other by auto. now apply Hc.
Qed.

Lemma read_at p k m c :
  cholds m c -> blk (lin p) -> 0 <= k <= 15 -> k mod 5 = 0 ->
  wp (q ← must (oplus p k); read_optr q) m
     (fun q m' => lin q = c (lin p + k) /\ cholds m' c).
Proof.
  intros Hm Hp Hk Hk5. pose proof (blk_add _ k Hp Hk Hk5).
  apply blk_bounds in Hp as [Hp ?]. destruct (oplus_lin p k) as (q & Hq & Hl & _); [lia..|].
  apply wp_bind. eapply wp_must; [exact Hq|].
  wp_last read_optr_cell as Hr; [eassumption|lia|rewrite Hl; tauto|]. now rewrite Hl in Hr.
Qed.

Lemma write_at p k bs m c :
  cholds m c -> blk (lin p) -> 0 <= k <= 15 -> k mod 5 = 0 -> length bs = 5%nat ->
  wp (q ← must (oplus p k); omemcpy_in q bs) m
     (fun _ m' => cholds m' (cupd c (lin p + k) (be_decode bs))).
Proof.
  intros Hm Hp Hk Hk5 Hb. pose proof (blk_add _ k Hp Hk Hk5).
  apply blk_bounds in Hp as [Hp ?]. destruct (oplus_lin p k) as (q & Hq & Hl & _); [lia..|].
  apply wp_bind. eapply wp_must; [exact Hq|].
  wp_last write_cell as Hr; [eassumption|lia|rewrite Hl; tauto|assumption|]. now rewrite Hl in Hr.
Qed.

Lemma nextControlBlock_spec b m c :
  cholds m c -> blk (lin b) ->
  wp (nextControlBlock b) m (fun q m' => lin q = next_of c (lin b) /\ cholds m' c).
Proof. intros. apply read_at; off_solve. Qed.

Lemma prevControlBlock_spec b m c :
  cholds m c -> blk (lin b) ->
  wp (prevControlBlock b) m (fun q m' => lin q = prev_of c (lin b) /\ cholds m' c).
Proof. intros ? [? ?]%blk_bounds. apply read_optr_cell; auto; lia. Qed.

Lemma mappingOptr_spec b m c :
  cholds m c -> blk (lin b) ->
  wp (mappingOptr b) m (fun q m' => lin q = mapping_of c (lin b) /\ cholds m' c).
Proof. intros. apply read_at; off_solve. Qed.

Lemma set_nextControlBlock_spec b t m c :
  cholds m c -> blk (lin b) ->
  wp (set_nextControlBlock b t) m (fun _ m' => cholds m' (cupd c (lin b + 5) (lin t))).
Proof. intros. apply write_at; off_solve. Qed.

Lemma set_prevControlBlock_spec b t m c :
  cholds m c -> blk (lin b) ->
  wp (set_prevControlBlock b t) m (fun _ m' => cholds m' (cupd c (lin b) (lin t))).
Proof. intros ? [? ?]%blk_bounds. apply write_cell; auto; lia. Qed.

Lemma set_mappingOptr_spec b t m c :
  cholds m c -> blk (lin b) ->
  wp (set_mappingOptr b t) m (fun _ m' => cholds m' (cupd c (lin b + 10) (lin t))).
Proof. intros. apply write_at; off_solve. Qed.

Lemma be_decode_zero5 : be_decode (zero_bytes 5) = 0.
Proof. reflexivity. Qed.

(** A five-byte field that is zero reads as "none". *)
Lemma read_nonzero p k m c :
  cholds m c -> 0 <= lin p + k < 2 ^ 24 -> lin p < 2 ^ 24 -> 0 <= k < 2 ^ 24 ->
  (lin p + k) mod 5 = 0 ->
  wp (q ← must (oplus p k); r ← ocmp q (zero_bytes 5);
      if r =? 0 then mret None
      else q ← must (oplus p k); q ← read_optr q; mret (Some q)) m
     (fun o m' => cholds m' c /\
       match o with
       | None => c (lin p + k) = 0
       | Some q => c (lin p + k) <> 0 /\ lin q = c (lin p + k)
       end).
Proof.
  intros (v & Hm & Hc) Hpk Hp Hk H5.
  destruct (oplus_lin p k) as (q & Hq & Hl & _); [lia..|].
  apply wp_bind. eapply wp_must; [exact Hq|].
  wp_seq (ocmp_spec q (zero_bytes 5)) as (-> & Hm'); [eassumption|lia|simpl; lia|].
  rewrite memcmp_be by (rewrite vlist_length; reflexivity). rewrite be_decode_zero5, Hl.
  change (be_decode (vlist v (lin p + k) (length (zero_bytes 5)))) with (cell v (lin p + k)).
  rewrite (Hc _ H5). destruct (Z.compare_spec (c (lin p + k)) 0) as [E|E|E];
    cbn [sign_of Z.eqb Pos.eqb].
  - apply wp_ret. split; [now exists v|assumption].
  - pose proof (cell_range v (lin p + k)) as Hr. rewrite Hc in Hr by assumption. lia.
  - apply wp_bind. eapply wp_must; [exact Hq|].
    wp_seq (read_optr_cell q _ c) as (Hlq & Hm''); [now exists v|lia|now rewrite Hl|].
    apply wp_ret. rewrite Hl in Hlq. split; [assumption|]. split; [lia|assumption].
Qed.

Lemma get_head_spec off m c :
  cholds m c -> 0 <= off < 2 ^ 24 -> off mod 5 = 0 ->
  wp (get_head off) m (fun o m' => cholds m' c /\
    match o with None => c off = 0 | Some q => c off <> 0 /\ lin q = c off end).
Proof. intros. apply (read_nonzero primaryOptr off); auto; change (lin primaryOptr) with 0; auto; lia. Qed.

Lemma get_head_must_spec off m c :
  cholds m c -> 0 <= off < 2 ^ 24 -> off mod 5 = 0 -> c off <> 0 ->
  wp (get_head off ≫= must) m (fun q m' => cholds m' c /\ lin q = c off).
Proof.
  intros Hm ? ? Hne. wp_seq get_head_spec giving o as (Hm' & Ho); [eassumption..|].
  destruct o as [q|]; [|contradiction]. eapply wp_must; [reflexivity|]. tauto.
Qed.

Lemma write_head_spec off bs m c :
  cholds m c -> 0 <= off < 2 ^ 24 -> off mod 5 = 0 -> length bs = 5%nat ->
  wp (write_head off bs) m (fun _ m' => cholds m' (cupd c off (be_decode bs))).
Proof.
  intros Hm Ho H5 Hl. destruct (oplus_lin primaryOptr off) as (q & Hq & Hlq & _);
    [vm_compute; reflexivity|lia|].
  apply wp_bind. eapply wp_must; [exact Hq|]. change (lin primaryOptr) with 0 in Hlq.
  rewrite Z.add_0_l in Hlq. rewrite <- Hlq. apply write_cell; auto; rewrite Hlq; auto; lia.
Qed.

Lemma freeBlockEnd_spec b m c :
  cholds m c -> blk (lin b) ->
  wp (freeBlockEnd b) m (fun o m' => cholds m' c /\
    match o with
    | None => end_of c (lin b) = 0
    | Some q => end_of c (lin b) <> 0 /\ lin q = end_of c (lin b)
    end).
Proof.
  intros Hm Hb. pose proof (blk_add _ 15 Hb) as H. apply blk_bounds in Hb.
  apply (read_nonzero b 15); auto; try lia; apply H; lia || reflexivity.
Qed.

(** [None] and [Some 0] are the same five bytes. *)
Lemma set_freeBlockEnd_spec b o m c :
  cholds m c -> blk (lin b) ->
  wp (set_freeBlockEnd b o) m
     (fun _ m' => cholds m' (cupd c (lin b + 15) (match o with Some t => lin t | None => 0 end))).
Proof.
  intros Hm Hb. unfold set_freeBlockEnd.
  destruct o as [t|]; apply (write_at b 15); off_solve.
Qed.
End cell_specs.

(** ** Doubly linked rings of control blocks *)

(** [seg c a l z]: from block [a] the next-links lead through [l] to [z], and the
    prev-links lead back. *)
Fixpoint seg (c : Z -> Z) (a : Z) (l : list Z) (z : Z) : Prop :=
  match l with
  | [] => next_of c a = z /\ prev_of c z = a
  | b :: l' => next_of c a = b /\ prev_of c b = a /\ seg c b l' z
  end.

(** The ring whose head the meta block stores at [off]; no blocks, head zero. *)
Definition ring_at (c : Z -> Z) (off : Z) (l : list Z) : Prop :=
  match l with
  | [] => c off = 0
  | h :: l' => c off = h /\ seg c h l' h
  end.

Definition blocks (l : list Z) : Prop := Forall blk l /\ NoDup l.

(** Cell [a] is not a link of a block of [l]. *)
Definition not_link (l : list Z) (a : Z) : Prop := forall e, e ∈ l -> a <> e /\ a <> e + 5.

Lemma seg_frame c c' a l z :
  seg c a l z ->
  (forall e, e ∈ a :: l -> c' (e + 5) = c (e + 5)) ->
  (forall e, e ∈ l ++ [z] -> c' e = c e) ->
  seg c' a l z.
Proof.
  revert a; induction l as [|b l IH]; intros a Hs Hn Hp; simpl in *; unfold next_of, prev_of in *.
  - rewrite Hn, Hp by set_solver. assumption.
  - destruct Hs as (H1 & H2 & Hs). rewrite Hn, Hp by set_solver.
    repeat split; try assumption. apply IH; [assumption|set_solver..].
Qed.

Fixpoint last_block (a : Z) (l : list Z) : Z :=
  match l with [] => a | b :: l' => last_block b l' end.

Lemma last_block_in a l : last_block a l ∈ a :: l.
Proof.
  revert a; induction l as [|b l IH]; intros a; simpl; [set_solver|]. specialize (IH b). set_solver.
Qed.

Lemma seg_last c a l z :
  seg c a l z -> prev_of c z = last_block a l /\ next_of c (last_block a l) = z.
Proof.
  revert a; induction l as [|b l IH]; intros a Hs; simpl in *; [tauto|].
  destruct Hs as (_ & _ & Hs). now apply IH.
Qed.

(** The last block of a segment is given a new successor. *)
Lemma seg_relink c c' a l z z' :
  seg c a l z -> NoDup (a :: l) ->
  (forall e, e ∈ a :: l -> e <> prev_of c z -> c' (e + 5) = c (e + 5)) ->
  (forall e, e ∈ l -> c' e = c e) ->
  next_of c' (prev_of c z) = z' -> prev_of c' z' = prev_of c z ->
  seg c' a l z'.
Proof.
  revert a; induction l as [|b l IH]; intros a Hs Hd Hn Hp Hz Hz'; simpl in *.
  - destruct Hs as [_ Hl]. rewrite Hl in *. tauto.
  - destruct Hs as (H1 & H2 & Hs). destruct (seg_last _ _ _ _ Hs) as [Hl _].
    assert (Ha : a <> prev_of c z).
    { rewrite Hl. intros E. apply NoDup_cons in Hd as [Hnin _]. apply Hnin. rewrite E.
      apply last_block_in. }
    unfold next_of, prev_of in *. rewrite Hn, Hp by set_solver.
    repeat split; try assumption. apply IH; try assumption.
    + now apply NoDup_cons in Hd.
    + set_solver.
    + set_solver.
Qed.

Lemma blocks_cons b l : blocks (b :: l) <-> blk b /\ b ∉ l /\ blocks l.
Proof. unfold blocks. rewrite Forall_cons, NoDup_cons. tauto. Qed.

(** Decides cell look-ups after a sequence of updates at known addresses. *)
Ltac cells :=
  unfold next_of, prev_of, mapping_of, end_of in *; unfold cupd;
  repeat match goal with
  | |- context [?x =? ?y] => destruct (Z.eqb_spec x y)
  end;
  first [reflexivity | assumption | lia | tauto | congruence].

Section ring_specs.
Context {M : Type} `{mem : OverlayMem M}.

Lemma blocks_in l e : blocks l -> e ∈ l -> exists k, e = 20 * k /\ 5 <= k < 838860.
Proof. intros [Hf _] He. rewrite Forall_forall in Hf. exact (Hf e He). Qed.

Lemma set_head_first off t m c :
  cholds m c -> 0 <= off < 100 -> off mod 5 = 0 -> blk (lin t) -> ring_at c off [] ->
  wp (set_head off (Some t)) m (fun _ m' => exists c', cholds m' c' /\
    ring_at c' off [lin t] /\ forall a, a <> off -> not_link [lin t] a -> c' a = c a).
Proof.
  intros Hm Ho H5 Ht Hr. simpl in Hr. pose proof Ht as (k & Hk & Hkr).
  unfold set_head. wp_seq (get_head_spec off) giving o as (Hm0 & Hq); [eassumption|lia|assumption|].
  destruct o as [q|]; [tauto|].
  wp_seq (write_head_spec off (addr t)) as Hm1; [eassumption|lia|assumption|reflexivity|].
  change (be_decode (addr t)) with (lin t) in Hm1.
  wp_seq (get_head_must_spec off) giving h1 as (Hm2 & E1); [eassumption|lia|assumption|rewrite cupd_eq; lia|].
  rewrite cupd_eq in E1.
  wp_seq (get_head_must_spec off) giving h2 as (Hm3 & E2); [eassumption|lia|assumption|rewrite cupd_eq; lia|].
  rewrite cupd_eq in E2.
  wp_seq (set_prevControlBlock_spec h1 h2) as Hm4; [eassumption|now rewrite E1|].
  rewrite E1, E2 in Hm4.
  wp_seq (get_head_must_spec off) giving h3 as (Hm5 & E3); [eassumption|lia|assumption|cells|].
  rewrite cupd_ne, cupd_eq in E3 by lia.
  wp_seq (get_head_must_spec off) giving h4 as (Hm6 & E4); [eassumption|lia|assumption|cells|].
  rewrite cupd_ne, cupd_eq in E4 by lia.
  wp_last (set_nextControlBlock_spec h3 h4) as Hm7; [eassumption|now rewrite E3|].
  rewrite E3, E4 in Hm7. eexists. split; [exact Hm7|]. simpl. repeat split; try (cells; fail).
  intros x Hx Hl. specialize (Hl (lin t) ltac:(set_solver)). cells.
Qed.

(** The five writes that make [t] the head in front of [h], whether or not [t]
    already is in the ring. *)
Lemma set_head_cells off t h m c :
  cholds m c -> 0 <= off < 100 -> off mod 5 = 0 -> blk (lin t) -> blk h -> blk (prev_of c h) ->
  c off = h -> lin t <> h ->
  wp (set_head off (Some t)) m (fun _ m' =>
    cholds m' (cupd (cupd (cupd (cupd (cupd c (lin t + 5) h) (lin t) (prev_of c h))
                                (prev_of c h + 5) (lin t)) h (lin t)) off (lin t))).
Proof.
  intros Hm Ho H5 Ht Hhb Hlb Hh Hne. pose proof Ht as (k & Hk & Hkr).
  pose proof Hhb as (kh & Hkh & Hkhr). pose proof Hlb as (kl & Hkl & Hklr).
  unfold set_head. wp_seq (get_head_spec off) giving o as (Hm0 & Hq); [eassumption|lia|assumption|].
  destruct o as [q|]; [|lia]. clear Hq.
  wp_seq (get_head_must_spec off) giving h1 as (Hm1 & E1); [eassumption|lia|assumption|lia|].
  wp_seq (set_nextControlBlock_spec t h1) as Hm2; [eassumption|assumption|].
  rewrite E1, Hh in Hm2.
  wp_seq (get_head_must_spec off) giving h2 as (Hm3 & E3); [eassumption|lia|assumption|cells|].
  rewrite cupd_ne, Hh in E3 by lia.
  wp_seq (prevControlBlock_spec h2) giving p1 as (E4 & Hm4); [eassumption|now rewrite E3|].
  assert (Ea1 : lin p1 = prev_of c h)
    by (rewrite E4, E3; unfold prev_of at 1; apply cupd_ne; lia).
  wp_seq (set_prevControlBlock_spec t p1) as Hm5; [eassumption|assumption|]. rewrite Ea1 in Hm5.
  set (la := prev_of c h) in *.
  wp_seq (get_head_must_spec off) giving h3 as (Hm6 & E6); [eassumption|lia|assumption|cells|].
  assert (Ea2 : lin h3 = h) by (rewrite E6; cells).
  wp_seq (prevControlBlock_spec h3) giving p2 as (E7 & Hm7); [eassumption|now rewrite Ea2|].
  assert (Ea3 : lin p2 = la).
  { rewrite E7, Ea2. unfold prev_of at 1. rewrite !cupd_ne by lia. reflexivity. }
  wp_seq (set_nextControlBlock_spec p2 t) as Hm8; [eassumption|now rewrite Ea3|].
  rewrite Ea3 in Hm8.
  wp_seq (get_head_must_spec off) giving h4 as (Hm9 & E9); [eassumption|lia|assumption|cells|].
  assert (Ea4 : lin h4 = h) by (rewrite E9; cells).
  wp_seq (set_prevControlBlock_spec h4 t) as Hm10; [eassumption|now rewrite Ea4|].
  rewrite Ea4 in Hm10.
  wp_last (write_head_spec off (addr t)) as Hm11; [eassumption|lia|assumption|reflexivity|].
  exact Hm11.
Qed.

Lemma set_head_cons off t h l m c :
  cholds m c -> 0 <= off < 100 -> off mod 5 = 0 -> blocks (lin t :: h :: l) ->
  ring_at c off (h :: l) ->
  wp (set_head off (Some t)) m (fun _ m' => exists c', cholds m' c' /\
    ring_at c' off (lin t :: h :: l) /\
    forall x, x <> off -> not_link (lin t :: h :: l) x -> c' x = c x).
Proof.
  intros Hm Ho H5 Hb [Hh Hs]. pose proof Hb as (Ht & Hth & Hbl)%blocks_cons.
  pose proof Ht as (k & Hk & Hkr). pose proof Hbl as (Hhb & Hhl & _)%blocks_cons.
  pose proof Hhb as (kh & Hkh & Hkhr).
  destruct (seg_last _ _ _ _ Hs) as [Hlast _]. pose proof (last_block_in h l) as Hin.
  rewrite <- Hlast in Hin. destruct (blocks_in _ _ Hbl Hin) as (kl & Hkl & Hklr).
  assert (Hne : lin t <> h /\ lin t <> prev_of c h)
    by (split; intros E; apply Hth; rewrite E; set_solver).
  wp_last (set_head_cells off t h) as Hc'; [eassumption|assumption..|now exists kl|assumption|tauto|].
  set (la := prev_of c h) in *. eexists. split; [exact Hc'|]. clear Hc'.
  set (c' := cupd _ off (lin t)).
  assert (Hfr : forall x, x <> off -> x <> lin t + 5 -> x <> lin t -> x <> la + 5 -> x <> h ->
                          c' x = c x) by (intros; subst c'; cells).
  split; [split; [apply cupd_eq|cbn [seg]]|].
  - split; [subst c'; cells|]. split; [subst c'; cells|].
    apply (seg_relink c _ _ _ h); [assumption|apply Hbl|..]; fold la.
    + intros e He Hep. destruct (blocks_in _ _ Hbl He) as (ke & ? & ?).
      assert (e <> lin t) by (intros ->; contradiction). apply Hfr; lia.
    + intros e He. assert (He' : e ∈ h :: l) by set_solver.
      destruct (blocks_in _ _ Hbl He') as (ke & ? & ?).
      assert (e <> lin t) by (intros ->; contradiction).
      assert (e <> h) by (intros ->; contradiction). apply Hfr; lia.
    + subst c'. cells.
    + subst c'. cells.
  - intros x Hx Hl. pose proof (Hl (lin t) ltac:(set_solver)). pose proof (Hl h ltac:(set_solver)).
    pose proof (Hl la ltac:(apply elem_of_cons; now right)).
    apply Hfr; tauto.
Qed.

(** Inserting a fresh block in front of a ring of any length. *)
Lemma set_head_insert off t l m c :
  cholds m c -> 0 <= off < 100 -> off mod 5 = 0 -> blocks (lin t :: l) -> ring_at c off l ->
  wp (set_head off (Some t)) m (fun _ m' => exists c', cholds m' c' /\
    ring_at c' off (lin t :: l) /\ forall x, x <> off -> not_link (lin t :: l) x -> c' x = c x).
Proof.
  intros Hm Ho H5 Hb Hr. destruct l as [|h l].
  - apply set_head_first; auto. now apply blocks_cons in Hb.
  - now apply set_head_cons.
Qed.
End ring_specs.
