(* ===== verification/Allocator.v ===== *)
(** miya_db overlay memory allocator ([overlay_memory_allocator.cpp]): allocation,
    deallocation and merging over the rings of control blocks.  Loops and
    recursions take fuel; running out of it is [Undef]. *)
From S2P Require Import Prelude OverlayPtr CacheTable ControlBlock.
From Stdlib Require Import Lia.

Section Allocator.
Context {M : Type} `{ops : !OverlayMemOps M}.

(** The do-while search shared by [findFreeBlock( optr* )] and
    [findAllocatedBlock]: the block of the ring at [off] whose mapping is
    [target], starting from [cur]. *)
Fixpoint find_block (fuel : nat) (off : Z) (target cur : optr) : prog M (option optr) :=
  match fuel with
  | O => undef
  | S fuel' =>
      mp ← mappingOptr cur;
      if optr_eqb target mp then mret (Some cur)
      else
        n ← nextControlBlock cur;
        h ← (get_head off ≫= must);
        if optr_eqb n h then mret None else find_block fuel' off target n
  end.

Definition findFreeBlock (fuel : nat) (target : optr) : prog M (option optr) :=
  h ← freeBlockHead;
  match h with
  | None => mret None
  | Some cur => find_block fuel CONTROL_BLOCK_HEAD_OFFSET target cur
  end.

Definition findAllocatedBlock (fuel : nat) (target : optr) : prog M (option optr) :=
  h ← allocatedBlockHead;
  match h with
  | None => mret None
  | Some cur => find_block fuel ALLOCATED_BLOCK_HEAD_OFFSET target cur
  end.

(** [findFreeBlock( ControlBlock*, unsigned int )]: the first block, from [b] on,
    that is unbounded or large enough. *)
Fixpoint findFreeBlock_size (fuel : nat) (b : optr) (allocateSize : Z) : prog M optr :=
  match fuel with
  | O => undef
  | S fuel' =>
      s ← freeBlockSize b;
      if s =? 0 then mret b
      else
        s ← freeBlockSize b;
        if s <? allocateSize then
          n ← nextControlBlock b;
          findFreeBlock_size fuel' n allocateSize
        else mret b
  end.

Definition newControlBlock : prog M optr :=
  t ← (controlBlockTail ≫= must);
  b ← must (oplus t FREE_BLOCK_CONTROL_BLOCK_LENGTH);
  _ ← set_controlBlockTail (Some b);
  mret b.

(** "Take an unused block, else a new one", as [allocate] and [deallocate] do. *)
Definition takeControlBlock : prog M optr :=
  u ← useUnUsedControlBlockHead;
  match u with Some b => mret b | None => newControlBlock end.

(** A head is compared with the block only when it is not null. *)
Definition is_head (off : Z) (target : optr) : prog M bool :=
  h ← get_head off;
  match h with
  | None => mret false
  | Some _ => h ← (get_head off ≫= must); mret (optr_eqb h target)
  end.

(** [toUnUsedControlBlock]: takes a block out of its ring and puts it into the
    unused ring. *)
Definition toUnUsedControlBlock (t : optr) : prog M unit :=
  p ← prevControlBlock t;
  n ← nextControlBlock t;
  if optr_eqb p t || optr_eqb n t then
    fh ← (get_head CONTROL_BLOCK_HEAD_OFFSET ≫= must);
    _ ← (if optr_eqb fh t then set_freeBlockHead None
         else
           ah ← (get_head ALLOCATED_BLOCK_HEAD_OFFSET ≫= must);
           if optr_eqb ah t then set_allocatedBlockHead None
           else
             uh ← (get_head UNUSED_BLOCK_HEAD_OFFSET ≫= must);
             if optr_eqb uh t then set_unUsedControlBlockHead None else mret ());
    set_unUsedControlBlockHead (Some t)
  else
    isFree ← is_head CONTROL_BLOCK_HEAD_OFFSET t;
    _ ← (if isFree : bool then n ← nextControlBlock t; set_freeBlockHead (Some n)
         else
           isAllocated ← is_head ALLOCATED_BLOCK_HEAD_OFFSET t;
           if isAllocated : bool then n ← nextControlBlock t; set_allocatedBlockHead (Some n)
           else
             isUnused ← is_head UNUSED_BLOCK_HEAD_OFFSET t;
             if isUnused : bool then n ← nextControlBlock t; set_unUsedControlBlockHead (Some n)
             else mret ());
    n ← nextControlBlock t;
    p ← prevControlBlock t;
    _ ← set_prevControlBlock n p;
    p ← prevControlBlock t;
    n ← nextControlBlock t;
    _ ← set_nextControlBlock p n;
    set_unUsedControlBlockHead (Some t).

(** [init()]: writes the first control block and the meta block.  The head of
    the allocated ring is left as it is. *)
Definition init : prog M unit :=
  first ← must (oplus primaryOptr META_BLOCK_SIZE);
  _ ← set_prevControlBlock first first;
  _ ← set_nextControlBlock first first;
  _ ← set_mappingOptr first addrZero;
  _ ← set_freeBlockEnd first None;
  _ ← set_freeBlockHead (Some first);
  _ ← set_controlBlockTail (Some first);
  _ ← set_unUsedControlBlockHead None;
  omemcpy_in primaryOptr FORMAT_ID.

Definition clear : prog M unit := init.

(** The constructor: formats the file unless it already is. *)
Definition OverlayMemoryAllocator_new : prog M unit :=
  f ← isFileFormatted; if f : bool then mret () else init.

(** [allocate]: the pointer returned addresses the data file. *)
Definition allocate (fuel : nat) (allocateSize : Z) : prog M optr :=
  h ← (freeBlockHead ≫= must);
  target ← findFreeBlock_size fuel h (allocateSize mod 2 ^ 32);
  newAllocatedBlock ← takeControlBlock;
  mp ← mappingOptr target;
  _ ← set_mappingOptr newAllocatedBlock mp;
  mp ← mappingOptr newAllocatedBlock;
  e ← must (oplus mp allocateSize);
  _ ← set_freeBlockEnd newAllocatedBlock (Some e);
  _ ← set_allocatedBlockHead (Some newAllocatedBlock);
  s ← freeBlockSize target;
  split ← (if s =? 0 then mret true
           else s ← freeBlockSize target; mret (allocateSize <? s));
  _ ← (if split : bool then
         newFreeBlock ← takeControlBlock;
         mp ← mappingOptr newAllocatedBlock;
         q ← must (oplus mp allocateSize);
         _ ← set_mappingOptr newFreeBlock q;
         e ← freeBlockEnd target;
         _ ← set_freeBlockEnd newFreeBlock e;
         _ ← toUnUsedControlBlock target;
         set_freeBlockHead (Some newFreeBlock)
       else toUnUsedControlBlock target);
  mappingOptr newAllocatedBlock.

(** [mergeControlBlock]: swallows the free block that starts where [t] ends. *)
Fixpoint mergeControlBlock (fuel : nat) (t : optr) : prog M unit :=
  match fuel with
  | O => undef
  | S fuel' =>
      e ← freeBlockEnd t;
      match e with
      | None => mret ()
      | Some _ =>
          e ← (freeBlockEnd t ≫= must);
          merged ← findFreeBlock fuel e;
          match merged with
          | None => mret ()
          | Some mb =>
              me ← freeBlockEnd mb;
              _ ← set_freeBlockEnd t me;
              _ ← toUnUsedControlBlock mb;
              mergeControlBlock fuel' t
          end
      end
  end.

Definition deallocate (fuel : nat) (target : optr) : prog M unit :=
  ab ← findAllocatedBlock fuel target;
  match ab with
  | None => throw RuntimeError
  | Some allocatedBlock =>
      newFreeBlock ← takeControlBlock;
      _ ← set_mappingOptr newFreeBlock target;
      e ← freeBlockEnd allocatedBlock;
      _ ← set_freeBlockEnd newFreeBlock e;
      _ ← set_freeBlockHead (Some newFreeBlock);
      _ ← toUnUsedControlBlock allocatedBlock;
      mergeControlBlock fuel newFreeBlock
  end.

(** A sequence of allocations, for the statements about whole runs. *)
Fixpoint allocate_all (fuel : nat) (sizes : list Z) : prog M (list optr) :=
  match sizes with
  | [] => mret []
  | s :: sizes' =>
      p ← allocate fuel s;
      ps ← allocate_all fuel sizes';
      mret (p :: ps)
  end.
End Allocator.

(** ** The allocator on a fresh file, executed *)

Definition empty_file : FlatMem := mkFlat ∅.

Definition lins {A} (r : result FlatMem A) (f : A -> list Z) : option (list Z) :=
  match r with Ok a _ => Some (f a) | _ => None end.

Definition run_sample : prog FlatMem (list optr) :=
  _ ← OverlayMemoryAllocator_new;
  p ← allocate 10 100; q ← allocate 10 104; r ← allocate 10 104;
  _ ← deallocate 10 q; s ← allocate 10 104; mret [p; q; r; s].

Example run_sample_ok : lins (run_sample empty_file) (map lin) = Some [0; 100; 204; 100].
Proof. vm_compute. reflexivity. Qed.

(** ** Sample states *)

(** The cells of a memory backed by a finite map. *)
Definition flat_cells (m : FlatMem) : Z -> Z := cell (fm_view m).

Lemma flat_cells_hold m : cholds m (flat_cells m).
Proof. exists (fm_view m). split; [apply flat_holds|reflexivity]. Qed.

Definition state_of {A} (r : result FlatMem A) : FlatMem :=
  match r with Ok _ m => m | Throw _ m => m | Undef => empty_file end.

(** Three 10-byte regions allocated on an empty file. *)
Definition three_regions : FlatMem :=
  state_of ((_ ← OverlayMemoryAllocator_new; allocate_all 10 [10; 10; 10]) empty_file).

(** ** Taking a control block and retiring one *)

(** What an operation may change besides the cells its specification names. *)
Definition same_except (c c' : Z -> Z) (P : Z -> Prop) : Prop := forall x, ~ P x -> c' x = c x.

Section take.
Context {M : Type} `{mem : OverlayMem M}.

Lemma optr_eqb_refl p : optr_eqb p p = true.
Proof. now apply optr_eqb_spec. Qed.

Lemma newControlBlock_spec m c tail :
  cholds m c -> c 30 = tail -> blk tail -> blk (tail + 20) ->
  wp newControlBlock m (fun b m' => cholds m' (cupd c 30 (tail + 20)) /\ lin b = tail + 20).
Proof.
  intros Hm Ht Hb Hb'. pose proof (blk_bounds _ Hb). pose proof (blk_bounds _ Hb').
  unfold newControlBlock, controlBlockTail.
  destruct (oplus_lin primaryOptr 30) as (q & Hq & Hlq & _); [vm_compute; reflexivity|lia|].
  change (lin primaryOptr) with 0 in Hlq. rewrite Z.add_0_l in Hlq.
  apply wp_bind, wp_bind, wp_bind. eapply wp_must; [exact Hq|].
  wp_seq (read_optr_cell q) giving t as (Et & Hm1); [eassumption|lia|now rewrite Hlq|].
  rewrite Hlq, Ht in Et. rewrite optr_eqb_lin, Et. change (lin addrZero) with 0.
  destruct (Z.eqb_spec tail 0) as [|_]; [lia|]. apply wp_ret. eapply wp_must; [reflexivity|].
  destruct (oplus_lin t 20) as (b & Hb1 & Hlb & _); [lia..|].
  apply wp_bind. eapply wp_must; [exact Hb1|]. cbn [set_controlBlockTail].
  wp_seq (write_head_spec 30 (addr b)) as Hm2; [eassumption|lia|reflexivity|reflexivity|].
  change (be_decode (addr b)) with (lin b) in Hm2. rewrite Hlb, Et in Hm2.
  apply wp_ret. split; [assumption|lia].
Qed.

Lemma useUnUsed_single m c u :
  cholds m c -> ring_at c 25 [u] -> blk u ->
  wp useUnUsedControlBlockHead m (fun o m' => cholds m' (cupd c 25 0) /\
    exists b, o = Some b /\ lin b = u).
Proof.
  intros Hm [Hh [Hn _]] Hu. pose proof (blk_bounds _ Hu).
  unfold useUnUsedControlBlockHead.
  wp_seq (get_head_spec 25) giving o as (Hm1 & Ho); [eassumption|lia|reflexivity|].
  destruct o as [r|]; [|lia]. destruct Ho as [_ Er]. rewrite Hh in Er.
  wp_seq (nextControlBlock_spec r) giving n as (En & Hm2); [eassumption|now rewrite Er|].
  rewrite Er, Hn in En. rewrite optr_eqb_lin, Er, En, Z.eqb_refl.
  wp_seq (write_head_spec 25 (zero_bytes 5)) as Hm3; [eassumption|lia|reflexivity|reflexivity|].
  apply wp_ret. split; [assumption|eauto].
Qed.

(** With at most one unused block, taking a block empties the unused ring and
    yields either that block or the one after the tail. *)
Lemma takeControlBlock_spec m c un tail :
  cholds m c -> ring_at c 25 un -> (length un <= 1)%nat -> Forall blk un ->
  c 30 = tail -> blk tail -> blk (tail + 20) ->
  wp takeControlBlock m (fun b m' => exists c', cholds m' c' /\ c' 25 = 0 /\
    same_except c c' (fun x => x = 25 \/ x = 30) /\
    ((un = [lin b] /\ c' 30 = tail) \/ (un = [] /\ lin b = tail + 20 /\ c' 30 = tail + 20))).
Proof.
  intros Hm Hr Hl Hf Ht Hb Hb'. unfold takeControlBlock.
  destruct un as [|u [|]]; [|..|simpl in Hl; lia].
  - unfold useUnUsedControlBlockHead. apply wp_bind, wp_bind.
    wp_last (get_head_spec 25) as (Hm1 & Ho); [eassumption|lia|reflexivity|].
    simpl in Hr. destruct a as [r|]; [tauto|]. apply wp_ret.
    wp_last newControlBlock_spec as (Hm2 & El); [eassumption..|].
    eexists. split; [exact Hm2|]. split; [cells|]. split; [intros x Hx; cells|].
    right. rewrite cupd_eq. auto.
  - wp_seq useUnUsed_single as (Hm1 & b & -> & El); [eassumption|eassumption|now apply Forall_inv in Hf|].
    apply wp_ret. eexists. split; [exact Hm1|]. split; [cells|]. split; [intros x Hx; cells|].
    left. rewrite El. split; [reflexivity|cells].
Qed.

(** Retiring the only block of the free ring. *)
Lemma toUnUsed_single_free m c t un :
  cholds m c -> ring_at c 15 [lin t] -> ring_at c 25 un -> blocks (lin t :: un) ->
  wp (toUnUsedControlBlock t) m (fun _ m' => exists c', cholds m' c' /\ c' 15 = 0 /\
    ring_at c' 25 (lin t :: un) /\
    forall x, x <> 15 -> x <> 25 -> not_link (lin t :: un) x -> c' x = c x).
Proof.
  intros Hm [Hh [Hn Hp]] Hu Hb. pose proof Hb as [Ht _]%blocks_cons.
  pose proof (blk_bounds _ Ht). unfold toUnUsedControlBlock.
  wp_seq (prevControlBlock_spec t) giving p as (Ep & Hm1); [eassumption..|].
  wp_seq (nextControlBlock_spec t) giving n as (En & Hm2); [eassumption..|].
  rewrite optr_eqb_lin, Ep, Hp, Z.eqb_refl. cbn [orb].
  wp_seq (get_head_must_spec 15) giving h as (Hm3 & Eh); [eassumption|lia|reflexivity|lia|].
  rewrite optr_eqb_lin, Eh, Hh, Z.eqb_refl.
  wp_seq (write_head_spec 15 (zero_bytes 5)) as Hm4; [eassumption|lia|reflexivity|reflexivity|].
  wp_last (set_head_insert 25 t un) as (c' & Hc' & Hr & Hfr);
    [eassumption|lia|reflexivity|assumption|..].
  - destruct un as [|u un]; [exact Hu|]. destruct Hu as [E Hs]. split; [cells|].
    eapply seg_frame; [exact Hs|..]; intros e He.
    + apply blocks_cons in Hb as (_ & _ & Hb). destruct (blocks_in _ _ Hb He) as (k & ? & ?). cells.
    + assert (He' : e ∈ u :: un) by set_solver.
      apply blocks_cons in Hb as (_ & _ & Hb). destruct (blocks_in _ _ Hb He') as (k & ? & ?). cells.
  - exists c'. split; [assumption|]. split; [|split; [assumption|]].
    + rewrite Hfr; [apply cupd_eq|lia|]. intros e He.
      destruct (blocks_in _ _ Hb He) as (k & ? & ?). lia.
    + intros x Hx1 Hx2 Hl. rewrite Hfr by assumption. cells.
Qed.
End take.

(** ** Searching a ring *)

Section find.
Context {M : Type} `{mem : OverlayMem M}.

(** The reference: the first block, in ring order, whose region starts at [z]. *)
Definition first_mapping (c : Z -> Z) (z : Z) (l : list Z) : option Z :=
  List.find (fun b => mapping_of c b =? z) l.

Definition found (c : Z -> Z) (m' : M) (o : option optr) (r : option Z) : Prop :=
  cholds m' c /\ lin <$> o = r.

Lemma find_block_spec off h l :
  0 <= off < 100 -> off mod 5 = 0 ->
  forall a fuel cur target m c,
  cholds m c -> c off = h -> blk h -> h ∉ l -> Forall blk (a :: l) -> seg c a l h ->
  lin cur = a -> (length l < fuel)%nat ->
  wp (find_block fuel off target cur) m
     (fun o m' => found c m' o (first_mapping c (lin target) (a :: l))).
Proof.
  intros Ho H5. induction l as [|b l IH]; intros a fuel cur target m c Hm Hh Hb Hni Hf Hs Hc Hl;
    (destruct fuel as [|fuel]; [simpl in Hl; lia|]);
    pose proof (Forall_inv Hf) as Ha; pose proof (blk_bounds _ Hb); cbn [find_block];
    (wp_seq (mappingOptr_spec cur) giving mp as (Em & Hm1); [eassumption|now rewrite Hc|]);
    rewrite optr_eqb_lin, Em, Hc; unfold first_mapping; cbn [List.find];
    rewrite (Z.eqb_sym (mapping_of c a)); destruct (Z.eqb_spec (lin target) (mapping_of c a)) as [Et|Et];
    try (apply wp_ret; split; [assumption|simpl; congruence]);
    (wp_seq (nextControlBlock_spec cur) giving n as (En & Hm2); [eassumption|now rewrite Hc|]);
    (wp_seq (get_head_must_spec off) giving hd as (Hm3 & Eh); [eassumption|lia|assumption|lia|]);
    rewrite optr_eqb_lin, En, Eh, Hc.
  - destruct Hs as [-> _]. rewrite Hh, Z.eqb_refl. now apply wp_ret.
  - destruct Hs as (E1 & _ & Hs). rewrite E1, Hh.
    destruct (Z.eqb_spec b h) as [->|_]; [exfalso; apply Hni; set_solver|].
    apply IH; try assumption; [set_solver|now inversion Hf| |simpl in Hl; lia].
    rewrite En, Hc. assumption.
Qed.

Lemma find_in_ring off l fuel target m c :
  0 <= off < 100 -> off mod 5 = 0 ->
  cholds m c -> ring_at c off l -> blocks l -> (length l <= fuel)%nat ->
  wp (h ← get_head off;
      match h with None => mret None | Some cur => find_block fuel off target cur end) m
     (fun o m' => found c m' o (first_mapping c (lin target) l)).
Proof.
  intros Ho H5 Hm Hr Hb Hl.
  wp_seq (get_head_spec off) giving o as (Hm1 & Hq); [eassumption|lia|assumption|].
  destruct l as [|h l]; simpl in Hr.
  - destruct o as [q|]; [lia|]. now apply wp_ret.
  - destruct Hr as [Hh Hs]. destruct (Hb) as [Hf Hd]. apply blocks_cons in Hb as (Hb & Hni & _).
    pose proof (blk_bounds _ Hb). destruct o as [q|]; [|lia]. destruct Hq as [_ Eq].
    apply (find_block_spec off h l); auto. lia.
Qed.

Lemma findAllocatedBlock_spec l fuel target m c :
  cholds m c -> ring_at c 20 l -> blocks l -> (length l <= fuel)%nat ->
  wp (findAllocatedBlock fuel target) m
     (fun o m' => found c m' o (first_mapping c (lin target) l)).
Proof. intros. now apply (find_in_ring 20). Qed.

Lemma findFreeBlock_spec l fuel target m c :
  cholds m c -> ring_at c 15 l -> blocks l -> (length l <= fuel)%nat ->
  wp (findFreeBlock fuel target) m
     (fun o m' => found c m' o (first_mapping c (lin target) l)).
Proof. intros. now apply (find_in_ring 15). Qed.

(** [deallocate] of an address at which no allocated region starts throws and
    leaves every control block as it was, whatever the ring of allocated blocks. *)
Theorem deallocate_unknown_throws l fuel target m c :
  cholds m c -> ring_at c 20 l -> blocks l -> (length l <= fuel)%nat ->
  (forall b, b ∈ l -> mapping_of c b <> lin target) ->
  exists m', deallocate fuel target m = Throw RuntimeError m' /\ cholds m' c.
Proof.
  intros Hm Hr Hb Hl Hno.
  destruct (wp_inv _ _ _ (findAllocatedBlock_spec _ _ target _ _ Hm Hr Hb Hl)) as (o & m' & E & Hm' & Eo).
  assert (Hn : first_mapping c (lin target) l = None).
  { unfold first_mapping. destruct (List.find _ l) as [b|] eqn:F; [|reflexivity].
    apply List.find_some in F as [Hin F%Z.eqb_eq]. rewrite <- list_elem_of_In in Hin.
    now destruct (Hno b Hin). }
  rewrite Hn in Eo. destruct o; [discriminate|]. exists m'. split; [|assumption].
  unfold deallocate, mbind, prog_bind. now rewrite E.
Qed.
End find.

(** ** Taking a block out of a ring *)

Lemma seg_app c a l1 t l2 z : seg c a (l1 ++ t :: l2) z <-> seg c a l1 t /\ seg c t l2 z.
Proof.
  revert a; induction l1 as [|b l1 IH]; intros a; simpl; [tauto|]. rewrite IH. tauto.
Qed.

Definition first_block (l : list Z) (z : Z) : Z := match l with [] => z | b :: _ => b end.

Lemma seg_first c a l z : seg c a l z -> next_of c a = first_block l z.
Proof. destruct l; simpl; tauto. Qed.

Lemma blocks_app_in l1 t l2 : blocks (l1 ++ t :: l2) -> t ∉ l1 ++ l2 /\ blocks (l1 ++ l2) /\ blk t.
Proof.
  unfold blocks. rewrite !Forall_app, Forall_cons, !NoDup_app, NoDup_cons. intros ((?&?&?)&?&Hx&?&?).
  specialize (Hx) as Hx'. repeat split; try assumption; [|set_solver].
  rewrite elem_of_app. intros [Hi|Hi]; [|contradiction]. apply (Hx' t Hi). set_solver.
Qed.

(** Linking the two neighbours of a block that is not the head takes exactly that
    block out of the ring. *)
Lemma unlink_middle c c' h l1 t l2 :
  blocks (h :: l1 ++ t :: l2) -> seg c h (l1 ++ t :: l2) h ->
  c' (next_of c t) = prev_of c t -> c' (prev_of c t + 5) = next_of c t ->
  (forall e, e ∈ h :: l1 ++ l2 -> e <> next_of c t -> c' e = c e) ->
  (forall e, e ∈ h :: l1 ++ l2 -> e <> prev_of c t -> c' (e + 5) = c (e + 5)) ->
  seg c' h (l1 ++ l2) h.
Proof.
  intros Hb [H1 H2]%seg_app Hn Hp Hfp Hfn.
  apply blocks_cons in Hb as (Hh & Hni & Hb). destruct (blocks_app_in _ _ _ Hb) as (Ht & Hb' & _).
  assert (Hd : NoDup (h :: l1)).
  { apply NoDup_cons. split; [set_solver|]. destruct Hb' as [_ Hb']. now apply NoDup_app in Hb'. }
  assert (Hd2 : NoDup l2 /\ forall x, x ∈ l1 -> x ∉ l2).
  { destruct Hb' as [_ Hb']. apply NoDup_app in Hb'. tauto. }
  destruct (seg_last _ _ _ _ H1) as [El _]. pose proof (last_block_in h l1) as Hin.
  rewrite <- El in Hin. set (p := prev_of c t) in *.
  pose proof (seg_first _ _ _ _ H2) as En. rewrite En in *.
  destruct l2 as [|n l2]; simpl first_block in *.
  - rewrite app_nil_r in *. apply (seg_relink c _ _ _ t); try assumption.
    intros e He. apply Hfp; [set_solver|]. intros ->. set_solver.
  - apply seg_app. split.
    + apply (seg_relink c _ _ _ t); try assumption.
      * intros e He Hne. apply Hfn; [set_solver|exact Hne].
      * intros e He. apply Hfp; [set_solver|]. intros ->. set_solver.
    + destruct H2 as (_ & _ & H2). apply (seg_frame c); [exact H2|..]; intros e He.
      * apply Hfn; [set_solver|]. intros ->. set_solver.
      * apply Hfp; [set_solver|]. destruct Hd2 as [[Hnn _]%NoDup_cons _]. set_solver.
Qed.

Lemma blocks_split l1 l2 :
  blocks (l1 ++ l2) -> blocks l1 /\ blocks l2 /\ forall x, x ∈ l1 -> x ∉ l2.
Proof. unfold blocks. rewrite Forall_app, NoDup_app. tauto. Qed.

Lemma ring_neighbours c h l1 t l2 :
  blocks (h :: l1 ++ t :: l2) -> seg c h (l1 ++ t :: l2) h ->
  prev_of c t ∈ h :: l1 ++ l2 /\ next_of c t ∈ h :: l1 ++ l2 /\
  prev_of c t <> t /\ next_of c t <> t.
Proof.
  intros Hb [H1 H2]%seg_app. apply blocks_cons in Hb as (Hh & Hni & Hb).
  destruct (blocks_app_in _ _ _ Hb) as (Ht & _ & _).
  destruct (seg_last _ _ _ _ H1) as [-> _]. rewrite (seg_first _ _ _ _ H2).
  pose proof (last_block_in h l1) as Hi.
  assert (Hj : first_block l2 h ∈ h :: l2) by (destruct l2; simpl; set_solver).
  repeat split; [set_solver|set_solver|intros E; rewrite E in Hi; set_solver|intros E; rewrite E in Hj; set_solver].
Qed.

Lemma blocks_cons' a b l :
  blocks (a :: b :: l) <-> blk a /\ a ∉ b :: l /\ blk b /\ b ∉ l /\ blocks l.
Proof. rewrite blocks_cons, (blocks_cons b). tauto. Qed.

(** The ring of unused blocks survives changes to the links of blocks outside it. *)
Lemma ring_frame c c' off l :
  ring_at c off l -> c' off = c off ->
  (forall e, e ∈ l -> c' e = c e /\ c' (e + 5) = c (e + 5)) -> ring_at c' off l.
Proof.
  destruct l as [|h l]; simpl; [congruence|]. intros [Hh Hs] Ho Hf. split; [congruence|].
  apply (seg_frame c); [assumption|..]; intros e He; apply Hf; set_solver.
Qed.

Section unlink.
Context {M : Type} `{mem : OverlayMem M}.

Lemma is_head_spec off t m c :
  cholds m c -> 0 <= off < 2 ^ 24 -> off mod 5 = 0 -> blk (lin t) ->
  wp (is_head off t) m (fun r m' => cholds m' c /\ r = (c off =? lin t)).
Proof.
  intros Hm Ho H5 Ht. pose proof (blk_bounds _ Ht). unfold is_head.
  wp_seq (get_head_spec off) giving o as (Hm1 & Hq); [eassumption..|].
  destruct o as [q|].
  - wp_seq (get_head_must_spec off) giving h as (Hm2 & Eh); [eassumption|lia|assumption|tauto|].
    apply wp_ret. split; [assumption|]. now rewrite optr_eqb_lin, Eh.
  - apply wp_ret. split; [assumption|]. rewrite Hq. symmetry. apply Z.eqb_neq. lia.
Qed.

(** The two links that take [t] out of a ring, followed by [k]. *)
Lemma unlink_cells {A} t (k : prog M A) m c Q :
  cholds m c -> blk (lin t) -> blk (prev_of c (lin t)) -> blk (next_of c (lin t)) ->
  next_of c (lin t) <> lin t -> prev_of c (lin t) <> lin t ->
  (forall m', cholds m' (cupd (cupd c (next_of c (lin t)) (prev_of c (lin t)))
                           (prev_of c (lin t) + 5) (next_of c (lin t))) -> wp k m' Q) ->
  wp (n ← nextControlBlock t; p ← prevControlBlock t; _ ← set_prevControlBlock n p;
      p ← prevControlBlock t; n ← nextControlBlock t; _ ← set_nextControlBlock p n; k) m Q.
Proof.
  intros Hm Ht Hp Hn Hnt Hpt Hk. pose proof Ht as (kt & Ekt & _). pose proof Hn as (kn & Ekn & _).
  wp_seq (nextControlBlock_spec t) giving n1 as (En1 & Hm6); [eassumption..|].
  wp_seq (prevControlBlock_spec t) giving p1 as (Ep1 & Hm7); [eassumption..|].
  wp_seq (set_prevControlBlock_spec n1 p1) as Hm8; [eassumption|now rewrite En1|].
  rewrite En1, Ep1 in Hm8. set (pz := prev_of c (lin t)) in *. set (nz := next_of c (lin t)) in *.
  wp_seq (prevControlBlock_spec t) giving p2 as (Ep2 & Hm9); [eassumption..|].
  assert (Ep2' : lin p2 = pz) by (rewrite Ep2; unfold prev_of at 1; apply cupd_ne; congruence).
  wp_seq (nextControlBlock_spec t) giving n2 as (En2 & Hm10); [eassumption..|].
  assert (En2' : lin n2 = nz) by (rewrite En2; unfold next_of at 1; apply cupd_ne; lia).
  wp_seq (set_nextControlBlock_spec p2 n2) as Hm11; [eassumption|now rewrite Ep2'|].
  rewrite Ep2', En2' in Hm11. now apply Hk.
Qed.

(** Putting a block in front of the unused ring leaves a ring of other blocks alone. *)
Lemma retire_last off t l un m c :
  cholds m c -> (off = 15 \/ off = 20) -> ring_at c off l -> ring_at c 25 un ->
  blocks (lin t :: un) -> Forall blk l -> (forall e, e ∈ l -> e ∉ lin t :: un) ->
  wp (set_unUsedControlBlockHead (Some t)) m (fun _ m' => exists c', cholds m' c' /\
    ring_at c' off l /\ ring_at c' 25 (lin t :: un) /\
    forall x, x <> 25 -> not_link (lin t :: un) x -> c' x = c x).
Proof.
  intros Hm Hoff Hr Hu Hb Hl Hout.
  wp_last (set_head_insert 25 t un) as (c' & Hc' & Hr' & Hfr'); [eassumption|lia|reflexivity|assumption..|].
  exists c'. split; [assumption|]. split; [|split; assumption].
  apply (ring_frame c); [assumption|..].
  - apply Hfr'; [lia|]. intros e He. destruct (blocks_in _ _ Hb He) as (ke & ? & ?). lia.
  - intros e He. pose proof (Hout _ He). rewrite Forall_forall in Hl.
    destruct (Hl e He) as (ke & ? & ?). split; (apply Hfr'; [lia|]; intros x Hx;
      assert (e <> x) by (intros ->; contradiction); destruct (blocks_in _ _ Hb Hx) as (kx & ? & ?); lia).
Qed.

(** The rings after the two links of [unlink_cells] have been written. *)
Lemma unlink_rings c h l1 t l2 un :
  seg c h (l1 ++ t :: l2) h -> ring_at c 25 un -> blocks ((h :: l1 ++ t :: l2) ++ un) ->
  let c1 := cupd (cupd c (next_of c t) (prev_of c t)) (prev_of c t + 5) (next_of c t) in
  seg c1 h (l1 ++ l2) h /\ ring_at c1 25 un.
Proof.
  intros Hs Hu (Hb1 & Hbu & Hdis)%blocks_split c1.
  destruct (ring_neighbours _ _ _ _ _ Hb1 Hs) as (Hpi & Hni & _ & _).
  assert (Hmem : forall e, e ∈ h :: l1 ++ l2 -> e ∈ h :: l1 ++ t :: l2) by set_solver.
  destruct (blocks_in _ _ Hb1 (Hmem _ Hpi)) as (kp & Ekp & Hkp).
  destruct (blocks_in _ _ Hb1 (Hmem _ Hni)) as (kn & Ekn & Hkn).
  subst c1. split.
  - apply (unlink_middle c _ _ _ t); try assumption.
    + rewrite cupd_ne by lia. apply cupd_eq.
    + apply cupd_eq.
    + intros e He Hne. destruct (blocks_in _ _ Hb1 (Hmem _ He)) as (ke & ? & ?).
      rewrite !cupd_ne by lia. reflexivity.
    + intros e He Hne. destruct (blocks_in _ _ Hb1 (Hmem _ He)) as (ke & ? & ?).
      rewrite !cupd_ne by lia. reflexivity.
  - apply (ring_frame c); [assumption|rewrite !cupd_ne by lia; reflexivity|]. intros e He.
    destruct (blocks_in _ _ Hbu He) as (ke & ? & ?).
    assert (e <> next_of c t) by (intros ->; apply (Hdis _ (Hmem _ Hni) He)).
    assert (e <> prev_of c t) by (intros ->; apply (Hdis _ (Hmem _ Hpi) He)).
    rewrite !cupd_ne by lia. split; reflexivity.
Qed.

(** retiring a block that is in the free or in the allocated ring, but is not
    the head of it, takes exactly that block out of its ring and puts it in
    front of the ring of unused blocks; both rings stay well linked. *)
Theorem toUnUsed_middle off h l1 t l2 un m c :
  cholds m c -> (off = 15 \/ off = 20) ->
  ring_at c off (h :: l1 ++ lin t :: l2) -> ring_at c 25 un ->
  blocks ((h :: l1 ++ lin t :: l2) ++ un) ->
  c 15 <> lin t -> c 20 <> lin t ->
  wp (toUnUsedControlBlock t) m (fun _ m' => exists c', cholds m' c' /\
    ring_at c' off (h :: l1 ++ l2) /\ ring_at c' 25 (lin t :: un)).
Proof.
  intros Hm Hoff [Hh Hs] Hu Hb Ef Ea. pose proof (unlink_rings _ _ _ _ _ _ Hs Hu Hb) as [Hring Hun].
  apply blocks_split in Hb as (Hb1 & Hbu & Hdis).
  destruct (ring_neighbours _ _ _ _ _ Hb1 Hs) as (Hpi & Hni & Hpt & Hnt).
  assert (Hmem : forall e, e ∈ h :: l1 ++ l2 -> e ∈ h :: l1 ++ lin t :: l2) by set_solver.
  pose proof Hb1 as [Hblk _]. rewrite Forall_forall in Hblk.
  assert (Hbt : blk (lin t)) by (apply Hblk; set_solver).
  pose proof (Hblk _ (Hmem _ Hpi)) as Hbp. pose proof (Hblk _ (Hmem _ Hni)) as Hbn.
  pose proof Hbp as (kp & Ekp & Hkp). pose proof Hbn as (kn & Ekn & Hkn).
  assert (Huh : c 25 <> lin t).
  { pose proof (blk_bounds _ Hbt). destruct un as [|u un]; simpl in Hu; [lia|]. destruct Hu as [-> _].
    intros ->. apply (Hdis (lin t)); set_solver. }
  unfold toUnUsedControlBlock.
  wp_seq (prevControlBlock_spec t) giving p as (Ep & Hm1); [eassumption..|].
  wp_seq (nextControlBlock_spec t) giving n as (En & Hm2); [eassumption..|].
  rewrite !optr_eqb_lin, Ep, En. rewrite (proj2 (Z.eqb_neq _ _) Hpt), (proj2 (Z.eqb_neq _ _) Hnt).
  cbn [orb].
  wp_seq (is_head_spec 15 t) giving r1 as (Hm3 & ->); [eassumption|lia|reflexivity|assumption|].
  rewrite (proj2 (Z.eqb_neq _ _) Ef). apply wp_bind.
  wp_seq (is_head_spec 20 t) giving r2 as (Hm4 & ->); [eassumption|lia|reflexivity|assumption|].
  rewrite (proj2 (Z.eqb_neq _ _) Ea).
  wp_seq (is_head_spec 25 t) giving r3 as (Hm5 & ->); [eassumption|lia|reflexivity|assumption|].
  rewrite (proj2 (Z.eqb_neq _ _) Huh). apply wp_ret.
  apply (unlink_cells t _ _ c); try assumption. intros m' Hm'.
  apply blocks_cons in Hb1 as (Hhb & Hhni & Hb1). destruct (blocks_app_in _ _ _ Hb1) as (Hy & _).
  wp_last (retire_last off t (h :: l1 ++ l2) un) as (c' & ? & ? & ? & _);
    [eassumption|assumption| |assumption| | | |now exists c'].
  - split; [rewrite !cupd_ne by lia|]; assumption.
  - apply blocks_cons. split; [assumption|]. split; [apply Hdis; set_solver|assumption].
  - apply Forall_forall. intros e He. auto.
  - intros e He [->|Hin]%elem_of_cons; [set_solver|]. now apply (Hdis e); [apply Hmem|].
Qed.

(** The cells after [t]'s successor [n] has been made the head in front of [t]. *)
Definition promoted (c : Z -> Z) (off t n : Z) : Z -> Z :=
  cupd (cupd (cupd (cupd (cupd c (n + 5) t) n (prev_of c t)) (prev_of c t + 5) n) t n) off n.

Lemma promote_next off t m c :
  cholds m c -> (off = 15 \/ off = 20) -> blk (lin t) -> blk (next_of c (lin t)) ->
  blk (prev_of c (lin t)) -> c off = lin t -> next_of c (lin t) <> lin t ->
  wp (n ← nextControlBlock t; set_head off (Some n)) m
     (fun _ m' => cholds m' (promoted c off (lin t) (next_of c (lin t)))).
Proof.
  intros Hm Hoff Ht Hn Hp Hh Hne.
  wp_seq (nextControlBlock_spec t) giving n as (En & Hm2); [eassumption..|].
  wp_last (set_head_cells off n (lin t)) as Hc';
    [eassumption|lia|destruct Hoff as [-> | ->]; reflexivity|now rewrite En|assumption..|congruence|].
  rewrite En in Hc'. exact Hc'.
Qed.

(** What the promoted ring still contains, and that a disjoint ring is untouched. *)
Lemma promoted_rings c off t n l un :
  (off = 15 \/ off = 20) -> ring_at c off (t :: n :: l) -> ring_at c 25 un ->
  blocks ((t :: n :: l) ++ un) ->
  let c1 := promoted c off t n in
  let c2 := cupd (cupd c1 n n) (n + 5) n in
  prev_of c1 t = n /\ next_of c1 t = n /\ ring_at c2 off [n] /\ ring_at c2 25 un.
Proof.
  intros Hoff [Hh Hs] Hu (Hb1 & Hbu & Hdis)%blocks_split c1 c2.
  pose proof Hb1 as (Hbt & Htn & Hbn & _)%blocks_cons'.
  destruct (seg_last _ _ _ _ Hs) as [Hlast _].
  assert (Hln : last_block t (n :: l) ∈ n :: l) by apply (last_block_in n l).
  rewrite <- Hlast in Hln. subst c1 c2. unfold promoted. set (la := prev_of c t) in *.
  destruct (blocks_in _ _ Hb1 (proj2 (elem_of_cons _ _ _) (or_intror Hln))) as (kl & Hkl & Hklr).
  assert (Hla : la <> t) by (intros E; rewrite E in Hln; contradiction).
  assert (Hnt : n <> t) by (intros E; rewrite E in Htn; set_solver).
  pose proof Hs as (Hnext & _ & _). destruct Hbt as (kt & Hkt & Hktr), Hbn as (kn & Hkn & Hknr).
  unfold next_of in Hnext. repeat split; try (clear -Hoff Hkl Hklr Hkt Hktr Hkn Hknr Hla Hnt Hnext; cells).
  apply (ring_frame c); [assumption|clear -Hoff Hkl Hklr Hkt Hktr Hkn Hknr; cells|]. intros e He.
  destruct (blocks_in _ _ Hbu He) as (ke & Hke & Hker).
  assert (e <> t /\ e <> n /\ e <> la) as (? & ? & ?).
  { repeat split; intros E; apply (Hdis e); try assumption; rewrite E; [set_solver..|].
    now apply elem_of_cons; right. }
  clear Hs Hu Hb1 Hbu Hdis Htn Hlast Hln He. split; cells.
Qed.

(** retiring the head of a free or allocated ring keeps only the block after the
    head in that ring.  For a ring of two this is right; in a longer ring every
    other block drops out of the ring and is lost to the allocator. *)
Theorem toUnUsed_head_keeps_next off t n l un m c :
  cholds m c -> (off = 15 \/ off = 20) ->
  ring_at c off (lin t :: n :: l) -> ring_at c 25 un ->
  blocks ((lin t :: n :: l) ++ un) -> (off = 20 -> c 15 <> lin t) ->
  wp (toUnUsedControlBlock t) m (fun _ m' => exists c', cholds m' c' /\
    ring_at c' off [n] /\ ring_at c' 25 (lin t :: un)).
Proof.
  intros Hm Hoff Hr Hu Hb Ef.
  destruct (promoted_rings _ _ _ _ _ _ Hoff Hr Hu Hb) as (Ep1 & En1 & Hr1 & Hu1).
  apply blocks_split in Hb as (Hb1 & Hbu & Hdis).
  pose proof Hr as [Hh Hs]. pose proof Hb1 as (Hbt & Htn & Hbn & Hnl & _)%blocks_cons'.
  destruct (seg_last _ _ _ _ Hs) as [Hlast _].
  assert (Hln : last_block (lin t) (n :: l) ∈ n :: l) by apply (last_block_in n l).
  rewrite <- Hlast in Hln. pose proof Hb1 as [Hblk _]. rewrite Forall_forall in Hblk.
  assert (Hlb : blk (prev_of c (lin t))) by (apply Hblk; set_solver).
  assert (Hla : prev_of c (lin t) <> lin t) by (intros E; rewrite E in Hln; contradiction).
  assert (Hnt : n <> lin t) by (intros E; rewrite E in Htn; set_solver).
  pose proof Hs as (Hnext & _ & _). pose proof (promote_next off t m c) as Hpro.
  rewrite Hnext in Hpro. unfold toUnUsedControlBlock.
  wp_seq (prevControlBlock_spec t) giving p as (Ep & Hm1); [eassumption..|].
  wp_seq (nextControlBlock_spec t) giving n0 as (En & Hm2); [eassumption..|].
  rewrite !optr_eqb_lin, Ep, En, Hnext, (proj2 (Z.eqb_neq _ _) Hla), (proj2 (Z.eqb_neq _ _) Hnt).
  cbn [orb].
  wp_seq (is_head_spec 15 t) giving r1 as (Hm3 & ->); [eassumption|lia|reflexivity|assumption|].
  apply wp_bind. eapply wp_mono with (P := fun _ m' => cholds m' (promoted c off (lin t) n)).
  - destruct Hoff as [-> | ->].
    + rewrite Hh, Z.eqb_refl. pose proof (promote_next 15 t) as Hp. rewrite <- Hnext.
      apply Hp; auto; now rewrite Hnext.
    + rewrite (proj2 (Z.eqb_neq _ _) (Ef eq_refl)).
      wp_seq (is_head_spec 20 t) giving r2 as (Hm4 & ->); [eassumption|lia|reflexivity|assumption|].
      rewrite Hh, Z.eqb_refl. pose proof (promote_next 20 t) as Hp. rewrite <- Hnext.
      apply Hp; auto; now rewrite Hnext.
  - intros _ m5 Hm5. eapply unlink_cells; [exact Hm5|assumption|now rewrite Ep1|now rewrite En1|congruence..|].
    rewrite Ep1, En1. intros m' Hm'.
    wp_last (retire_last off t [n] un) as (c' & ? & ? & ? & _);
      [exact Hm'|assumption|assumption|assumption|..|now exists c'].
    + apply blocks_cons. split; [assumption|]. split; [apply Hdis; set_solver|assumption].
    + now apply Forall_singleton.
    + intros e ->%list_elem_of_singleton [E|Hin]%elem_of_cons; [contradiction|].
      apply (Hdis n); set_solver.
Qed.
End unlink.

(** ** The theorems at three allocated regions

    The allocated ring is 140, 100, 120, the unused ring is 160. *)

Lemma three_allocated : ring_at (flat_cells three_regions) 20 [140; 100; 120].
Proof. vm_compute. tauto. Qed.

Lemma three_unused : ring_at (flat_cells three_regions) 25 [160].
Proof. vm_compute. tauto. Qed.

Lemma three_blocks : blocks ([140; 100; 120] ++ [160]).
Proof.
  split; [repeat constructor; [exists 7|exists 5|exists 6|exists 8]; lia|].
  apply NoDup_ListNoDup. repeat constructor; simpl; lia.
Qed.

Lemma three_blocks_allocated : blocks [140; 100; 120].
Proof. now apply (blocks_split [140; 100; 120] [160]), three_blocks. Qed.

Lemma deallocate_unknown_throws_witness :
  exists m', deallocate 3 (addr_set 7) three_regions = Throw RuntimeError m' /\
             cholds m' (flat_cells three_regions).
Proof.
  apply (deallocate_unknown_throws [140; 100; 120]).
  - apply flat_cells_hold.
  - exact three_allocated.
  - exact three_blocks_allocated.
  - simpl; lia.
  - rewrite <- Forall_forall. repeat constructor; vm_compute; discriminate.
Defined.

Lemma toUnUsed_middle_witness :
  wp (toUnUsedControlBlock (addr_set 100)) three_regions (fun _ m' => exists c', cholds m' c' /\
    ring_at c' 20 [140; 120] /\ ring_at c' 25 [100; 160]).
Proof.
  apply (toUnUsed_middle 20 140 [] (addr_set 100) [120] [160] _ (flat_cells three_regions)).
  - apply flat_cells_hold.
  - now right.
  - exact three_allocated.
  - exact three_unused.
  - exact three_blocks.
  - vm_compute; discriminate.
  - vm_compute; discriminate.
Defined.

Lemma toUnUsed_head_keeps_next_witness :
  wp (toUnUsedControlBlock (addr_set 140)) three_regions (fun _ m' => exists c', cholds m' c' /\
    ring_at c' 20 [100] /\ ring_at c' 25 [140; 160]).
Proof.
  apply (toUnUsed_head_keeps_next 20 (addr_set 140) 100 [120] [160] _ (flat_cells three_regions)).
  - apply flat_cells_hold.
  - now right.
  - exact three_allocated.
  - exact three_unused.
  - exact three_blocks.
  - intros _. vm_compute; discriminate.
Defined.
