(* ===== verification/AllocatorRuns.v ===== *)
(** Whole runs of the overlay memory allocator: allocation on a fresh file, and a
    run after which a live region can no longer be freed. *)
From S2P Require Import Prelude OverlayPtr CacheTable ControlBlock Allocator.
From Stdlib Require Import Lia.

(** ** Allocation without deallocation *)

(** The regions a run of allocations of the given sizes should hand out. *)
Fixpoint regions (start : Z) (sizes : list Z) : list (Z * Z) :=
  match sizes with
  | [] => []
  | s :: sizes' => (start, start + s) :: regions (start + s) sizes'
  end.

Definition region_of (c : Z -> Z) (b : Z) (r : Z * Z) : Prop :=
  mapping_of c b = r.1 /\ end_of c b = r.2.

(** One unbounded free block that starts at [nxt], at most one unused block, the
    allocated blocks [al] with their regions [rs], newest first, and no block
    beyond [tail]. *)
Record bump (c : Z -> Z) (nxt fb : Z) (un al : list Z) (rs : list (Z * Z)) (tail : Z) : Prop := {
  bump_free : ring_at c 15 [fb];
  bump_free_start : mapping_of c fb = nxt;
  bump_free_end : end_of c fb = 0;
  bump_unused : ring_at c 25 un;
  bump_unused_len : (length un <= 1)%nat;
  bump_allocated : ring_at c 20 al;
  bump_regions : Forall2 (region_of c) al rs;
  bump_tail : c 30 = tail;
  bump_tail_blk : blk tail;
  bump_blocks : blocks (fb :: un ++ al);
  bump_below : Forall (fun b => b <= tail) (fb :: un ++ al);
}.

Lemma region_of_frame c c' al rs :
  Forall2 (region_of c) al rs ->
  (forall b, b ∈ al -> c' (b + 10) = c (b + 10) /\ c' (b + 15) = c (b + 15)) ->
  Forall2 (region_of c') al rs.
Proof.
  intros H. induction H as [|b r al rs [H1 H2] H IH]; intros Hf; constructor.
  - unfold region_of, mapping_of, end_of in *. destruct (Hf b) as [-> ->]; [set_solver|]. now split.
  - apply IH. intros b' Hb'. apply Hf. set_solver.
Qed.

Lemma blocks_perm l1 l2 : l1 ≡ₚ l2 -> blocks l1 -> blocks l2.
Proof. intros H [Hf Hd]. split; [now rewrite <- H|now rewrite <- H]. Qed.

(** Cells a change of links does not reach. *)
Lemma not_link_meta l x : Forall blk l -> x < 100 -> not_link l x.
Proof.
  rewrite Forall_forall. intros Hf Hx e He. pose proof (blk_bounds _ (Hf e He)). lia.
Qed.

Lemma not_link_value l b k : Forall blk l -> blk b -> k = 10 \/ k = 15 -> not_link l (b + k).
Proof.
  rewrite Forall_forall. intros Hf (kb & -> & _) Hk e He. destruct (Hf e He) as (ke & -> & _). lia.
Qed.

Lemma not_link_other l b : Forall blk l -> blk b -> b ∉ l -> not_link l b /\ not_link l (b + 5).
Proof.
  rewrite Forall_forall. intros Hf (kb & Ek & _) Hn. split; intros e He;
    (assert (e <> b) by (intros ->; contradiction)); destruct (Hf e He) as (ke & -> & _); lia.
Qed.

(** Allocating [nab] for [size] bytes at the start of the free block. *)
Lemma bump_carve c c' nxt fb un al rs tail tail' nab size :
  bump c nxt fb un al rs tail -> blk (tail + 20) -> tail' = tail \/ tail' = tail + 20 ->
  blocks (nab :: fb :: al) -> Forall (fun b => b <= tail') (nab :: fb :: al) ->
  c' 25 = 0 -> c' 30 = tail' -> ring_at c' 20 (nab :: al) ->
  c' (nab + 10) = nxt -> c' (nab + 15) = nxt + size ->
  (forall x, x <> 20 -> x <> 25 -> x <> 30 -> x <> nab + 10 -> x <> nab + 15 ->
     not_link (nab :: al) x -> c' x = c x) ->
  bump c' nxt fb [] (nab :: al) ((nxt, nxt + size) :: rs) tail'.
Proof.
  intros [Hf Hfs Hfe Hu Hul Ha Hrs Ht Htb Hbl Hle] Htb' Htl Hb Hle' E25 E30 Hr20 Em Ee Hfr.
  pose proof Hb as (Hnb & Hnf & Hfb & Hfa & [Hfal _])%blocks_cons'.
  assert (Hfl : Forall blk (nab :: al)) by now constructor.
  assert (Hne : nab <> fb) by (intros ->; set_solver).
  pose proof Hnb as (kn & Ekn & Hkn). pose proof Hfb as (kf & Ekf & Hkf).
  destruct (not_link_other (nab :: al) fb) as [Hl1 Hl2]; [assumption..|set_solver|].
  constructor; try assumption.
  - apply (ring_frame c); [assumption|apply Hfr; try lia; now apply not_link_meta|].
    intros e ->%list_elem_of_singleton. split; apply Hfr; (assumption || lia).
  - unfold mapping_of in *. rewrite Hfr; try lia. apply not_link_value; auto.
  - unfold end_of in *. rewrite Hfr; try lia. apply not_link_value; auto.
  - simpl; lia.
  - constructor; [now split|]. apply (region_of_frame c); [assumption|]. intros b Hbin.
    assert (b <> nab) by (intros ->; set_solver). rewrite Forall_forall in Hfal.
    pose proof (Hfal b Hbin) as Hbb. pose proof Hbb as (kb & Ekb & Hkb).
    split; apply Hfr; try lia; apply not_link_value; auto.
  - destruct Htl as [-> | ->]; assumption.
  - apply (blocks_perm (nab :: fb :: al)); [apply Permutation_swap|assumption].
  - simpl. rewrite (Permutation_swap nab fb). assumption.
Qed.

(** Replacing the free block by [nf], which starts [size] bytes further on. *)
Lemma bump_split c c' nxt fb al rs tail tail' nf size :
  bump c nxt fb [] al rs tail -> blk (tail + 20) -> tail' = tail \/ tail' = tail + 20 ->
  blocks (nf :: fb :: al) -> Forall (fun b => b <= tail') (nf :: fb :: al) ->
  c' 30 = tail' -> ring_at c' 15 [nf] -> ring_at c' 25 [fb] ->
  c' (nf + 10) = nxt + size -> c' (nf + 15) = 0 ->
  (forall x, x <> 15 -> x <> 25 -> x <> 30 -> x <> nf + 10 -> x <> nf + 15 ->
     not_link [nf; fb] x -> c' x = c x) ->
  bump c' (nxt + size) nf [fb] al rs tail'.
Proof.
  intros [Hf Hfs Hfe Hu Hul Ha Hrs Ht Htb Hbl Hle] Htb' Htl Hb Hle' E30 Hr15 Hr25 Em Ee Hfr.
  pose proof Hb as (Hnb & Hnf & Hfb & Hfa & [Hfal _])%blocks_cons'.
  assert (Hfl : Forall blk [nf; fb]) by (repeat constructor; assumption).
  pose proof Hnb as (kn & Ekn & Hkn). rewrite Forall_forall in Hfal.
  constructor; try assumption; [reflexivity|..].
  - apply (ring_frame c); [assumption|apply Hfr; try lia; now apply not_link_meta|].
    intros e He. pose proof (Hfal e He) as Heb. pose proof Heb as (ke & Eke & Hke).
    assert (Hni : e ∉ [nf; fb]).
    { intros [->|[->|[]%elem_of_nil]%elem_of_cons]%elem_of_cons; [|contradiction].
      apply Hnf, elem_of_cons. now right. }
    destruct (not_link_other [nf; fb] e Hfl Heb Hni) as [Hl1 Hl2].
    split; apply Hfr; (assumption || lia).
  - apply (region_of_frame c); [assumption|]. intros b Hbin.
    assert (b <> nf) by (intros ->; set_solver).
    pose proof (Hfal b Hbin) as Hbb. pose proof Hbb as (kb & Ekb & Hkb).
    split; apply Hfr; try lia; apply not_link_value; auto.
  - destruct Htl as [-> | ->]; assumption.
Qed.

Section bump_steps.
Context {M : Type} `{mem : OverlayMem M}.

Lemma freeBlockSize_unbounded b m c :
  cholds m c -> blk (lin b) -> mapping_of c (lin b) < 2 ^ 24 -> end_of c (lin b) = 0 ->
  wp (freeBlockSize b) m (fun r m' => r = 0 /\ cholds m' c).
Proof.
  intros Hm Hb Hmp He. unfold freeBlockSize.
  wp_seq (mappingOptr_spec b) giving mp as (Em & Hm1); [eassumption..|].
  apply wp_bind. eapply wp_must; [apply weighted_addr_small; lia|].
  wp_seq (freeBlockEnd_spec b) giving e as (Hm2 & Hq); [eassumption..|].
  destruct e as [q|]; [tauto|]. now apply wp_ret.
Qed.

Lemma take_fresh m c un l tail :
  cholds m c -> ring_at c 25 un -> (length un <= 1)%nat -> c 30 = tail -> blk tail ->
  blk (tail + 20) -> blocks (un ++ l) -> Forall (fun b => b <= tail) (un ++ l) ->
  wp takeControlBlock m (fun b m' => exists c' tail', cholds m' c' /\ c' 25 = 0 /\
    c' 30 = tail' /\ same_except c c' (fun x => x = 25 \/ x = 30) /\
    (tail' = tail \/ tail' = tail + 20) /\ blocks (lin b :: l) /\
    Forall (fun b => b <= tail') (lin b :: l)).
Proof.
  intros Hm Hr Hl Ht Hb Hb' Hbl Hle. pose proof Hbl as [Hf Hd].
  apply Forall_app in Hf as [Hfu Hfl].
  wp_last takeControlBlock_spec as (c' & Hc' & H25 & Hs & Hcase); [eassumption..|].
  destruct Hcase as [[-> E30] | (-> & El & E30)].
  - exists c', tail. repeat split; auto; now apply Hbl.
  - exists c', (tail + 20). rewrite El. split; [assumption|]. split; [assumption|].
    split; [assumption|]. split; [assumption|]. split; [tauto|].
    simpl in Hle, Hbl. rewrite Forall_forall in Hle. split.
    + apply blocks_cons. split; [assumption|]. split; [|assumption].
      intros Hin%Hle. lia.
    + constructor; [lia|]. rewrite Forall_forall. intros x Hx%Hle. lia.
Qed.

(** The first half of [allocate]: a control block for the region is taken, filled
    in and made the head of the allocated ring. *)
Lemma carve_allocated {A} target size (k : optr -> prog M A) Q m c nxt un al rs tail :
  cholds m c -> bump c nxt (lin target) un al rs tail -> blk (tail + 20) ->
  0 < size -> 0 <= nxt -> nxt + size < 2 ^ 24 ->
  (forall nab m' c' tail', cholds m' c' -> (tail' = tail \/ tail' = tail + 20) ->
    bump c' nxt (lin target) [] (lin nab :: al) ((nxt, nxt + size) :: rs) tail' ->
    wp (k nab) m' Q) ->
  wp (nab ← takeControlBlock; mp ← mappingOptr target; _ ← set_mappingOptr nab mp;
      mp ← mappingOptr nab; e ← must (oplus mp size); _ ← set_freeBlockEnd nab (Some e);
      _ ← set_allocatedBlockHead (Some nab); k nab) m Q.
Proof.
  intros Hm Hbump Htb' Hsz Hn Hns Hk. pose proof Hbump as [Hf Hfs Hfe Hu Hul Ha Hrs Ht Htb Hbl Hle].
  assert (Hp : lin target :: un ++ al ≡ₚ un ++ lin target :: al) by apply Permutation_middle.
  wp_seq (take_fresh _ _ un (lin target :: al) tail) giving nab as (c1 & tail' & Hm1 & E25 & E30 & Hfr & Htl & Hb1 & Hle1);
    [eassumption..|now apply (blocks_perm _ _ Hp)|now rewrite <- Hp|].
  pose proof Hb1 as (Hnb & Hnt & Htgb & Htal & [Hba Hda])%blocks_cons'.
  pose proof (blk_bounds _ Hnb). pose proof (blk_bounds _ Htgb).
  wp_seq (mappingOptr_spec target) giving mp as (Em & Hm2); [eassumption..|].
  assert (Em' : lin mp = nxt) by (rewrite Em; unfold mapping_of in *; rewrite Hfr by lia; assumption).
  wp_seq (set_mappingOptr_spec nab mp) as Hm3; [eassumption..|]. rewrite Em' in Hm3.
  wp_seq (mappingOptr_spec nab) giving mp2 as (Em2 & Hm4); [eassumption..|].
  unfold mapping_of in Em2. rewrite cupd_eq in Em2.
  destruct (oplus_lin mp2 size) as (e & Ee & Ele & _); [lia..|].
  apply wp_bind. eapply wp_must; [exact Ee|].
  wp_seq (set_freeBlockEnd_spec nab (Some e)) as Hm5; [eassumption..|].
  rewrite Ele, Em2 in Hm5. set (c2 := cupd _ _ _) in Hm5.
  assert (Hfr2 : forall x, x <> 25 -> x <> 30 -> x <> lin nab + 10 -> x <> lin nab + 15 -> c2 x = c x).
  { intros. subst c2. rewrite !cupd_ne by lia. apply Hfr. lia. }
  assert (Hval : c2 25 = 0 /\ c2 30 = tail' /\ c2 (lin nab + 10) = nxt /\ c2 (lin nab + 15) = nxt + size).
  { subst c2. repeat split; [rewrite !cupd_ne by lia; assumption..|rewrite cupd_ne by lia|]; apply cupd_eq. }
  destruct Hval as (V25 & V30 & V10 & V15).
  assert (Hring20 : ring_at c2 20 al).
  { apply (ring_frame c); [assumption|apply Hfr2; lia|]. intros x Hx. rewrite Forall_forall in Hba.
    destruct (Hba _ Hx) as (kx & ? & ?). destruct Hnb as (kn & ? & ?). split; apply Hfr2; lia. }
  wp_seq (set_head_insert 20 nab al) as (c3 & Hm6 & Hr3 & Hfr3); [eassumption|lia|reflexivity| |assumption|].
  { apply blocks_cons. split; [assumption|]. split; [set_solver|now split]. }
  assert (Hfl : Forall blk (lin nab :: al)) by now constructor.
  apply (Hk nab _ c3 tail'); [assumption..|].
  apply (bump_carve c c3 _ _ un _ _ tail); try assumption;
    try (rewrite Hfr3; [assumption|lia|]; first [now apply not_link_meta|apply not_link_value; auto]).
  intros x H20 H25 H30 H10 H15 Hl. rewrite Hfr3 by assumption. now apply Hfr2.
Qed.

(** The second half, for the unbounded free block. *)
Lemma split_free target nab size m c nxt al rs tail :
  cholds m c -> bump c nxt (lin target) [] (lin nab :: al) ((nxt, nxt + size) :: rs) tail ->
  blk (tail + 20) -> 0 < size -> 0 <= nxt -> nxt + size < 2 ^ 24 ->
  wp (newFreeBlock ← takeControlBlock;
      mp ← mappingOptr nab; q ← must (oplus mp size); _ ← set_mappingOptr newFreeBlock q;
      e ← freeBlockEnd target; _ ← set_freeBlockEnd newFreeBlock e;
      _ ← toUnUsedControlBlock target; set_freeBlockHead (Some newFreeBlock)) m
     (fun _ m' => exists c' nf tail', cholds m' c' /\ (tail' = tail \/ tail' = tail + 20) /\
       bump c' (nxt + size) nf [lin target] (lin nab :: al) ((nxt, nxt + size) :: rs) tail').
Proof.
  intros Hm Hbump Htb' Hsz Hn Hns. pose proof Hbump as [Hf Hfs Hfe Hu Hul Ha Hrs Ht Htb Hbl Hle].
  wp_seq (take_fresh _ _ [] (lin target :: lin nab :: al) tail) giving nf as (c1 & tail' & Hm1 & E25 & E30 & Hfr & Htl & Hb1 & Hle1);
    [eassumption..|].
  pose proof Hb1 as (Hfb & Hft & Htgb & Htal & Hb2)%blocks_cons'.
  pose proof Hb2 as (Hnb & _)%blocks_cons. apply blocks_cons in Hbl as (_ & Htnab & _).
  assert (Hne : lin nf <> lin target) by (intros E; rewrite E in Hft; set_solver).
  assert (Hne2 : lin nf <> lin nab) by (intros E; rewrite E in Hft; set_solver).
  assert (Hne3 : lin target <> lin nab) by (intros E; rewrite E in Htnab; set_solver).
  pose proof Hfb as (kf & Ekf & Hkf). pose proof Htgb as (kt & Ekt & Hkt). pose proof Hnb as (kn & Ekn & Hkn).
  wp_seq (mappingOptr_spec nab) giving mp as (Em & Hm2); [eassumption..|].
  apply Forall2_cons in Hrs as [[Hrm _] _]. simpl in Hrm.
  assert (Em' : lin mp = nxt) by (rewrite Em; unfold mapping_of in *; rewrite Hfr by lia; assumption).
  destruct (oplus_lin mp size) as (q & Eq & Elq & _); [lia..|]. apply wp_bind. eapply wp_must; [exact Eq|].
  wp_seq (set_mappingOptr_spec nf q) as Hm3; [eassumption..|]. rewrite Elq, Em' in Hm3.
  wp_seq (freeBlockEnd_spec target) giving e as (Hm4 & He); [eassumption..|].
  assert (Ee : end_of (cupd c1 (lin nf + 10) (nxt + size)) (lin target) = 0).
  { unfold end_of in *. rewrite cupd_ne, Hfr by lia. assumption. }
  destruct e as [e|]; [tauto|]. clear He.
  wp_seq (set_freeBlockEnd_spec nf None) as Hm5; [eassumption..|]. set (c2 := cupd _ _ _) in Hm5.
  assert (Hfr2 : forall x, x <> 25 -> x <> 30 -> x <> lin nf + 10 -> x <> lin nf + 15 -> c2 x = c x).
  { intros. subst c2. rewrite !cupd_ne by lia. apply Hfr. lia. }
  assert (Hval : c2 25 = 0 /\ c2 30 = tail' /\ c2 (lin nf + 10) = nxt + size /\ c2 (lin nf + 15) = 0).
  { subst c2. repeat split; [rewrite !cupd_ne by lia; assumption..|rewrite cupd_ne by lia|]; apply cupd_eq. }
  destruct Hval as (V25 & V30 & V10 & V15).
  assert (Hring15 : ring_at c2 15 [lin target]).
  { apply (ring_frame c); [assumption|apply Hfr2; lia|]. intros x ->%list_elem_of_singleton.
    split; apply Hfr2; lia. }
  wp_seq (toUnUsed_single_free _ _ target []) as (c3 & Hm6 & V15' & Hr25 & Hfr3); [eassumption..| |].
  { apply blocks_cons. split; [assumption|]. split; [apply not_elem_of_nil|]. split; constructor. }
  assert (Hlt : Forall blk [lin target]) by now constructor.
  assert (Hlf : Forall blk [lin nf]) by now constructor.
  wp_last (set_head_insert 15 nf []) as (c4 & Hm7 & Hr15 & Hfr4); [exact Hm6|lia|reflexivity| |assumption|].
  { apply blocks_cons. split; [assumption|]. split; [apply not_elem_of_nil|]. split; constructor. }
  exists c4, (lin nf), tail'. split; [assumption|]. split; [assumption|].
  assert (Hchain : forall x, x <> 15 -> x <> 25 -> not_link [lin nf; lin target] x -> c4 x = c2 x).
  { intros x Hx1 Hx2 Hl. rewrite Hfr4, Hfr3; try assumption; [reflexivity|..];
      intros y Hy; apply Hl; set_solver. }
  assert (Hl2 : Forall blk [lin nf; lin target]) by (repeat constructor; assumption).
  apply (bump_split c c4 _ (lin target) _ _ tail); try assumption;
    try (rewrite Hchain; [assumption|lia..|]; first [now apply not_link_meta|apply not_link_value; auto]).
  - apply (ring_frame c3); [assumption|apply Hfr4; [lia|now apply not_link_meta]|].
    intros x ->%list_elem_of_singleton.
    destruct (not_link_other [lin nf] (lin target)) as [? ?]; [assumption..|set_solver|].
    split; apply Hfr4; (assumption || lia).
  - intros x H15 H25 H30 H10 H15' Hl. rewrite Hchain by assumption. now apply Hfr2.
Qed.

Lemma allocate_bump fuel size m c nxt fb un al rs tail :
  (0 < fuel)%nat -> cholds m c -> bump c nxt fb un al rs tail -> blk (tail + 20) ->
  blk (tail + 40) -> 0 < size -> 0 <= nxt -> nxt + size < 2 ^ 24 ->
  wp (allocate fuel size) m (fun p m' => lin p = nxt /\ exists c' fb' un' nab tail',
    cholds m' c' /\ tail <= tail' <= tail + 40 /\
    bump c' (nxt + size) fb' un' (nab :: al) ((nxt, nxt + size) :: rs) tail').
Proof.
  intros Hfu Hm Hbump Htb Htb' Hsz Hn Hns. pose proof Hbump as [[Hf _] Hfs Hfe _ _ _ _ _ _ Hbl _].
  apply blocks_cons in Hbl as (Hfb & _). pose proof (blk_bounds _ Hfb).
  unfold allocate. unfold freeBlockHead at 1.
  wp_seq (get_head_must_spec CONTROL_BLOCK_HEAD_OFFSET) giving h as (Hm1 & Eh); [eassumption|off_solve..|unfold CONTROL_BLOCK_HEAD_OFFSET; rewrite Hf; lia|].
  unfold CONTROL_BLOCK_HEAD_OFFSET in Eh. rewrite Hf in Eh. rewrite <- Eh in *.
  destruct fuel as [|fuel]; [lia|]. cbn [findFreeBlock_size]. apply wp_bind.
  wp_seq (freeBlockSize_unbounded h) as (-> & Hm2); [eassumption|assumption|lia|assumption|].
  rewrite Z.eqb_refl. apply wp_ret. apply (carve_allocated h size _ _ _ c nxt un al rs tail); try assumption.
  intros nab m1 c1 tail1 Hm3 Ht1 Hb1. pose proof Hb1 as [_ Hfs1 Hfe1 _ _ _ _ _ _ Hbl1 _].
  apply blocks_cons in Hbl1 as (_ & _ & (Hnb & _)%blocks_cons).
  assert (Htb1 : blk (tail1 + 20)) by (destruct Ht1 as [-> | ->]; [assumption|now rewrite <- Z.add_assoc]).
  wp_seq (freeBlockSize_unbounded h) as (-> & Hm4); [eassumption|assumption|lia|assumption|].
  rewrite Z.eqb_refl. apply wp_bind, wp_ret. apply wp_bind.
  wp_last (split_free h nab size) as (c2 & nf & tail2 & Hm5 & Ht2 & Hb2); [eassumption..|].
  wp_last (mappingOptr_spec nab) as (Em & Hm6); [eassumption..|].
  pose proof (bump_regions _ _ _ _ _ _ _ Hb2) as [[Hrm _] _]%Forall2_cons. simpl in Hrm.
  split; [congruence|]. exists c2, nf, [lin h], (lin nab), tail2. split; [assumption|]. split; [lia|assumption].
Qed.

(** Writing the format mark only touches the first three cells. *)
Lemma write_format m c :
  cholds m c ->
  wp (omemcpy_in primaryOptr FORMAT_ID) m (fun _ m' => exists c', cholds m' c' /\
    forall x, 15 <= x -> x mod 5 = 0 -> c' x = c x).
Proof.
  intros (v & Hv & Hc).
  wp_last (omemcpy_in_spec primaryOptr FORMAT_ID) as Hv'; [eassumption|vm_compute; reflexivity|vm_compute; discriminate|].
  exists (cell (vwrite v (lin primaryOptr) FORMAT_ID)). split; [eexists; split; [exact Hv'|reflexivity]|].
  intros x Hx H5. unfold cell. rewrite vlist_vwrite_other by (right; exact Hx). now apply Hc.
Qed.

(** Formatting a file whose heads are clear sets up the bump state. *)
Lemma init_bump m c :
  cholds m c -> c 15 = 0 -> c 20 = 0 ->
  wp init m (fun _ m' => exists c', cholds m' c' /\ bump c' 0 100 [] [] [] 100).
Proof.
  intros Hm H15 H20. unfold init.
  destruct (oplus_lin primaryOptr META_BLOCK_SIZE) as (f & Ef & Elf & _); [vm_compute; reflexivity|unfold META_BLOCK_SIZE; lia|].
  apply wp_bind. eapply wp_must; [exact Ef|]. change (lin primaryOptr + META_BLOCK_SIZE) with 100 in Elf.
  assert (Hfb : blk 100) by (exists 5; lia). assert (Hb : blk (lin f)) by now rewrite Elf.
  wp_seq (set_prevControlBlock_spec f f) as Hm1; [eassumption..|].
  wp_seq (set_nextControlBlock_spec f f) as Hm2; [eassumption..|].
  wp_seq (set_mappingOptr_spec f addrZero) as Hm3; [eassumption..|].
  wp_seq (set_freeBlockEnd_spec f None) as Hm4; [eassumption..|].
  rewrite Elf in Hm4. change (lin addrZero) with 0 in Hm4. set (c1 := cupd _ (100 + 15) 0) in Hm4.
  wp_seq (set_head_first 15 f) as (c2 & Hm5 & Hr & Hfr); [exact Hm4|lia|reflexivity|assumption|exact H15|].
  rewrite Elf in Hr, Hfr.
  wp_seq (write_head_spec 30 (addr f)) as Hm6; [eassumption|lia|reflexivity|reflexivity|].
  change (be_decode (addr f)) with (lin f) in Hm6. rewrite Elf in Hm6.
  wp_seq (write_head_spec 25 (zero_bytes 5)) as Hm7; [eassumption|lia|reflexivity|reflexivity|].
  wp_last write_format as (c3 & Hm8 & Hfr3); [eassumption|]. exists c3. split; [assumption|].
  assert (Hl : forall x, x < 100 \/ 106 <= x -> not_link [100] x).
  { intros x Hx y ->%list_elem_of_singleton. lia. }
  assert (Hc3 : forall x, 15 <= x -> x mod 5 = 0 -> x <> 25 -> x <> 30 -> c3 x = c2 x).
  { intros x ? ? ? ?. rewrite Hfr3, !cupd_ne by assumption. reflexivity. }
  assert (Hbl : blocks [100]) by (apply blocks_cons; split; [assumption|]; split; [apply not_elem_of_nil|split; constructor]).
  constructor; simpl; try assumption; try (repeat constructor; lia).
  - change (ring_at c3 15 [100]). apply (ring_frame c2); [assumption|apply Hc3; lia || reflexivity|].
    intros y ->%list_elem_of_singleton. split; apply Hc3; lia || reflexivity.
  - unfold mapping_of. rewrite Hc3, Hfr by (reflexivity || lia || (apply Hl; lia)). reflexivity.
  - unfold end_of. rewrite Hc3, Hfr by (reflexivity || lia || (apply Hl; lia)). reflexivity.
  - rewrite Hfr3 by (lia || reflexivity). apply cupd_eq.
  - rewrite Hc3, Hfr by (reflexivity || lia || (apply Hl; lia)). exact H20.
  - rewrite Hfr3, cupd_ne by (lia || reflexivity). apply cupd_eq.
Qed.

Lemma allocate_all_bump fuel sizes m c nxt fb un al rs tail :
  (0 < fuel)%nat -> cholds m c -> bump c nxt fb un al rs tail ->
  Forall (fun s => 0 < s) sizes -> 0 <= nxt -> nxt + foldr Z.add 0 sizes < 2 ^ 24 ->
  tail + 40 * Z.of_nat (length sizes) < 2 ^ 24 - 40 ->
  wp (allocate_all fuel sizes) m (fun ps m' =>
    map lin ps = map fst (regions nxt sizes) /\ exists c' nxt' fb' un' al' tail', cholds m' c' /\
    bump c' nxt' fb' un' al' (rev (regions nxt sizes) ++ rs) tail').
Proof.
  intros Hfu. revert m c nxt fb un al rs tail.
  induction sizes as [|z sizes IH]; intros m c nxt fb un al rs tail Hm Hb Hs Hn Hsum Ht.
  - apply wp_ret. split; [reflexivity|]. simpl. eauto 10.
  - apply Forall_cons in Hs as [Hz Hs]. simpl length in Ht. simpl foldr in Hsum.
    assert (Hpos : 0 <= foldr Z.add 0 sizes) by (clear -Hs; induction Hs; simpl; lia).
    pose proof (bump_tail_blk _ _ _ _ _ _ _ Hb) as (kt & Ekt & Hkt).
    assert (Htb : blk (tail + 20)) by (exists (kt + 1); lia).
    assert (Htb' : blk (tail + 40)) by (exists (kt + 2); lia).
    cbn [allocate_all]. wp_seq (allocate_bump fuel z) giving p as (Ep & c1 & fb1 & un1 & nab & tail1 & Hm1 & Ht1 & Hb1);
      [eassumption..|lia|lia|lia|].
    wp_seq IH giving ps as (Eps & c2 & n2 & fb2 & un2 & al2 & tail2 & Hm2 & Hb2);
      [eassumption|eassumption|assumption|lia|lia|lia|].
    apply wp_ret. cbn [map regions rev fst]. split; [congruence|].
    exists c2, n2, fb2, un2, al2, tail2. split; [assumption|]. now rewrite <- app_assoc.
Qed.

(** C21: on a freshly formatted file, allocating any sequence of positive sizes (up to
    16 MiB in total and 400 000 calls) never fails, returns consecutive regions from address
    0 on, and leaves one allocated control block per region, which records its
    start and its end, in a well linked ring. *)
Theorem allocate_fresh_regions fuel sizes m c :
  (0 < fuel)%nat -> cholds m c -> c 15 = 0 -> c 20 = 0 ->
  Forall (fun s => 0 < s) sizes -> foldr Z.add 0 sizes < 2 ^ 24 ->
  Z.of_nat (length sizes) <= 400000 ->
  wp (_ ← init; allocate_all fuel sizes) m (fun ps m' =>
    map lin ps = map fst (regions 0 sizes) /\ exists c' al, cholds m' c' /\
    blocks al /\ ring_at c' ALLOCATED_BLOCK_HEAD_OFFSET al /\
    Forall2 (region_of c') al (rev (regions 0 sizes))).
Proof.
  intros Hfu Hm H15 H20 Hs Hsum Hl.
  wp_seq init_bump as (c1 & Hm1 & Hb1); [eassumption..|].
  wp_last (allocate_all_bump fuel sizes) as (Eps & c2 & n2 & fb2 & un2 & al2 & tail2 & Hm2 & Hb2);
    [assumption|eassumption|eassumption|assumption|lia|lia|lia|].
  rewrite app_nil_r in Hb2. destruct Hb2 as [_ _ _ _ _ Ha Hrs _ _ Hbl _].
  split; [assumption|]. exists c2, al2. split; [assumption|]. split; [|split; assumption].
  apply blocks_cons in Hbl as (_ & _ & (_ & ? & _)%blocks_split). assumption.
Qed.
End bump_steps.

(** ** A live region that cannot be freed *)

(** Three 10-byte regions, then the third is freed, and then the first. *)
Definition run_lost : prog FlatMem unit :=
  _ ← OverlayMemoryAllocator_new;
  _ ← allocate_all 10 [10; 10; 10];
  _ ← deallocate 10 (addr_set 20);
  deallocate 10 (addr_set 0).

(** after three allocations on an empty file and the deallocation of the third,
    deallocating the first, which is still live, throws: its control block dropped
    out of the ring with the head. *)
Theorem live_region_lost : exists m', run_lost empty_file = Throw RuntimeError m'.
Proof.
  destruct (run_lost empty_file) as [a m'|e m'|] eqn:E.
  - exfalso. assert (H : match run_lost empty_file with Ok _ _ => False | _ => True end)
      by (vm_compute; exact I). now rewrite E in H.
  - assert (H : match run_lost empty_file with Throw RuntimeError _ => True | _ => False end)
      by (vm_compute; exact I). rewrite E in H. destruct e; first [now exists m' | destruct H].
  - exfalso. assert (H : match run_lost empty_file with Undef => False | _ => True end)
      by (vm_compute; exact I). now rewrite E in H.
Qed.

Lemma allocate_fresh_regions_witness :
  wp (_ ← init; allocate_all 1 [100; 104]) empty_file (fun ps m' =>
    map lin ps = [0; 100] /\ exists c' al, cholds m' c' /\
    blocks al /\ ring_at c' ALLOCATED_BLOCK_HEAD_OFFSET al /\
    Forall2 (region_of c') al [(100, 204); (0, 100)]).
Proof.
  apply (allocate_fresh_regions 1 [100; 104] _ (flat_cells empty_file)).
  - lia.
  - apply flat_cells_hold.
  - vm_compute; reflexivity.
  - vm_compute; reflexivity.
  - repeat constructor.
  - vm_compute; reflexivity.
  - vm_compute; discriminate.
Defined.
