(* ===== verification/Crypto.v ===== *)
(** Hashing and signatures: the wrappers of [share/hash/sha_hash.cpp] and
    [share/cipher/ecdsa_manager.cpp] over OpenSSL, which is an interface here. *)
From S2P Require Import Prelude.
From Stdlib Require Import Lia.

(** The OpenSSL functions the wrappers call. *)
Class OpenSSL : Type := {
  PKEY : Type;
  EVP_SHA1 : list byte -> list byte;
  EVP_SHA256 : list byte -> list byte;
  i2d_PUBKEY : PKEY -> list byte;
  d2i_PUBKEY : list byte -> option PKEY;
  EVP_PKEY_sign : option PKEY -> list byte -> list byte;
  EVP_PKEY_verify : option PKEY -> list byte -> list byte -> bool;
  (** A key without its private part, and whether a key has one. *)
  public_part : PKEY -> PKEY;
  has_private : PKEY -> bool;
}.

(** Its documented behaviour, as far as theorems rely on it. *)
Class OpenSSL_laws {ssl : OpenSSL} : Prop := {
  SHA1_length m : length (EVP_SHA1 m) = 20%nat;
  SHA256_length m : length (EVP_SHA256 m) = 32%nat;
  d2i_i2d k : d2i_PUBKEY (i2d_PUBKEY k) = Some (public_part k);
  i2d_public k : i2d_PUBKEY (public_part k) = i2d_PUBKEY k;
  verify_sign k m :
    has_private k = true -> EVP_PKEY_verify (Some (public_part k)) (EVP_PKEY_sign (Some k) m) m = true;
}.

Inductive sha_type : Type := sha1 | sha256.

(** A buffer whose reads are in bounds. *)
Definition bytes_of (b : buffer) : list byte := default [] b.

Section Crypto_code.
Context {ssl : OpenSSL}.

(** [hash::SHAHash( msg , msgLength , &ret , SHAtype )]. *)
Definition SHAHash (msg : buffer) (msgLength : Z) (t : sha_type) : option (list byte) :=
  match rd msgLength msg with
  | Some m => Some (match t with sha1 => EVP_SHA1 m | sha256 => EVP_SHA256 m end)
  | None => None
  end.

Definition toRawPubKey (pkey : PKEY) : list byte := i2d_PUBKEY pkey.

Definition toPkey (rawPubKey : buffer) (rawPubKeySize : Z) : option (option PKEY) :=
  match rd rawPubKeySize rawPubKey with Some r => Some (d2i_PUBKEY r) | None => None end.

(** [ECDSAManager::sign]: signs the SHA-256 digest of the target. *)
Definition ECDSAManager_sign (target : buffer) (targetLength : Z) (pkey : option PKEY)
  : option (list byte) :=
  match SHAHash target targetLength sha256 with
  | Some targetDigest => Some (EVP_PKEY_sign pkey targetDigest)
  | None => None
  end.

(** [ECDSAManager::verify] over a digest, and over a message to be hashed first. *)
Definition ECDSAManager_verify_digest (sig : buffer) (sigLength : Z) (msgDigest : list byte)
    (pubKey : option PKEY) : option bool :=
  match rd sigLength sig with
  | Some s => Some (EVP_PKEY_verify pubKey s msgDigest)
  | None => None
  end.

Definition ECDSAManager_verify (sig : buffer) (sigLength : Z) (msg : buffer) (msgLength : Z)
    (pubKey : option PKEY) (hashType : sha_type) : option bool :=
  match SHAHash msg msgLength hashType with
  | Some md => ECDSAManager_verify_digest sig sigLength md pubKey
  | None => None
  end.
End Crypto_code.

(** ** A toy instance, to show that the laws can hold *)

Definition pad (n : nat) (l : list byte) : list byte := take n (l ++ replicate n x00).

Lemma pad_length n l : length (pad n l) = n.
Proof. unfold pad. rewrite length_take, length_app, length_replicate. lia. Qed.

#[export] Instance toy_ssl : OpenSSL := {
  PKEY := bool * byte;
  EVP_SHA1 m := pad 20 m;
  EVP_SHA256 m := pad 32 m;
  i2d_PUBKEY k := [x30; k.2];
  d2i_PUBKEY l := match l with [_; k] => Some (false, k) | _ => None end;
  EVP_PKEY_sign k m := match k with Some (true, k) => k :: m | _ => [] end;
  EVP_PKEY_verify k s m :=
    match k with Some (_, k) => if decide (s = k :: m) then true else false | None => false end;
  public_part k := (false, k.2);
  has_private k := k.1;
}.

#[export] Instance toy_ssl_laws : OpenSSL_laws.
Proof.
  split; try reflexivity; try (intros; apply pad_length).
  intros [[] k] m; [|discriminate]. intros _. cbn. now rewrite decide_True.
Qed.
