(* ===== verification/MemoryManager.v ===== *)
(** miya_db overlay memory manager ([overlay_memory_manager.cpp]): a data file behind its
    page cache together with the allocator of its space.  [OverlayManager] is the
    interface the index nodes and the value store are proved against; the manager over
    [Allocator] implements it. *)
From S2P Require Import Prelude OverlayPtr CacheTable ControlBlock Allocator AllocatorRuns Crypto.
From Stdlib Require Import Lia.

(** ** The interface *)

Class OverlayManagerOps (M : Type) : Type := {
  manager_memory :: OverlayMemOps M;
  manager_allocate : Z -> prog M optr;
}.

(** As long as nothing is deallocated: the memory is an array of bytes [mg_view], regions
    are handed out one after the other, [mg_inv m n] says that they end at [n]. *)
Class OverlayManager (M : Type) {ops : OverlayManagerOps M} : Type := {
  mg_inv : M -> Z -> Prop;
  mg_view : M -> Z -> byte;
  mg_value_spec : forall p m n, mg_inv m n -> lin p < 2 ^ 32 ->
    wp (value p) m (fun b m' => b = mg_view m (lin p) /\ mg_inv m' n /\ mg_view m' ≡v mg_view m);
  mg_set_value_spec : forall p b m n, mg_inv m n -> lin p < 2 ^ 32 ->
    wp (set_value p b) m (fun _ m' => mg_inv m' n /\ mg_view m' ≡v vset (mg_view m) (lin p) b);
  mg_allocate_spec : forall size m n, mg_inv m n -> 28 <= size -> n + size < 2 ^ 23 ->
    wp (manager_allocate size) m (fun p m' => lin p = n /\ mg_inv m' (n + size) /\ mg_view m' ≡v mg_view m);
}.

(** Between allocations a manager is a memory. *)
Definition manager_mem {M} `{OverlayManager M} (n : Z) : OverlayMem M := {|
  om_inv m := mg_inv m n;
  om_view := mg_view;
  om_value_spec p m := mg_value_spec p m n;
  om_set_value_spec p b m := mg_set_value_spec p b m n;
|}.

(** The memory holds [v] and is allocated up to [n]. *)
Definition mholds {M} `{OverlayManager M} (n : Z) (m : M) (v : Z -> byte) : Prop :=
  mg_inv m n /\ mg_view m ≡v v.

(** ** The manager *)

Record Manager (D C : Type) : Type := mkManager {
  dataCacheTable : D;
  freeListCacheTable : C;
}.
Arguments mkManager {D C} _ _.
Arguments dataCacheTable {D C} _.
Arguments freeListCacheTable {D C} _.

(** The steps a search for a free block may take; one suffices until something is freed. *)
Definition search_fuel : nat := 1000.

Section Manager.
Context {D C : Type} {Dops : OverlayMemOps D} {Cops : OverlayMemOps C}.

Definition on_data {A} (c : prog D A) : prog (Manager D C) A :=
  zoom dataCacheTable (fun d s => mkManager d (freeListCacheTable s)) c.

Definition on_freeList {A} (c : prog C A) : prog (Manager D C) A :=
  zoom freeListCacheTable (fun f s => mkManager (dataCacheTable s) f) c.

#[export] Instance Manager_ops : OverlayManagerOps (Manager D C) := {
  manager_memory := {|
    value p := on_data (value p);
    set_value p b := on_data (set_value p b) |};
  manager_allocate size := on_freeList (allocate search_fuel size);
}.

(** [init]: the allocator formats its file unless it is formatted. *)
Definition OverlayMemoryManager_init : prog (Manager D C) unit := on_freeList OverlayMemoryAllocator_new.

Definition manager_deallocate (targetOptr : optr) : prog (Manager D C) unit :=
  on_freeList (deallocate search_fuel targetOptr).

Definition manager_clear : prog (Manager D C) unit := on_freeList clear.

Definition manager_dbState : prog (Manager D C) (list byte) := on_freeList dbState.

Definition set_manager_dbState (target : list byte) : prog (Manager D C) unit :=
  on_freeList (set_dbState target).

(** [syncDBState]: the state is the SHA-1 digest of the time in seconds. *)
Definition syncDBState {ssl : OpenSSL} (now : Z) : prog (Manager D C) unit :=
  let timestamp := now mod 2 ^ 32 in
  let ctimestamp := [b8 (Z.land (Z.shiftr timestamp 24) 255); b8 (Z.land (Z.shiftr timestamp 16) 255);
                     b8 (Z.land (Z.shiftr timestamp 8) 255); b8 (Z.land timestamp 255)] in
  digest ← must (SHAHash (Some ctimestamp) 4 sha1);
  set_manager_dbState digest.
End Manager.

(** ** The manager implements the interface *)

Lemma wp_zoom {S T A} (get : S -> T) put (c : prog T A) s (Q : A -> S -> Prop) :
  wp c (get s) (fun a t => Q a (put t s)) -> wp (zoom get put c) s Q.
Proof. unfold wp, zoom. now destruct (c (get s)). Qed.

Section Manager_laws.
Context {D C : Type} `{memD : OverlayMem D} `{memC : OverlayMem C}.

(** Every region, of at least 28 bytes, takes up at most two new control blocks. *)
Definition Manager_inv (m : Manager D C) (n : Z) : Prop :=
  om_inv (dataCacheTable m) /\ 0 <= n < 2 ^ 23 /\
  exists c fb un al rs tail, cholds (freeListCacheTable m) c /\ bump c n fb un al rs tail /\
    7 * (tail - 100) <= 10 * n.

#[export] Instance Manager_manager : OverlayManager (Manager D C).
Proof.
  refine {| mg_inv := Manager_inv; mg_view m := om_view (dataCacheTable m) |}.
  - intros p m n (Hd & Hn & Hc) Hp. apply wp_zoom.
    wp_last om_value_spec as (-> & Hi & Hv); [assumption..|]. now repeat split.
  - intros p b m n (Hd & Hn & Hc) Hp. apply wp_zoom.
    wp_last om_set_value_spec as (Hi & Hv); [assumption..|]. now repeat split.
  - intros size m n (Hd & Hn & c & fb & un & al & rs & tail & Hm & Hb & Ht) Hs Hns. apply wp_zoom.
    pose proof (bump_tail_blk _ _ _ _ _ _ _ Hb) as (k & Ek & Hk).
    wp_last (allocate_bump search_fuel size) as (Ep & c' & fb' & un' & nab & tail' & Hm' & Ht' & Hb');
      [unfold search_fuel; lia|eassumption|eassumption|exists (k + 1); lia|exists (k + 2); lia|lia|lia|lia|].
    split; [assumption|]. split; [|reflexivity]. split; [assumption|]. split; [lia|].
    eexists c', fb', un', (nab :: al), _, tail'. split; [eassumption|]. split; [eassumption|lia].
Defined.

(** A manager on files without heads starts with nothing allocated. *)
Lemma manager_clear_spec (m : Manager D C) c :
  om_inv (dataCacheTable m) -> cholds (freeListCacheTable m) c -> c 15 = 0 -> c 20 = 0 ->
  wp manager_clear m (fun _ m' => mholds 0 m' (om_view (dataCacheTable m))).
Proof.
  intros Hd Hc H15 H20. apply wp_zoom. wp_last init_bump as (c' & Hc' & Hb); [eassumption..|].
  split; [|reflexivity]. split; [assumption|]. split; [lia|]. eexists c', _, _, _, _, _.
  split; [eassumption|]. split; [eassumption|lia].
Qed.
End Manager_laws.

(** *** The state code *)

(** The state code lies between the heads and the control blocks. *)
Lemma bump_frame c c' nxt fb un al rs tail :
  bump c nxt fb un al rs tail -> (forall x, x < 50 \/ 70 <= x -> c' x = c x) -> bump c' nxt fb un al rs tail.
Proof.
  intros [Hf Hfs Hfe Hu Hul Ha Hrs Ht Htb Hbl Hle] Hc. pose proof Hbl as [Hblk _].
  apply Forall_cons in Hblk as [Hfb Hrest]. apply Forall_app in Hrest as [Hun Hal].
  pose proof (blk_bounds _ Hfb).
  assert (Hring : forall off l, off < 50 -> Forall blk l -> ring_at c off l -> ring_at c' off l).
  { intros off l Ho Hl Hr. apply (ring_frame c); [assumption|apply Hc; lia|]. rewrite Forall_forall in Hl.
    intros e He. pose proof (blk_bounds _ (Hl e He)). split; apply Hc; lia. }
  constructor; try assumption.
  - apply Hring; [lia|now repeat constructor|assumption].
  - unfold mapping_of in *. now rewrite Hc by lia.
  - unfold end_of in *. now rewrite Hc by lia.
  - now apply Hring.
  - now apply Hring.
  - apply (region_of_frame c); [assumption|]. rewrite Forall_forall in Hal. intros b Hb.
    pose proof (blk_bounds _ (Hal b Hb)). split; apply Hc; lia.
  - now rewrite Hc by lia.
Qed.

Section state_code.
Context {D C : Type} `{memD : OverlayMem D} `{memC : OverlayMem C}.

Lemma set_manager_dbState_spec (m : Manager D C) n v target :
  mholds n m v -> wp (set_manager_dbState target) m (fun _ m' => mholds n m' v).
Proof.
  intros [(Hd & Hn & c & fb & un & al & rs & tail & (w & Hw & Hc) & Hb & Ht) Hv]. apply wp_zoom.
  destruct (oplus_lin primaryOptr DB_STATE_OFFSET) as (q & Eq & Elq & _); [vm_compute; reflexivity|unfold DB_STATE_OFFSET; lia|].
  change (lin primaryOptr + DB_STATE_OFFSET) with 50 in Elq. apply wp_bind. eapply wp_must; [exact Eq|].
  assert (Hl : (length (take DB_STATE_LENGTH target) <= 20)%nat) by (rewrite length_take; unfold DB_STATE_LENGTH; lia).
  wp_last omemcpy_in_spec as Hw'; [exact Hw|lia|lia|]. rewrite Elq in Hw'. split; [|exact Hv]. split; [exact Hd|]. split; [lia|].
  exists (fun x => if bool_decide (50 <= x < 70) then cell (vwrite w 50 (take DB_STATE_LENGTH target)) x else c x), fb, un, al, rs, tail.
  split; [|split; [|exact Ht]].
  - exists (vwrite w 50 (take DB_STATE_LENGTH target)). split; [exact Hw'|]. intros x Hx. case_bool_decide as E; [reflexivity|].
    rewrite <- Hc by assumption. unfold cell. pose proof (Z.div_mod x 5 ltac:(lia)). now rewrite vlist_vwrite_other by lia.
  - apply (bump_frame c); [exact Hb|]. intros x Hx. now rewrite bool_decide_false by lia.
Qed.

Lemma syncDBState_spec {ssl : OpenSSL} (m : Manager D C) n v now :
  mholds n m v -> wp (syncDBState now) m (fun _ m' => mholds n m' v).
Proof. intros Hm. unfold syncDBState. apply wp_bind, wp_must with (1 := eq_refl). now apply set_manager_dbState_spec. Qed.
End state_code.

(** ** A manager over flat memories, used to run the code above it *)

Definition empty_manager : Manager FlatMem FlatMem := mkManager empty_file empty_file.

Lemma empty_manager_clear :
  wp manager_clear empty_manager (fun _ m => mholds 0 m (fm_view empty_file)).
Proof.
  pose proof (manager_clear_spec (D := FlatMem) (C := FlatMem) empty_manager (flat_cells empty_file) I) as H.
  apply H; [apply flat_cells_hold|vm_compute; reflexivity..].
Qed.
