(* ===== verification/ItemSet.v ===== *)
(** miya_db index nodes in memory ([ONodeItemSet] of [o_node.cpp]): the 103-byte item
    set of a B-tree node, its getters and setters as reads and writes through the
    overlay pointer it starts at, and what they do to the fields of the node. *)
From S2P Require Import Prelude OverlayPtr.
From Stdlib Require Import Lia.

(** ** Layout (btree.h) *)

Definition DEFAULT_THRESHOLD : Z := 4.
Definition DEFAULT_CHILD_COUNT : Z := DEFAULT_THRESHOLD.
Definition DEFAULT_KEY_COUNT : Z := DEFAULT_THRESHOLD - 1.
Definition DEFAULT_DATA_OPTR_COUNT : Z := DEFAULT_THRESHOLD - 1.
Definition KEY_SIZE : Z := 20.
Definition DATA_OPTR_SIZE : Z := 5.
Definition NODE_OPTR_SIZE : Z := 5.
Definition ELEMENT_COUNT_SIZE : Z := 1.
Definition KEY_ELEMENT_OFFSET : Z := NODE_OPTR_SIZE.
Definition CHILD_ELEMENT_OFFSET : Z :=
  KEY_ELEMENT_OFFSET + (ELEMENT_COUNT_SIZE + KEY_SIZE * DEFAULT_KEY_COUNT).
Definition DATA_OPTR_ELEMENT_OFFSET : Z :=
  CHILD_ELEMENT_OFFSET + ELEMENT_COUNT_SIZE + DATA_OPTR_SIZE * DEFAULT_CHILD_COUNT.
Definition O_NODE_ITEMSET_SIZE : Z :=
  NODE_OPTR_SIZE + ELEMENT_COUNT_SIZE + KEY_SIZE * DEFAULT_KEY_COUNT
  + ELEMENT_COUNT_SIZE + NODE_OPTR_SIZE * DEFAULT_CHILD_COUNT
  + ELEMENT_COUNT_SIZE + DATA_OPTR_SIZE * DEFAULT_DATA_OPTR_COUNT.

(** The conversion of an [int] argument to an [unsigned short] parameter. *)
Definition ushort (z : Z) : Z := z mod 2 ^ 16.

(** ** Loops *)

(** [for( i = n; i > lo; i-- ) body( i )]. *)
Fixpoint for_down {St} (n : nat) (lo : Z) (body : Z -> prog St unit) : prog St unit :=
  match n with
  | O => mret tt
  | S n' =>
      if lo <? Z.of_nat n then _ ← body (Z.of_nat n); for_down n' lo body else mret tt
  end.

(** [for( ; i < i + n; i++ ) body( i )]. *)
Fixpoint for_up {St} (n : nat) (i : Z) (body : Z -> prog St unit) : prog St unit :=
  match n with
  | O => mret tt
  | S n' => _ ← body i; for_up n' (i + 1) body
  end.

(** Filling a [std::array] by [at(i) = get(i)] for [n] indices from [i] on. *)
Fixpoint fill_array {St A} (get : Z -> prog St A) (n i : nat) (arr : list A) : prog St (list A) :=
  match n with
  | O => mret arr
  | S n' =>
      x ← get (Z.of_nat i);
      if (i <? length arr)%nat then fill_array get n' (S i) (<[i := x]> arr) else throw OutOfRange
  end.

(** ** Getters and setters; [s] is the pointer the item set starts at

    The bounds of the loops below are calls of the getters of the counts, which no write
    of the loop changes; they are read once. *)

Section ONodeItemSet.
Context {M : Type} `{ops : !OverlayMemOps M}.

Definition read_count (s : optr) (off : Z) : prog M Z :=
  p ← must (oplus s off); b ← value p; mret (u8 b).

Definition write_count (s : optr) (off num : Z) : prog M unit :=
  p ← must (oplus s off); set_value p (b8 num).

(** [parent()]: null is the pointer with address zero. *)
Definition parent (s : optr) : prog M optr :=
  oAddr ← omemcpy_out s 5; must (optr_of_bytes oAddr).

Definition keyCount (s : optr) : prog M Z := read_count s KEY_ELEMENT_OFFSET.

Definition key (s : optr) (index : Z) : prog M (option optr) :=
  n ← keyCount s;
  if n <? index then mret None
  else p ← must (oplus s (KEY_ELEMENT_OFFSET + ELEMENT_COUNT_SIZE + index * KEY_SIZE)); mret (Some p).

Definition rawKey (s : optr) (index : Z) : prog M buffer :=
  k ← key s index;
  match k with
  | None => mret None
  | Some k => ret ← omemcpy_out k 20; mret (Some ret)
  end.

Definition set_key (s : optr) (index : Z) (targetKey : buffer) : prog M unit :=
  if DEFAULT_KEY_COUNT <? index then mret ()
  else
    p ← must (oplus s (KEY_ELEMENT_OFFSET + ELEMENT_COUNT_SIZE + index * KEY_SIZE));
    k ← must (rd KEY_SIZE targetKey);
    omemcpy_in p k.

Definition set_keyCount (s : optr) (num : Z) : prog M unit :=
  write_count s KEY_ELEMENT_OFFSET num.

(** One comparison of [sortKey]: the keys [j] and [j - 1] are put in order. *)
Definition sortKey_step (s : optr) (j : Z) : prog M unit :=
  oKey_j0 ← (key s j ≫= must); oKey_j1 ← (key s (ushort (j - 1)) ≫= must);
  key_j0 ← omemcpy_out oKey_j0 20; key_j1 ← omemcpy_out oKey_j1 20;
  match memcmp key_j1 key_j0 with
  | Gt => _ ← omemcpy_in oKey_j0 key_j1; omemcpy_in oKey_j1 key_j0
  | _ => mret ()
  end.

Definition sortKey (s : optr) : prog M unit :=
  n ← keyCount s;
  for_up (Z.to_nat (n - 1)) 0 (fun i => for_down (Z.to_nat (n - 1)) i (sortKey_step s)).

Definition moveInsertKey (s : optr) (index : Z) (targetKey : buffer) : prog M unit :=
  n ← keyCount s;
  _ ← for_down (Z.to_nat n) index (fun i => k ← rawKey s (i - 1); set_key s i k);
  set_key s index targetKey.

Definition moveDeleteKey (s : optr) (index : Z) : prog M unit :=
  n ← keyCount s;
  if n <=? 0 then mret ()
  else
    _ ← for_up (Z.to_nat (n - 1 - index)) index (fun i => k ← rawKey s (i + 1); set_key s i k);
    n ← keyCount s; set_keyCount s (n - 1).

Definition childOptrCount (s : optr) : prog M Z := read_count s CHILD_ELEMENT_OFFSET.

Definition set_childOptrCount (s : optr) (num : Z) : prog M unit :=
  write_count s CHILD_ELEMENT_OFFSET num.

Definition childOptr (s : optr) (index : Z) : prog M (option optr) :=
  n ← childOptrCount s;
  if n <=? index then mret None
  else
    childHead ← must (oplus s (CHILD_ELEMENT_OFFSET + ELEMENT_COUNT_SIZE + index * NODE_OPTR_SIZE));
    oAddr ← omemcpy_out childHead 5; p ← must (optr_of_bytes oAddr); mret (Some p).

(** The bytes stored for a pointer: zeros for the null pointer. *)
Definition optr_bytes (target : option optr) : list byte := addr (default addrZero target).

Definition set_childOptr (s : optr) (index : Z) (targetOptr : option optr) : prog M unit :=
  if DEFAULT_CHILD_COUNT <? index then mret ()
  else
    p ← must (oplus s (CHILD_ELEMENT_OFFSET + ELEMENT_COUNT_SIZE + index * NODE_OPTR_SIZE));
    omemcpy_in p (optr_bytes targetOptr).

Definition moveInsertChildOptr (s : optr) (index : Z) (targetONode : option optr) : prog M unit :=
  n ← childOptrCount s;
  _ ← for_down (Z.to_nat n) index (fun i => c ← childOptr s (i - 1); set_childOptr s i c);
  set_childOptr s index targetONode.

Definition moveDeleteChildOptr (s : optr) (index : Z) : prog M unit :=
  n ← childOptrCount s;
  if n <=? 0 then mret ()
  else
    _ ← for_up (Z.to_nat (n - 1 - index)) index (fun i => c ← childOptr s (i + 1); set_childOptr s i c);
    n ← childOptrCount s; set_childOptrCount s (n - 1).

Definition dataOptrCount (s : optr) : prog M Z := read_count s DATA_OPTR_ELEMENT_OFFSET.

Definition set_dataOptrCount (s : optr) (num : Z) : prog M unit :=
  write_count s DATA_OPTR_ELEMENT_OFFSET num.

Definition dataOptr (s : optr) (index : Z) : prog M (option optr) :=
  n ← dataOptrCount s;
  if n <? index then mret None
  else
    p ← must (oplus s (DATA_OPTR_ELEMENT_OFFSET + ELEMENT_COUNT_SIZE + index * DATA_OPTR_SIZE));
    oAddr ← omemcpy_out p 5; p ← must (optr_of_bytes oAddr); mret (Some p).

(** No bound on the index here. *)
Definition set_dataOptr (s : optr) (index : Z) (targetDataOptr : option optr) : prog M unit :=
  p ← must (oplus s (DATA_OPTR_ELEMENT_OFFSET + ELEMENT_COUNT_SIZE + index * NODE_OPTR_SIZE));
  omemcpy_in p (optr_bytes targetDataOptr).

Definition moveInsertDataOptr (s : optr) (index : Z) (targetDataOptr : option optr) : prog M unit :=
  n ← dataOptrCount s;
  _ ← for_down (Z.to_nat n) index (fun i => d ← dataOptr s (i - 1); set_dataOptr s i d);
  set_dataOptr s index targetDataOptr.

Definition moveDeleteDataOptr (s : optr) (index : Z) : prog M unit :=
  n ← dataOptrCount s;
  if n <=? 0 then mret ()
  else
    _ ← for_up (Z.to_nat (n - 1 - index)) index (fun i => d ← dataOptr s (i + 1); set_dataOptr s i d);
    n ← dataOptrCount s; set_dataOptrCount s (n - 1).

(** [parent( std::shared_ptr<ONode> )]: the node is given by its start. *)
Definition set_parent (s : optr) (target : option optr) : prog M unit :=
  omemcpy_in s (optr_bytes target).

(** [ONodeItemSet::remove]: the children stay. *)
Definition ItemSet_remove (s : optr) (index : Z) : prog M unit :=
  _ ← moveDeleteKey s index; moveDeleteDataOptr s index.

Definition ItemSet_clear (s : optr) : prog M unit :=
  omemcpy_in s (replicate (Z.to_nat O_NODE_ITEMSET_SIZE) x00).

Definition exportKeyArray (s : optr) : prog M (list buffer) :=
  n ← keyCount s;
  fill_array (fun i => k ← (key s i ≫= must); bs ← mapToMemory k 20; mret (Some bs))
    (Z.to_nat n) 0 (replicate (Z.to_nat DEFAULT_KEY_COUNT) None).

Definition exportChildOptrArray (s : optr) : prog M (list (option optr)) :=
  n ← childOptrCount s;
  fill_array (childOptr s) (Z.to_nat n) 0 (replicate (Z.to_nat DEFAULT_CHILD_COUNT) None).

Definition exportDataOptrArray (s : optr) : prog M (list (option optr)) :=
  n ← dataOptrCount s;
  fill_array (dataOptr s) (Z.to_nat n) 0 (replicate (Z.to_nat DEFAULT_DATA_OPTR_COUNT) None).
End ONodeItemSet.
