(* ===== verification/NodeStore.v ===== *)
(** Index nodes as records: the item sets of a file as a finite map from addresses to
    [rnode]s, and what each getter and setter of [ItemSet] does to that map. *)
From S2P Require Import Prelude OverlayPtr MemoryManager ItemSet.
From Stdlib Require Import Lia.

(** ** The fields of an item set, slots beyond the counts included *)

Record rnode : Type := RNode {
  r_parent : optr;
  r_kc : Z; r_ks : list (list byte);
  r_cc : Z; r_cs : list optr;
  r_dc : Z; r_ds : list optr;
}.

Definition optr_at (v : Z -> byte) (a : Z) : optr :=
  Optr (v a) (v (a + 1)) (v (a + 2)) (v (a + 3)) (v (a + 4)).

Definition rnode_of (v : Z -> byte) (a : Z) : rnode := RNode
  (optr_at v a)
  (u8 (v (a + 5))) [vlist v (a + 6) 20; vlist v (a + 26) 20; vlist v (a + 46) 20]
  (u8 (v (a + 66))) [optr_at v (a + 67); optr_at v (a + 72); optr_at v (a + 77); optr_at v (a + 82)]
  (u8 (v (a + 87))) [optr_at v (a + 88); optr_at v (a + 93); optr_at v (a + 98)].

Definition with_parent (p : optr) (r : rnode) : rnode :=
  RNode p (r_kc r) (r_ks r) (r_cc r) (r_cs r) (r_dc r) (r_ds r).
Definition with_kc (n : Z) (r : rnode) : rnode :=
  RNode (r_parent r) n (r_ks r) (r_cc r) (r_cs r) (r_dc r) (r_ds r).
Definition with_ks (ks : list (list byte)) (r : rnode) : rnode :=
  RNode (r_parent r) (r_kc r) ks (r_cc r) (r_cs r) (r_dc r) (r_ds r).
Definition with_cc (n : Z) (r : rnode) : rnode :=
  RNode (r_parent r) (r_kc r) (r_ks r) n (r_cs r) (r_dc r) (r_ds r).
Definition with_cs (cs : list optr) (r : rnode) : rnode :=
  RNode (r_parent r) (r_kc r) (r_ks r) (r_cc r) cs (r_dc r) (r_ds r).
Definition with_dc (n : Z) (r : rnode) : rnode :=
  RNode (r_parent r) (r_kc r) (r_ks r) (r_cc r) (r_cs r) n (r_ds r).
Definition with_ds (ds : list optr) (r : rnode) : rnode :=
  RNode (r_parent r) (r_kc r) (r_ks r) (r_cc r) (r_cs r) (r_dc r) ds.

Definition rnode_empty : rnode :=
  RNode addrZero 0 (replicate 3 (replicate 20 x00)) 0 (replicate 4 addrZero) 0 (replicate 3 addrZero).

(** What holds of every item set. *)
Record rnode_ok (r : rnode) : Prop := {
  rok_kc : 0 <= r_kc r < 256;
  rok_ks : length (r_ks r) = 3%nat;
  rok_keys : Forall (fun k => length k = 20%nat) (r_ks r);
  rok_cc : 0 <= r_cc r < 256;
  rok_cs : length (r_cs r) = 4%nat;
  rok_dc : 0 <= r_dc r < 256;
  rok_ds : length (r_ds r) = 3%nat;
}.

Lemma rnode_of_ok v a : rnode_ok (rnode_of v a).
Proof.
  constructor; cbn; try apply u8_range; try reflexivity. repeat constructor.
Qed.

(** ** Reading and writing fields of one item set *)

Lemma vlist_write_same v a bs n : length bs = n -> vlist (vwrite v a bs) a n = bs.
Proof. intros <-. apply vlist_vwrite_same. Qed.

Lemma optr_at_vlist v a : addr (optr_at v a) = vlist v a 5.
Proof. unfold optr_at, addr. cbn. rewrite <- !Z.add_assoc. reflexivity. Qed.

Lemma optr_at_write_same v a p : optr_at (vwrite v a (addr p)) a = p.
Proof.
  apply lin_inj. unfold lin. now rewrite optr_at_vlist, vlist_write_same.
Qed.

Lemma optr_at_write_other v a bs x :
  x + 5 <= a \/ a + Z.of_nat (length bs) <= x -> optr_at (vwrite v a bs) x = optr_at v x.
Proof. intros H. unfold optr_at. now rewrite !vwrite_out by lia. Qed.

Lemma vwrite_at v a b : vwrite v a [b] a = b.
Proof. cbn. unfold vset. now rewrite Z.eqb_refl. Qed.

(** Evaluates the fields of an item set after a write to one of them. *)
Ltac node_write :=
  match goal with |- context [lin ?s] => generalize (lin s) end;
  let v := fresh "v" in let a := fresh "a" in
  intros a v <-; unfold rnode_of, with_parent, with_kc, with_ks, with_cc, with_cs, with_dc, with_ds;
  try match goal with |- context [vwrite _ (a + ?o) _] => let o' := eval compute in o in change o with o' end;
  try match goal with |- context [Z.to_nat ?i] => let i' := eval compute in (Z.to_nat i) in change (Z.to_nat i) with i' end;
  cbn [r_parent r_kc r_ks r_cc r_cs r_dc r_ds insert list_insert];
  repeat first
    [ rewrite vlist_write_same by (assumption || reflexivity)
    | rewrite optr_at_write_same | rewrite vwrite_at
    | rewrite vlist_vwrite_other by (cbn [length addr]; lia)
    | rewrite optr_at_write_other by (cbn [length addr]; lia)
    | rewrite vwrite_out by (cbn [length addr]; lia) ];
  rewrite ?u8_b8; try reflexivity.

(** ** The store *)

Section store.
Context {M : Type} `{mgr : OverlayManager M}.

(** Item sets do not overlap each other nor the 100 bytes of the meta area. *)
Definition spaced (h : gmap Z rnode) : Prop :=
  forall a b, is_Some (h !! a) -> is_Some (h !! b) -> a = b \/ a + 103 <= b \/ b + 103 <= a.

(** Memory [m], allocated up to [n], holds the bytes [meta] and the item sets [h]. *)
Definition nodes (n : Z) (m : M) (meta : list byte) (h : gmap Z rnode) : Prop :=
  exists v, mholds n m v /\ vlist v 0 100 = meta /\ map_Forall (fun a r => rnode_of v a = r) h /\
    (forall a, is_Some (h !! a) -> 100 <= a /\ a + 103 <= n) /\ n < 2 ^ 24 /\ spaced h.

Lemma nodes_ok n m meta h a r : nodes n m meta h -> h !! a = Some r -> rnode_ok r.
Proof. intros (v & _ & _ & Hh & _) Ha. rewrite <- (Hh a r Ha). apply rnode_of_ok. Qed.

Lemma nodes_bounds n m meta h a r : nodes n m meta h -> h !! a = Some r -> 100 <= a /\ a + 103 <= n < 2 ^ 24.
Proof. intros (v & _ & _ & _ & Hb & Hn & _) Ha. destruct (Hb a); [eauto|lia]. Qed.

(** A pointer into an item set. *)
Lemma node_optr n m meta h s r off :
  nodes n m meta h -> h !! lin s = Some r -> 0 <= off < 2 ^ 16 ->
  exists p, oplus s off = Some p /\ lin p = lin s + off.
Proof.
  intros Hm Hr H0. pose proof (nodes_bounds _ _ _ _ _ _ Hm Hr).
  destruct (oplus_lin s off) as (p & Ep & Elp & _); [lia..|]. eauto.
Qed.

Lemma read_node n m meta h s r p off k (x : list byte) :
  nodes n m meta h -> h !! lin s = Some r -> lin p = lin s + off -> 0 <= off -> off + Z.of_nat k <= 103 ->
  (forall v, rnode_of v (lin s) = r -> vlist v (lin s + off) k = x) ->
  wp (omemcpy_out p k) m (fun bs m' => bs = x /\ nodes n m' meta h).
Proof.
  intros Hm Hr Ep H0 Hk Hx. pose proof (nodes_bounds _ _ _ _ _ _ Hm Hr). destruct Hm as (v & Hv & Hrest).
  wp_last (@omemcpy_out_spec M _ (manager_mem n) p k) as (-> & Hv'); [exact Hv|lia..|].
  split; [rewrite Ep; apply Hx; now apply Hrest|]. now exists v.
Qed.

(** Any bytes of the item set may be read. *)
Lemma read_node_any n m meta h s r p off k :
  nodes n m meta h -> h !! lin s = Some r -> lin p = lin s + off -> 0 <= off -> off + Z.of_nat k <= 103 ->
  wp (omemcpy_out p k) m (fun bs m' => length bs = k /\ nodes n m' meta h).
Proof.
  intros Hm Hr Ep H0 Hk. pose proof (nodes_bounds _ _ _ _ _ _ Hm Hr). destruct Hm as (v & Hv & Hrest).
  wp_last (@omemcpy_out_spec M _ (manager_mem n) p k) as (-> & Hv'); [exact Hv|lia..|].
  split; [apply vlist_length|]. now exists v.
Qed.

Lemma spaced_insert h a r r' : h !! a = Some r -> spaced h -> spaced (<[a := r']> h).
Proof.
  intros Ha H x y Hx Hy. apply H.
  - destruct (decide (x = a)) as [->|]; [eauto|now rewrite lookup_insert_ne in Hx].
  - destruct (decide (y = a)) as [->|]; [eauto|now rewrite lookup_insert_ne in Hy].
Qed.

Lemma rnode_of_frame v a bs x :
  x + 103 <= a \/ a + Z.of_nat (length bs) <= x -> rnode_of (vwrite v a bs) x = rnode_of v x.
Proof.
  intros H. unfold rnode_of. rewrite !vlist_vwrite_other, !optr_at_write_other, !vwrite_out by lia. reflexivity.
Qed.

(** Memory after a write of [bs] into the item set at [a]. *)
Lemma nodes_written n m m' v meta h a r r' off bs :
  mholds n m v -> vlist v 0 100 = meta -> map_Forall (fun a r => rnode_of v a = r) h ->
  (forall a, is_Some (h !! a) -> 100 <= a /\ a + 103 <= n) -> n < 2 ^ 24 -> spaced h ->
  h !! a = Some r -> 0 <= off -> off + Z.of_nat (length bs) <= 103 ->
  (forall v, rnode_of v a = r -> rnode_of (vwrite v (a + off) bs) a = r') ->
  mholds n m' (vwrite v (a + off) bs) -> nodes n m' meta (<[a := r']> h).
Proof.
  intros _ Hmeta Hh Hb Hn Hsp Hr H0 Hk Hx Hv'. destruct (Hb a) as [Ha1 Ha2]; [eauto|].
  exists (vwrite v (a + off) bs). split; [assumption|]. split; [|split; [|split; [|split; [assumption|]]]].
  - rewrite vlist_vwrite_other by lia. assumption.
  - intros x rx Ha. destruct (decide (x = a)) as [->|Hne].
    + rewrite lookup_insert_eq in Ha. injection Ha as <-. apply Hx. now apply Hh.
    + rewrite lookup_insert_ne in Ha by congruence. rewrite rnode_of_frame; [now apply Hh|].
      destruct (Hsp x a) as [|[|]]; eauto; [congruence|lia|lia].
  - intros x Ha. apply Hb. destruct (decide (x = a)) as [->|]; [eauto|now rewrite lookup_insert_ne in Ha by congruence].
  - now apply (spaced_insert h _ r).
Qed.

Lemma write_node n m meta h s r r' p off bs :
  nodes n m meta h -> h !! lin s = Some r -> lin p = lin s + off -> 0 <= off -> off + Z.of_nat (length bs) <= 103 ->
  (forall v, rnode_of v (lin s) = r -> rnode_of (vwrite v (lin s + off) bs) (lin s) = r') ->
  wp (omemcpy_in p bs) m (fun _ m' => nodes n m' meta (<[lin s := r']> h)).
Proof.
  intros Hm Hr Ep H0 Hk Hx. pose proof (nodes_bounds _ _ _ _ _ _ Hm Hr).
  destruct Hm as (v & Hv & Hmeta & Hh & Hb & Hn & Hsp).
  wp_last (@omemcpy_in_spec M _ (manager_mem n) p bs) as Hv'; [exact Hv|lia..|].
  rewrite Ep in Hv'. now apply (nodes_written n m _ v meta h _ r r' off bs).
Qed.

Lemma read_byte n m meta h s r off (z : Z) :
  nodes n m meta h -> h !! lin s = Some r -> 0 <= off < 103 ->
  (forall v, rnode_of v (lin s) = r -> u8 (v (lin s + off)) = z) ->
  wp (read_count s off) m (fun k m' => k = z /\ nodes n m' meta h).
Proof.
  intros Hm Hr H0 Hx. pose proof (nodes_bounds _ _ _ _ _ _ Hm Hr). destruct Hm as (v & Hv & Hrest).
  destruct (oplus_lin s off) as (p & Ep & Elp & Hp); [lia..|]. unfold read_count.
  apply wp_bind. eapply wp_must; [exact Ep|].
  wp_seq (@value_holds M _ (manager_mem n) p) as (-> & Hv'); [exact Hv|assumption|]. apply wp_ret.
  split; [rewrite Elp; apply Hx; now apply Hrest|]. now exists v.
Qed.

Lemma write_byte n m meta h s r r' off z :
  nodes n m meta h -> h !! lin s = Some r -> 0 <= off < 103 ->
  (forall v, rnode_of v (lin s) = r -> rnode_of (vwrite v (lin s + off) [b8 z]) (lin s) = r') ->
  wp (write_count s off z) m (fun _ m' => nodes n m' meta (<[lin s := r']> h)).
Proof.
  intros Hm Hr H0 Hx. pose proof (nodes_bounds _ _ _ _ _ _ Hm Hr).
  destruct Hm as (v & Hv & Hmeta & Hh & Hb & Hn & Hsp).
  destruct (oplus_lin s off) as (p & Ep & Elp & Hp); [lia..|]. unfold write_count.
  apply wp_bind. eapply wp_must; [exact Ep|].
  wp_last (@set_value_holds M _ (manager_mem n) p (b8 z)) as Hv'; [exact Hv|assumption|].
  rewrite Elp in Hv'. apply (nodes_written n m _ v meta h _ r r' off [b8 z]); try assumption; cbn; lia.
Qed.
End store.

(** ** Getters and setters *)

Section fields.
Context {M : Type} `{mgr : OverlayManager M}.
Context (n : Z) (meta : list byte).
Implicit Types (s : optr) (h : gmap Z rnode) (r : rnode).

Ltac three i := assert (i = 0 \/ i = 1 \/ i = 2) as [-> | [-> | ->]] by lia.
Ltac four i := assert (i = 0 \/ i = 1 \/ i = 2 \/ i = 3) as [-> | [-> | [-> | ->]]] by lia.

Lemma keyCount_spec s m h r :
  nodes n m meta h -> h !! lin s = Some r ->
  wp (keyCount s) m (fun k m' => k = r_kc r /\ nodes n m' meta h).
Proof. intros. apply (read_byte n m meta h s r 5); [assumption..|lia|]. now intros v <-. Qed.

Lemma childOptrCount_spec s m h r :
  nodes n m meta h -> h !! lin s = Some r ->
  wp (childOptrCount s) m (fun k m' => k = r_cc r /\ nodes n m' meta h).
Proof. intros. apply (read_byte n m meta h s r 66); [assumption..|lia|]. now intros v <-. Qed.

Lemma dataOptrCount_spec s m h r :
  nodes n m meta h -> h !! lin s = Some r ->
  wp (dataOptrCount s) m (fun k m' => k = r_dc r /\ nodes n m' meta h).
Proof. intros. apply (read_byte n m meta h s r 87); [assumption..|lia|]. now intros v <-. Qed.

Lemma set_keyCount_spec s z m h r :
  nodes n m meta h -> h !! lin s = Some r -> 0 <= z < 256 ->
  wp (set_keyCount s z) m (fun _ m' => nodes n m' meta (<[lin s := with_kc z r]> h)).
Proof.
  intros. apply (write_byte n m meta h s r _ 5); [assumption..|lia|]. node_write. now rewrite Z.mod_small.
Qed.

Lemma set_childOptrCount_spec s z m h r :
  nodes n m meta h -> h !! lin s = Some r -> 0 <= z < 256 ->
  wp (set_childOptrCount s z) m (fun _ m' => nodes n m' meta (<[lin s := with_cc z r]> h)).
Proof.
  intros. apply (write_byte n m meta h s r _ 66); [assumption..|lia|]. node_write. now rewrite Z.mod_small.
Qed.

Lemma set_dataOptrCount_spec s z m h r :
  nodes n m meta h -> h !! lin s = Some r -> 0 <= z < 256 ->
  wp (set_dataOptrCount s z) m (fun _ m' => nodes n m' meta (<[lin s := with_dc z r]> h)).
Proof.
  intros. apply (write_byte n m meta h s r _ 87); [assumption..|lia|]. node_write. now rewrite Z.mod_small.
Qed.

(** [key( i )] points at slot [i]; one index beyond the count is let through. *)
Lemma key_spec s i m h r :
  nodes n m meta h -> h !! lin s = Some r -> 0 <= i <= r_kc r ->
  wp (key s i) m (fun o m' => (exists p, o = Some p /\ lin p = lin s + (6 + i * 20)) /\ nodes n m' meta h).
Proof.
  intros Hm Hr Hi. pose proof (rok_kc _ (nodes_ok _ _ _ _ _ _ Hm Hr)). unfold key.
  wp_seq (keyCount_spec s) as (-> & Hm1); [eassumption..|].
  rewrite (proj2 (Z.ltb_ge _ _)) by lia.
  destruct (node_optr n m meta h s r (6 + i * 20)) as (p & Ep & Elp); [eassumption..|lia|].
  apply wp_bind. eapply wp_must; [exact Ep|]. apply wp_ret. eauto.
Qed.

Lemma slot_bytes_key v a (i : Z) :
  0 <= i < 3 -> r_ks (rnode_of v a) !! Z.to_nat i = Some (vlist v (a + (6 + i * 20)) 20).
Proof. intros Hi. three i; reflexivity. Qed.

Lemma vlist_take v a k l : (k <= l)%nat -> vlist v a k = take k (vlist v a l).
Proof.
  revert a l; induction k as [|k IH]; intros a [|l] Hk; cbn; try reflexivity; try lia.
  f_equal. apply IH. lia.
Qed.

(** Reading the first [k] bytes of a key. *)
Lemma read_key_spec s p i k key m h r :
  nodes n m meta h -> h !! lin s = Some r -> 0 <= i < 3 -> r_ks r !! Z.to_nat i = Some key -> (k <= 20)%nat ->
  lin p = lin s + (6 + i * 20) ->
  wp (omemcpy_out p k) m (fun bs m' => bs = take k key /\ nodes n m' meta h).
Proof.
  intros Hm Hr Hi Hk Hl Hp. apply (read_node n m meta h s r p (6 + i * 20)); [assumption..|lia|lia|].
  intros v <-. rewrite slot_bytes_key in Hk by assumption. apply (inj Some) in Hk as <-. now apply vlist_take.
Qed.

Lemma key_length h r m i key :
  nodes n m meta h -> forall s, h !! lin s = Some r -> r_ks r !! i = Some key -> length key = 20%nat.
Proof. intros Hm s Hr Hk. exact (Forall_lookup_1 _ _ _ _ (rok_keys _ (nodes_ok _ _ _ _ _ _ Hm Hr)) Hk). Qed.

Lemma rawKey_spec s i key m h r :
  nodes n m meta h -> h !! lin s = Some r -> 0 <= i <= r_kc r -> i < 3 -> r_ks r !! Z.to_nat i = Some key ->
  wp (rawKey s i) m (fun b m' => b = Some key /\ nodes n m' meta h).
Proof.
  intros Hm Hr Hi Hi3 Hk. unfold rawKey, ItemSet.key. apply wp_bind.
  wp_seq (keyCount_spec s) as (-> & Hm1); [eassumption..|].
  rewrite (proj2 (Z.ltb_ge _ _)) by lia.
  destruct (node_optr n m meta h s r (6 + i * 20)) as (p & Ep & Elp); [eassumption..|lia|].
  apply wp_bind. eapply wp_must; [exact Ep|]. apply wp_ret. apply wp_bind.
  wp_last (read_key_spec s p i 20 key) as (-> & Hm2); [eassumption..|lia|eassumption|lia|assumption|].
  apply wp_ret. split; [|assumption]. f_equal. apply take_ge.
  now rewrite (key_length h r m _ _ Hm s Hr Hk).
Qed.

Lemma read_key20_spec s p i key m h r :
  nodes n m meta h -> h !! lin s = Some r -> 0 <= i < 3 -> r_ks r !! Z.to_nat i = Some key ->
  lin p = lin s + (6 + i * 20) ->
  wp (omemcpy_out p 20) m (fun bs m' => bs = key /\ nodes n m' meta h).
Proof.
  intros Hm Hr Hi Hk Hp. wp_last (read_key_spec s p i 20 key) as (-> & Hm'); [eassumption..|lia|assumption|].
  split; [|assumption]. apply take_ge. now rewrite (key_length h r m _ _ Hm s Hr Hk).
Qed.

Lemma write_key_spec s p i key m h r :
  nodes n m meta h -> h !! lin s = Some r -> 0 <= i < 3 -> length key = 20%nat -> lin p = lin s + (6 + i * 20) ->
  wp (omemcpy_in p key) m (fun _ m' =>
    nodes n m' meta (<[lin s := with_ks (<[Z.to_nat i := key]> (r_ks r)) r]> h)).
Proof.
  intros Hm Hr Hi Hl Ep.
  apply (write_node n m meta h s r (with_ks (<[Z.to_nat i := key]> (r_ks r)) r) p (6 + i * 20));
    [assumption..|lia|lia|]. clear -Hi Hl. three i; node_write.
Qed.

Lemma set_key_spec s i key m h r :
  nodes n m meta h -> h !! lin s = Some r -> 0 <= i < 3 -> length key = 20%nat ->
  wp (set_key s i (Some key)) m (fun _ m' =>
    nodes n m' meta (<[lin s := with_ks (<[Z.to_nat i := key]> (r_ks r)) r]> h)).
Proof.
  intros Hm Hr Hi Hl. unfold set_key. rewrite (proj2 (Z.ltb_ge _ _)) by (unfold DEFAULT_KEY_COUNT, DEFAULT_THRESHOLD; lia).
  destruct (node_optr n m meta h s r (6 + i * 20)) as (p & Ep & Elp); [eassumption..|lia|].
  apply wp_bind. eapply wp_must; [exact Ep|]. apply wp_bind.
  apply (wp_must _ key). { change KEY_SIZE with (Z.of_nat 20). rewrite <- Hl. apply rd_all. }
  now apply write_key_spec.
Qed.

Lemma childOptr_spec s i c m h r :
  nodes n m meta h -> h !! lin s = Some r -> 0 <= i < r_cc r -> i < 4 -> r_cs r !! Z.to_nat i = Some c ->
  wp (childOptr s i) m (fun o m' => o = Some c /\ nodes n m' meta h).
Proof.
  intros Hm Hr Hi Hi4 Hc. unfold childOptr.
  wp_seq (childOptrCount_spec s) as (-> & Hm1); [eassumption..|].
  rewrite (proj2 (Z.leb_gt _ _)) by lia.
  destruct (node_optr n m meta h s r (67 + i * 5)) as (p & Ep & Elp); [eassumption..|lia|].
  apply wp_bind. eapply wp_must; [exact Ep|].
  wp_seq (read_node n _ meta h s r p (67 + i * 5) 5 (addr c)) as (-> & Hm2); [eassumption..|lia|lia| |].
  { intros v <-. cbn [r_cs rnode_of] in Hc. four i; apply (inj Some) in Hc as <-; rewrite optr_at_vlist; reflexivity. }
  apply wp_bind. eapply wp_must; [apply optr_of_addr|]. now apply wp_ret.
Qed.

Lemma childOptr_none s i m h r :
  nodes n m meta h -> h !! lin s = Some r -> r_cc r <= i ->
  wp (childOptr s i) m (fun o m' => o = None /\ nodes n m' meta h).
Proof.
  intros Hm Hr Hi. unfold childOptr. wp_seq (childOptrCount_spec s) as (-> & Hm1); [eassumption..|].
  rewrite (proj2 (Z.leb_le _ _)) by lia. now apply wp_ret.
Qed.

Lemma set_childOptr_spec s i c m h r :
  nodes n m meta h -> h !! lin s = Some r -> 0 <= i < 4 ->
  wp (set_childOptr s i c) m (fun _ m' =>
    nodes n m' meta (<[lin s := with_cs (<[Z.to_nat i := default addrZero c]> (r_cs r)) r]> h)).
Proof.
  intros Hm Hr Hi. unfold set_childOptr. rewrite (proj2 (Z.ltb_ge _ _)) by (unfold DEFAULT_CHILD_COUNT, DEFAULT_THRESHOLD; lia).
  destruct (node_optr n m meta h s r (67 + i * 5)) as (p & Ep & Elp); [eassumption..|lia|].
  apply wp_bind. eapply wp_must; [exact Ep|]. unfold optr_bytes.
  eapply wp_mono; [apply (write_node n m meta h s r (with_cs (<[Z.to_nat i := default addrZero c]> (r_cs r)) r) p (67 + i * 5))|auto];
    [assumption..|lia|cbn [length addr]; lia|].
  clear -Hi. four i; node_write.
Qed.

Lemma dataOptr_spec s i d m h r :
  nodes n m meta h -> h !! lin s = Some r -> 0 <= i <= r_dc r -> i < 3 -> r_ds r !! Z.to_nat i = Some d ->
  wp (dataOptr s i) m (fun o m' => o = Some d /\ nodes n m' meta h).
Proof.
  intros Hm Hr Hi Hi3 Hd. unfold dataOptr.
  wp_seq (dataOptrCount_spec s) as (-> & Hm1); [eassumption..|].
  rewrite (proj2 (Z.ltb_ge _ _)) by lia.
  destruct (node_optr n m meta h s r (88 + i * 5)) as (p & Ep & Elp); [eassumption..|lia|].
  apply wp_bind. eapply wp_must; [exact Ep|].
  wp_seq (read_node n _ meta h s r p (88 + i * 5) 5 (addr d)) as (-> & Hm2); [eassumption..|lia|lia| |].
  { intros v <-. cbn [r_ds rnode_of] in Hd. three i; apply (inj Some) in Hd as <-; rewrite optr_at_vlist; reflexivity. }
  apply wp_bind. eapply wp_must; [apply optr_of_addr|]. now apply wp_ret.
Qed.

Lemma set_dataOptr_spec s i d m h r :
  nodes n m meta h -> h !! lin s = Some r -> 0 <= i < 3 ->
  wp (set_dataOptr s i d) m (fun _ m' =>
    nodes n m' meta (<[lin s := with_ds (<[Z.to_nat i := default addrZero d]> (r_ds r)) r]> h)).
Proof.
  intros Hm Hr Hi. unfold set_dataOptr.
  destruct (node_optr n m meta h s r (88 + i * 5)) as (p & Ep & Elp); [eassumption..|lia|].
  apply wp_bind. eapply wp_must; [exact Ep|]. unfold optr_bytes.
  eapply wp_mono; [apply (write_node n m meta h s r (with_ds (<[Z.to_nat i := default addrZero d]> (r_ds r)) r) p (88 + i * 5))|auto];
    [assumption..|lia|cbn [length addr]; lia|].
  clear -Hi. three i; node_write.
Qed.

Lemma parent_spec s m h r :
  nodes n m meta h -> h !! lin s = Some r ->
  wp (parent s) m (fun p m' => p = r_parent r /\ nodes n m' meta h).
Proof.
  intros Hm Hr. unfold parent.
  wp_seq (read_node n _ meta h s r s 0 5 (addr (r_parent r))) as (-> & Hm2); [eassumption..|lia|lia|lia| |].
  { intros v <-. rewrite Z.add_0_r. cbn. now rewrite optr_at_vlist. }
  eapply wp_must; [apply optr_of_addr|]. auto.
Qed.

Lemma set_parent_spec s p m h r :
  nodes n m meta h -> h !! lin s = Some r ->
  wp (set_parent s p) m (fun _ m' => nodes n m' meta (<[lin s := with_parent (default addrZero p) r]> h)).
Proof.
  intros Hm Hr. unfold set_parent, optr_bytes.
  eapply wp_mono; [apply (write_node n m meta h s r (with_parent (default addrZero p) r) s 0)|auto];
    [assumption..|lia|lia|cbn [length addr]; lia|].
  rewrite Z.add_0_r. node_write.
Qed.
End fields.

(** ** Symbolic execution

    [node_run] executes code on item sets whose records are known; counts and indices have
    to be numerals, comparisons of keys facts of the context. *)

Lemma wp_must_some {S A} (a : A) (s : S) (Q : A -> S -> Prop) : Q a s -> wp (must (Some a)) s Q.
Proof. exact id. Qed.

(** ** Keys in the order of [memcmp] *)

Lemma memcmp_flip a b : memcmp a b = Lt -> memcmp b a = Gt.
Proof.
  revert b; induction a as [|x a IH]; intros [|y b]; cbn; try discriminate.
  rewrite (Z.compare_antisym (u8 x) (u8 y)). destruct (u8 x ?= u8 y); cbn; try discriminate; auto.
Qed.

Lemma rd_key k : length k = 20%nat -> rd KEY_SIZE (Some k) = Some k.
Proof. intros H. change KEY_SIZE with (Z.of_nat 20). rewrite <- H. apply rd_all. Qed.

Ltac find_node :=
  rewrite ?lookup_insert_eq;
  repeat (rewrite lookup_insert_ne by (assumption || congruence); rewrite ?lookup_insert_eq);
  first [reflexivity | eassumption].

Ltac node_norm Hm :=
  rewrite ?insert_insert_eq in Hm;
  try match type of Hm with nodes _ _ _ (<[_ := ?r]> _) => let r' := eval cbv in r in change r with r' in Hm end.

Ltac after_read Hm :=
  let H := fresh "Hm" in
  intros ? ? (-> & H); cbv beta; try clear Hm; cbn [r_parent r_kc r_ks r_cc r_cs r_dc r_ds default from_option id].
Ltac after_write Hm := let H := fresh "Hm" in intros ? ? H; cbv beta in H |- *; clear Hm; node_norm H.
Ltac in_range := cbn [r_kc r_cc r_dc]; lia.

Ltac eval_cond b := let b' := eval cbv in b in change b with b'; cbv iota.
Ltac eval_ushort z :=
  let z' := eval cbv in (ushort z) in
  lazymatch z' with Z0 => idtac | Zpos _ => idtac end; change (ushort z) with z'.
Ltac eval_Z z :=
  let z' := eval cbv in z in
  lazymatch z' with Z0 => idtac | Zpos _ => idtac end; change z with z'.
Ltac eval_nat k := let k' := eval cbv in k in change k with k'.

Ltac node_op :=
  lazymatch goal with
  | |- wp (mbind _ _) _ _ => apply wp_bind
  | |- wp (mret _) _ _ => apply wp_ret; cbv beta; cbn [default from_option id]
  | |- wp (must (Some _)) _ _ => apply wp_must_some; cbv beta
  | |- wp (if ?b then _ else _) _ _ => eval_cond b
  | |- wp (match memcmp ?a ?b with _ => _ end) _ _ =>
      first [ match goal with E : memcmp a b = _ |- _ => rewrite E end
            | rewrite (memcmp_refl a) | rewrite (memcmp_flip b a) by assumption ]; cbv iota
  | |- wp (must (rd KEY_SIZE (Some _))) _ _ => rewrite rd_key by assumption
  | |- wp (match Some _ with _ => _ end) _ _ => cbv iota
  | |- wp (match None with _ => _ end) _ _ => cbv iota
  | |- wp (for_down ?k _ _) _ _ => eval_nat k; cbn [for_down Z.of_nat Pos.of_succ_nat Pos.succ]
  | |- wp (for_up ?k _ _) _ _ => eval_nat k; cbn [for_up]
  | Hm : nodes _ ?m _ _ |- wp ?c ?m _ =>
    lazymatch c with
    | context [ushort ?z] => eval_ushort z
    | keyCount _ => eapply wp_mono; [eapply keyCount_spec; [exact Hm|find_node]|after_read Hm]
    | childOptrCount _ => eapply wp_mono; [eapply childOptrCount_spec; [exact Hm|find_node]|after_read Hm]
    | dataOptrCount _ => eapply wp_mono; [eapply dataOptrCount_spec; [exact Hm|find_node]|after_read Hm]
    | parent _ => eapply wp_mono; [eapply parent_spec; [exact Hm|find_node]|after_read Hm]
    | rawKey _ _ => eapply wp_mono; [eapply rawKey_spec; [exact Hm|find_node|in_range|lia|reflexivity]|after_read Hm]
    | dataOptr _ _ => eapply wp_mono; [eapply dataOptr_spec; [exact Hm|find_node|in_range|lia|reflexivity]|after_read Hm]
    | childOptr _ _ => first
        [ eapply wp_mono; [eapply childOptr_spec; [exact Hm|find_node|in_range|lia|reflexivity]|after_read Hm]
        | eapply wp_mono; [eapply childOptr_none; [exact Hm|find_node|in_range]|after_read Hm] ]
    | key _ _ => eapply wp_mono; [eapply key_spec; [exact Hm|find_node|in_range]|];
        let p := fresh "p" in let Hp := fresh "Hp" in let H := fresh "Hm" in
        intros ? ? [(p & -> & Hp) H]; cbv beta; clear Hm
    | omemcpy_out ?p 20 =>
        match goal with Hp : lin p = lin ?s + (6 + ?i * 20) |- _ =>
          eapply wp_mono; [eapply (read_key20_spec _ _ s p i); [exact Hm|find_node|lia|reflexivity|exact Hp]|after_read Hm] end
    | omemcpy_out ?p _ =>
        match goal with Hp : lin p = lin ?s + (6 + ?i * 20) |- _ =>
          eapply wp_mono; [eapply (read_key_spec _ _ s p i); [exact Hm|find_node|lia|reflexivity|lia|exact Hp]|after_read Hm] end
    | omemcpy_in ?p _ =>
        match goal with Hp : lin p = lin ?s + (6 + ?i * 20) |- _ =>
          eapply wp_mono; [eapply (write_key_spec _ _ s p i); [exact Hm|find_node|lia|assumption|exact Hp]|after_write Hm] end
    | set_keyCount _ ?z => try eval_Z z; eapply wp_mono; [eapply set_keyCount_spec; [exact Hm|find_node|lia]|after_write Hm]
    | set_childOptrCount _ ?z => try eval_Z z; eapply wp_mono; [eapply set_childOptrCount_spec; [exact Hm|find_node|lia]|after_write Hm]
    | set_dataOptrCount _ ?z => try eval_Z z; eapply wp_mono; [eapply set_dataOptrCount_spec; [exact Hm|find_node|lia]|after_write Hm]
    | set_key _ _ _ => eapply wp_mono; [eapply set_key_spec; [exact Hm|find_node|lia|assumption]|after_write Hm]
    | set_childOptr _ _ _ => eapply wp_mono; [eapply set_childOptr_spec; [exact Hm|find_node|lia]|after_write Hm]
    | set_dataOptr _ _ _ => eapply wp_mono; [eapply set_dataOptr_spec; [exact Hm|find_node|lia]|after_write Hm]
    | set_parent _ _ => eapply wp_mono; [eapply set_parent_spec; [exact Hm|find_node]|after_write Hm]
    end
  end.

Ltac node_run := repeat node_op.
