(* ===== verification/ONode.v ===== *)
(** miya_db B-tree nodes ([o_node.cpp]): search, insertion with splits and removal with
    underflow and merging.  An [ONode] is the pointer its item set starts at; its memory
    manager is the state.  The flag [_isLeaf] is only printed and left out. *)
From S2P Require Import Prelude OverlayPtr MemoryManager ItemSet.
From Stdlib Require Import Lia.

Definition META_ROOT_NODE_OFFSET : Z := 20.

(** ** The virtual item set of a split ([ViewItemSet]) *)

Record ViewItemSet : Type := mkView {
  v_key : list buffer;
  v_childOptr : list (option optr);
  v_dataOPtr : list (option optr);
}.

(** [at(i) = at(i-1)] from the end down to [index], then [at(index) = target]. *)
Definition array_move_insert {St A} (index : Z) (target : A) (l : list A) : prog St (list A) :=
  if index <? Z.of_nat (length l)
  then mret (take (Z.to_nat index) l ++ target :: drop (Z.to_nat index) (removelast l))
  else throw OutOfRange.

(** Keys in the order of [memcmp] on [KEY_SIZE] bytes. *)
Fixpoint insert_key (k : list byte) (l : list (list byte)) : list (list byte) :=
  match l with
  | [] => [k]
  | k' :: l' => match memcmp k k' with Gt => k' :: insert_key k l' | _ => k :: l end
  end.

Definition sort_keys (l : list (list byte)) : list (list byte) := foldr insert_key [] l.

(** [std::sort] with the comparator [memcmp( a , b ) <= 0]: a strict order, as the
    algorithm requires, only as long as the keys are different. *)
Definition std_sort_keys (l : list buffer) : option (list buffer) :=
  ks ← mapM (rd KEY_SIZE) l;
  if decide (NoDup ks) then Some (map Some (sort_keys ks)) else None.

Section ONode.
Context {M : Type} `{ops : !OverlayManagerOps M}.

(** The constructor without an address: a new, cleared item set. *)
Definition ONode_new : prog M optr :=
  baseOptr ← manager_allocate O_NODE_ITEMSET_SIZE;
  _ ← ItemSet_clear baseOptr;
  mret baseOptr.

Definition ONode_parent (this : optr) : prog M optr := parent this.

Definition child (this : optr) (index : Z) : prog M (option optr) := childOptr this (ushort index).

(** The first of the keys [i], ..., [i + n - 1] that equals the target. *)
Fixpoint find_key_from (this : optr) (targetKey : buffer) (n : nat) (i : Z) : prog M (option Z) :=
  match n with
  | O => mret None
  | S n' =>
      keyOptr ← (key this i ≫= must);
      rawKey ← omemcpy_out keyOptr 20;
      t ← must (rd KEY_SIZE targetKey);
      match memcmp t rawKey with
      | Eq => mret (Some i)
      | _ => find_key_from this targetKey n' (i + 1)
      end
  end.

Definition findIndex (this : optr) (targetKey : buffer) : prog M Z :=
  n ← keyCount this;
  r ← find_key_from this targetKey (Z.to_nat n) 0;
  mret (default (-1) r).

(** The position of a key that was just inserted; 0 when it is not found. *)
Definition keyInsertedIndex (this : optr) (targetKey : buffer) : prog M Z :=
  n ← keyCount this;
  r ← find_key_from this targetKey (Z.to_nat n) 0;
  mret (default 0 r).

(** The same loop over the keys of the virtual item set. *)
Fixpoint view_key_index (targetKey : list byte) (keys : list (list byte)) (i : Z) : Z :=
  match keys with
  | [] => 0
  | k :: keys' =>
      match memcmp k targetKey with Eq => i | _ => view_key_index targetKey keys' (i + 1) end
  end.

Definition importItemSet (this : optr) : prog M ViewItemSet :=
  keySorce ← exportKeyArray this;
  dataOptrSource ← exportDataOptrArray this;
  childSorce ← exportChildOptrArray this;
  mret (mkView (keySorce ++ [None]) (childSorce ++ [None]) (dataOptrSource ++ [None])).

Definition separatorKeyIndex : Z :=
  if (DEFAULT_KEY_COUNT + 1) mod 2 =? 0 then (DEFAULT_KEY_COUNT + 1) / 2 - 1
  else (DEFAULT_KEY_COUNT + 1) / 2.

(** The view with the new key, data pointer and child in their places. *)
Definition split_view (this : optr) (targetKey : buffer) (targetDataOptr targetONode : option optr)
  : prog M ViewItemSet :=
  view ← importItemSet this;
  let keys0 := <[Z.to_nat DEFAULT_KEY_COUNT := targetKey]> (v_key view) in
  keys ← must (std_sort_keys keys0);
  rawKeys ← must (mapM (rd KEY_SIZE) keys);
  t ← must (rd KEY_SIZE targetKey);
  let keyInsertedIndex := view_key_index t rawKeys 0 in
  datas ← array_move_insert keyInsertedIndex targetDataOptr (v_dataOPtr view);
  childs ← (match targetONode with
            | Some n => array_move_insert (keyInsertedIndex + 1) (Some n) (v_childOptr view)
            | None => mret (v_childOptr view)
            end);
  mret (mkView keys childs datas).

(** The children of the view from [center] on go to the new node, which becomes their
    parent. *)
Fixpoint move_children (splitONode : optr) (childs : list (option optr)) (i : Z) : prog M unit :=
  match childs with
  | [] => mret ()
  | c :: childs' =>
      _ ← set_childOptr splitONode i c;
      _ ← set_childOptrCount splitONode (i + 1);
      c' ← childOptr splitONode i;
      _ ← (match c' with
           | Some _ =>
               ch ← (child splitONode i ≫= must);
               set_parent ch (Some splitONode)
           | None => mret ()
           end);
      move_children splitONode childs' (i + 1)
  end.

Fixpoint write_keys (s : optr) (i : Z) (keys : list buffer) : prog M unit :=
  match keys with
  | [] => mret ()
  | k :: keys' => _ ← set_key s i k; write_keys s (i + 1) keys'
  end.

Fixpoint write_datas (s : optr) (i : Z) (datas : list (option optr)) : prog M unit :=
  match datas with
  | [] => mret ()
  | d :: datas' => _ ← set_dataOptr s i d; write_datas s (i + 1) datas'
  end.

Fixpoint write_childs (s : optr) (i : Z) (childs : list (option optr)) : prog M unit :=
  match childs with
  | [] => mret ()
  | c :: childs' => _ ← set_childOptr s i c; write_childs s (i + 1) childs'
  end.

(** The lambda [splitONode]: keeps the keys below the separator, moves those above it to
    a new right node, and returns the separator with its data and that node. *)
Definition splitONode (this : optr) (targetKey : buffer) (targetDataOptr targetONode : option optr)
  : prog M (buffer * option optr * optr) :=
  view ← split_view this targetKey targetDataOptr targetONode;
  let sep := Z.to_nat separatorKeyIndex in
  separatorKey ← must (v_key view !! sep);
  separatorDataOptr ← must (v_dataOPtr view !! sep);
  splitONode ← ONode_new;
  _ ← write_keys splitONode 0 (drop (S sep) (v_key view));
  _ ← set_keyCount splitONode (DEFAULT_KEY_COUNT + 1 - separatorKeyIndex - 1);
  _ ← write_datas splitONode 0 (drop (S sep) (v_dataOPtr view));
  _ ← set_dataOptrCount splitONode (DEFAULT_DATA_OPTR_COUNT + 1 - separatorKeyIndex - 1);
  p ← ONode_parent this;
  _ ← set_parent splitONode (Some p);
  _ ← write_keys this 0 (take sep (v_key view));
  _ ← set_keyCount this separatorKeyIndex;
  _ ← write_datas this 0 (take sep (v_dataOPtr view));
  _ ← set_dataOptrCount this separatorKeyIndex;
  cc ← childOptrCount this;
  _ ← (if 0 <? cc then
         let center := (length (v_childOptr view) / 2)%nat in
         _ ← write_childs this 0 (take center (v_childOptr view));
         _ ← set_childOptrCount this (Z.of_nat center);
         _ ← move_children splitONode (drop center (v_childOptr view)) 0;
         set_childOptrCount splitONode (Z.of_nat (length (v_childOptr view)) - Z.of_nat center)
       else mret ());
  mret (separatorKey, separatorDataOptr, splitONode).

(** A split root gets a new root above it, which is recorded in the meta area. *)
Definition grow_root (this : optr) (targetKey : buffer) (targetDataOptr : option optr) (targetONode : optr)
  : prog M optr :=
  newRootNode ← ONode_new;
  q ← must (oplus addrZero META_ROOT_NODE_OFFSET);
  _ ← omemcpy_in q (addr newRootNode);
  _ ← set_key newRootNode 0 targetKey;
  _ ← set_keyCount newRootNode 1;
  _ ← set_dataOptr newRootNode 0 targetDataOptr;
  _ ← set_dataOptrCount newRootNode 1;
  _ ← set_childOptr newRootNode 0 (Some this);
  _ ← set_childOptrCount newRootNode 1;
  _ ← set_childOptr newRootNode 1 (Some targetONode);
  _ ← set_childOptrCount newRootNode 2;
  _ ← set_parent this (Some newRootNode);
  _ ← set_parent targetONode (Some newRootNode);
  _ ← set_parent newRootNode None;
  mret newRootNode.

(** The branch of [recursiveAdd] for a node with room. *)
Definition simple_add (this : optr) (targetKey : buffer) (targetDataOptr targetONode : option optr)
  : prog M unit :=
  n ← keyCount this;
  _ ← set_key this n targetKey;
  n ← keyCount this;
  _ ← set_keyCount this (n + 1);
  _ ← sortKey this;
  keyInsertedIndex ← keyInsertedIndex this targetKey;
  _ ← moveInsertDataOptr this keyInsertedIndex targetDataOptr;
  d ← dataOptrCount this;
  _ ← set_dataOptrCount this (d + 1);
  match targetONode with
  | Some t =>
      _ ← moveInsertChildOptr this (keyInsertedIndex + 1) (Some t);
      n ← keyCount this;
      set_childOptrCount this (n + 1)
  | None => mret ()
  end.

(** Returns the new root when there is one.  Each call moves one level up. *)
Fixpoint recursiveAdd (fuel : nat) (this : optr) (targetKey : buffer)
    (targetDataOptr targetONode : option optr) : prog M (option optr) :=
  match fuel with
  | O => undef
  | S fuel' =>
      n ← keyCount this;
      if DEFAULT_KEY_COUNT <=? n then
        '(targetKey, targetDataOptr, targetONode) ← splitONode this targetKey targetDataOptr targetONode;
        parentONode ← ONode_parent this;
        if optr_eqb parentONode addrZero then
          newRootNode ← grow_root this targetKey targetDataOptr targetONode;
          mret (Some newRootNode)
        else recursiveAdd fuel' parentONode targetKey targetDataOptr (Some targetONode)
      else
        _ ← simple_add this targetKey targetDataOptr targetONode;
        mret None
  end.

(** ** Search *)

(** The loop of [subtreeFind]/[subtreeONodeFind] over the keys [i], ..., [i + n - 1],
    of which the first [len] bytes are compared. *)
Inductive step_down : Type :=
| Found (i : Z)
| Descend (i : Z)
| PastKeys.

Fixpoint compare_keys (this : optr) (targetKey : list byte) (len : nat) (n : nat) (i : Z)
  : prog M step_down :=
  match n with
  | O => mret PastKeys
  | S n' =>
      keyOptr ← (key this i ≫= must);
      rawKey ← omemcpy_out keyOptr len;
      match memcmp targetKey rawKey with
      | Lt => mret (Descend i)
      | Eq => mret (Found i)
      | Gt => compare_keys this targetKey len n' (i + 1)
      end
  end.

(** The node a search continues in. *)
Definition candidateChild (this : optr) (step : step_down) : prog M (option optr) :=
  match step with
  | Descend i => child this i
  | _ => cc ← childOptrCount this; child this (cc - 1)
  end.

Fixpoint subtreeFind (fuel : nat) (this : optr) (targetKey : buffer) : prog M (option optr) :=
  match fuel with
  | O => undef
  | S fuel' =>
      n ← keyCount this;
      t ← must (rd 5 targetKey);
      step ← compare_keys this t 5 (Z.to_nat n) 0;
      match step with
      | Found i => dataOptr this i
      | _ =>
          c ← candidateChild this step;
          match c with None => mret None | Some c => subtreeFind fuel' c targetKey end
      end
  end.

Fixpoint subtreeONodeFind (fuel : nat) (this : optr) (targetKey : buffer) : prog M (option optr) :=
  match fuel with
  | O => undef
  | S fuel' =>
      n ← keyCount this;
      t ← must (rd KEY_SIZE targetKey);
      step ← compare_keys this t 20 (Z.to_nat n) 0;
      match step with
      | Found i => mret (Some this)
      | _ =>
          c ← candidateChild this step;
          match c with None => mret None | Some c => subtreeONodeFind fuel' c targetKey end
      end
  end.

Fixpoint subtreeMax (fuel : nat) (this : optr) : prog M optr :=
  match fuel with
  | O => undef
  | S fuel' =>
      cc ← childOptrCount this;
      if 1 <=? cc then c ← (child this (cc - 1) ≫= must); subtreeMax fuel' c
      else mret this
  end.

(** ** Removal *)

(** The position of a child among the children [i], ..., [i + n - 1]. *)
Fixpoint child_index_from (this sourceONode : optr) (n : nat) (i : Z) : prog M Z :=
  match n with
  | O => mret (-1)
  | S n' =>
      c ← (child this i ≫= must);
      if optr_eqb sourceONode c then mret i else child_index_from this sourceONode n' (i + 1)
  end.

Definition child_index (this sourceONode : optr) : prog M Z :=
  n ← childOptrCount this; child_index_from this sourceONode (Z.to_nat n) 0.

Definition left_sibling (this : optr) (index : Z) : prog M (option optr) :=
  if 0 <? index then child this (index - 1) else mret None.

(** [leftChildONode != nullptr && leftChildONode->citemSet()->keyCount() >= 2]. *)
Definition can_give (sibling : option optr) : prog M bool :=
  match sibling with
  | None => mret false
  | Some s => n ← keyCount s; mret (2 <=? n)
  end.

Definition is_root (this : optr) : prog M bool := p ← ONode_parent this; mret (optr_eqb p addrZero).

(** The only child becomes the root. *)
Definition promote_child (this : optr) : prog M (option optr) :=
  c ← (child this 0 ≫= must); _ ← set_parent c None; child this 0.

(** [recursiveMerge( unsigned short )]; the test [index == -1] never holds for one. *)
Definition recursiveMerge (this : optr) (index : Z) : prog M (option optr) :=
  n ← keyCount this;
  if n <=? 0 then promote_child this
  else
    targetONode ← child this index;
    leftChildONode ← left_sibling this index;
    rightChildONode ← child this (index + 1);
    giveLeft ← can_give leftChildONode;
    giveRight ← can_give rightChildONode;
    match giveLeft, leftChildONode, giveRight, rightChildONode with
    | true, Some l, _, _ =>
        t ← must targetONode;
        k ← rawKey this 0; _ ← set_key t 0 k;
        n ← keyCount t; _ ← set_keyCount t (n + 1);
        _ ← set_keyCount this 0;
        d ← dataOptr this 0; _ ← set_dataOptr t 0 d;
        _ ← set_dataOptrCount this 0;
        n ← keyCount l; k ← rawKey l n; _ ← set_key this 0 k;
        _ ← set_keyCount this 1;
        n ← keyCount l; _ ← moveDeleteKey l n;
        n ← dataOptrCount l; d ← dataOptr l n; _ ← set_dataOptr this 0 d;
        _ ← set_dataOptrCount this 1;
        n ← dataOptrCount l; _ ← moveDeleteDataOptr l n;
        n ← childOptrCount l; c ← (child l n ≫= must);
        _ ← moveInsertChildOptr t 0 (Some c);
        n ← childOptrCount t; _ ← set_childOptrCount t (n + 1);
        c ← (child t 0 ≫= must); _ ← set_parent c (Some t);
        n ← childOptrCount l; _ ← moveDeleteChildOptr l n;
        mret None
    | _, _, true, Some r =>
        t ← must targetONode;
        k ← rawKey this 0; _ ← set_key t 0 k;
        n ← keyCount t; _ ← set_keyCount t (n + 1);
        _ ← set_keyCount this 0;
        d ← dataOptr this 0; _ ← set_dataOptr t 0 d;
        _ ← set_dataOptrCount this 0;
        k ← rawKey r 0; _ ← set_key this 0 k;
        _ ← set_keyCount this 1;
        _ ← moveDeleteKey r 0;
        d ← dataOptr r 0; _ ← set_dataOptr this 0 d;
        _ ← set_dataOptrCount this 1;
        _ ← moveDeleteDataOptr r 0;
        n ← childOptrCount t; c ← (child r 0 ≫= must);
        _ ← moveInsertChildOptr t n (Some c);
        n ← childOptrCount t; _ ← set_childOptrCount t (n + 1);
        n ← childOptrCount t; c ← (child t (n - 1) ≫= must); _ ← set_parent c (Some t);
        _ ← moveDeleteChildOptr r 0;
        mret None
    | _, Some l, _, _ =>
        n ← keyCount l; k ← rawKey this (ushort (index - 1)); _ ← moveInsertKey l n k;
        n ← keyCount l; _ ← set_keyCount l (n + 1);
        _ ← moveDeleteKey this (ushort (index - 1));
        n ← dataOptrCount l; d ← dataOptr this (ushort (index - 1)); _ ← moveInsertDataOptr l n d;
        n ← dataOptrCount l; _ ← set_dataOptrCount l (n + 1);
        _ ← moveDeleteDataOptr this (ushort (index - 1));
        t ← must targetONode; n ← childOptrCount l; c ← (child t 0 ≫= must);
        _ ← moveInsertChildOptr l n (Some c);
        n ← childOptrCount l; _ ← set_childOptrCount l (n + 1);
        n ← childOptrCount l; c ← (child l (n - 1) ≫= must); _ ← set_parent c (Some l);
        _ ← moveDeleteChildOptr this index;
        n ← keyCount this;
        if n <=? 0 then promote_child this else mret None
    | _, None, _, Some r =>
        k ← rawKey this index; _ ← moveInsertKey r 0 k;
        n ← keyCount r; _ ← set_keyCount r (n + 1);
        _ ← moveDeleteKey this index;
        d ← dataOptr this index; _ ← moveInsertDataOptr r 0 d;
        n ← dataOptrCount r; _ ← set_dataOptrCount r (n + 1);
        _ ← moveDeleteDataOptr this index;
        t ← must targetONode; c ← (child t 0 ≫= must);
        _ ← moveInsertChildOptr r 0 (Some c);
        n ← childOptrCount r; _ ← set_childOptrCount r (n + 1);
        n ← childOptrCount r; c ← (child r (n - 1) ≫= must); _ ← set_parent c (Some r);
        _ ← moveDeleteChildOptr this index;
        n ← keyCount this;
        if n <=? 0 then promote_child this else mret None
    | _, _, _, _ => mret None
    end.

(** [recursiveMerge( std::shared_ptr<ONode> )]: without a [return] before the
    [nullptr], a node that is not a child gives the index 65535. *)
Definition recursiveMerge_of (this sourceONode : optr) : prog M (option optr) :=
  index ← child_index this sourceONode; recursiveMerge this (ushort index).

(** [merge( unsigned short )]. *)
Definition merge (this : optr) (index : Z) : prog M (option optr) :=
  leftChildONode ← left_sibling this index;
  rightChildONode ← child this (index + 1);
  n ← keyCount this;
  match leftChildONode, rightChildONode with
  | Some l, _ =>
      if 2 <=? n then
        _ ← moveDeleteChildOptr this index;
        n ← keyCount l; k ← rawKey this (ushort (index - 1)); _ ← set_key l n k;
        n ← keyCount l; _ ← set_keyCount l (n + 1);
        _ ← moveDeleteKey this (ushort (index - 1));
        n ← dataOptrCount l; d ← dataOptr this (ushort (index - 1)); _ ← set_dataOptr l n d;
        n ← dataOptrCount l; _ ← set_dataOptrCount l (n + 1);
        mret None
      else
        n ← keyCount l; k ← rawKey this (ushort (index - 1)); _ ← moveInsertKey l n k;
        n ← keyCount l; _ ← set_keyCount l (n + 1);
        _ ← moveDeleteKey this (ushort (index - 1));
        n ← dataOptrCount l; d ← dataOptr this (ushort (index - 1)); _ ← moveInsertDataOptr l n d;
        n ← dataOptrCount l; _ ← set_dataOptrCount l (n + 1);
        _ ← moveDeleteDataOptr this (ushort (index - 1));
        _ ← moveDeleteChildOptr this index;
        root ← is_root this;
        if root : bool then promote_child this
        else p ← ONode_parent this; recursiveMerge_of p this
  | None, Some r =>
      if 2 <=? n then
        _ ← moveDeleteChildOptr this index;
        k ← rawKey this index; _ ← moveInsertKey r 0 k;
        n ← keyCount r; _ ← set_keyCount r (n + 1);
        _ ← moveDeleteKey this index;
        d ← dataOptr this index; _ ← moveInsertDataOptr r 0 d;
        n ← dataOptrCount r; _ ← set_dataOptrCount r n;
        mret None
      else
        k ← rawKey this index; _ ← moveInsertKey r 0 k;
        n ← keyCount r; _ ← set_keyCount r (n + 1);
        _ ← moveDeleteKey this index;
        d ← dataOptr this index; _ ← moveInsertDataOptr r 0 d;
        n ← dataOptrCount r; _ ← set_dataOptrCount r (n + 1);
        _ ← moveDeleteDataOptr this index;
        _ ← moveDeleteChildOptr this index;
        root ← is_root this;
        if root : bool then promote_child this
        else p ← ONode_parent this; recursiveMerge_of p this
  | None, None => mret None
  end.

(** A key moves from the left sibling [l] through this node to the emptied child. *)
Definition borrow_left (this sourceONode l : optr) (index : Z) : prog M unit :=
  k ← rawKey this (ushort (index - 1)); _ ← set_key sourceONode 0 k;
  _ ← set_keyCount sourceONode 1;
  d ← dataOptr this (ushort (index - 1)); _ ← set_dataOptr sourceONode 0 d;
  _ ← set_dataOptrCount sourceONode 1;
  n ← keyCount l; k ← rawKey l (ushort (n - 1)); _ ← set_key this (ushort (index - 1)) k;
  n ← keyCount l; _ ← moveDeleteKey l (ushort (n - 1));
  n ← dataOptrCount l; d ← dataOptr l (ushort (n - 1)); _ ← set_dataOptr this (ushort (index - 1)) d;
  n ← dataOptrCount l; moveDeleteDataOptr l (ushort (n - 1)).

(** The same from the right sibling [r]. *)
Definition borrow_right (this sourceONode r : optr) (index : Z) : prog M unit :=
  k ← rawKey this index; _ ← set_key sourceONode 0 k;
  _ ← set_keyCount sourceONode 1;
  d ← dataOptr this index; _ ← set_dataOptr sourceONode 0 d;
  _ ← set_dataOptrCount sourceONode 1;
  k ← rawKey r 0; _ ← set_key this index k;
  _ ← moveDeleteKey r 0;
  d ← dataOptr r 0; _ ← set_dataOptr this index d;
  moveDeleteDataOptr r 0.

Definition underflow (this sourceONode : optr) : prog M (option optr) :=
  index ← child_index this sourceONode;
  if index =? -1 then mret None
  else
    leftChildONode ← left_sibling this index;
    rightChildONode ← child this (index + 1);
    giveLeft ← can_give leftChildONode;
    giveRight ← (if giveLeft : bool then mret false else can_give rightChildONode);
    match giveLeft, leftChildONode, giveRight, rightChildONode with
    | true, Some l, _, _ => _ ← borrow_left this sourceONode l index; mret None
    | _, _, true, Some r => _ ← borrow_right this sourceONode r index; mret None
    | _, _, _, _ => merge this (ushort index)
    end.

(** [remove] in a leaf: the root and nodes with two keys simply drop the key. *)
Definition remove_from_leaf (this : optr) (index : Z) : prog M (option optr) :=
  n ← keyCount this;
  root ← is_root this;
  if (1 <? n) || root then
    _ ← ItemSet_remove this index; mret None
  else
    root ← is_root this;
    if root : bool then _ ← moveDeleteKey this 0; mret None
    else p ← ONode_parent this; underflow p this.

(** A root without keys and with one child is replaced by that child. *)
Definition skip_empty_root (candidate : option optr) : prog M (option optr) :=
  match candidate with
  | None => mret None
  | Some c =>
      n ← keyCount c; cc ← childOptrCount c; root ← is_root c;
      if (n <=? 0) && (cc =? 1) && root then promote_child c else mret candidate
  end.

Fixpoint ONode_remove (fuel : nat) (this : optr) (targetKey : buffer) : prog M (option optr) :=
  match fuel with
  | O => undef
  | S fuel' =>
      index ← findIndex this targetKey;
      if index <? 0 then mret None
      else
        cc ← childOptrCount this;
        if 1 <=? cc then
          c ← (child this 0 ≫= must);
          subtreeMax ← subtreeMax fuel c;
          n ← keyCount subtreeMax; k ← rawKey subtreeMax (ushort (n - 1)); _ ← set_key this index k;
          n ← dataOptrCount subtreeMax; d ← dataOptr subtreeMax (ushort (n - 1)); _ ← set_dataOptr this index d;
          n ← keyCount subtreeMax; k ← rawKey subtreeMax (ushort (n - 1));
          candidateNewRootONode ← ONode_remove fuel' subtreeMax k;
          skip_empty_root candidateNewRootONode
        else remove_from_leaf this index
  end.
End ONode.
