(* ===== verification/NodeOps.v ===== *)
(** The operations of B-tree nodes on records: what the insertion into a node with room,
    the split of a full node and the growth of the root do to the item sets of a file. *)
From S2P Require Import Prelude OverlayPtr MemoryManager ItemSet NodeStore ONode.
From Stdlib Require Import Lia Sorting.Sorted.

(** ** The contents of a node *)

(** A key with its data pointer. *)
Notation entry := (list byte * optr)%type.

Definition klt (a b : list byte) : Prop := memcmp a b = Lt.

(** The item set [r] stores the parent [p], the entries [es] and the children [cs]; the
    slots beyond hold anything. *)
Definition rep (r : rnode) (p : optr) (es : list entry) (cs : list optr) : Prop :=
  exists jk jc jd,
    r = RNode p (Z.of_nat (length es)) (map fst es ++ jk) (Z.of_nat (length cs)) (cs ++ jc)
              (Z.of_nat (length es)) (map snd es ++ jd) /\
    (length es + length jk = 3)%nat /\ (length cs + length jc = 4)%nat /\ (length es + length jd = 3)%nat /\
    Forall (fun k => length k = 20%nat) (map fst es ++ jk).

Lemma rep_empty : rep rnode_empty addrZero [] [].
Proof.
  exists (replicate 3 (replicate 20 x00)), (replicate 4 addrZero), (replicate 3 addrZero).
  repeat split. repeat constructor.
Qed.

Lemma rep_parent r p p' es cs : rep r p es cs -> rep (with_parent p' r) p' es cs.
Proof. intros (jk & jc & jd & -> & H). exists jk, jc, jd. now split. Qed.

Lemma rep_kc r p es cs : rep r p es cs -> r_kc r = Z.of_nat (length es).
Proof. now intros (jk & jc & jd & -> & _). Qed.

Lemma rep_cc r p es cs : rep r p es cs -> r_cc r = Z.of_nat (length cs).
Proof. now intros (jk & jc & jd & -> & _). Qed.

Lemma rep_dc r p es cs : rep r p es cs -> r_dc r = Z.of_nat (length es).
Proof. now intros (jk & jc & jd & -> & _). Qed.

Lemma rep_length r p es cs : rep r p es cs -> (length es <= 3 /\ length cs <= 4)%nat.
Proof. intros (jk & jc & jd & -> & H1 & H2 & _). lia. Qed.

Lemma rep_r_parent r p es cs : rep r p es cs -> r_parent r = p.
Proof. now intros (jk & jc & jd & -> & _). Qed.

Lemma rep_key r p es cs i e : rep r p es cs -> es !! i = Some e -> r_ks r !! i = Some e.1 /\ length e.1 = 20%nat.
Proof.
  intros (jk & jc & jd & -> & _ & _ & _ & Hf) Hi. cbn.
  assert (H : (map fst es ++ jk) !! i = Some e.1).
  { apply lookup_app_l_Some. by rewrite list_lookup_fmap, Hi. }
  split; [assumption|]. exact (Forall_lookup_1 _ _ _ _ Hf H).
Qed.

Lemma rep_data r p es cs i e : rep r p es cs -> es !! i = Some e -> r_ds r !! i = Some e.2.
Proof.
  intros (jk & jc & jd & -> & _) Hi. cbn.
  apply lookup_app_l_Some. by rewrite list_lookup_fmap, Hi.
Qed.

Lemma rep_child r p es cs i c : rep r p es cs -> cs !! i = Some c -> r_cs r !! i = Some c.
Proof. intros (jk & jc & jd & -> & _) Hi. cbn. now apply lookup_app_l_Some. Qed.

(** Names every slot of a node whose numbers of entries and children are known. *)
Ltac slots l := repeat (destruct l as [|? l]; cbn [length app] in *; try (exfalso; lia)).
Ltac split_entries :=
  repeat match goal with e : (list byte * optr)%type |- _ => destruct e end; cbn [fst snd map app] in *.
Ltac open_rep H :=
  let jk := fresh "jk" in let jc := fresh "jc" in let jd := fresh "jd" in
  let H1 := fresh in let H2 := fresh in let H3 := fresh in let H4 := fresh in
  destruct H as (jk & jc & jd & -> & H1 & H2 & H3 & H4);
  cbn [length app] in H1, H2, H3; slots jk; slots jc; slots jd; clear H1 H2 H3;
  cbn [map fst snd app] in *; rewrite ?Forall_cons in H4; destruct_and? H4.
Ltac close_rep :=
  do 3 eexists; split; [reflexivity|]; split; [reflexivity|]; split; [reflexivity|]; split; [reflexivity|];
  repeat (apply Forall_cons; split; [first [assumption | reflexivity]|]); apply Forall_nil; exact I.

Ltac onode_op :=
  lazymatch goal with
  | |- wp (find_key_from _ _ ?k _) _ _ => eval_nat k; cbn [find_key_from]
  | |- wp (fill_array _ ?k _ _) _ _ =>
      eval_nat k; cbn [fill_array length replicate Nat.ltb Nat.leb insert list_insert Z.of_nat Pos.of_succ_nat Pos.succ]
  | |- wp (child _ _) _ _ => unfold child
  | |- wp (ONode_parent _) _ _ => unfold ONode_parent
  | _ => node_op
  end.
Ltac onode_run := repeat onode_op.

(** *** The sort of a split *)

Lemma klt_sorted_NoDup l : StronglySorted klt l -> NoDup l.
Proof.
  induction 1 as [|a l _ IH Ha]; constructor; [|assumption]. intros Hin.
  pose proof (proj1 (Forall_forall _ _) Ha a Hin) as H. unfold klt in H. now rewrite memcmp_refl in H.
Qed.

Lemma insert_key_head k l : Forall (klt k) l -> insert_key k l = k :: l.
Proof. intros H. destruct H as [|a l Ha _]; cbn; [reflexivity|]. now rewrite Ha. Qed.

Lemma sort_keys_sorted l : StronglySorted klt l -> sort_keys l = l.
Proof.
  unfold sort_keys. induction 1 as [|a l _ IH Ha]; cbn; [reflexivity|]. rewrite IH. now apply insert_key_head.
Qed.

Lemma sort_keys_last l1 l2 k : StronglySorted klt (l1 ++ k :: l2) -> sort_keys (l1 ++ l2 ++ [k]) = l1 ++ k :: l2.
Proof.
  induction l1 as [|a l1 IH]; cbn [app]; intros H; apply StronglySorted_inv in H as [H Ha].
  - unfold sort_keys. induction l2 as [|b l2 IH]; cbn; [reflexivity|].
    apply Forall_cons in Ha as [Hb Ha]. apply StronglySorted_inv in H as [H Hb'].
    rewrite IH by assumption. cbn. rewrite (memcmp_flip k b) by assumption. f_equal. now apply insert_key_head.
  - unfold sort_keys in *. cbn. rewrite IH by assumption. now apply insert_key_head.
Qed.

Lemma mapM_rd_keys l : Forall (fun k => length k = 20%nat) l -> mapM (rd KEY_SIZE) (map Some l) = Some l.
Proof. induction 1 as [|k l Hk _ IH]; [reflexivity|]. cbn -[rd]. rewrite rd_key by assumption. cbn -[rd]. now rewrite IH. Qed.

Lemma std_sort_keys_spec l1 l2 k :
  StronglySorted klt (l1 ++ k :: l2) -> Forall (fun k => length k = 20%nat) (l1 ++ l2 ++ [k]) ->
  std_sort_keys (map Some (l1 ++ l2 ++ [k])) = Some (map Some (l1 ++ k :: l2)).
Proof.
  intros H Hl. unfold std_sort_keys. rewrite mapM_rd_keys by assumption. cbn.
  rewrite decide_True; [now rewrite sort_keys_last|].
  rewrite <- Permutation_cons_append. now apply klt_sorted_NoDup.
Qed.

Lemma view_key_index_spec l1 l2 k i :
  StronglySorted klt (l1 ++ k :: l2) -> view_key_index k (l1 ++ k :: l2) i = i + Z.of_nat (length l1).
Proof.
  revert i. induction l1 as [|a l1 IH]; intros i H; cbn.
  - rewrite memcmp_refl. lia.
  - apply StronglySorted_inv in H as [H Ha]. apply Forall_app in Ha as [_ Ha]. apply Forall_cons in Ha as [Ha _].
    rewrite Ha, IH by assumption. lia.
Qed.

Section node_ops.
Context {M : Type} `{mgr : OverlayManager M}.
Context (n : Z) (meta : list byte).

(** The keys of [es1], then [k], then those of [es2], in strictly ascending order. *)
Definition in_order (es1 : list entry) (k : list byte) (es2 : list entry) : Prop :=
  StronglySorted klt (map fst es1 ++ k :: map fst es2).

(** The facts about keys that an execution of the code looks up. *)
Ltac key_facts :=
  unfold in_order in *; cbn [map app fst] in *;
  repeat match goal with H : StronglySorted _ (_ :: _) |- _ => apply StronglySorted_inv in H as [? ?] end;
  repeat match goal with H : Forall _ (_ :: _) |- _ => apply Forall_cons in H as [? ?] end;
  unfold klt in *.

(** A node with room takes a new entry in its place; a new child goes to the right of
    the new key. *)
Lemma simple_add_leaf s m h r p es1 es2 k d :
  nodes n m meta h -> h !! lin s = Some r -> rep r p (es1 ++ es2) [] -> (length (es1 ++ es2) <= 2)%nat ->
  in_order es1 k es2 -> length k = 20%nat ->
  wp (simple_add s (Some k) (Some d) None) m (fun _ m' => exists r',
    nodes n m' meta (<[lin s := r']> h) /\ rep r' p (es1 ++ (k, d) :: es2) []).
Proof.
  intros Hm Hr Hrep Hl Ho Hk. rewrite length_app in Hl.
  unfold simple_add, keyInsertedIndex, moveInsertDataOptr, sortKey, sortKey_step.
  slots es1; slots es2; open_rep Hrep; split_entries; key_facts; onode_run.
  all: eexists; split; [eassumption|close_rep].
Qed.

Lemma simple_add_inner s m h r p es1 es2 c1 c2 k d t :
  nodes n m meta h -> h !! lin s = Some r -> rep r p (es1 ++ es2) (c1 ++ c2) -> (length (es1 ++ es2) <= 2)%nat ->
  length c1 = S (length es1) -> length c2 = length es2 -> in_order es1 k es2 -> length k = 20%nat ->
  wp (simple_add s (Some k) (Some d) (Some t)) m (fun _ m' => exists r',
    nodes n m' meta (<[lin s := r']> h) /\ rep r' p (es1 ++ (k, d) :: es2) (c1 ++ t :: c2)).
Proof.
  intros Hm Hr Hrep Hl Hc1 Hc2 Ho Hk. rewrite length_app in Hl.
  unfold simple_add, keyInsertedIndex, moveInsertDataOptr, moveInsertChildOptr, sortKey, sortKey_step.
  slots es1; slots es2; slots c1; slots c2; open_rep Hrep; split_entries; key_facts; onode_run.
  all: eexists; split; [eassumption|close_rep].
Qed.
(** *** The virtual item set of a full node *)

Definition some_keys (es : list entry) : list buffer := map (fun e => Some e.1) es.
Definition some_datas (es : list entry) : list (option optr) := map (fun e => Some e.2) es.

Lemma importItemSet_spec s m h r p es cs :
  nodes n m meta h -> h !! lin s = Some r -> rep r p es cs -> length es = 3%nat ->
  length cs = 0%nat \/ length cs = 4%nat ->
  wp (importItemSet s) m (fun v m' => nodes n m' meta h /\
    v = mkView (some_keys es ++ [None]) (map Some cs ++ replicate (5 - length cs) None) (some_datas es ++ [None])).
Proof.
  intros Hm Hr Hrep Hl Hc. unfold importItemSet, exportKeyArray, exportDataOptrArray, exportChildOptrArray, mapToMemory.
  slots es; destruct Hc; slots cs; open_rep Hrep; split_entries; onode_run; (split; [assumption|reflexivity]).
Qed.

Lemma array_move_insert_spec {A} (l1 l2 : list A) x y m (Q : list A -> M -> Prop) :
  Q (l1 ++ x :: l2) m -> wp (array_move_insert (Z.of_nat (length l1)) x (l1 ++ l2 ++ [y])) m Q.
Proof.
  intros HQ. unfold array_move_insert. rewrite !length_app. cbn [length].
  rewrite (proj2 (Z.ltb_lt _ _)) by lia. apply wp_ret.
  assert (E : removelast (l1 ++ l2 ++ [y]) = l1 ++ l2) by (rewrite app_assoc; apply removelast_last).
  rewrite Nat2Z.id, E, take_app_length, drop_app_length. exact HQ.
Qed.

Lemma rep_keys_length r p es cs : rep r p es cs -> Forall (fun k => length k = 20%nat) (map fst es).
Proof. intros (jk & jc & jd & _ & _ & _ & _ & H). now apply Forall_app in H as [H _]. Qed.

Lemma split_view_keys es1 es2 k :
  in_order es1 k es2 -> Forall (fun k => length k = 20%nat) (map fst (es1 ++ es2)) -> length k = 20%nat ->
  length (es1 ++ es2) = 3%nat ->
  let keys0 := <[Z.to_nat DEFAULT_KEY_COUNT := Some k]> (some_keys (es1 ++ es2) ++ [None]) in
  let keys := map fst es1 ++ k :: map fst es2 in
  std_sort_keys keys0 = Some (map Some keys) /\ mapM (rd KEY_SIZE) (map Some keys) = Some keys /\
  view_key_index k keys 0 = Z.of_nat (length es1).
Proof.
  intros Ho Hl Hk H3 keys0 keys. assert (E : keys0 = map Some (map fst es1 ++ map fst es2 ++ [k])).
  { unfold keys0, some_keys. change (Z.to_nat DEFAULT_KEY_COUNT) with 3%nat.
    rewrite <- H3, <- (length_map (fun e : entry => Some e.1)), <- (Nat.add_0_r (length _)), insert_app_r. cbn [insert list_insert].
    rewrite !map_app, !map_map, <- app_assoc. reflexivity. }
  rewrite map_app in Hl. split; [|split].
  - rewrite E. apply std_sort_keys_spec; [exact Ho|]. rewrite app_assoc. apply Forall_app. split; [assumption|now constructor].
  - apply mapM_rd_keys. unfold keys. apply Forall_app in Hl as [? ?]. apply Forall_app. split; [assumption|now constructor].
  - unfold keys. rewrite view_key_index_spec by exact Ho. rewrite length_map. lia.
Qed.

Lemma split_view_spec s m h r p es1 es2 cs cs' k d t :
  nodes n m meta h -> h !! lin s = Some r -> rep r p (es1 ++ es2) cs -> length (es1 ++ es2) = 3%nat ->
  in_order es1 k es2 -> length k = 20%nat ->
  match t with
  | None => cs = [] /\ cs' = replicate 5 None
  | Some t => exists c1 c2, cs = c1 ++ c2 /\ length c1 = S (length es1) /\ length c2 = length es2 /\
      cs' = map Some (c1 ++ t :: c2)
  end ->
  wp (split_view s (Some k) (Some d) t) m (fun v m' => nodes n m' meta h /\
    v = mkView (some_keys (es1 ++ (k, d) :: es2)) cs' (some_datas (es1 ++ (k, d) :: es2))).
Proof.
  intros Hm Hr Hrep Hl Ho Hk Ht. unfold split_view.
  wp_seq (importItemSet_spec s m h r p (es1 ++ es2) cs) as (Hm1 & ->); [assumption..| |].
  { rewrite length_app in Hl. destruct t; [|now left; destruct Ht as [-> _]].
    right. destruct Ht as (c1 & c2 & -> & H1 & H2 & _). rewrite length_app. lia. }
  destruct (split_view_keys es1 es2 k) as (E1 & E2 & E3); [assumption|eapply rep_keys_length; eassumption|assumption..|].
  cbn [v_key v_childOptr v_dataOPtr]. apply wp_bind. eapply wp_must; [exact E1|].
  apply wp_bind. eapply wp_must; [exact E2|]. apply wp_bind. eapply wp_must; [now apply rd_key|].
  rewrite E3. apply wp_bind.
  assert (Ek : map Some (map fst es1 ++ k :: map fst es2) = some_keys (es1 ++ (k, d) :: es2)).
  { unfold some_keys. rewrite !map_app. cbn. now rewrite !map_map. }
  replace (Z.of_nat (length es1)) with (Z.of_nat (length (some_datas es1))) at 1 by (unfold some_datas; now rewrite length_map).
  unfold some_datas at 2. rewrite map_app, <- app_assoc. apply array_move_insert_spec.
  assert (Ed : map (fun e : entry => Some e.2) es1 ++ Some d :: map (fun e : entry => Some e.2) es2 = some_datas (es1 ++ (k, d) :: es2)).
  { unfold some_datas. now rewrite map_app. }
  rewrite Ed, Ek. apply wp_bind. destruct t as [t|].
  - destruct Ht as (c1 & c2 & -> & H1 & H2 & ->).
    replace (Z.of_nat (length es1) + 1) with (Z.of_nat (length (map Some c1))) by (rewrite length_map; lia).
    replace (5 - length (c1 ++ c2))%nat with 1%nat by (rewrite length_app in *; lia).
    rewrite map_app, <- app_assoc. cbn [replicate]. apply array_move_insert_spec. apply wp_ret.
    split; [assumption|]. now rewrite map_app.
  - destruct Ht as [-> ->]. do 2 apply wp_ret. now split.
Qed.
End node_ops.
