(* ===== verification/NodeSplit.v ===== *)
(** What splitting a full B-tree node and growing the root do to the item sets of a file
    ([recursiveAdd] of [o_node.cpp]). *)
From S2P Require Import Prelude OverlayPtr MemoryManager ItemSet NodeStore ONode NodeOps.
From Stdlib Require Import Lia Sorting.Sorted.

Section node_split.
Context {M : Type} `{mgr : OverlayManager M}.
Context (meta : list byte).

(** ** New nodes *)

Lemma nodes_end n m h a : nodes n m meta h -> n <= a -> h !! a = None.
Proof.
  intros Hm Ha. destruct (h !! a) as [r|] eqn:E; [|reflexivity].
  pose proof (nodes_bounds _ _ _ _ _ _ Hm E). lia.
Qed.

Lemma rnode_of_zeros v a : rnode_of (vwrite v a (replicate 103 x00)) a = rnode_empty.
Proof.
  assert (Hz : forall i, 0 <= i < 103 -> vwrite v a (replicate 103 x00) (a + i) = x00).
  { intros i Hi. pose proof (vlist_lookup (vwrite v a (replicate 103 x00)) a 103 (Z.to_nat i) ltac:(lia)) as H.
    rewrite vlist_write_same in H by apply length_replicate.
    rewrite lookup_replicate_2 in H by lia. rewrite Z2Nat.id in H by lia. congruence. }
  assert (Hl : forall i k, 0 <= i -> i + Z.of_nat k <= 103 ->
    vlist (vwrite v a (replicate 103 x00)) (a + i) k = replicate k x00).
  { intros i k Hi Hk. apply list_eq. intros j. destruct (decide (j < k)%nat).
    - rewrite vlist_lookup, lookup_replicate_2, <- Z.add_assoc, Hz by lia. reflexivity.
    - rewrite !lookup_ge_None_2 by (rewrite ?vlist_length, ?length_replicate; lia). reflexivity. }
  assert (Ho : forall i, 0 <= i <= 98 -> optr_at (vwrite v a (replicate 103 x00)) (a + i) = addrZero).
  { intros i Hi. apply lin_inj. unfold lin. rewrite optr_at_vlist, Hl by lia. reflexivity. }
  unfold rnode_of, rnode_empty. pose proof (Ho 0 ltac:(lia)) as H0. rewrite Z.add_0_r in H0.
  rewrite H0, !Ho, !Hl, !Hz by lia. reflexivity.
Qed.

Lemma ONode_new_spec n m h :
  nodes n m meta h -> 100 <= n -> n + 103 < 2 ^ 23 ->
  wp ONode_new m (fun b m' => lin b = n /\ nodes (n + 103) m' meta (<[lin b := rnode_empty]> h)).
Proof.
  intros Hm H0 Hn. pose proof (fun a => nodes_end n m h a Hm) as Hend.
  destruct Hm as (v & [Hi Hv] & Hmeta & Hh & Hb & _ & Hsp). unfold ONode_new, ItemSet_clear.
  wp_seq (mg_allocate_spec O_NODE_ITEMSET_SIZE) giving b as (Eb & Hi1 & Hv1);
    [exact Hi|vm_compute; discriminate|exact Hn|].
  change O_NODE_ITEMSET_SIZE with 103 in *. change (Z.to_nat 103) with 103%nat.
  wp_seq (@omemcpy_in_spec M _ (manager_mem (n + 103)) b) as Hv2; [split; [exact Hi1|exact Hv1]|lia|rewrite length_replicate; lia|].
  apply wp_ret. split; [assumption|]. exists (vwrite (mg_view m) (lin b) (replicate 103 x00)).
  split; [exact Hv2|]. split; [|split; [|split; [|split; [lia|]]]].
  - rewrite vlist_vwrite_other by lia. now rewrite Hv.
  - intros x r Ha. destruct (decide (x = lin b)) as [->|Hne].
    + rewrite lookup_insert_eq in Ha. injection Ha as <-. apply rnode_of_zeros.
    + rewrite lookup_insert_ne in Ha by congruence. destruct (Hb x) as [? ?]; [eauto|].
      rewrite rnode_of_frame by lia. rewrite <- (Hh x r Ha). unfold rnode_of, optr_at. now rewrite !Hv.
  - intros x Ha. destruct (decide (x = lin b)) as [->|Hne]; [lia|].
    rewrite lookup_insert_ne in Ha by congruence. destruct (Hb x Ha). lia.
  - intros x y Hx Hy. destruct (decide (x = lin b)) as [->|Hx'], (decide (y = lin b)) as [->|Hy'].
    + now left.
    + rewrite lookup_insert_ne in Hy by congruence. destruct (Hb y Hy). lia.
    + rewrite lookup_insert_ne in Hx by congruence. destruct (Hb x Hx). lia.
    + rewrite lookup_insert_ne in Hx, Hy by congruence. now apply Hsp.
Qed.

(** ** Splitting *)

(** The children of a full node once the new child [t] is put in its place; a leaf has none. *)
Definition placed (t : option optr) (cs : list optr) (es1 es2 : list entry) (full : list optr) : Prop :=
  match t with
  | None => cs = [] /\ full = []
  | Some t => exists c1 c2, cs = c1 ++ c2 /\ length c1 = S (length es1) /\ length c2 = length es2 /\
      full = c1 ++ t :: c2
  end.

(** The nodes [moved] get the parent [b]; [s] and [b] themselves are not spoken of. *)
Definition reparented (h h' : gmap Z rnode) (s b : optr) (moved : list optr) : Prop :=
  forall a, a <> lin s -> a <> lin b ->
    h' !! a = if decide (a ∈ map lin moved) then with_parent b <$> h !! a else h !! a.

Ltac split_op :=
  lazymatch goal with
  | |- context [(5 / 2)%nat] => change (5 / 2)%nat with 2%nat; cbn [take drop]
  | |- wp (write_keys _ _ _) _ _ => cbn [write_keys]
  | |- wp (write_datas _ _ _) _ _ => cbn [write_datas]
  | |- wp (write_childs _ _ _) _ _ => cbn [write_childs]
  | |- wp (move_children _ _ _) _ _ => cbn [move_children]
  | _ => onode_op
  end.
Ltac split_run := repeat split_op.

Lemma full_keys (es1 es2 : list entry) (k : list byte) (d : optr) e0 e1 e2 e3 :
  es1 ++ (k, d) :: es2 = [e0; e1; e2; e3] -> length k = 20%nat ->
  Forall (fun k => length k = 20%nat) (map fst (es1 ++ es2)) ->
  length (es1 ++ es2) = 3%nat /\
  length e0.1 = 20%nat /\ length e1.1 = 20%nat /\ length e2.1 = 20%nat /\ length e3.1 = 20%nat.
Proof.
  intros He Hk Hlen. split.
  - apply (f_equal length) in He. rewrite length_app in *. cbn in He. lia.
  - assert (Hf : Forall (fun k => length k = 20%nat) (map fst [e0; e1; e2; e3])).
    { rewrite <- He, map_app. rewrite map_app in Hlen. apply Forall_app in Hlen as [? ?]. apply Forall_app.
      split; [assumption|]. now constructor. }
    cbn in Hf. rewrite !Forall_cons in Hf. tauto.
Qed.

(** A full leaf keeps the first of its four entries, the last two go to the new node. *)
Lemma splitONode_leaf n s m h r p es1 es2 k d e0 e1 e2 e3 :
  nodes n m meta h -> h !! lin s = Some r -> rep r p (es1 ++ es2) [] ->
  in_order es1 k es2 -> length k = 20%nat -> es1 ++ (k, d) :: es2 = [e0; e1; e2; e3] -> n + 103 < 2 ^ 23 ->
  wp (splitONode s (Some k) (Some d) None) m (fun '(sk, sd, b) m' =>
    sk = Some e1.1 /\ sd = Some e1.2 /\ lin b = n /\ exists ra rb,
    nodes (n + 103) m' meta (<[lin s := ra]> (<[lin b := rb]> h)) /\ rep ra p [e0] [] /\ rep rb p [e2; e3] []).
Proof.
  intros Hm Hr Hrep Ho Hk He Hn. pose proof (nodes_bounds _ _ _ _ _ _ Hm Hr).
  destruct (full_keys _ _ _ _ _ _ _ _ He Hk (rep_keys_length _ _ _ _ Hrep)) as (Hl & ? & ? & ? & ?).
  unfold splitONode. wp_seq (split_view_spec n meta s m h r p es1 es2 [] (replicate 5 None)) as (Hm1 & ->);
    [assumption..|now split|].
  rewrite He. unfold some_keys, some_datas. cbn [map v_key v_dataOPtr v_childOptr].
  eval_nat (Z.to_nat separatorKeyIndex). cbn [lookup list_lookup take drop].
  apply wp_bind, wp_must_some, wp_bind, wp_must_some.
  wp_seq ONode_new_spec giving b as (Eb & Hm2); [eassumption|lia|assumption|].
  assert (lin b <> lin s) by lia. assert (lin s <> lin b) by lia. clear He Ho.
  slots es1; slots es2; open_rep Hrep; split_run; (split; [reflexivity|]; split; [reflexivity|]; split; [assumption|]);
    do 2 eexists; (split; [eassumption|split; close_rep]).
Qed.

Lemma reparented_three h h' s b x2 x3 x4 r2 r3 r4 :
  h !! lin x2 = Some r2 -> h !! lin x3 = Some r3 -> h !! lin x4 = Some r4 ->
  h' !! lin x2 = Some (with_parent b r2) -> h' !! lin x3 = Some (with_parent b r3) ->
  h' !! lin x4 = Some (with_parent b r4) ->
  (forall a, a <> lin s -> a <> lin b -> a <> lin x2 -> a <> lin x3 -> a <> lin x4 -> h' !! a = h !! a) ->
  reparented h h' s b [x2; x3; x4].
Proof.
  intros H2 H3 H4 H2' H3' H4' H a Hs Hb. cbn [map].
  destruct (decide (a ∈ _)) as [Ha|Ha]; rewrite ?elem_of_cons, elem_of_nil in Ha.
  - destruct Ha as [-> | [-> | [-> | []]]]; [rewrite H2', H2|rewrite H3', H3|rewrite H4', H4]; reflexivity.
  - apply H; tauto.
Qed.

Lemma splitONode_inner n s m h r p es1 es2 c1 c2 k d t e0 e1 e2 e3 x0 x1 x2 x3 x4 r2 r3 r4 :
  nodes n m meta h -> h !! lin s = Some r -> rep r p (es1 ++ es2) (c1 ++ c2) ->
  in_order es1 k es2 -> length k = 20%nat -> es1 ++ (k, d) :: es2 = [e0; e1; e2; e3] ->
  length c1 = S (length es1) -> length c2 = length es2 -> c1 ++ t :: c2 = [x0; x1; x2; x3; x4] ->
  h !! lin x2 = Some r2 -> h !! lin x3 = Some r3 -> h !! lin x4 = Some r4 ->
  NoDup [lin s; lin x2; lin x3; lin x4] -> n + 103 < 2 ^ 23 ->
  wp (splitONode s (Some k) (Some d) (Some t)) m (fun '(sk, sd, b) m' =>
    sk = Some e1.1 /\ sd = Some e1.2 /\ lin b = n /\ exists ra rb h',
    nodes (n + 103) m' meta h' /\ h' !! lin s = Some ra /\ h' !! lin b = Some rb /\
    rep ra p [e0] [x0; x1] /\ rep rb p [e2; e3] [x2; x3; x4] /\ reparented h h' s b [x2; x3; x4]).
Proof.
  intros Hm Hr Hrep Ho Hk He Hc1 Hc2 Hx H2 H3 H4 Hnd Hn. pose proof (nodes_bounds _ _ _ _ _ _ Hm Hr).
  pose proof (nodes_bounds _ _ _ _ _ _ Hm H2). pose proof (nodes_bounds _ _ _ _ _ _ Hm H3).
  pose proof (nodes_bounds _ _ _ _ _ _ Hm H4).
  destruct (full_keys _ _ _ _ _ _ _ _ He Hk (rep_keys_length _ _ _ _ Hrep)) as (Hl & ? & ? & ? & ?).
  unfold splitONode. wp_seq (split_view_spec n meta s m h r p es1 es2 (c1 ++ c2) (map Some (c1 ++ t :: c2))) as (Hm1 & ->);
    [assumption..|now exists c1, c2|].
  rewrite He, Hx. unfold some_keys, some_datas. cbn [map v_key v_dataOPtr v_childOptr].
  eval_nat (Z.to_nat separatorKeyIndex). cbn [lookup list_lookup take drop].
  apply wp_bind, wp_must_some, wp_bind, wp_must_some.
  wp_seq ONode_new_spec giving b as (Eb & Hm2); [eassumption|lia|assumption|].
  rewrite !NoDup_cons in Hnd. destruct Hnd as (Hs & Hn2 & Hn3 & _). rewrite !not_elem_of_cons in *. destruct_and!.
  assert (lin b <> lin s) by lia. assert (lin s <> lin b) by lia.
  assert (lin b <> lin x2) by lia. assert (lin b <> lin x3) by lia. assert (lin b <> lin x4) by lia. clear He Ho Hx.
  slots es1; slots es2; slots c1; slots c2; open_rep Hrep; split_run; (split; [reflexivity|]; split; [reflexivity|]; split; [assumption|]);
    do 3 eexists; (split; [eassumption|]; split; [find_node|]; split; [find_node|]; split; [close_rep|]; split; [close_rep|]).
  all: apply (reparented_three _ _ _ _ _ _ _ r2 r3 r4); [exact H2|exact H3|exact H4|find_node|find_node|find_node|intros; find_node].
Qed.

(** ** Growing the root *)

(** The meta area with a new root address. *)
Definition set_root (p : optr) (meta : list byte) : list byte := take 20 meta ++ addr p ++ drop 25 meta.

Lemma nodes_meta_length n m h : nodes n m meta h -> length meta = 100%nat.
Proof. intros (v & _ & <- & _). apply vlist_length. Qed.

Lemma write_meta n m h q off bs :
  nodes n m meta h -> lin q = Z.of_nat off -> (off + length bs <= 100)%nat ->
  wp (omemcpy_in q bs) m (fun _ m' => nodes n m' (take off meta ++ bs ++ drop (off + length bs) meta) h).
Proof.
  intros (v & Hv & Hmeta & Hh & Hb & Hn & Hsp) Eq Hl.
  wp_last (@omemcpy_in_spec M _ (manager_mem n) q bs) as Hv'; [exact Hv|lia|lia|].
  rewrite Eq in Hv'. exists (vwrite v (Z.of_nat off) bs). split; [exact Hv'|]. split; [|split; [|exact (conj Hb (conj Hn Hsp))]].
  - subst meta. apply list_eq. intros i. destruct (decide (i < 100)%nat) as [Hi|Hi].
    + rewrite vlist_lookup by assumption. rewrite Z.add_0_l.
      destruct (decide (i < off)%nat); [|destruct (decide (i < off + length bs)%nat)].
      * rewrite lookup_app_l, lookup_take_lt, vlist_lookup by (rewrite ?length_take, ?vlist_length; lia).
        now rewrite vwrite_out by lia.
      * rewrite lookup_app_r, lookup_app_l by (rewrite ?length_take, ?vlist_length; lia).
        rewrite length_take, vlist_length. replace (i - off `min` 100)%nat with (i - off)%nat by lia.
        pose proof (vlist_lookup (vwrite v (Z.of_nat off) bs) (Z.of_nat off) (length bs) (i - off) ltac:(lia)) as H.
        rewrite vlist_write_same in H by reflexivity. rewrite H. do 2 f_equal. lia.
      * rewrite !lookup_app_r by (rewrite ?length_take, ?vlist_length; lia).
        rewrite length_take, vlist_length, lookup_drop, vlist_lookup by lia.
        rewrite vwrite_out by lia. do 2 f_equal. lia.
    + rewrite !lookup_ge_None_2; [reflexivity|rewrite !length_app, length_take, length_drop, vlist_length; lia|rewrite vlist_length; lia].
  - intros x r Hx. rewrite rnode_of_frame; [now apply Hh|]. destruct (Hb x); [eauto|]. lia.
Qed.

Lemma write_root n m h p q :
  nodes n m meta h -> lin q = 20 -> wp (omemcpy_in q (addr p)) m (fun _ m' => nodes n m' (set_root p meta) h).
Proof. intros Hm Eq. apply (write_meta n m h q 20 (addr p) Hm Eq). cbn. lia. Qed.

Lemma grow_root_spec n s t m h rs rt sk sd :
  nodes n m meta h -> h !! lin s = Some rs -> h !! lin t = Some rt -> lin s <> lin t ->
  length sk = 20%nat -> n + 103 < 2 ^ 23 ->
  wp (grow_root s (Some sk) (Some sd) t) m (fun c m' => lin c = n /\ exists rc h',
    nodes (n + 103) m' (set_root c meta) h' /\ h' !! lin c = Some rc /\ rep rc addrZero [(sk, sd)] [s; t] /\
    h' !! lin s = Some (with_parent c rs) /\ h' !! lin t = Some (with_parent c rt) /\
    forall a, a <> lin c -> a <> lin s -> a <> lin t -> h' !! a = h !! a).
Proof.
  intros Hm Hs Ht Hst Hsk Hn. pose proof (nodes_bounds _ _ _ _ _ _ Hm Hs). pose proof (nodes_bounds _ _ _ _ _ _ Hm Ht).
  unfold grow_root. wp_seq ONode_new_spec giving c as (Ec & Hm2); [eassumption|lia|assumption|].
  destruct (oplus_lin addrZero META_ROOT_NODE_OFFSET) as (q & Eq & Elq & _); [vm_compute; reflexivity|vm_compute; repeat split; discriminate|].
  apply wp_bind. eapply wp_must; [exact Eq|]. wp_seq write_root as Hm3; [eassumption|exact Elq|].
  assert (lin c <> lin s) by lia. assert (lin c <> lin t) by lia. split_run.
  split; [assumption|]. do 2 eexists. split; [eassumption|]. split; [find_node|]. split; [close_rep|].
  split; [find_node|]. split; [find_node|]. intros; find_node.
Qed.
End node_split.
