(* ===== verification/BTree.v ===== *)
(** miya_db B-tree index ([btree.cpp], [normal_index_manager.cpp]): opening an index file,
    insertion, removal and search from the root.  The object's [_rootONode] is passed in
    and returned. *)
From S2P Require Import Prelude OverlayPtr MemoryManager ItemSet ONode.
From Stdlib Require Import Lia.

(** ["HELLOMIYACOININDEX!!"] *)
Definition FORMAT_CODE : list byte :=
  [x48; x45; x4c; x4c; x4f; x4d; x49; x59; x41; x43; x4f; x49; x4e; x49; x4e; x44; x45; x58; x21; x21].

Section OBtree.
Context {M : Type} `{ops : !OverlayManagerOps M}.

Definition metaHeadOptr : optr := addrZero.

(** The constructor without a root node: an index file that is not formatted gets a meta
    area and an empty root; returns [_rootONode]. *)
Definition OBtree_new : prog M optr :=
  c ← ocmp metaHeadOptr FORMAT_CODE;
  if negb (c =? 0) then
    newMetaHeadOptr ← manager_allocate 100;
    _rootONode ← ONode_new;
    q ← must (oplus metaHeadOptr META_ROOT_NODE_OFFSET);
    _ ← omemcpy_in q (addr _rootONode);
    _ ← omemcpy_in metaHeadOptr FORMAT_CODE;
    mret _rootONode
  else
    q ← must (oplus metaHeadOptr META_ROOT_NODE_OFFSET);
    rootNodeOAddr ← omemcpy_out q 5;
    must (optr_of_bytes rootNodeOAddr).

(** [rootONode( target )]: null is kept in memory only. *)
Definition set_rootONode (target : option optr) : prog M (option optr) :=
  match target with
  | Some t =>
      q ← must (oplus metaHeadOptr META_ROOT_NODE_OFFSET); _ ← omemcpy_in q (addr t); mret (Some t)
  | None => mret None
  end.

(** The loop of [add] over the indices [i], ..., [i + n - 1] of a node; [None] when
    every key is at most the target. *)
Fixpoint scan_add (this : optr) (targetKey : buffer) (n : nat) (i : Z) : prog M (option (option optr)) :=
  match n with
  | O => mret None
  | S n' =>
      keyOptr ← (key this i ≫= must);
      rawKey ← omemcpy_out keyOptr 20;
      t ← must (rd KEY_SIZE targetKey);
      match memcmp t rawKey with
      | Lt => c ← child this i; mret (Some c)
      | _ => scan_add this targetKey n' (i + 1)
      end
  end.

(** The while loop of [add]: down to a leaf. *)
Fixpoint descend_add (fuel : nat) (currentONode : optr) (targetKey : buffer) : prog M optr :=
  match fuel with
  | O => undef
  | S fuel' =>
      cc ← childOptrCount currentONode;
      if 1 <=? cc then
        r ← scan_add currentONode targetKey (Z.to_nat cc) 0;
        next ← (match r with Some c => mret c | None => child currentONode (cc - 1) end);
        next ← must next;
        descend_add fuel' next targetKey
      else mret currentONode
  end.

Definition OBtree_add (fuel : nat) (_rootONode : optr) (targetKey : buffer) (dataOptr : option optr) : prog M optr :=
  currentONode ← descend_add fuel _rootONode targetKey;
  newRootNode ← recursiveAdd fuel currentONode targetKey dataOptr None;
  mret (default _rootONode newRootNode).

(** The loop of [remove] over the indices of a node: a key that equals the target stops
    the descent at this node. *)
Inductive remove_step : Type :=
| Match
| Next (c : option optr)
| Last.

Fixpoint scan_remove (this : optr) (targetKey : buffer) (n : nat) (i : Z) : prog M remove_step :=
  match n with
  | O => mret Last
  | S n' =>
      keyOptr ← (key this i ≫= must);
      rawKey ← omemcpy_out keyOptr 20;
      t ← must (rd KEY_SIZE targetKey);
      match memcmp t rawKey with
      | Eq => mret Match
      | Lt => c ← child this i; mret (Next c)
      | Gt => scan_remove this targetKey n' (i + 1)
      end
  end.

Fixpoint descend_remove (fuel : nat) (currentONode : optr) (targetKey : buffer) : prog M optr :=
  match fuel with
  | O => undef
  | S fuel' =>
      cc ← childOptrCount currentONode;
      if 1 <=? cc then
        r ← scan_remove currentONode targetKey (Z.to_nat cc) 0;
        match r with
        | Match => mret currentONode
        | Next c => c ← must c; descend_remove fuel' c targetKey
        | Last => c ← (child currentONode (cc - 1) ≫= must); descend_remove fuel' c targetKey
        end
      else mret currentONode
  end.

(** A new root is kept in memory only. *)
Definition OBtree_remove (fuel : nat) (_rootONode : optr) (targetKey : buffer) : prog M optr :=
  currentONode ← descend_remove fuel _rootONode targetKey;
  newRootNode ← ONode_remove fuel currentONode targetKey;
  mret (default _rootONode newRootNode).

Definition OBtree_find (fuel : nat) (_rootONode : optr) (targetKey : buffer) : prog M (option optr) :=
  subtreeFind fuel _rootONode targetKey.

(** [NormalIndexManager::find] adds the location of the data. *)
Definition DATA_OPTR_LOCATED_AT_NORMAL : Z := 0.

Definition NormalIndexManager_find (fuel : nat) (_rootONode : optr) (key : buffer) : prog M (option optr * Z) :=
  d ← OBtree_find fuel _rootONode key; mret (d, DATA_OPTR_LOCATED_AT_NORMAL).

(** A sequence of insertions, for statements about whole runs. *)
Fixpoint add_all (fuel : nat) (_rootONode : optr) (kds : list (list byte * optr)) : prog M optr :=
  match kds with
  | [] => mret _rootONode
  | (k, d) :: kds' =>
      r ← OBtree_add fuel _rootONode (Some k) (Some d);
      add_all fuel r kds'
  end.
End OBtree.
