(* ===== verification/BTreeModel.v ===== *)
(** B-trees as values: which trees the item sets of a file represent, their entries in
    key order, and the way from the root to a node. *)
From S2P Require Import Prelude OverlayPtr NodeStore NodeOps.
From Stdlib Require Import Lia Sorting.Sorted.

(** ** Trees *)

(** A node at an address with its entries and children. *)
Inductive tree : Type := Node (a : optr) (es : list entry) (cs : list tree).

Definition root (t : tree) : optr := let 'Node a _ _ := t in a.

(** Entries and the contents of the children alternate, starting with a child. *)
Fixpoint weave {A} (es : list A) (ls : list (list A)) {struct ls} : list A :=
  match ls with
  | [] => es
  | l :: ls' => l ++ match es with [] => [] | e :: es' => e :: weave es' ls' end
  end.

Fixpoint elements (t : tree) : list entry := let 'Node _ es cs := t in weave es (map elements cs).

Fixpoint addrs (t : tree) : list Z := let 'Node a _ cs := t in lin a :: concat (map addrs cs).

Definition addrs_of (ts : list tree) : list Z := concat (map addrs ts).

(** What stands to the left and to the right of a child. *)
Definition weave_l {A} (es : list A) (ls : list (list A)) : list A :=
  concat (zip_with (fun e l => l ++ [e]) es ls).
Definition weave_r {A} (es : list A) (ls : list (list A)) : list A :=
  concat (zip_with (fun e l => e :: l) es ls).

Lemma weave_cons {A} (es : list A) l ls :
  length es = length ls -> weave es (l :: ls) = l ++ weave_r es ls.
Proof.
  revert l ls; induction es as [|e es IH]; intros l [|l' ls] Hl; try discriminate; [reflexivity|].
  change (weave (e :: es) (l :: l' :: ls)) with (l ++ e :: weave es (l' :: ls)).
  rewrite IH by (injection Hl; auto). reflexivity.
Qed.

Lemma weave_split {A} (es1 es2 : list A) ls1 l ls2 :
  length es1 = length ls1 -> length es2 = length ls2 ->
  weave (es1 ++ es2) (ls1 ++ l :: ls2) = weave_l es1 ls1 ++ l ++ weave_r es2 ls2.
Proof.
  revert ls1; induction es1 as [|e es1 IH]; intros [|l1 ls1] H1 H2; try discriminate.
  - now apply weave_cons.
  - cbn [app weave]. rewrite IH by (try injection H1; auto). unfold weave_l. cbn. now rewrite <- !app_assoc.
Qed.

Lemma sublist_weave {A} (es : list A) ls : es `sublist_of` weave es ls \/ (length ls < length es)%nat.
Proof.
  revert ls; induction es as [|e es IH]; intros ls; [left; apply sublist_nil_l|].
  destruct ls as [|l ls]; [left; reflexivity|]. cbn [weave length].
  destruct (IH ls) as [H|H]; [|right; lia]. left.
  apply sublist_inserts_l. now apply sublist_skip.
Qed.

(** ** Paths *)

(** A node on the way down, without the child the way goes through: the entries and
    children left of it and right of it. *)
Record frame : Type := Frame {
  f_a : optr;
  f_es1 : list entry; f_cs1 : list tree;
  f_es2 : list entry; f_cs2 : list tree;
}.

Definition frame_ok (f : frame) : Prop :=
  length (f_es1 f) = length (f_cs1 f) /\ length (f_es2 f) = length (f_cs2 f).

Definition plug_frame (f : frame) (t : tree) : tree :=
  Node (f_a f) (f_es1 f ++ f_es2 f) (f_cs1 f ++ t :: f_cs2 f).

(** The innermost frame comes first. *)
Definition plug (fs : list frame) (t : tree) : tree := fold_left (fun t f => plug_frame f t) fs t.

Fixpoint left_of (fs : list frame) : list entry :=
  match fs with [] => [] | f :: fs' => left_of fs' ++ weave_l (f_es1 f) (map elements (f_cs1 f)) end.
Fixpoint right_of (fs : list frame) : list entry :=
  match fs with [] => [] | f :: fs' => weave_r (f_es2 f) (map elements (f_cs2 f)) ++ right_of fs' end.

Lemma elements_plug_frame f t :
  frame_ok f -> elements (plug_frame f t) =
    weave_l (f_es1 f) (map elements (f_cs1 f)) ++ elements t ++ weave_r (f_es2 f) (map elements (f_cs2 f)).
Proof. intros [H1 H2]. cbn. rewrite map_app. cbn. apply weave_split; now rewrite length_map. Qed.

Lemma elements_plug fs t :
  Forall frame_ok fs -> elements (plug fs t) = left_of fs ++ elements t ++ right_of fs.
Proof.
  intros H. revert t; induction H as [|f fs Hf _ IH]; intros t; cbn.
  - now rewrite app_nil_r.
  - unfold plug in IH. rewrite IH, elements_plug_frame by assumption. now rewrite <- !app_assoc.
Qed.

Definition frame_addrs (f : frame) : list Z := lin (f_a f) :: addrs_of (f_cs1 f) ++ addrs_of (f_cs2 f).
Definition path_addrs (fs : list frame) : list Z := concat (map frame_addrs fs).

Lemma addrs_of_app ts1 ts2 : addrs_of (ts1 ++ ts2) = addrs_of ts1 ++ addrs_of ts2.
Proof. unfold addrs_of. now rewrite map_app, concat_app. Qed.

Lemma addrs_of_cons t ts : addrs_of (t :: ts) = addrs t ++ addrs_of ts.
Proof. reflexivity. Qed.

Lemma addrs_node a es cs : addrs (Node a es cs) = lin a :: addrs_of cs.
Proof. reflexivity. Qed.

Lemma addrs_plug_frame f t : addrs (plug_frame f t) ≡ₚ addrs t ++ frame_addrs f.
Proof.
  unfold plug_frame, frame_addrs. rewrite addrs_node, addrs_of_app, addrs_of_cons.
  rewrite <- Permutation_middle. constructor. rewrite !app_assoc. apply Permutation_app_tail, Permutation_app_comm.
Qed.

Lemma addrs_plug fs t : addrs (plug fs t) ≡ₚ addrs t ++ path_addrs fs.
Proof.
  revert t; induction fs as [|f fs IH]; intros t; cbn; [now rewrite app_nil_r|].
  unfold plug in IH. rewrite IH, addrs_plug_frame. now rewrite <- app_assoc.
Qed.

(** ** Trees in a file *)

(** The item sets [h] represent the tree, of height [ht], with parent [p] above it; every
    leaf is at the same depth. *)
Fixpoint stored (h : gmap Z rnode) (ht : nat) (p : optr) (t : tree) : Prop :=
  let 'Node a es cs := t in
  (exists r, h !! lin a = Some r /\ rep r p es (map root cs)) /\
  match ht with
  | O => cs = []
  | S ht' => es <> [] /\ length cs = S (length es) /\ Forall (stored h ht' a) cs
  end.

(** The nodes on the way, and their other children, are in the file; the child of the
    innermost one that is left out has height [ht], address [a] and parent [p]. *)
Fixpoint stored_path (h : gmap Z rnode) (ht : nat) (a p : optr) (fs : list frame) : Prop :=
  match fs with
  | [] => p = addrZero
  | f :: fs' =>
      p = f_a f /\ frame_ok f /\ f_es1 f ++ f_es2 f <> [] /\
      (exists r p', h !! lin (f_a f) = Some r /\
        rep r p' (f_es1 f ++ f_es2 f) (map root (f_cs1 f) ++ a :: map root (f_cs2 f)) /\
        stored_path h (S ht) (f_a f) p' fs') /\
      Forall (stored h ht (f_a f)) (f_cs1 f ++ f_cs2 f)
  end.

Lemma stored_node h ht p a es cs :
  stored h ht p (Node a es cs) <->
  (exists r, h !! lin a = Some r /\ rep r p es (map root cs)) /\
  match ht with
  | O => cs = []
  | S ht' => es <> [] /\ length cs = S (length es) /\ Forall (stored h ht' a) cs
  end.
Proof. now destruct ht. Qed.

Lemma stored_root_in h ht p t : stored h ht p t -> exists r, h !! lin (root t) = Some r.
Proof. destruct t, ht; intros [(r & Hr & _) _]; eauto. Qed.

Lemma weave_length {A} (es : list A) ls :
  length ls = S (length es) -> length (weave es ls) = (length es + length (concat ls))%nat.
Proof.
  revert ls; induction es as [|e es IH]; intros [|l ls] Hl; try discriminate; cbn [weave concat length]; rewrite !length_app.
  - destruct ls; [|discriminate]. cbn. lia.
  - cbn [length]. rewrite IH by (cbn in Hl; lia). lia.
Qed.

(** A tree has at least as many entries as a binary one of its height. *)
Lemma stored_height h ht p t : stored h ht p t -> (2 ^ ht <= S (length (elements t)))%nat.
Proof.
  revert p t; induction ht as [|ht IH]; intros p [a es cs]; cbn [stored]; [cbn; lia|]. intros (_ & He & Hl & Hcs).
  cbn [elements]. rewrite weave_length by now rewrite length_map.
  assert (length cs * 2 ^ ht <= length cs + length (concat (map elements cs)))%nat as H.
  { clear Hl. induction Hcs as [|c cs Hc _ IHcs]; [cbn; lia|]. apply IH in Hc. cbn [map concat length]. rewrite length_app. lia. }
  destruct es as [|e es]; [easy|]. rewrite Hl in H. cbn [length] in *. rewrite Nat.pow_succ_r'. lia.
Qed.

Lemma root_in_addrs t : lin (root t) ∈ addrs t.
Proof. destruct t. cbn. set_solver. Qed.

Lemma addrs_of_in t ts x : t ∈ ts -> x ∈ addrs t -> x ∈ addrs_of ts.
Proof.
  intros Ht Hx. unfold addrs_of. apply list_elem_of_In, in_concat. exists (addrs t).
  split; [|now apply list_elem_of_In]. apply in_map. now apply list_elem_of_In.
Qed.

(** Item sets outside the tree do not matter. *)
Lemma stored_frame h h' ht p t :
  (forall x, x ∈ addrs t -> h' !! x = h !! x) -> stored h ht p t -> stored h' ht p t.
Proof.
  revert p t; induction ht as [|ht IH]; intros p [a es cs] H; cbn [stored].
  - intros [(r & Hr & Hrep) Hcs]. split; [|assumption]. exists r. rewrite H by set_solver. now split.
  - intros [(r & Hr & Hrep) (He & Hl & Hcs)]. split; [exists r; rewrite H by (cbn; set_solver); now split|].
    split; [assumption|]. split; [assumption|]. rewrite Forall_forall in *. intros c Hc. apply IH; [|now apply Hcs].
    intros x Hx. apply H. cbn. right. now apply (addrs_of_in c).
Qed.

(** Nor does the parent of the root. *)
Lemma stored_reparent h h' ht p p' t :
  NoDup (addrs t) ->
  (forall r, h !! lin (root t) = Some r -> h' !! lin (root t) = Some (with_parent p' r)) ->
  (forall x, x ∈ addrs t -> x <> lin (root t) -> h' !! x = h !! x) ->
  stored h ht p t -> stored h' ht p' t.
Proof.
  destruct t as [a es cs]. cbn [root]. intros Hnd Hr Hx. rewrite addrs_node in *. apply NoDup_cons in Hnd as [Ha Hnd].
  destruct ht as [|ht]; cbn [stored].
  - intros [(r & Hra & Hrep) Hcs]. split; [|assumption]. exists (with_parent p' r).
    split; [now apply Hr|]. now apply (rep_parent _ p).
  - intros [(r & Hra & Hrep) (He & Hl & Hcs)]. split; [|split; [assumption|split; [assumption|]]].
    + exists (with_parent p' r). split; [now apply Hr|]. now apply (rep_parent _ p).
    + rewrite Forall_forall in *. intros c Hc. apply (stored_frame h); [|now apply Hcs].
      intros x Hxc. pose proof (addrs_of_in c cs x Hc Hxc) as Hin. apply Hx; [set_solver|]. intros ->. contradiction.
Qed.

Lemma stored_path_frame h h' ht a p fs :
  (forall x, x ∈ path_addrs fs -> h' !! x = h !! x) -> stored_path h ht a p fs -> stored_path h' ht a p fs.
Proof.
  revert ht a p; induction fs as [|f fs IH]; intros ht a p H; cbn [stored_path]; [auto|].
  change (path_addrs (f :: fs)) with (frame_addrs f ++ path_addrs fs) in H. unfold frame_addrs in H.
  intros (-> & Hok & Hne & (r & p' & Hr & Hrep & Hp) & Hcs). split; [reflexivity|]. split; [assumption|]. split; [assumption|].
  split.
  - exists r, p'. rewrite H by set_solver. split; [assumption|]. split; [assumption|]. apply IH; [set_solver|assumption].
  - rewrite Forall_forall in *. intros c Hc. apply (stored_frame h); [|now apply Hcs].
    intros x Hx. apply H. apply elem_of_app. left. right. rewrite <- addrs_of_app. now apply (addrs_of_in c).
Qed.

Lemma stored_path_ok h ht a p fs : stored_path h ht a p fs -> Forall frame_ok fs.
Proof.
  revert ht a p; induction fs as [|f fs IH]; intros ht a p; cbn [stored_path]; [constructor|].
  intros (_ & Hok & _ & (r & p' & _ & _ & Hp) & _). constructor; [assumption|]. now apply IH in Hp.
Qed.

(** Putting the missing node back gives the whole tree. *)
Lemma stored_plug h ht p fs t :
  stored_path h ht (root t) p fs -> stored h ht p t -> stored h (length fs + ht) addrZero (plug fs t).
Proof.
  revert ht p t; induction fs as [|f fs IH]; intros ht p t; cbn [stored_path length Nat.add plug fold_left].
  - now intros ->.
  - intros (-> & [Hl1 Hl2] & Hne & (r & p' & Hr & Hrep & Hp) & Hcs) Ht.
    replace (S (length fs + ht)) with (length fs + S ht)%nat by lia.
    apply (IH (S ht) p' (plug_frame f t)); [exact Hp|]. cbn [stored plug_frame]. split.
    + exists r. split; [assumption|]. now rewrite map_app.
    + split; [assumption|]. split; [rewrite !length_app; cbn; lia|].
      apply Forall_app in Hcs as [H1 H2]. apply Forall_app. split; [assumption|]. now constructor.
Qed.

Lemma addrs_stored h ht p t x : stored h ht p t -> x ∈ addrs t -> is_Some (h !! x).
Proof.
  revert p t; induction ht as [|ht IH]; intros p [a es cs] [(r & Hr & _) Hcs]; rewrite addrs_node, elem_of_cons.
  - subst cs. intros [-> | Hx]; [eauto|]. cbn in Hx. set_solver.
  - destruct Hcs as (_ & _ & Hcs). intros [-> | Hx]; [eauto|]. unfold addrs_of in Hx.
    apply list_elem_of_In, in_concat in Hx as (l & (c & <- & Hc)%in_map_iff & Hx). apply list_elem_of_In in Hx, Hc.
    rewrite Forall_forall in Hcs. exact (IH _ _ (Hcs c Hc) Hx).
Qed.

Lemma addrs_of_stored h ht p ts x : Forall (stored h ht p) ts -> x ∈ addrs_of ts -> is_Some (h !! x).
Proof.
  intros Hts Hx. unfold addrs_of in Hx.
  apply list_elem_of_In, in_concat in Hx as (l & (c & <- & Hc)%in_map_iff & Hx). apply list_elem_of_In in Hx, Hc.
  rewrite Forall_forall in Hts. exact (addrs_stored _ _ _ _ _ (Hts c Hc) Hx).
Qed.
