(* ===== verification/BTreeAdd.v ===== *)
(** The insertion of the B-tree refines the insertion into a sorted list of entries:
    [recursiveAdd] of [o_node.cpp] and [OBtree::add] of [btree.cpp] on the trees of
    [BTreeModel]. *)
From S2P Require Import Prelude OverlayPtr MemoryManager ItemSet NodeStore ONode NodeOps NodeSplit BTreeModel.
From Stdlib Require Import Lia Sorting.Sorted.

(** ** An entry on its way into a node *)

(** The children [cs] of a node with entries [es1 ++ es2], once the new subtree is put to
    the right of the place between [es1] and [es2]; a leaf has none. *)
Definition placed_tree (new : option tree) (cs : list tree) (es1 es2 : list entry) (full : list tree) : Prop :=
  match new with
  | None => cs = [] /\ full = []
  | Some t => exists c1 c2, cs = c1 ++ c2 /\ length c1 = S (length es1) /\ length c2 = length es2 /\
      full = c1 ++ t :: c2
  end.

(** The node at [a], of height [ht], at the end of the path [fs], is about to receive an
    entry between [es1] and [es2] and the subtree [new]; its children will be [full]. *)
Record pending (h : gmap Z rnode) (ht : nat) (fs : list frame) (a p : optr) (r : rnode)
    (es1 es2 : list entry) (cs : list tree) (new : option tree) (full : list tree) : Prop := {
  pd_node : h !! lin a = Some r;
  pd_rep : rep r p (es1 ++ es2) (map root cs);
  pd_path : stored_path h ht a p fs;
  pd_placed : placed_tree new cs es1 es2 full;
  pd_full : match ht with O => new = None | S ht' => is_Some new /\ Forall (stored h ht' a) full end;
  pd_nodup : NoDup (lin a :: addrs_of full ++ path_addrs fs);
}.

(** The entries of the whole tree with the new one in its place. *)
Definition target (fs : list frame) (a : optr) (es : list entry) (full : list tree) : list entry :=
  left_of fs ++ elements (Node a es full) ++ right_of fs.

Definition sorted_entries (l : list entry) : Prop := StronglySorted klt (map fst l).

Lemma StronglySorted_sublist {A} (R : relation A) l1 l2 :
  l1 `sublist_of` l2 -> StronglySorted R l2 -> StronglySorted R l1.
Proof.
  induction 1 as [|x l1 l2 Hs IH|x l1 l2 Hs IH]; intros H; [constructor|..]; apply StronglySorted_inv in H as [H Hx].
  - constructor; [auto|]. rewrite Forall_forall in *. intros y Hy. apply Hx. now apply (elem_of_sublist l1).
  - auto.
Qed.

Lemma target_in_order fs a es1 es2 k d full :
  sorted_entries (target fs a (es1 ++ (k, d) :: es2) full) ->
  (full = [] \/ length full = S (length (es1 ++ (k, d) :: es2))) -> in_order es1 k es2.
Proof.
  intros Hs Hl. unfold in_order. change (k :: map fst es2) with (map fst ((k, d) :: es2)). rewrite <- map_app.
  eapply StronglySorted_sublist; [|exact Hs]. apply fmap_sublist. unfold target.
  apply sublist_inserts_l, sublist_inserts_r. cbn [elements].
  destruct (sublist_weave (es1 ++ (k, d) :: es2) (map elements full)) as [H|H]; [assumption|].
  destruct Hl as [-> | Hl]; [reflexivity|]. rewrite length_map in H. lia.
Qed.

Lemma placed_tree_length new cs es1 es2 full k (d : optr) :
  placed_tree new cs es1 es2 full -> full = [] \/ length full = S (length (es1 ++ (k, d) :: es2)).
Proof.
  destruct new; cbn; [|now intros [_ ->]; left]. intros (c1 & c2 & -> & H1 & H2 & ->). right.
  rewrite !length_app. cbn. lia.
Qed.

Lemma NoDup_app_notin {A} (l1 l2 : list A) x : NoDup (l1 ++ l2) -> x ∈ l1 -> x ∈ l2 -> False.
Proof. intros H H1 H2. apply NoDup_app in H as (_ & H & _). exact (H x H1 H2). Qed.

Lemma addrs_of_disjoint ts t t' x :
  NoDup (addrs_of ts) -> t ∈ ts -> t' ∈ ts -> x ∈ addrs t -> x ∈ addrs t' -> t = t'.
Proof.
  intros Hnd Ht Ht' Hx Hx'. induction ts as [|u ts IH]; [set_solver|]. rewrite addrs_of_cons in Hnd.
  apply elem_of_cons in Ht as [-> | Ht], Ht' as [-> | Ht']; [reflexivity|..].
  - destruct (NoDup_app_notin _ _ x Hnd Hx). now apply (addrs_of_in t').
  - destruct (NoDup_app_notin _ _ x Hnd Hx'). now apply (addrs_of_in t).
  - apply NoDup_app in Hnd as (_ & _ & Hnd). auto.
Qed.

Lemma moved_roots h ht p t2 t3 t4 :
  Forall (stored h ht p) [t2; t3; t4] ->
  exists r2 r3 r4, h !! lin (root t2) = Some r2 /\ h !! lin (root t3) = Some r3 /\ h !! lin (root t4) = Some r4.
Proof.
  intros [[r2 H2]%stored_root_in [[r3 H3]%stored_root_in [[r4 H4]%stored_root_in _]%Forall_cons]%Forall_cons]%Forall_cons.
  eauto 10.
Qed.

Lemma roots_distinct a ts :
  lin a ∉ addrs_of ts -> NoDup (addrs_of ts) -> NoDup (lin a :: map (fun t => lin (root t)) ts).
Proof.
  intros Ha Hnd. apply NoDup_cons. split.
  - intros (t & E & Ht)%list_elem_of_fmap. apply Ha. rewrite E. eapply addrs_of_in; [exact Ht|apply root_in_addrs].
  - clear Ha. induction ts as [|t ts IH]; [constructor|]. rewrite addrs_of_cons in Hnd. cbn [map]. apply NoDup_cons. split.
    + intros (t' & E & Ht')%list_elem_of_fmap. eapply (NoDup_app_notin _ _ _ Hnd (root_in_addrs t)).
      rewrite E. eapply addrs_of_in; [exact Ht'|apply root_in_addrs].
    + apply IH. now apply NoDup_app in Hnd.
Qed.

(** The moved subtrees hang below the new node. *)
Lemma reparented_stored h h' s b ht p ts :
  reparented h h' s b (map root ts) -> Forall (stored h ht p) ts -> NoDup (addrs_of ts) ->
  lin s ∉ addrs_of ts -> lin b ∉ addrs_of ts -> Forall (stored h' ht b) ts.
Proof.
  intros Hre Hts Hnd Hs Hb. rewrite Forall_forall in *. intros t Ht.
  assert (Hout : forall x, x ∈ addrs t -> x <> lin s /\ x <> lin b).
  { intros x Hx. pose proof (addrs_of_in t ts x Ht Hx). split; intros ->; contradiction. }
  assert (Hndt : NoDup (addrs t)).
  { clear -Hnd Ht. induction ts as [|u ts IH]; [set_solver|]. rewrite addrs_of_cons in Hnd.
    apply NoDup_app in Hnd as (? & _ & ?). apply elem_of_cons in Ht as [-> | Ht]; auto. }
  apply (stored_reparent h _ _ p); [assumption|..|now apply Hts].
  - intros r Hr. destruct (Hout _ (root_in_addrs t)). rewrite Hre by assumption.
    rewrite decide_True by (apply list_elem_of_fmap_2, list_elem_of_fmap_2; assumption). now rewrite Hr.
  - intros x Hx Hne. destruct (Hout x Hx). rewrite Hre by assumption. rewrite decide_False; [reflexivity|].
    intros (y & -> & (t' & -> & Ht')%list_elem_of_fmap)%list_elem_of_fmap.
    now rewrite (addrs_of_disjoint ts t t' _ Hnd Ht Ht' Hx (root_in_addrs t')) in Hne.
Qed.

(** Subtrees that were not moved stay as they are. *)
Lemma reparented_other h h' s b ht p ts us :
  reparented h h' s b (map root ts) -> Forall (stored h ht p) us -> NoDup (addrs_of us ++ addrs_of ts) ->
  lin s ∉ addrs_of us -> lin b ∉ addrs_of us -> Forall (stored h' ht p) us.
Proof.
  intros Hre Hus Hnd Hs Hb. rewrite Forall_forall in *. intros t Ht. apply (stored_frame h); [|now apply Hus].
  intros x Hx. pose proof (addrs_of_in t us x Ht Hx) as Hin. rewrite Hre by congruence. rewrite decide_False; [reflexivity|].
  intros (y & -> & (t' & -> & Ht')%list_elem_of_fmap)%list_elem_of_fmap.
  eapply (NoDup_app_notin _ _ _ Hnd Hin), (addrs_of_in t'); [assumption|apply root_in_addrs].
Qed.

Section add.
Context {M : Type} `{mgr : OverlayManager M}.

Lemma stored_parent h ht p t r : stored h ht p t -> h !! lin (root t) = Some r -> r_parent r = p.
Proof.
  destruct t as [a es cs]. intros [(r' & Hr' & Hrep) _]%stored_node Hr. cbn [root] in Hr.
  rewrite Hr in Hr'. injection Hr' as <-. exact (rep_r_parent _ _ _ _ Hrep).
Qed.

(** *** A node with room *)

Lemma simple_add_spec n meta s m h r p es1 es2 cs k d new full :
  nodes n m meta h -> h !! lin s = Some r -> rep r p (es1 ++ es2) (map root cs) -> (length (es1 ++ es2) <= 2)%nat ->
  placed_tree new cs es1 es2 full -> in_order es1 k es2 -> length k = 20%nat ->
  wp (simple_add s (Some k) (Some d) (root <$> new)) m (fun _ m' => exists r',
    nodes n m' meta (<[lin s := r']> h) /\ rep r' p (es1 ++ (k, d) :: es2) (map root full)).
Proof.
  intros Hm Hr Hrep Hl Hp Ho Hk. destruct new as [t|]; cbn [fmap option_fmap option_map].
  - destruct Hp as (c1 & c2 & -> & H1 & H2 & ->). rewrite map_app in *. cbn [map].
    apply (simple_add_inner n meta s m h r p es1 es2 (map root c1) (map root c2)); rewrite ?length_map; assumption.
  - destruct Hp as [-> ->]. now apply (simple_add_leaf n meta s m h r p es1 es2).
Qed.

Lemma pending_simple n meta m h ht fs a p r es1 es2 cs new full k d :
  nodes n m meta h -> pending h ht fs a p r es1 es2 cs new full -> (length (es1 ++ es2) <= 2)%nat ->
  length k = 20%nat -> sorted_entries (target fs a (es1 ++ (k, d) :: es2) full) ->
  wp (simple_add a (Some k) (Some d) (root <$> new)) m (fun _ m' => exists h',
    nodes n m' meta h' /\ stored h' (length fs + ht) addrZero (plug fs (Node a (es1 ++ (k, d) :: es2) full)) /\
    NoDup (addrs (plug fs (Node a (es1 ++ (k, d) :: es2) full)))).
Proof.
  intros Hm [Hr Hrep Hpath Hpl Hfull Hnd] Hl Hk Hs.
  pose proof (placed_tree_length new cs es1 es2 full k d Hpl) as Hlen.
  wp_last (simple_add_spec n meta a m h r p es1 es2 cs k d new full) as (r' & Hm' & Hrep');
    [assumption..|eapply target_in_order; eassumption|assumption|].
  apply NoDup_cons in Hnd as [Ha Hnd]. rewrite elem_of_app in Ha.
  exists (<[lin a := r']> h). split; [assumption|]. split.
  - apply (stored_plug _ ht p).
    + apply (stored_path_frame h); [|assumption]. intros x Hx. apply lookup_insert_ne. intros <-. auto.
    + apply stored_node. split; [exists r'; split; [apply lookup_insert_eq|assumption]|].
      destruct ht as [|ht]; [subst new; now destruct Hpl|]. destruct Hfull as [[t ->] Hfull].
      split; [now destruct es1|]. split; [destruct Hlen as [-> |]; [|assumption]|].
      { destruct Hpl as (c1 & c2 & _ & _ & _ & E). now destruct c1. }
      rewrite Forall_forall in *. intros c Hc. apply (stored_frame h); [|now apply Hfull].
      intros x Hx. apply lookup_insert_ne. intros <-. apply Ha. left. now apply (addrs_of_in c).
  - rewrite addrs_plug, addrs_node. cbn. apply NoDup_cons. split; [now rewrite elem_of_app|assumption].
Qed.
(** *** A full node *)

(** What a split leaves behind: the node keeps its address, the new node is the right
    half, and the separator is still to be put into the parent. *)
Record split_result (h h' : gmap Z rnode) (n : Z) (ht : nat) (fs : list frame) (a p : optr)
    (es : list entry) (full : list tree) (e : entry) (left right : tree) : Prop := {
  sr_left : stored h' ht p left;
  sr_right : stored h' ht p right;
  sr_root_left : root left = a;
  sr_root_right : lin (root right) = n;
  sr_elements : elements (Node a es full) = elements left ++ e :: elements right;
  sr_nodup : NoDup (addrs left ++ addrs right ++ path_addrs fs);
  sr_frame : forall x, x ∈ path_addrs fs -> h' !! x = h !! x;
}.

Lemma path_addrs_in h ht a p fs x : stored_path h ht a p fs -> x ∈ path_addrs fs -> is_Some (h !! x).
Proof.
  revert ht a p; induction fs as [|f fs IH]; intros ht a p; [intros _ H; cbn in H; set_solver|].
  cbn [stored_path]. intros (-> & _ & _ & (r & p' & Hr & _ & Hp) & Hcs) Hx.
  change (path_addrs (f :: fs)) with (frame_addrs f ++ path_addrs fs) in Hx. unfold frame_addrs in Hx.
  apply elem_of_app in Hx as [Hx|Hx]; [|eapply IH; eassumption]. apply elem_of_cons in Hx as [-> |Hx]; [eauto|].
  rewrite <- addrs_of_app in Hx. now apply (addrs_of_stored h ht (f_a f)) in Hx.
Qed.

Lemma split_leaf_result n meta m h fs a p r es1 es2 k d e0 e1 e2 e3 :
  nodes n m meta h -> pending h 0 fs a p r es1 es2 [] None [] -> es1 ++ (k, d) :: es2 = [e0; e1; e2; e3] ->
  length k = 20%nat -> in_order es1 k es2 -> n + 103 < 2 ^ 23 ->
  wp (splitONode a (Some k) (Some d) None) m (fun '(sk, sd, b) m' => exists left right h',
    sk = Some e1.1 /\ sd = Some e1.2 /\ b = root right /\ nodes (n + 103) m' meta h' /\
    split_result h h' n 0 fs a p (es1 ++ (k, d) :: es2) [] e1 left right).
Proof.
  intros Hm [Hr Hrep Hpath _ _ Hnd] He Hk Ho Hn. pose proof (nodes_end meta n m h n Hm ltac:(lia)) as Hfresh.
  wp_last (splitONode_leaf meta n a m h r p es1 es2 k d e0 e1 e2 e3) giving [[sk sd] b] as Hw; [assumption..|].
  destruct Hw as (-> & -> & Eb & ra & rb & Hm' & Ha & Hb).
  exists (Node a [e0] []), (Node b [e2; e3] []), (<[lin a := ra]> (<[lin b := rb]> h)).
  pose proof (nodes_bounds _ _ _ _ _ _ Hm Hr). unfold addrs_of in Hnd. cbn [map concat app] in Hnd. apply NoDup_cons in Hnd as [Han Hnd].
  assert (Hbn : n ∉ path_addrs fs).
  { intros Hin. destruct (path_addrs_in _ _ _ _ _ _ Hpath Hin). congruence. }
  do 4 (split; [reflexivity || assumption|]). rewrite He. split; try reflexivity; try assumption.
  - apply stored_node. split; [exists ra; split; [apply lookup_insert_eq|assumption]|reflexivity].
  - apply stored_node. split; [exists rb; split; [|assumption]|reflexivity].
    rewrite lookup_insert_ne by lia. apply lookup_insert_eq.
  - rewrite !addrs_node. unfold addrs_of. cbn [map concat app]. rewrite Eb. apply NoDup_cons. split; [|now apply NoDup_cons].
    rewrite elem_of_cons. intros [? | ?]; [lia|auto].
  - intros x Hx. rewrite !lookup_insert_ne; [reflexivity|intros <-; congruence|intros <-; congruence].
Qed.
Lemma split_inner_result n meta m h ht fs a p r es1 es2 cs t full k d e0 e1 e2 e3 :
  nodes n m meta h -> pending h (S ht) fs a p r es1 es2 cs (Some t) full -> es1 ++ (k, d) :: es2 = [e0; e1; e2; e3] ->
  length k = 20%nat -> in_order es1 k es2 -> n + 103 < 2 ^ 23 ->
  wp (splitONode a (Some k) (Some d) (Some (root t))) m (fun '(sk, sd, b) m' => exists left right h',
    sk = Some e1.1 /\ sd = Some e1.2 /\ b = root right /\ nodes (n + 103) m' meta h' /\
    split_result h h' n (S ht) fs a p (es1 ++ (k, d) :: es2) full e1 left right).
Proof.
  intros Hm [Hr Hrep Hpath Hpl [_ Hfull] Hnd] He Hk Ho Hn. pose proof (nodes_end meta n m h n Hm ltac:(lia)) as Hfresh.
  destruct Hpl as (c1 & c2 & -> & Hc1 & Hc2 & ->). rewrite map_app in Hrep.
  assert (Hl : length (c1 ++ t :: c2) = 5%nat).
  { apply (f_equal length) in He. rewrite length_app in *. cbn in *. lia. }
  destruct (c1 ++ t :: c2) as [|t0 [|t1 [|t2 [|t3 [|t4 [|]]]]]] eqn:Ec; try discriminate Hl. clear Hl.
  change [t0; t1; t2; t3; t4] with ([t0; t1] ++ [t2; t3; t4]) in *. set (kept := [t0; t1]) in *. set (ts := [t2; t3; t4]) in *.
  apply NoDup_cons in Hnd as [Ha Hnd]. rewrite addrs_of_app, <- app_assoc in Hnd, Ha. apply Forall_app in Hfull as [Hk1 Hk2].
  assert (Hn1 : n ∉ addrs_of kept) by (intros Hin; destruct (addrs_of_stored _ _ _ _ _ Hk1 Hin); congruence).
  assert (Hn2 : n ∉ addrs_of ts) by (intros Hin; destruct (addrs_of_stored _ _ _ _ _ Hk2 Hin); congruence).
  assert (Hn3 : n ∉ path_addrs fs) by (intros Hin; destruct (path_addrs_in _ _ _ _ _ _ Hpath Hin); congruence).
  pose proof (nodes_bounds _ _ _ _ _ _ Hm Hr). rewrite !elem_of_app in Ha.
  destruct (moved_roots _ _ _ _ _ _ Hk2) as (r2 & r3 & r4 & Hr2 & Hr3 & Hr4).
  wp_last (splitONode_inner meta n a m h r p es1 es2 (map root c1) (map root c2) k d (root t) e0 e1 e2 e3
    (root t0) (root t1) (root t2) (root t3) (root t4) r2 r3 r4) giving [[sk sd] b] as Hw; rewrite ?length_map; try assumption.
  { change (root t :: map root c2) with (map root (t :: c2)). now rewrite <- map_app, Ec. }
  { apply (roots_distinct a ts); [tauto|]. now apply NoDup_app in Hnd as (_ & _ & (? & _)%NoDup_app). }
  destruct Hw as (-> & -> & Eb & ra & rb & h' & Hm' & Ha' & Hb' & Hra & Hrb & Hre).
  change [root t2; root t3; root t4] with (map root ts) in Hre.
  exists (Node a [e0] kept), (Node b [e2; e3] ts), h'. do 4 (split; [reflexivity || assumption|]).
  assert (Hnd' : NoDup (addrs_of kept ++ addrs_of ts)) by (rewrite app_assoc in Hnd; now apply NoDup_app in Hnd).
  rewrite He. split; try reflexivity; try assumption.
  - apply stored_node. split; [eauto|]. split; [discriminate|]. split; [reflexivity|].
    apply (reparented_other h h' a b ht a ts); rewrite ?Eb; try assumption; tauto.
  - apply stored_node. split; [eauto|]. split; [discriminate|]. split; [reflexivity|].
    apply (reparented_stored h h' a b ht a ts); rewrite ?Eb; try assumption; [|tauto].
    now apply NoDup_app in Hnd' as (_ & _ & ?).
  - unfold kept, ts. cbn. now rewrite !app_nil_r, <- !app_assoc.
  - rewrite !addrs_node, Eb. cbn [app]. apply NoDup_cons. rewrite elem_of_app, elem_of_cons, elem_of_app. split; [|].
    + intros [?|[?|[?|?]]]; try tauto. lia.
    + rewrite <- Permutation_middle. apply NoDup_cons. rewrite !elem_of_app. split; [tauto|assumption].
  - intros x Hx. rewrite Hre by (intros ->; rewrite ?Eb in *; tauto). rewrite decide_False; [reflexivity|].
    intros (y & -> & (t' & -> & Ht')%list_elem_of_fmap)%list_elem_of_fmap.
    rewrite app_assoc in Hnd. apply (NoDup_app_notin _ _ _ Hnd) in Hx; [assumption|]. apply elem_of_app. right.
    eapply addrs_of_in; [exact Ht'|apply root_in_addrs].
Qed.
Lemma pending_split n meta m h ht fs a p r es1 es2 cs new full k d :
  nodes n m meta h -> pending h ht fs a p r es1 es2 cs new full -> length (es1 ++ es2) = 3%nat ->
  length k = 20%nat -> sorted_entries (target fs a (es1 ++ (k, d) :: es2) full) -> n + 103 < 2 ^ 23 ->
  wp (splitONode a (Some k) (Some d) (root <$> new)) m (fun '(sk, sd, b) m' => exists e left right h',
    sk = Some e.1 /\ sd = Some e.2 /\ b = root right /\ length e.1 = 20%nat /\ nodes (n + 103) m' meta h' /\
    split_result h h' n ht fs a p (es1 ++ (k, d) :: es2) full e left right).
Proof.
  intros Hm Hp Hl Hk Hs Hn. pose proof Hp as [Hr Hrep Hpath Hpl Hfull Hnd].
  assert (Ho : in_order es1 k es2) by (eapply target_in_order; [eassumption|eapply placed_tree_length; eassumption]).
  assert (He : exists e0 e1 e2 e3, es1 ++ (k, d) :: es2 = [e0; e1; e2; e3]).
  { assert (H4 : length (es1 ++ (k, d) :: es2) = 4%nat) by (rewrite length_app in *; cbn; lia).
    destruct (es1 ++ (k, d) :: es2) as [|e0 [|e1 [|e2 [|e3 [|]]]]]; try discriminate H4. eauto 10. }
  destruct He as (e0 & e1 & e2 & e3 & He).
  destruct (full_keys _ _ _ _ _ _ _ _ He Hk (rep_keys_length _ _ _ _ Hrep)) as (_ & _ & H1 & _).
  destruct ht as [|ht].
  - subst new. destruct Hpl as [-> ->].
    wp_last (split_leaf_result n meta m h fs a p r es1 es2 k d e0 e1 e2 e3) giving [[sk sd] b] as (l & rt & h' & H); [assumption..|].
    exists e1, l, rt, h'. tauto.
  - destruct Hfull as [[t ->] Hfull].
    wp_last (split_inner_result n meta m h ht fs a p r es1 es2 cs t full k d e0 e1 e2 e3) giving [[sk sd] b] as (l & rt & h' & H); [assumption..|].
    exists e1, l, rt, h'. tauto.
Qed.

(** *** A new root *)

Lemma stored_nonzero n m meta h ht p t : nodes n m meta h -> stored h ht p t -> 100 <= lin (root t).
Proof. intros Hm [r Hr]%stored_root_in. pose proof (nodes_bounds _ _ _ _ _ _ Hm Hr). lia. Qed.

Lemma grow_root_tree n meta m h ht left right e :
  nodes n m meta h -> stored h ht addrZero left -> stored h ht addrZero right ->
  NoDup (addrs left ++ addrs right) -> length e.1 = 20%nat -> n + 103 < 2 ^ 23 ->
  wp (grow_root (root left) (Some e.1) (Some e.2) (root right)) m (fun c m' => exists h',
    nodes (n + 103) m' (set_root c meta) h' /\ stored h' (S ht) addrZero (Node c [e] [left; right]) /\
    NoDup (addrs (Node c [e] [left; right]))).
Proof.
  intros Hm Hl Hr Hnd He Hn. destruct (stored_root_in _ _ _ _ Hl) as [rl Hrl], (stored_root_in _ _ _ _ Hr) as [rr Hrr].
  assert (Hne : lin (root left) <> lin (root right)).
  { intros E. eapply (NoDup_app_notin _ _ _ Hnd (root_in_addrs left)). rewrite E. apply root_in_addrs. }
  wp_last (grow_root_spec meta n (root left) (root right) m h rl rr e.1 e.2) giving c as (Ec & rc & h' & Hm' & Hc & Hrep & Hl' & Hr' & Hother);
    [assumption..|].
  assert (Hfresh : forall t, stored h ht addrZero t -> lin c ∉ addrs t).
  { intros t Ht Hin. destruct (addrs_stored _ _ _ _ _ Ht Hin) as [x Hx]. rewrite (nodes_end meta n m h) in Hx by (assumption || lia). discriminate. }
  pose proof (Hfresh _ Hl). pose proof (Hfresh _ Hr). pose proof Hnd as (Hndl & Hdis & Hndr)%NoDup_app.
  exists h'. split; [assumption|]. split.
  - apply stored_node. split; [exists rc; split; [assumption|destruct e; exact Hrep]|].
    split; [discriminate|]. split; [reflexivity|].
    apply Forall_cons. split; [|apply Forall_cons; split; [|constructor]].
    + apply (stored_reparent h h' ht addrZero c left); [assumption| |intros x Hx Hx'|assumption].
      * intros r0 E. rewrite Hrl in E. injection E as <-. assumption.
      * apply Hother; [congruence|assumption|]. intros ->. exact (Hdis _ Hx (root_in_addrs right)).
    + apply (stored_reparent h h' ht addrZero c right); [assumption| |intros x Hx Hx'|assumption].
      * intros r0 E. rewrite Hrr in E. injection E as <-. assumption.
      * apply Hother; [congruence| |assumption]. intros ->. exact (Hdis _ (root_in_addrs left) Hx).
  - rewrite addrs_node, !addrs_of_cons. change (addrs_of []) with (@nil Z). rewrite app_nil_r. apply NoDup_cons.
    split; [rewrite elem_of_app; tauto|assumption].
Qed.

(** *** All the way up *)

Definition plug_root (fs : list frame) (a : optr) : optr := root (plug fs (Node a [] [])).

Lemma plug_root_eq fs t : root (plug fs t) = plug_root fs (root t).
Proof.
  unfold plug_root, plug. assert (H : root t = root (Node (root t) [] [])) by reflexivity. revert H.
  generalize (Node (root t) [] []). revert t. induction fs as [|f fs IH]; intros t u H; [exact H|]. now apply IH.
Qed.

(** The outcome of an insertion: a tree with the entries [E], the old root or a new one
    that is recorded in the meta area; at most [k] nodes were allocated. *)
Definition added (n : Z) (meta : list byte) (rt : optr) (ht k : nat) (E : list entry) (o : option optr) (m' : M) : Prop :=
  exists n' meta' h' ht' T, nodes n' m' meta' h' /\ stored h' ht' addrZero T /\ NoDup (addrs T) /\
    elements T = E /\ n <= n' <= n + 103 * Z.of_nat k /\ (ht' <= S ht)%nat /\
    ((o = None /\ root T = rt /\ meta' = meta) \/ (o = Some (root T) /\ meta' = set_root (root T) meta)).
(** After a split the separator is pending at the parent. *)
Lemma split_moves_up h h' n ht f fs a p es full e left right :
  stored_path h ht a p (f :: fs) -> split_result h h' n ht (f :: fs) a p es full e left right -> exists p' r',
  p = f_a f /\
  pending h' (S ht) fs (f_a f) p' r' (f_es1 f) (f_es2 f) (f_cs1 f ++ left :: f_cs2 f) (Some right)
          (f_cs1 f ++ left :: right :: f_cs2 f) /\
  target fs (f_a f) (f_es1 f ++ e :: f_es2 f) (f_cs1 f ++ left :: right :: f_cs2 f) = target (f :: fs) a es full.
Proof.
  cbn [stored_path]. intros (-> & [Hl1 Hl2] & Hne & (r0 & p' & Hr0 & Hrep & Hp) & Hcs)
    [Hleft Hright Ea Eb Eel Hnd Hfr].
  change (path_addrs (f :: fs)) with (frame_addrs f ++ path_addrs fs) in *. unfold frame_addrs in *.
  exists p', r0. split; [reflexivity|]. split.
  - split.
    + rewrite Hfr by set_solver. assumption.
    + rewrite map_app. cbn [map]. now rewrite Ea.
    + apply (stored_path_frame h); [|assumption]. intros x Hx. apply Hfr. rewrite elem_of_app. now right.
    + exists (f_cs1 f ++ [left]), (f_cs2 f). rewrite <- !app_assoc, length_app. cbn. repeat split; lia.
    + split; [eauto|]. apply Forall_app in Hcs as [H1 H2].
      assert (Hk : forall ts, (forall x, x ∈ addrs_of ts -> x ∈ (lin (f_a f) :: addrs_of (f_cs1 f) ++ addrs_of (f_cs2 f)) ++ path_addrs fs) ->
        Forall (stored h ht (f_a f)) ts -> Forall (stored h' ht (f_a f)) ts).
      { intros ts Hin Hts. rewrite Forall_forall in *. intros t Ht. apply (stored_frame h); [|now apply Hts].
        intros x Hx. apply Hfr, Hin. now apply (addrs_of_in t). }
      apply Forall_app. split; [apply Hk; [set_solver|assumption]|].
      apply Forall_cons. split; [assumption|]. apply Forall_cons. split; [assumption|]. apply Hk; [set_solver|assumption].
    + assert (P : lin (f_a f) :: addrs_of (f_cs1 f ++ left :: right :: f_cs2 f) ++ path_addrs fs ≡ₚ
        addrs left ++ addrs right ++ (lin (f_a f) :: addrs_of (f_cs1 f) ++ addrs_of (f_cs2 f)) ++ path_addrs fs).
      { rewrite addrs_of_app, !addrs_of_cons. cbn [app]. rewrite <- !Permutation_middle. constructor.
        rewrite <- !app_assoc. rewrite (Permutation_app_swap_app (addrs_of (f_cs1 f))).
        apply Permutation_app_head, Permutation_app_swap_app. }
      now rewrite P.
  - unfold target. cbn [left_of right_of]. rewrite Eel. cbn [elements]. rewrite map_app. cbn [map].
    rewrite weave_split by (cbn; rewrite length_map; lia).
    unfold weave_r at 1. cbn [zip_with concat app]. fold (weave_r (f_es2 f) (map elements (f_cs2 f))).
    rewrite <- !app_assoc. cbn [app]. now rewrite <- !app_assoc.
Qed.

Lemma recursiveAdd_room fuel n meta m h ht fs a p r es1 es2 cs new full k d :
  (0 < fuel)%nat -> nodes n m meta h -> pending h ht fs a p r es1 es2 cs new full -> (length (es1 ++ es2) <= 2)%nat ->
  sorted_entries (target fs a (es1 ++ (k, d) :: es2) full) -> length k = 20%nat ->
  wp (recursiveAdd fuel a (Some k) (Some d) (root <$> new)) m
     (added n meta (plug_root fs a) (length fs + ht) (length fs + 2) (target fs a (es1 ++ (k, d) :: es2) full)).
Proof.
  intros Hf Hm Hp Hl Hs Hk. destruct fuel as [|fuel]; [lia|]. cbn [recursiveAdd].
  wp_seq (keyCount_spec n meta a) as (-> & Hm1); [exact Hm|exact (pd_node _ _ _ _ _ _ _ _ _ _ _ Hp)|].
  rewrite (rep_kc _ _ _ _ (pd_rep _ _ _ _ _ _ _ _ _ _ _ Hp)), (proj2 (Z.leb_gt DEFAULT_KEY_COUNT _))
    by (change DEFAULT_KEY_COUNT with 3; lia).
  wp_seq (pending_simple n meta _ h ht) as (h' & Hm' & Hst & Hnd'); [eassumption|eassumption|lia|assumption..|].
  apply wp_ret. exists n, meta, h'. eexists _, _. split; [exact Hm'|]. split; [exact Hst|]. split; [exact Hnd'|].
  rewrite elements_plug by (eapply stored_path_ok, pd_path; eassumption). rewrite plug_root_eq.
  repeat split; try lia. now left.
Qed.

Lemma plug_root_cons f fs a : plug_root (f :: fs) a = plug_root fs (f_a f).
Proof. unfold plug_root at 1. cbn. apply plug_root_eq. Qed.

Lemma added_after_split n meta rt ht k E o (m' : M) :
  added (n + 103) meta rt ht k E o m' -> added n meta rt ht (S k) E o m'.
Proof.
  intros (n' & meta' & h' & ht' & T & H1 & H2 & H3 & H4 & H5 & H6 & H7).
  exists n', meta', h', ht', T. repeat (split; [assumption || lia|]). assumption.
Qed.

Lemma recursiveAdd_spec fs : forall fuel n meta m h ht a p r es1 es2 cs new full k d,
  (length fs < fuel)%nat -> nodes n m meta h -> pending h ht fs a p r es1 es2 cs new full ->
  sorted_entries (target fs a (es1 ++ (k, d) :: es2) full) -> length k = 20%nat ->
  n + 103 * (Z.of_nat (length fs) + 2) < 2 ^ 23 ->
  wp (recursiveAdd fuel a (Some k) (Some d) (root <$> new)) m
     (added n meta (plug_root fs a) (length fs + ht) (length fs + 2) (target fs a (es1 ++ (k, d) :: es2) full)).
Proof.
  induction fs as [|f fs IH]; intros fuel n meta m h ht a p r es1 es2 cs new full k d Hf Hm Hp Hs Hk Hn;
    pose proof (pd_rep _ _ _ _ _ _ _ _ _ _ _ Hp) as Hrep; pose proof (pd_path _ _ _ _ _ _ _ _ _ _ _ Hp) as Hpath;
    (destruct (decide (length (es1 ++ es2) <= 2)%nat) as [Hl|Hl]; [eapply recursiveAdd_room; eauto; lia|]);
    (assert (Hl3 : length (es1 ++ es2) = 3%nat) by (pose proof (proj1 (rep_length _ _ _ _ Hrep)); lia));
    (destruct fuel as [|fuel]; [cbn in Hf; lia|]); cbn [recursiveAdd length] in *;
    (wp_seq (keyCount_spec n meta a) as (-> & Hm1); [exact Hm|exact (pd_node _ _ _ _ _ _ _ _ _ _ _ Hp)|]);
    rewrite (rep_kc _ _ _ _ Hrep), Hl3; change (DEFAULT_KEY_COUNT <=? Z.of_nat 3) with true; cbv iota;
    (wp_seq (pending_split n meta _ h ht) giving [[sk sd] b] as (e & left & right & h' & -> & -> & -> & He & Hm2 & Hsr);
      [eassumption|eassumption|assumption..|lia|]);
    pose proof Hsr as [Hleft Hright Ea Eb Eel Hnd Hfr];
    destruct (stored_root_in _ _ _ _ Hleft) as [rl Hrl]; rewrite Ea in Hrl;
    (wp_seq (parent_spec (n + 103) meta a) as (-> & Hm3); [eassumption..|]).
  - cbn [stored_path] in Hpath. subst p. rewrite (stored_parent _ _ _ left rl Hleft) by now rewrite Ea.
    change (optr_eqb addrZero addrZero) with true. cbv iota. subst a.
    change (path_addrs []) with (@nil Z) in Hnd. rewrite app_nil_r in Hnd.
    wp_seq (grow_root_tree (n + 103) meta _ h' ht left right e) giving c as (h2 & Hm4 & Hst & Hnd2); [assumption..|lia|].
    apply wp_ret. eexists (n + 103 + 103), (set_root c meta), h2, (S ht), _.
    split; [exact Hm4|]. split; [exact Hst|]. split; [exact Hnd2|]. split; [|split; [lia|split; [lia|now right]]].
    unfold target. cbn [left_of right_of app]. rewrite Eel. cbn. now rewrite !app_nil_r.
  - rewrite (stored_parent _ _ _ left rl Hleft) by now rewrite Ea.
    destruct (split_moves_up _ _ _ _ _ _ _ _ _ _ _ _ _ Hpath Hsr) as (p' & r' & -> & Hp' & Et).
    assert (Hnz : 100 <= lin (f_a f)).
    { pose proof (nodes_bounds _ _ _ _ _ _ Hm3 (pd_node _ _ _ _ _ _ _ _ _ _ _ Hp')). lia. }
    rewrite optr_eqb_lin. change (lin addrZero) with 0. destruct (Z.eqb_spec (lin (f_a f)) 0); [lia|].
    rewrite <- Et in Hs |- *. destruct e as [ke de]. cbn [fst snd] in *. rewrite plug_root_cons.
    wp_last (IH fuel (n + 103) meta _ h' (S ht) (f_a f) p' r' (f_es1 f) (f_es2 f) _ (Some right) _ ke de) as Hw;
      [lia|eassumption|eassumption|assumption|assumption|lia|].
    apply added_after_split. cbn [Nat.add]. rewrite plus_n_Sm. exact Hw.
Qed.
End add.
