(* ===== verification/BTreeIndex.v ===== *)
(** The B-tree index as a finite map: descent to a leaf, insertion and search from the
    root, opening a new file ([btree.cpp] on the trees of [BTreeModel]). *)
From stdpp Require Import sorting.
From S2P Require Import Prelude OverlayPtr CacheTable Allocator MemoryManager ItemSet NodeStore ONode NodeOps NodeSplit.
From S2P Require Import BTree BTreeModel BTreeAdd.
From Stdlib Require Import Lia Sorting.Sorted.

#[local] Open Scope Z_scope.

(** ** The order of keys *)

Lemma klt_trans a b c : klt a b -> klt b c -> klt a c.
Proof.
  unfold klt. revert b c; induction a as [|x a IH]; intros [|y b] [|z c]; cbn; try discriminate.
  destruct (Z.compare_spec (u8 x) (u8 y)), (Z.compare_spec (u8 y) (u8 z)); try discriminate; intros H1 H2;
    destruct (Z.compare_spec (u8 x) (u8 z)); try reflexivity; try lia. eauto.
Qed.

Lemma memcmp_gt a b : memcmp a b = Gt -> klt b a.
Proof.
  unfold klt. revert b; induction a as [|x a IH]; intros [|y b]; cbn; try discriminate.
  rewrite (Z.compare_antisym (u8 x) (u8 y)). destruct (u8 x ?= u8 y); cbn; try discriminate; auto.
Qed.

Lemma klt_total (a b : list byte) : length a = length b -> klt a b \/ a = b \/ klt b a.
Proof.
  intros H. destruct (memcmp a b) eqn:E; [right; left|now left|right; right].
  - now apply memcmp_eq.
  - now apply memcmp_gt.
Qed.

(** The prefixes of ascending keys ascend weakly. *)
Lemma klt_take n a b : klt a b -> memcmp (take n a) (take n b) <> Gt.
Proof.
  unfold klt. revert a b; induction n as [|n IH]; intros [|x a] [|y b]; cbn; try discriminate.
  destruct (u8 x ?= u8 y); try discriminate; auto.
Qed.

Lemma memcmp_lt_le a b c : length a = length b -> length b = length c ->
  memcmp a b = Lt -> memcmp b c <> Gt -> memcmp a c = Lt.
Proof.
  intros H1 H2 Hab Hbc. destruct (memcmp b c) eqn:E; [|exact (klt_trans _ _ _ Hab E)|congruence].
  apply memcmp_eq in E as <-; assumption.
Qed.

Lemma memcmp_le_lt a b c : length a = length b -> length b = length c ->
  memcmp a b <> Gt -> memcmp b c = Lt -> memcmp a c = Lt.
Proof.
  intros H1 H2 Hab Hbc. destruct (memcmp a b) eqn:E; [|exact (klt_trans _ _ _ E Hbc)|congruence].
  apply memcmp_eq in E as ->; assumption.
Qed.

(** ** Woven lists *)

Lemma Forall_weave {A} (P : A -> Prop) es ls : Forall P es -> Forall (Forall P) ls -> Forall P (weave es ls).
Proof.
  intros He Hl. revert es He; induction Hl as [|l ls Hl _ IH]; intros es He; [exact He|]. cbn.
  apply Forall_app. split; [assumption|]. destruct He as [|e es H He]; [constructor|]. constructor; auto.
Qed.

Lemma sorted_entries_app l1 l2 :
  sorted_entries (l1 ++ l2) <->
  (forall x y, x ∈ l1 -> y ∈ l2 -> klt x.1 y.1) /\ sorted_entries l1 /\ sorted_entries l2.
Proof.
  unfold sorted_entries. rewrite map_app, StronglySorted_app. split; intros (H & H1 & H2); repeat split; try assumption.
  - intros x y Hx Hy. apply H; now apply list_elem_of_fmap_2.
  - intros ? ? (x & -> & Hx)%list_elem_of_fmap (y & -> & Hy)%list_elem_of_fmap. auto.
Qed.

Lemma sorted_entries_cons e l : sorted_entries (e :: l) <-> (forall y, y ∈ l -> klt e.1 y.1) /\ sorted_entries l.
Proof.
  change (e :: l) with ([e] ++ l). rewrite sorted_entries_app. split.
  - intros (H & _ & H2). split; [|assumption]. intros y Hy. apply H; set_solver.
  - intros (H & H2). split; [|split; [repeat constructor|assumption]]. intros x y ->%list_elem_of_singleton. auto.
Qed.

(** What stands left of a position is below every bound of the entries left of it. *)
Lemma weave_l_below (P R : entry -> Prop) es ls :
  (forall x e : entry, P x -> P e -> klt x.1 e.1 -> R e -> R x) -> length es = length ls ->
  Forall P (weave_l es ls) -> sorted_entries (weave_l es ls) -> Forall R es -> Forall R (weave_l es ls).
Proof.
  intros HR. revert ls; induction es as [|e es IH]; intros [|l ls] Hl HP Hs He; try discriminate; [constructor|].
  apply Forall_cons in He as [He Hes]. unfold weave_l in *. cbn in *. rewrite <- app_assoc in *. cbn in *.
  apply Forall_app in HP as [HP [HPe HPs]%Forall_cons]. rewrite Forall_forall in HP.
  apply sorted_entries_app in Hs as (Hle & _ & (_ & Hs)%sorted_entries_cons).
  apply Forall_app. split; [|constructor; auto].
  apply Forall_forall. intros x Hx. apply (HR x e); [now apply HP|assumption|apply Hle; set_solver|assumption].
Qed.

(** And what stands right of it above every bound of the entries right of it. *)
Lemma weave_r_above (P R : entry -> Prop) es ls :
  (forall x e : entry, P x -> P e -> klt e.1 x.1 -> R e -> R x) -> length es = length ls ->
  Forall P (weave_r es ls) -> sorted_entries (weave_r es ls) -> Forall R es -> Forall R (weave_r es ls).
Proof.
  intros HR. revert ls; induction es as [|e es IH]; intros [|l ls] Hl HP Hs He; try discriminate; [constructor|].
  apply Forall_cons in He as [He Hes]. unfold weave_r in *. cbn in *.
  apply Forall_cons in HP as [HPe [HP HPs]%Forall_app]. rewrite Forall_forall in HP.
  apply sorted_entries_cons in Hs as (Hle & (_ & _ & Hs)%sorted_entries_app).
  constructor; [assumption|]. apply Forall_app. split; [|auto].
  apply Forall_forall. intros x Hx. apply (HR x e); [now apply HP|assumption|apply Hle; set_solver|assumption].
Qed.

(** A node's entries around a key that is not among them. *)
Lemma entries_around k es :
  sorted_entries es -> Forall (fun e : entry => length e.1 = 20%nat) es -> length k = 20%nat -> k ∉ map fst es ->
  exists es1 es2, es = es1 ++ es2 /\ Forall (fun e : entry => klt e.1 k) es1 /\ Forall (fun e : entry => klt k e.1) es2.
Proof.
  intros Hs Hl Hk Hn. induction es as [|e es IH]; [exists [], []; repeat constructor|].
  apply sorted_entries_cons in Hs as [He Hs]. apply Forall_cons in Hl as [Hle Hl]. cbn in Hn.
  rewrite elem_of_cons in Hn. destruct (klt_total e.1 k) as [H|[H|H]]; [congruence|..].
  - destruct IH as (es1 & es2 & -> & H1 & H2); [assumption..|tauto|]. exists (e :: es1), es2. repeat split; auto.
  - symmetry in H. tauto.
  - exists [], (e :: es). split; [reflexivity|]. split; [constructor|]. constructor; [assumption|].
    apply Forall_forall. intros y Hy. exact (klt_trans _ _ _ H (He y Hy)).
Qed.

(** ** Descent to a leaf *)

Section descend.
Context {M : Type} `{mgr : OverlayManager M}.

Lemma stored_keys n m meta h ht p t :
  nodes n m meta h -> stored h ht p t -> Forall (fun e : entry => length e.1 = 20%nat) (elements t).
Proof.
  intros Hm. revert p t; induction ht as [|ht IH]; intros p [a es cs] [(r & Hr & Hrep) Hcs]; cbn [elements];
    (assert (He : Forall (fun e : entry => length e.1 = 20%nat) es)
      by (pose proof (rep_keys_length _ _ _ _ Hrep) as H; now rewrite Forall_map in H)).
  - now subst cs.
  - destruct Hcs as (_ & _ & Hcs). apply Forall_weave; [assumption|]. apply Forall_map.
    eapply Forall_impl; [exact Hcs|]. intros c Hc. now apply IH in Hc.
Qed.

(** Reading key [j] of a node, of which only the first [len] bytes may be wanted. *)
Lemma read_entry {A} n meta h s r p es cs (j : nat) e len (K : list byte -> prog M A) m Q :
  nodes n m meta h -> h !! lin s = Some r -> rep r p es cs -> es !! j = Some e -> (len <= 20)%nat ->
  (forall m', nodes n m' meta h -> wp (K (take len e.1)) m' Q) ->
  wp (keyOptr ← (key s (Z.of_nat j) ≫= must); rawKey ← omemcpy_out keyOptr len; K rawKey) m Q.
Proof.
  intros Hm Hr Hrep He Hlen HK. pose proof (rep_length _ _ _ _ Hrep) as [Hl3 _].
  pose proof (lookup_lt_Some _ _ _ He). destruct (rep_key _ _ _ _ _ _ Hrep He) as [Hke _].
  apply wp_bind, wp_bind. wp_last (key_spec n meta s (Z.of_nat j) m h r) as [(q & -> & Eq') Hm1];
    [assumption..|rewrite (rep_kc _ _ _ _ Hrep); lia|].
  apply wp_must_some. wp_seq (read_key_spec n meta s q (Z.of_nat j) len e.1) as (-> & Hm2);
    [eassumption|eassumption|lia|now rewrite Nat2Z.id|assumption|exact Eq'|]. auto.
Qed.

(** Reading one index beyond the keys gives some bytes of the node. *)
Lemma read_beyond {A} n meta h s r p es cs (K : list byte -> prog M A) m Q :
  nodes n m meta h -> h !! lin s = Some r -> rep r p es cs ->
  (forall bs m', nodes n m' meta h -> wp (K bs) m' Q) ->
  wp (keyOptr ← (key s (Z.of_nat (length es)) ≫= must); rawKey ← omemcpy_out keyOptr 20; K rawKey) m Q.
Proof.
  intros Hm Hr Hrep HK. pose proof (rep_length _ _ _ _ Hrep) as [Hl3 _].
  apply wp_bind, wp_bind. wp_last (key_spec n meta s (Z.of_nat (length es)) m h r) as [(q & -> & Eq') Hm1];
    [assumption..|rewrite (rep_kc _ _ _ _ Hrep); lia|].
  apply wp_must_some. wp_seq (read_node_any n _ meta h s r q) giving bs as (_ & Hm2); [eassumption|eassumption|exact Eq'|lia|lia|].
  auto.
Qed.

Lemma child_spec n meta h s r p es cs j c m :
  nodes n m meta h -> h !! lin s = Some r -> rep r p es cs -> cs !! j = Some c ->
  wp (child s (Z.of_nat j)) m (fun o m' => o = Some c /\ nodes n m' meta h).
Proof.
  intros Hm Hr Hrep Hc. pose proof (rep_length _ _ _ _ Hrep) as [_ Hl4]. pose proof (lookup_lt_Some _ _ _ Hc).
  unfold child, ushort. rewrite Z.mod_small by lia.
  apply (childOptr_spec n meta s _ c m h r); [assumption..|rewrite (rep_cc _ _ _ _ Hrep); lia|lia|].
  rewrite Nat2Z.id. exact (rep_child _ _ _ _ _ _ Hrep Hc).
Qed.

(** The loop of [add] stops at the child between the smaller and the larger keys. *)
Lemma scan_add_spec n meta h s r p es1 es2 cs c k :
  h !! lin s = Some r -> rep r p (es1 ++ es2) cs -> length cs = S (length (es1 ++ es2)) ->
  cs !! length es1 = Some c -> length k = 20%nat ->
  Forall (fun e : entry => klt e.1 k) es1 -> Forall (fun e : entry => klt k e.1) es2 ->
  forall j m, (j <= length es1)%nat -> nodes n m meta h ->
  wp (scan_add s (Some k) (S (length (es1 ++ es2)) - j) (Z.of_nat j)) m (fun o m' => nodes n m' meta h /\
    (o = Some (Some c) \/ (o = None /\ es2 = []))).
Proof.
  intros Hr Hrep Hlen Hc Hk H1 H2 j m Hj. rewrite length_app in *.
  remember (length es1 - j)%nat as q eqn:Eq. revert j m Eq Hj. induction q as [|q IH]; intros j m Eq Hj Hm.
  - assert (j = length es1) as -> by lia.
    replace (S (length es1 + length es2) - length es1)%nat with (S (length es2)) by lia. cbn [scan_add].
    destruct H2 as [|e es2 He H2].
    + rewrite app_nil_r in Hrep. cbn [length]. eapply read_beyond; [eassumption..|]. intros bs m1 Hm1.
      rewrite rd_key by assumption. apply wp_bind, wp_must_some.
      destruct (memcmp k bs); [cbn [scan_add]; apply wp_ret; auto| |cbn [scan_add]; apply wp_ret; auto].
      wp_seq child_spec as (-> & Hm3); [eassumption..|]. apply wp_ret. auto.
    + assert (Hi : (es1 ++ e :: es2) !! length es1 = Some e) by (now rewrite lookup_app_r, Nat.sub_diag by lia).
      eapply read_entry; [eassumption..|lia|]. intros m1 Hm1. rewrite take_ge by (destruct (rep_key _ _ _ _ _ _ Hrep Hi); lia).
      rewrite rd_key by assumption. apply wp_bind, wp_must_some. unfold klt in He. rewrite He.
      wp_seq child_spec as (-> & Hm3); [eassumption..|]. apply wp_ret. auto.
  - destruct (lookup_lt_is_Some_2 es1 j) as [e He]; [lia|].
    replace (S (length es1 + length es2) - j)%nat with (S (S (length es1 + length es2) - S j)) by lia. cbn [scan_add].
    assert (Hi : (es1 ++ es2) !! j = Some e) by now apply lookup_app_l_Some.
    eapply read_entry; [eassumption..|lia|]. intros m1 Hm1. rewrite take_ge by (destruct (rep_key _ _ _ _ _ _ Hrep Hi); lia).
    rewrite rd_key by assumption. apply wp_bind, wp_must_some.
    rewrite (memcmp_flip e.1 k) by (exact (Forall_lookup_1 _ _ _ _ H1 He)).
    replace (Z.of_nat j + 1) with (Z.of_nat (S j)) by lia. apply IH; [lia|lia|assumption].
Qed.

(** *** The way down *)

(** The subtree [t], of height [ht], hangs at the end of the path [fs] of a tree in the file. *)
Definition located (h : gmap Z rnode) (ht : nat) (fs : list frame) (p : optr) (t : tree) : Prop :=
  stored_path h ht (root t) p fs /\ stored h ht p t /\ NoDup (addrs t ++ path_addrs fs).

(** The key [k] belongs into the subtree [t] and is not there yet. *)
Definition around (k : list byte) (fs : list frame) (t : tree) : Prop :=
  sorted_entries (left_of fs ++ elements t ++ right_of fs) /\
  Forall (fun e : entry => klt e.1 k) (left_of fs) /\ Forall (fun e : entry => klt k e.1) (right_of fs) /\
  k ∉ map fst (elements t).

(** One step down. *)
Lemma located_child h ht fs p a es1 es2 cs1 c cs2 :
  located h (S ht) fs p (Node a (es1 ++ es2) (cs1 ++ c :: cs2)) ->
  length es1 = length cs1 -> length es2 = length cs2 ->
  located h ht (Frame a es1 cs1 es2 cs2 :: fs) a c.
Proof.
  intros (Hp & [(r & Hr & Hrep) (Hne & Hlen & Hcs)]%stored_node & Hnd) H1 H2. cbn [root] in Hp.
  rewrite map_app in Hrep. cbn [map] in Hrep. apply Forall_app in Hcs as [Hc1 [Hc Hc2]%Forall_cons].
  split; [|split; [assumption|]].
  - cbn [stored_path]. split; [reflexivity|]. split; [now split|]. split; [assumption|].
    split; [exists r, p; now repeat split|]. apply Forall_app. now split.
  - change (path_addrs (?f :: fs)) with (frame_addrs f ++ path_addrs fs).
    assert (P : addrs c ++ frame_addrs (Frame a es1 cs1 es2 cs2) ++ path_addrs fs ≡ₚ
                addrs (Node a (es1 ++ es2) (cs1 ++ c :: cs2)) ++ path_addrs fs).
    { rewrite app_assoc. apply Permutation_app_tail. symmetry. apply (addrs_plug_frame (Frame a es1 cs1 es2 cs2) c). }
    change (path_addrs (Frame a es1 cs1 es2 cs2 :: fs)) with (frame_addrs (Frame a es1 cs1 es2 cs2) ++ path_addrs fs).
    now rewrite P.
Qed.

Lemma around_child k fs a es1 es2 cs1 c cs2 :
  around k fs (Node a (es1 ++ es2) (cs1 ++ c :: cs2)) ->
  length es1 = length cs1 -> length es2 = length cs2 ->
  Forall (fun e : entry => klt e.1 k) es1 -> Forall (fun e : entry => klt k e.1) es2 ->
  around k (Frame a es1 cs1 es2 cs2 :: fs) c.
Proof.
  intros (Hs & Hl & Hr & Hk) H1 H2 He1 He2. cbn [elements] in Hs, Hk. rewrite map_app in Hs, Hk. cbn [map] in Hs, Hk.
  rewrite weave_split in Hs, Hk by (now rewrite length_map). rewrite <- !app_assoc in Hs.
  split; [cbn; now rewrite <- !app_assoc|]. apply sorted_entries_app in Hs as (_ & _ & Hs).
  apply sorted_entries_app in Hs as (_ & Hsl & Hs). apply sorted_entries_app in Hs as (_ & _ & Hs).
  apply sorted_entries_app in Hs as (_ & Hsr & _). cbn [left_of right_of f_es1 f_cs1 f_es2 f_cs2]. split; [|split].
  - apply Forall_app. split; [assumption|].
    apply (weave_l_below (fun _ => True)); [intros x e _ _; apply klt_trans|now rewrite length_map|now apply Forall_true|assumption..].
  - apply Forall_app. split; [|assumption].
    apply (weave_r_above (fun _ => True)); [intros x e _ _ Hxe Hke; exact (klt_trans _ _ _ Hke Hxe)|now rewrite length_map|now apply Forall_true|assumption..].
  - rewrite !map_app in Hk. set_solver.
Qed.

Lemma node_entries_around k fs a es cs :
  around k fs (Node a es cs) -> Forall (fun e : entry => length e.1 = 20%nat) es -> length cs = S (length es) ->
  length k = 20%nat ->
  exists es1 es2 cs1 c cs2, es = es1 ++ es2 /\ cs = cs1 ++ c :: cs2 /\
    length es1 = length cs1 /\ length es2 = length cs2 /\
    Forall (fun e : entry => klt e.1 k) es1 /\ Forall (fun e : entry => klt k e.1) es2.
Proof.
  intros (Hs & _ & _ & Hk) H20 Hlen Hlk. cbn [elements] in *.
  destruct (sublist_weave es (map elements cs)) as [Hsub|Hsub]; [|rewrite length_map in Hsub; lia].
  apply sorted_entries_app in Hs as (_ & _ & Hs). apply sorted_entries_app in Hs as (_ & Hs & _).
  destruct (entries_around k es) as (es1 & es2 & -> & H1 & H2); [|assumption|assumption| |].
  - eapply StronglySorted_sublist; [apply fmap_sublist; exact Hsub|exact Hs].
  - intros (e & -> & He)%list_elem_of_fmap. apply Hk, list_elem_of_fmap_2. now apply (elem_of_sublist (es)).
  - destruct (lookup_lt_is_Some_2 cs (length es1)) as [c Hc]; [rewrite Hlen, length_app; lia|].
    exists es1, es2, (take (length es1) cs), c, (drop (S (length es1)) cs).
    split; [reflexivity|]. split; [now rewrite take_drop_middle|]. rewrite length_take, length_drop, Hlen, length_app.
    split; [lia|]. split; [lia|]. now split.
Qed.

Lemma leaf_pending n m meta h fs p a es k :
  nodes n m meta h -> located h 0 fs p (Node a es []) -> around k fs (Node a es []) -> length k = 20%nat ->
  exists r es1 es2, es = es1 ++ es2 /\ pending h 0 fs a p r es1 es2 [] None [] /\
    forall d, sorted_entries (target fs a (es1 ++ (k, d) :: es2) []).
Proof.
  intros Hm (Hp & Hst & Hnd) (Hs & Hl & Hr & Hk) Hlk. pose proof (stored_keys _ _ _ _ _ _ _ Hm Hst) as H20.
  apply stored_node in Hst as [(r & Hra & Hrep) _]. cbn [elements weave map] in *.
  pose proof Hs as (Hsl & _ & (Hsr & Hes & _)%sorted_entries_app)%sorted_entries_app.
  destruct (entries_around k es Hes H20 Hlk Hk) as (es1 & es2 & -> & H1 & H2).
  exists r, es1, es2. split; [reflexivity|]. split; [now split|]. intros d. unfold target. cbn [elements weave map].
  rewrite Forall_forall in *. rewrite <- app_assoc in Hs |- *. cbn [app].
  apply sorted_entries_app in Hs as (Ha & Hs1 & Hs2). apply sorted_entries_app in Hs2 as (Hb & Hs2 & Hs3).
  apply sorted_entries_app. split; [|split; [assumption|]].
  - intros x y Hx Hy. apply elem_of_app in Hy as [Hy|[-> |Hy]%elem_of_cons]; [apply Ha; set_solver|now apply Hl|apply Ha; set_solver].
  - apply sorted_entries_app. split; [|split; [assumption|]].
    + intros x y Hx [-> |Hy]%elem_of_cons; [now apply H1|now apply Hb].
    + apply sorted_entries_cons. split; [|assumption]. intros y [Hy|Hy]%elem_of_app; [now apply H2|now apply Hr].
Qed.

(** The rest of a sequence may be split off. *)
Lemma wp_next {S A B C D} (c : prog S A) (f : A -> prog S B) (g : B -> prog S C) (k : C -> prog S D) s Q :
  wp (r ← c; x ← f r; g x) s (fun y s' => wp (k y) s' Q) -> wp (r ← c; x ← f r; y ← g x; k y) s Q.
Proof.
  unfold wp, mbind, prog_bind. destruct (c s) as [r s1| |]; try tauto. destruct (f r s1) as [x s2| |]; try tauto.
  destruct (g x s2); tauto.
Qed.

(** The child [add] goes on with. *)
Lemma next_child_spec n meta h s r p es1 es2 cs1 c cs2 k m :
  nodes n m meta h -> h !! lin s = Some r -> rep r p (es1 ++ es2) (map root (cs1 ++ c :: cs2)) ->
  length es1 = length cs1 -> length es2 = length cs2 -> length k = 20%nat ->
  Forall (fun e : entry => klt e.1 k) es1 -> Forall (fun e : entry => klt k e.1) es2 ->
  let cc := Z.of_nat (length (cs1 ++ c :: cs2)) in
  wp (r ← scan_add s (Some k) (Z.to_nat cc) 0;
      next ← (match r with Some c => mret c | None => child s (cc - 1) end);
      must next) m (fun o m' => o = root c /\ nodes n m' meta h).
Proof.
  intros Hm Hr Hrep H1 H2 Hk He1 He2 cc. rewrite map_app in Hrep. cbn [map] in Hrep.
  assert (Hc : (map root cs1 ++ root c :: map root cs2) !! length es1 = Some (root c)).
  { rewrite lookup_app_r, length_map, H1, Nat.sub_diag by (rewrite length_map; lia). reflexivity. }
  assert (Ecc : cc = Z.of_nat (S (length (es1 ++ es2)))) by (unfold cc; rewrite !length_app; cbn; lia).
  rewrite Ecc, Nat2Z.id. apply wp_bind. eapply wp_mono.
  { apply (scan_add_spec n meta h s r p es1 es2 _ (root c) k Hr Hrep) with (j := 0%nat); try assumption; [|lia].
    rewrite !length_app; cbn; rewrite !length_map. lia. }
  intros o m2 (Hm2 & Ho). cbv beta. apply wp_bind.
  assert (Hnext : wp (match o with Some c => mret c | None => child s (Z.of_nat (S (length (es1 ++ es2))) - 1) end) m2
    (fun o m' => o = Some (root c) /\ nodes n m' meta h)).
  { destruct Ho as [-> | [-> ->]]; [now apply wp_ret|]. rewrite app_nil_r in *.
    replace (Z.of_nat (S (length es1)) - 1) with (Z.of_nat (length es1)) by lia. eapply child_spec; eassumption. }
  eapply wp_mono; [exact Hnext|]. intros o' m3 (-> & Hm3). now apply wp_must_some.
Qed.

Lemma descend_add_spec n meta h k ht : forall fuel m fs p t,
  (ht < fuel)%nat -> nodes n m meta h -> located h ht fs p t -> around k fs t -> length k = 20%nat ->
  wp (descend_add fuel (root t) (Some k)) m (fun a m' => nodes n m' meta h /\
    exists fs' p' r es1 es2, pending h 0 fs' a p' r es1 es2 [] None [] /\
      length fs' = (length fs + ht)%nat /\ plug_root fs' a = plug_root fs (root t) /\
      left_of fs' ++ (es1 ++ es2) ++ right_of fs' = left_of fs ++ elements t ++ right_of fs /\
      forall d, sorted_entries (target fs' a (es1 ++ (k, d) :: es2) [])).
Proof.
  induction ht as [|ht IH]; intros fuel m fs p [a es cs] Hf Hm Hloc Har Hk; (destruct fuel as [|fuel]; [lia|]);
    cbn [descend_add root]; pose proof Hloc as (Hpath & [(r & Hr & Hrep) Hst]%stored_node & Hnd);
    (wp_seq (childOptrCount_spec n meta a) as (-> & Hm1); [eassumption..|]); rewrite (rep_cc _ _ _ _ Hrep), length_map.
  - subst cs. apply wp_ret. split; [assumption|].
    destruct (leaf_pending _ _ _ _ _ _ _ _ _ Hm Hloc Har Hk) as (r' & es1 & es2 & -> & Hp & Hs).
    exists fs, p, r', es1, es2. split; [assumption|]. split; [lia|]. split; [reflexivity|]. split; [reflexivity|assumption].
  - destruct Hst as (Hne & Hlen & Hcs). rewrite (proj2 (Z.leb_le _ _)) by lia.
    pose proof (rep_keys_length _ _ _ _ Hrep) as H20. rewrite Forall_map in H20.
    destruct (node_entries_around k fs a es cs Har H20 Hlen Hk) as (es1 & es2 & cs1 & c & cs2 & -> & -> & H1 & H2 & He1 & He2).
    apply wp_next. eapply wp_mono; [now apply (next_child_spec n meta h a r p es1 es2 cs1 c cs2 k)|].
    intros o m2 (-> & Hm2). cbv beta.
    wp_last (IH fuel _ (Frame a es1 cs1 es2 cs2 :: fs) a c) as (Hm4 & fs' & p' & r' & es1' & es2' & Hp & Hl & Hrt & Hel & Hs);
      [lia|assumption|now apply (located_child h ht fs p)|now apply around_child|assumption|].
    split; [assumption|]. exists fs', p', r', es1', es2'. split; [assumption|]. split; [cbn in Hl; lia|].
    split; [now rewrite Hrt, plug_root_cons|]. split; [|assumption]. rewrite Hel. cbn [left_of right_of elements f_es1 f_cs1 f_es2 f_cs2].
    rewrite map_app. cbn [map]. rewrite weave_split by (now rewrite length_map). now rewrite <- !app_assoc.
Qed.
End descend.

(** ** Search *)

(** Where a search for the [len] bytes [t] goes among the keys of a node. *)
Definition above (len : nat) (t : list byte) (e : entry) : Prop := memcmp t (take len e.1) = Gt.
Definition below (len : nat) (t : list byte) (e : entry) : Prop := memcmp t (take len e.1) = Lt.

Lemma above_left len t x e :
  (length t = len)%nat -> (len <= 20)%nat -> length x.1 = 20%nat -> length e.1 = 20%nat ->
  klt x.1 e.1 -> above len t e -> above len t x.
Proof.
  unfold above. intros Ht Hl Hx He Hlt H. apply memcmp_gt in H. apply memcmp_flip.
  refine (memcmp_le_lt _ (take len e.1) _ _ _ (klt_take len _ _ Hlt) H); rewrite !length_take; lia.
Qed.

Lemma below_right len t x e :
  (length t = len)%nat -> (len <= 20)%nat -> length x.1 = 20%nat -> length e.1 = 20%nat ->
  klt e.1 x.1 -> below len t e -> below len t x.
Proof.
  unfold below. intros Ht Hl Hx He Hlt H.
  refine (memcmp_lt_le _ (take len e.1) _ _ _ H (klt_take len _ _ Hlt)); rewrite !length_take; lia.
Qed.

Lemma above_ne len t e : above len t e -> take len e.1 <> t.
Proof. unfold above. intros H E. rewrite E, memcmp_refl in H. discriminate. Qed.

Lemma below_ne len t e : below len t e -> take len e.1 <> t.
Proof. unfold below. intros H E. rewrite E, memcmp_refl in H. discriminate. Qed.

(** The outcome of the comparisons at a node. *)
Definition compared (len : nat) (t : list byte) (es : list entry) (step : step_down) : Prop :=
  match step with
  | Found i => exists e, es !! Z.to_nat i = Some e /\ 0 <= i /\ take len e.1 = t
  | Descend i => exists es1 e es2, es = es1 ++ e :: es2 /\ i = Z.of_nat (length es1) /\
      Forall (above len t) es1 /\ below len t e
  | PastKeys => Forall (above len t) es
  end.

Section search.
Context {M : Type} `{mgr : OverlayManager M}.

Lemma compare_keys_spec n meta h s r p es cs t len :
  h !! lin s = Some r -> rep r p es cs -> length t = len -> (len <= 20)%nat ->
  forall es1 es2 m, es = es1 ++ es2 -> Forall (above len t) es1 -> nodes n m meta h ->
  wp (compare_keys s t len (length es2) (Z.of_nat (length es1))) m (fun step m' =>
    compared len t es step /\ nodes n m' meta h).
Proof.
  intros Hr Hrep Ht Hlen es1 es2. revert es1. induction es2 as [|e es2 IH]; intros es1 m -> Ha Hm; cbn [length compare_keys].
  - apply wp_ret. rewrite app_nil_r. now split.
  - assert (Hi : (es1 ++ e :: es2) !! length es1 = Some e) by (now rewrite lookup_app_r, Nat.sub_diag by lia).
    eapply read_entry; [eassumption..|]. intros m1 Hm1. destruct (memcmp t (take len e.1)) eqn:E.
    + apply wp_ret. split; [|assumption]. exists e. rewrite Nat2Z.id. split; [assumption|]. split; [lia|].
      apply memcmp_eq in E; [easy|]. destruct (rep_key _ _ _ _ _ _ Hrep Hi). rewrite length_take. lia.
    + apply wp_ret. split; [|assumption]. now exists es1, e, es2.
    + replace (Z.of_nat (length es1) + 1) with (Z.of_nat (length (es1 ++ [e]))) by (rewrite length_app; cbn; lia).
      apply IH; [now rewrite <- app_assoc| |assumption]. apply Forall_app. split; [assumption|]. now constructor.
Qed.

(** The child a search goes on with, if the node has children. *)
Lemma candidateChild_spec n meta h s r p es cs len t step m :
  nodes n m meta h -> h !! lin s = Some r -> rep r p es (map root cs) -> cs = [] \/ length cs = S (length es) ->
  compared len t es step -> (forall i, step <> Found i) ->
  wp (candidateChild s step) m (fun o m' => nodes n m' meta h /\ exists es1 es2, es = es1 ++ es2 /\
    Forall (above len t) es1 /\ (es2 = [] \/ exists e es2', es2 = e :: es2' /\ below len t e) /\
    o = root <$> cs !! length es1).
Proof.
  intros Hm Hr Hrep Hcs Hst Hnf. pose proof (rep_length _ _ _ _ Hrep) as [Hl3 Hl4]. rewrite length_map in Hl4.
  assert (Hchild : forall i m, (i <= length es)%nat -> nodes n m meta h ->
    wp (child s (Z.of_nat i)) m (fun o m' => nodes n m' meta h /\ o = root <$> cs !! i)).
  { intros i m' Hi Hm'. destruct Hcs as [-> |Hcs].
    - unfold child, ushort. rewrite Z.mod_small by lia.
      wp_last (childOptr_none n meta s _ _ h r) as (-> & H); [assumption..|rewrite (rep_cc _ _ _ _ Hrep); cbn; lia|]. now split.
    - destruct (lookup_lt_is_Some_2 cs i) as [c Hc]; [lia|].
      wp_last (child_spec n meta h s r p es (map root cs) i (root c)) as (-> & H); [assumption..|now rewrite list_lookup_fmap, Hc|].
      rewrite Hc. now split. }
  destruct step as [i|i|]; [now destruct (Hnf i)|..]; cbn [candidateChild compared] in *.
  - destruct Hst as (es1 & e & es2 & -> & -> & Ha & Hb).
    wp_last Hchild as (H & ->); [rewrite length_app; lia|assumption|]. split; [assumption|].
    exists es1, (e :: es2). eauto 10.
  - wp_seq (childOptrCount_spec n meta s) as (-> & Hm1); [eassumption..|]. rewrite (rep_cc _ _ _ _ Hrep), length_map.
    assert (Hlast : forall m, nodes n m meta h ->
      wp (child s (Z.of_nat (length cs) - 1)) m (fun o m' => nodes n m' meta h /\ o = root <$> cs !! length es)).
    { intros m' Hm'. destruct Hcs as [-> |Hcs].
      - unfold child. change (ushort (Z.of_nat (length []) - 1)) with 65535.
        wp_last (childOptr_none n meta s 65535 _ h r) as (-> & H); [assumption..|rewrite (rep_cc _ _ _ _ Hrep); cbn; lia|]. now split.
      - replace (Z.of_nat (length cs) - 1) with (Z.of_nat (length es)) by lia. now apply Hchild. }
    wp_last Hlast as (H & ->); [assumption|]. split; [assumption|]. exists es, []. rewrite app_nil_r. auto 10.
Qed.

(** What a search for the [len] bytes [t] among the entries [E] may answer. *)
Definition finds (len : nat) (t : list byte) (E : list entry) (o : option optr) : Prop :=
  match o with
  | Some d => exists k, (k, d) ∈ E /\ take len k = t
  | None => Forall (fun e : entry => take len e.1 <> t) E
  end.

Lemma split_ne len t es1 es2 (Ha : Forall (above len t) es1)
  (Hb : es2 = [] \/ exists e es2', es2 = e :: es2' /\ below len t e) :
  length t = len -> (len <= 20)%nat -> Forall (fun e : entry => length e.1 = 20%nat) es2 -> sorted_entries es2 ->
  Forall (below len t) es2.
Proof.
  intros Ht Hl H20 Hs. destruct Hb as [-> | (e & es2' & -> & He)]; [constructor|].
  apply sorted_entries_cons in Hs as [Hle _]. apply Forall_cons in H20 as [H1 H2]. constructor; [assumption|].
  rewrite Forall_forall in *. intros x Hx. apply (below_right len t x e); auto.
Qed.

(** A search that leaves a node's keys has seen that none of them matches; it loses nothing
    by looking into one child only. *)
Lemma finds_leaf len t a es1 es2 : Forall (above len t) es1 -> Forall (below len t) es2 ->
  finds len t (elements (Node a (es1 ++ es2) [])) None.
Proof.
  intros Ha Hb. cbn. apply Forall_app. split; eapply Forall_impl; try eassumption; intros x Hx;
    [now apply above_ne|now apply below_ne].
Qed.

Lemma finds_child len t a es1 es2 cs c o :
  length t = len -> (len <= 20)%nat -> Forall (above len t) es1 -> Forall (below len t) es2 ->
  length cs = S (length (es1 ++ es2)) -> cs !! length es1 = Some c ->
  sorted_entries (elements (Node a (es1 ++ es2) cs)) ->
  Forall (fun e : entry => length e.1 = 20%nat) (elements (Node a (es1 ++ es2) cs)) ->
  finds len t (elements c) o -> finds len t (elements (Node a (es1 ++ es2) cs)) o.
Proof.
  intros Ht Hl Ha Hb Hlen Hc Hs H20 Hf. rewrite length_app in Hlen. pose proof (lookup_lt_Some _ _ _ Hc) as Hlt.
  rewrite <- (take_drop_middle _ _ _ Hc) in Hs, H20 |- *. cbn [elements] in *. rewrite map_app in *. cbn [map] in *.
  rewrite weave_split in * by (rewrite length_map, ?length_take, ?length_drop; lia).
  destruct o as [d|]; [destruct Hf as (k & Hk & Et); exists k; split; [set_solver|assumption]|].
  apply Forall_app in H20 as [H1 [_ H2]%Forall_app]. apply sorted_entries_app in Hs as (_ & Hs1 & Hs2).
  apply sorted_entries_app in Hs2 as (_ & _ & Hs2). cbn [finds] in *.
  apply Forall_app. split; [|apply Forall_app; split; [assumption|]].
  - eapply Forall_impl; [|apply above_ne].
    apply (weave_l_below (fun e => length e.1 = 20%nat)); [|rewrite length_map, length_take; lia|assumption..].
    intros x e Hx He Hlt'. now apply above_left.
  - eapply Forall_impl; [|apply below_ne].
    apply (weave_r_above (fun e => length e.1 = 20%nat)); [|rewrite length_map, length_drop; lia|assumption..].
    intros x e Hx He Hlt'. now apply below_right.
Qed.

Lemma stored_children h ht p a es cs r :
  stored h ht p (Node a es cs) -> h !! lin a = Some r ->
  rep r p es (map root cs) /\ (cs = [] \/ length cs = S (length es)) /\
  forall i c, cs !! i = Some c -> exists ht', ht = S ht' /\ stored h ht' a c.
Proof.
  intros [(r' & Hr' & Hrep) Hst]%stored_node Hr. rewrite Hr in Hr'. injection Hr' as <-. split; [assumption|].
  destruct ht as [|ht]; [subst cs; split; [now left|now intros]|]. destruct Hst as (_ & Hlen & Hcs).
  split; [now right|]. intros i c Hc. exists ht. split; [reflexivity|]. exact (Forall_lookup_1 _ _ _ _ Hcs Hc).
Qed.

Lemma node_sublist a es cs : cs = [] \/ length cs = S (length es) -> es `sublist_of` elements (Node a es cs).
Proof.
  intros Hcs. cbn [elements]. destruct (sublist_weave es (map elements cs)) as [H|H]; [assumption|].
  destruct Hcs as [-> |Hcs]; [reflexivity|]. rewrite length_map in H. lia.
Qed.

(** Between the keys of a node, a search goes on with at most one child. *)
Lemma search_child {A} n meta h ht p a es cs r len t step (K : option optr -> prog M A) (Q : A -> M -> Prop) m :
  nodes n m meta h -> stored h ht p (Node a es cs) -> h !! lin a = Some r -> sorted_entries (elements (Node a es cs)) ->
  length t = len -> (len <= 20)%nat -> compared len t es step -> (forall i, step <> Found i) ->
  (forall m', nodes n m' meta h -> finds len t (elements (Node a es cs)) None -> wp (K None) m' Q) ->
  (forall m' c ht', nodes n m' meta h -> ht = S ht' -> stored h ht' a c -> sorted_entries (elements c) ->
     (forall o, finds len t (elements c) o -> finds len t (elements (Node a es cs)) o) -> wp (K (Some (root c))) m' Q) ->
  wp (c ← candidateChild a step; K c) m Q.
Proof.
  intros Hm Hst Hr Hs Ht Hl Hc Hnf HN HS. destruct (stored_children _ _ _ _ _ _ _ Hst Hr) as (Hrep & Hcs & Hch).
  pose proof (stored_keys _ _ _ _ _ _ _ Hm Hst) as H20.
  wp_seq (candidateChild_spec n meta h a r p es cs len t) giving o as (Hm3 & es1 & es2 & -> & Ha & Hb & ->); [eassumption..|].
  pose proof (node_sublist a _ _ Hcs) as Hsub.
  assert (Hb' : Forall (below len t) es2).
  { assert (Hsub2 : es2 `sublist_of` es1 ++ es2) by (apply sublist_inserts_l; reflexivity).
    apply (split_ne len t es1 es2 Ha Hb Ht Hl).
    - rewrite Forall_forall in *. intros x Hx. apply H20. eapply elem_of_sublist; [|exact Hsub]. now apply (elem_of_sublist es2).
    - unfold sorted_entries in *. eapply StronglySorted_sublist; [|exact Hs]. apply fmap_sublist. etransitivity; eassumption. }
  destruct (cs !! length es1) as [c|] eqn:Ec.
  - destruct (Hch _ _ Ec) as (ht' & -> & Hstc). destruct Hcs as [-> |Hcs]; [discriminate|].
    apply (HS _ c ht'); try assumption; [reflexivity| |intros o; now apply finds_child].
    pose proof (lookup_lt_Some _ _ _ Ec) as Hlt. rewrite length_app in Hcs.
    rewrite <- (take_drop_middle _ _ _ Ec) in Hs. cbn [elements] in Hs. rewrite map_app in Hs. cbn [map] in Hs.
    rewrite weave_split in Hs by (rewrite length_map, ?length_take, ?length_drop; lia).
    apply sorted_entries_app in Hs as (_ & _ & Hs). now apply sorted_entries_app in Hs.
  - apply HN; [assumption|]. destruct Hcs as [-> |Hcs]; [now apply finds_leaf|].
    apply lookup_ge_None_1 in Ec. rewrite Hcs, length_app in Ec. lia.
Qed.

(** [subtreeFind] with a key that is not there told apart from a null data pointer. *)
Fixpoint tagged_find (fuel : nat) (this : optr) (targetKey : buffer) : prog M (option (option optr)) :=
  match fuel with
  | O => undef
  | S fuel' =>
      n ← keyCount this;
      t ← must (rd 5 targetKey);
      step ← compare_keys this t 5 (Z.to_nat n) 0;
      match step with
      | Found i => d ← dataOptr this i; mret (Some d)
      | _ =>
          c ← candidateChild this step;
          match c with None => mret None | Some c => tagged_find fuel' c targetKey end
      end
  end.

Lemma subtreeFind_tagged fuel : forall this k m, subtreeFind fuel this k m = (o ← tagged_find fuel this k; mret (mjoin o)) m.
Proof.
  induction fuel as [|fuel IH]; intros this k m; cbn [subtreeFind tagged_find]; [reflexivity|]. monad_step.
  destruct (keyCount this m) as [n m1| |]; try reflexivity. destruct (rd 5 k) as [t|]; [|reflexivity].
  destruct (compare_keys this t 5 (Z.to_nat n) 0 m1) as [step m2| |]; try reflexivity.
  destruct step as [i|i|]; [now destruct (dataOptr this i m2)|..];
    (match goal with |- context [candidateChild this ?st m2] => destruct (candidateChild this st m2) as [[c|] m3| |] end;
     try reflexivity; exact (IH c k m3)).
Qed.

Definition tagged_finds (len : nat) (t : list byte) (E : list entry) (o : option (option optr)) : Prop :=
  match o with Some None => False | _ => finds len t E (mjoin o) end.

Lemma tagged_finds_mono len t E E' o :
  (forall o, finds len t E o -> finds len t E' o) -> tagged_finds len t E o -> tagged_finds len t E' o.
Proof. intros H Ho. destruct o as [[d|]|]; [exact (H _ Ho)|exact Ho|exact (H _ Ho)]. Qed.

Lemma tagged_find_spec n meta h k ht : forall fuel p t m,
  (ht < fuel)%nat -> nodes n m meta h -> stored h ht p t -> sorted_entries (elements t) -> (5 <= length k)%nat ->
  wp (tagged_find fuel (root t) (Some k)) m (fun o m' => nodes n m' meta h /\ tagged_finds 5 (take 5 k) (elements t) o).
Proof.
  induction ht as [ht IH] using lt_wf_ind. intros fuel p [a es cs] m Hf Hm Hst Hs Hk.
  destruct fuel as [|fuel]; [lia|]. cbn [tagged_find root].
  pose proof (stored_keys _ _ _ _ _ _ _ Hm Hst) as H20. destruct (stored_root_in _ _ _ _ Hst) as [r Hr]. cbn [root] in Hr.
  destruct (stored_children _ _ _ _ _ _ _ Hst Hr) as (Hrep & Hcs & Hch).
  assert (Ht : length (take 5 k) = 5%nat) by (rewrite length_take; lia).
  wp_seq (keyCount_spec n meta a) as (-> & Hm1); [eassumption..|]. rewrite (rep_kc _ _ _ _ Hrep), Nat2Z.id.
  apply wp_bind. eapply wp_must.
  { unfold rd. change (5 =? 0) with false. cbv iota. now rewrite (proj2 (Z.leb_le 5 _)) by lia. }
  change (Z.to_nat 5) with 5%nat. change 0 with (Z.of_nat (length (@nil entry))).
  wp_seq (compare_keys_spec n meta h a r p es (map root cs) (take 5 k) 5) giving step as (Hc & Hm2);
    [eassumption|eassumption|assumption|lia|reflexivity|constructor|assumption|].
  destruct step as [i|i|].
  - destruct Hc as (e & He & H0 & Et). pose proof (rep_length _ _ _ _ Hrep) as [Hl3 _]. pose proof (lookup_lt_Some _ _ _ He).
    wp_seq (dataOptr_spec n meta a i e.2) as (-> & Hm3);
      [eassumption..|rewrite (rep_dc _ _ _ _ Hrep); lia|lia|exact (rep_data _ _ _ _ _ _ Hrep He)|].
    apply wp_ret. split; [assumption|]. exists e.1. split; [|assumption]. destruct e as [k' d']. cbn [fst snd].
    apply (elem_of_sublist es); [exact (list_elem_of_lookup_2 _ _ _ He)|now apply node_sublist].
  - eapply (search_child n meta h ht p a es cs r 5 (take 5 k)); try eassumption; [lia|discriminate|intros m' Hm' HN; now apply wp_ret|].
    intros m' c ht' Hm' -> Hstc Hsc Hf'. wp_last (IH ht' ltac:(lia) fuel a c) as (Hm4 & Ho); [lia|assumption..|].
    split; [assumption|]. now apply (tagged_finds_mono _ _ (elements c)).
  - eapply (search_child n meta h ht p a es cs r 5 (take 5 k)); try eassumption; [lia|discriminate|intros m' Hm' HN; now apply wp_ret|].
    intros m' c ht' Hm' -> Hstc Hsc Hf'. wp_last (IH ht' ltac:(lia) fuel a c) as (Hm4 & Ho); [lia|assumption..|].
    split; [assumption|]. now apply (tagged_finds_mono _ _ (elements c)).
Qed.

Lemma subtreeFind_spec n meta h k ht fuel p t m :
  (ht < fuel)%nat -> nodes n m meta h -> stored h ht p t -> sorted_entries (elements t) -> (5 <= length k)%nat ->
  wp (subtreeFind fuel (root t) (Some k)) m (fun o m' => nodes n m' meta h /\ finds 5 (take 5 k) (elements t) o).
Proof.
  intros Hf Hm Hst Hs Hk. unfold wp. rewrite subtreeFind_tagged. fold (wp (o ← tagged_find fuel (root t) (Some k); mret (mjoin o)) m
    (fun o m' => nodes n m' meta h /\ finds 5 (take 5 k) (elements t) o)).
  wp_seq (tagged_find_spec n meta h k ht fuel p t m) as (Hm' & Ho); [assumption..|]. apply wp_ret. split; [assumption|].
  unfold tagged_finds in Ho. case_match; [|exact Ho]. case_match; [exact Ho|contradiction].
Qed.
End search.
