(* ===== verification/BTreeMap.v ===== *)
(** The B-tree index as a finite map: what a new or reopened index file holds, what [add]
    and [find] of [btree.cpp] do to it, and whole runs of insertions and lookups. *)
From stdpp Require Import sorting.
From S2P Require Import Prelude OverlayPtr CacheTable Allocator MemoryManager ItemSet NodeStore ONode NodeOps NodeSplit.
From S2P Require Import BTree BTreeModel BTreeAdd BTreeIndex.
From Stdlib Require Import Lia Sorting.Sorted.

#[local] Open Scope Z_scope.

(** ** Index files *)

(** The meta area carries the format code and the address of the root. *)
Definition formatted (rt : optr) (meta : list byte) : Prop :=
  take 20 meta = FORMAT_CODE /\ take 5 (drop 20 meta) = addr rt.

Section index.
Context {M : Type} `{mgr : OverlayManager M}.

(** The file, allocated up to [n], is an index with root [rt] of height [ht] whose entries
    are [E], in ascending order of their keys. *)
Definition index (m : M) (n : Z) (rt : optr) (ht : nat) (E : list entry) : Prop :=
  exists meta h T, nodes n m meta h /\ formatted rt meta /\ stored h ht addrZero T /\ NoDup (addrs T) /\
    root T = rt /\ elements T = E /\ sorted_entries E.

Lemma formatted_set_root rt rt' meta : length meta = 100%nat -> formatted rt meta -> formatted rt' (set_root rt' meta).
Proof.
  intros Hl [H _]. unfold formatted, set_root. split.
  - rewrite take_app_le, take_take by (rewrite length_take; lia). exact H.
  - rewrite drop_app_ge, length_take by (rewrite length_take; lia).
    replace (20 - 20 `min` length meta)%nat with 0%nat by lia. reflexivity.
Qed.

(** *** Insertion *)

Lemma OBtree_add_index fuel m n rt ht E k d :
  index m n rt ht E -> k ∉ map fst E -> length k = 20%nat -> (ht < fuel)%nat ->
  n + 103 * (Z.of_nat ht + 2) < 2 ^ 23 ->
  wp (OBtree_add fuel rt (Some k) (Some d)) m (fun rt' m' => exists n' ht' E1 E2,
    E = E1 ++ E2 /\ index m' n' rt' ht' (E1 ++ (k, d) :: E2) /\
    n <= n' <= n + 103 * (Z.of_nat ht + 2) /\ (ht' <= S ht)%nat).
Proof.
  intros (meta & h & T & Hm & Hfmt & Hst & Hnd & <- & <- & Hs) Hk Hlk Hf Hn. unfold OBtree_add.
  assert (Hloc : located h ht [] addrZero T) by (split; [reflexivity|split; [assumption|now rewrite app_nil_r]]).
  assert (Har : around k [] T) by (split; [cbn; now rewrite app_nil_r|now repeat split]).
  wp_seq (descend_add_spec n meta h k ht fuel m [] addrZero T) giving a as (Hm1 & fs & p & r & es1 & es2 & Hp & Hl & Hrt & Hel & Hsd);
    [assumption..|].
  cbn [length Nat.add left_of right_of app] in *. rewrite app_nil_r in Hel.
  change (plug_root [] (root T)) with (root T) in Hrt.
  wp_seq (recursiveAdd_spec fs fuel n meta _ h 0 a p r es1 es2 [] None [] k d) giving o as
    (n' & meta' & h' & ht' & T' & Hm2 & Hst' & Hnd' & Hel' & Hn' & Hht & Ho); [lia|assumption..|apply Hsd|assumption|lia|].
  apply wp_ret. exists n', ht', (left_of fs ++ es1), (es2 ++ right_of fs).
  assert (Eins : target fs a (es1 ++ (k, d) :: es2) [] = (left_of fs ++ es1) ++ (k, d) :: es2 ++ right_of fs).
  { unfold target. cbn [elements map weave]. now rewrite <- !app_assoc. }
  split; [rewrite <- Hel; now rewrite <- !app_assoc|]. split; [|split; [lia|lia]].
  exists meta', h', T'. split; [assumption|]. rewrite <- Eins, Hel'. rewrite Hrt in Ho.
  split; [|split; [assumption|split; [assumption|split; [|split; [reflexivity|apply Hsd]]]]].
  - destruct Ho as [(-> & _ & ->)|(-> & ->)]; [assumption|]. eapply formatted_set_root; [|exact Hfmt].
    eapply nodes_meta_length. exact Hm1.
  - destruct Ho as [(-> & -> & _)|(-> & _)]; reflexivity.
Qed.

(** *** Search *)

Lemma OBtree_find_index fuel m n rt ht E k :
  index m n rt ht E -> (5 <= length k)%nat -> (ht < fuel)%nat ->
  wp (OBtree_find fuel rt (Some k)) m (fun o m' => index m' n rt ht E /\ finds 5 (take 5 k) E o).
Proof.
  intros (meta & h & T & Hm & Hfmt & Hst & Hnd & <- & <- & Hs) Hk Hf.
  wp_last (subtreeFind_spec n meta h k ht fuel addrZero T) as (Hm1 & Ho); [assumption..|].
  split; [|assumption]. exists meta, h, T. repeat (split; [assumption||reflexivity|]). assumption.
Qed.
End index.

(** ** Opening a file *)

Section opening.
Context {M : Type} `{mgr : OverlayManager M}.

Lemma read_meta n m meta h q off k :
  nodes n m meta h -> lin q = Z.of_nat off -> (off + k <= 100)%nat ->
  wp (omemcpy_out q k) m (fun bs m' => bs = take k (drop off meta) /\ nodes n m' meta h).
Proof.
  intros (v & Hv & Hmeta & Hrest) Eq Hl.
  wp_last (@omemcpy_out_spec M _ (manager_mem n) q k) as (-> & Hv'); [exact Hv|lia|lia|].
  split; [|now exists v]. subst meta. rewrite Eq. apply list_eq. intros i. destruct (decide (i < k)%nat).
  - rewrite vlist_lookup, lookup_take_lt, lookup_drop, vlist_lookup by lia. do 2 f_equal. lia.
  - rewrite !lookup_ge_None_2; [reflexivity|rewrite length_take, length_drop, vlist_length; lia|rewrite vlist_length; lia].
Qed.

Lemma compare_format n m v :
  mholds n m v -> wp (ocmp metaHeadOptr FORMAT_CODE) m (fun c m' =>
    (c =? 0) = bool_decide (vlist v 0 20 = FORMAT_CODE) /\ mholds n m' v).
Proof.
  intros Hv. wp_last (@ocmp_spec M _ (manager_mem n) metaHeadOptr FORMAT_CODE) as (-> & Hv');
    [exact Hv|vm_compute; reflexivity|vm_compute; discriminate|]. split; [|exact Hv'].
  change (lin metaHeadOptr) with 0. change (length FORMAT_CODE) with 20%nat.
  pose proof (memcmp_eq (vlist v 0 20) FORMAT_CODE ltac:(now rewrite vlist_length)) as H.
  case_bool_decide as E; [now apply H in E as ->|]. destruct (memcmp _ _); [now destruct (E (proj1 H eq_refl))|reflexivity..].
Qed.

(** The root's place in the meta area. *)
Lemma root_offset : exists q, oplus metaHeadOptr META_ROOT_NODE_OFFSET = Some q /\ lin q = 20.
Proof.
  destruct (oplus_lin addrZero META_ROOT_NODE_OFFSET) as (q & Eq & Elq & _);
    [vm_compute; reflexivity|vm_compute; repeat split; discriminate|]. now exists q.
Qed.

Lemma nodes_empty m v : mholds 100 m v -> nodes 100 m (vlist v 0 100) ∅.
Proof.
  intros Hv. exists v. split; [assumption|]. split; [reflexivity|]. split; [apply map_Forall_empty|].
  split; [intros a [? H]; now rewrite lookup_empty in H|]. split; [lia|].
  intros a b [? H]. now rewrite lookup_empty in H.
Qed.

Lemma formatted_new rt meta :
  length meta = 100%nat -> formatted rt (FORMAT_CODE ++ drop 20 (set_root rt meta)).
Proof.
  intros Hl. split; [reflexivity|]. unfold set_root.
  rewrite (drop_app_ge FORMAT_CODE) by (cbn; lia). change (20 - length FORMAT_CODE)%nat with 0%nat.
  rewrite drop_0, (drop_app_ge (take 20 meta)), length_take by (rewrite length_take; lia).
  replace (20 - 20 `min` length meta)%nat with 0%nat by lia. reflexivity.
Qed.

Lemma OBtree_new_nodes m v :
  mholds 0 m v -> vlist v 0 20 <> FORMAT_CODE ->
  wp OBtree_new m (fun rt m' => exists meta, formatted rt meta /\ nodes 203 m' meta (<[lin rt := rnode_empty]> ∅)).
Proof.
  intros Hv Hf. destruct root_offset as (q & Eq & Elq). unfold OBtree_new.
  wp_seq (compare_format 0 m v) as (-> & [Hi Hv1]); [assumption|]. rewrite bool_decide_false by assumption. cbn [negb].
  wp_seq (mg_allocate_spec 100) giving p as (Ep & Hi1 & Hv2); [exact Hi|lia|lia|].
  wp_seq (ONode_new_spec (vlist v 0 100) 100) giving rt as (Ert & Hm2); [apply nodes_empty; split; [exact Hi1|now rewrite Hv2]|lia|lia|].
  apply wp_bind. eapply wp_must; [exact Eq|].
  wp_seq write_root as Hm3; [exact Hm2|exact Elq|].
  wp_seq (write_meta (set_root rt (vlist v 0 100)) _ _ _ metaHeadOptr 0 FORMAT_CODE) as Hm4; [exact Hm3|reflexivity|cbn; lia|].
  apply wp_ret. rewrite take_0 in Hm4. eexists. split; [|exact Hm4]. apply formatted_new, vlist_length.
Qed.

(** A file without the format code becomes an empty index. *)
Lemma OBtree_new_fresh m v :
  mholds 0 m v -> vlist v 0 20 <> FORMAT_CODE -> wp OBtree_new m (fun rt m' => index m' 203 rt 0 []).
Proof.
  intros Hv Hf. wp_last OBtree_new_nodes giving rt as (meta & Hfmt & Hm); [eassumption..|].
  eexists meta, _, (Node rt [] []). split; [exact Hm|]. split; [assumption|].
  split; [|split; [repeat constructor; set_solver|repeat split; constructor]].
  apply stored_node. split; [|reflexivity]. exists rnode_empty. split; [apply lookup_insert_eq|exact rep_empty].
Qed.

(** An index file is found as it was left. *)
Lemma OBtree_new_reopen n m rt ht E :
  index m n rt ht E -> wp OBtree_new m (fun rt' m' => rt' = rt /\ index m' n rt ht E).
Proof.
  intros (meta & h & T & Hm & [Hf Hrt] & Hst & Hrest). destruct root_offset as (q & Eq & Elq). unfold OBtree_new.
  destruct Hm as (v & Hv & Hmeta & Hnodes).
  wp_seq (compare_format n m v) as (-> & Hv1); [assumption|].
  rewrite bool_decide_true by (rewrite <- Hf, <- Hmeta; apply vlist_take; lia).
  cbn [negb]. apply wp_bind. eapply wp_must; [exact Eq|].
  wp_seq (read_meta n _ meta h q 20 5) as (-> & Hm2); [exists v; exact (conj Hv1 (conj Hmeta Hnodes))|exact Elq|lia|].
  rewrite Hrt. eapply wp_must; [apply optr_of_addr|]. split; [reflexivity|]. exists meta, h, T.
  split; [exact Hm2|]. split; [now split|]. split; [exact Hst|exact Hrest].
Qed.
End opening.

(** ** Runs *)

Section runs.
Context {M : Type} `{mgr : OverlayManager M}.

(** The height of an index is at most the logarithm of the number of its entries. *)
Lemma index_height m n rt ht E : index m n rt ht E -> Z.of_nat ht <= Z.log2 (Z.of_nat (length E) + 1).
Proof.
  intros (_ & h & T & _ & _ & Hst & _ & _ & <- & _). apply stored_height in Hst. apply Z.log2_le_pow2; [lia|].
  pose proof (Nat2Z.inj_pow 2 ht). lia.
Qed.

(** Space for [l] more insertions into a tree of [e] entries: each may add a node on every level and a root. *)
Definition room (n : Z) (e l : nat) : Prop := n + 103 * (Z.of_nat l * (Z.log2 (Z.of_nat (e + l) + 1) + 2)) < 2 ^ 23.

Lemma room_one n ht e l : room n e (S l) -> Z.of_nat ht <= Z.log2 (Z.of_nat e + 1) -> n + 103 * (Z.of_nat ht + 2) < 2 ^ 23.
Proof.
  unfold room. intros H Hh. pose proof (Z.log2_le_mono (Z.of_nat e + 1) (Z.of_nat (e + S l) + 1) ltac:(lia)). nia.
Qed.

Lemma room_step n n' ht e l :
  room n e (S l) -> Z.of_nat ht <= Z.log2 (Z.of_nat e + 1) -> n' <= n + 103 * (Z.of_nat ht + 2) -> room n' (S e) l.
Proof.
  unfold room. intros H Hh Hn. pose proof (Z.log2_le_mono (Z.of_nat e + 1) (Z.of_nat (e + S l) + 1) ltac:(lia)).
  replace (S e + l)%nat with (e + S l)%nat by lia. nia.
Qed.

Lemma add_all_index fuel kds : forall m n rt ht E,
  index m n rt ht E -> NoDup (map fst kds ++ map fst E) -> Forall (fun e : entry => length e.1 = 20%nat) kds ->
  (ht + length kds <= fuel)%nat -> room n (length E) (length kds) ->
  wp (add_all fuel rt kds) m (fun rt' m' => exists n' ht' E',
    index m' n' rt' ht' E' /\ E' ≡ₚ kds ++ E /\ (ht' <= ht + length kds)%nat).
Proof.
  induction kds as [|[k d] kds IH]; intros m n rt ht E Hi Hnd H20 Hf Hr; cbn [add_all map app fst length] in *.
  - apply wp_ret. exists n, ht, E. split; [assumption|]. split; [reflexivity|lia].
  - apply NoDup_cons in Hnd as [Hk Hnd]. apply Forall_cons in H20 as [Hk20 H20]. rewrite elem_of_app in Hk.
    pose proof (index_height _ _ _ _ _ Hi) as Hht.
    wp_seq (OBtree_add_index fuel m n rt ht E k d) giving rt' as (n' & ht' & E1 & E2 & -> & Hi' & Hn' & Hh');
      [assumption|tauto|assumption|lia|now apply (room_one n ht _ (length kds) Hr)|].
    wp_last (IH _ n' rt' ht' (E1 ++ (k, d) :: E2)) as (n2 & ht2 & E' & Hi2 & Hp & Hh2);
      [assumption| |assumption|lia| |].
    + rewrite map_app in Hnd |- *. cbn [map fst]. rewrite <- !Permutation_middle. apply NoDup_cons. split; [|assumption].
      rewrite !elem_of_app, map_app, elem_of_app in *. tauto.
    + replace (length (E1 ++ (k, d) :: E2)) with (S (length (E1 ++ E2))) by (rewrite !length_app; cbn; lia).
      now apply (room_step n n' ht _ _ Hr Hht).
    + exists n2, ht2, E'. split; [assumption|]. split; [|lia]. rewrite Hp, <- !Permutation_middle. reflexivity.
Qed.

Lemma finds_permutation len t E E' o : E ≡ₚ E' -> finds len t E o -> finds len t E' o.
Proof.
  intros Hp. destruct o as [d|]; cbn [finds]; [|now rewrite Hp]. intros (k & Hk & Et). exists k. now rewrite <- Hp.
Qed.

(** The only entry whose key starts with the bytes searched for is the one found. *)
Lemma finds_unique len E k d o :
  NoDup (map (fun e : entry => take len e.1) E) -> (k, d) ∈ E -> finds len (take len k) E o -> o = Some d.
Proof.
  intros Hnd Hk. destruct o as [d'|]; cbn [finds].
  - intros (k' & Hk' & Et). f_equal. apply list_elem_of_lookup in Hk as [i Hi], Hk' as [j Hj].
    assert (i = j) as <-.
    { apply (NoDup_lookup _ i j (take len k) Hnd); rewrite list_lookup_fmap; [now rewrite Hi|rewrite Hj; cbn; now rewrite Et]. }
    rewrite Hi in Hj. now injection Hj.
  - rewrite Forall_forall. intros H. now destruct (H _ Hk).
Qed.
End runs.

(** ** What the index promises *)

(** The reference search: the first entry whose key starts with the given bytes. *)
Definition lookup_prefix (t : list byte) (E : list entry) : option optr :=
  snd <$> List.find (fun e : entry => bool_decide (take (length t) e.1 = t)) E.

Lemma lookup_prefix_finds t E : finds (length t) t E (lookup_prefix t E).
Proof.
  unfold lookup_prefix. destruct (List.find _ E) as [[k d]|] eqn:Ef; cbn.
  - apply find_some in Ef as [Hin Hb]. exists k. split; [now apply list_elem_of_In|]. now apply bool_decide_eq_true in Hb.
  - apply Forall_forall. intros e He. apply list_elem_of_In in He. pose proof (find_none _ _ Ef e He) as H.
    now apply bool_decide_eq_false in H.
Qed.

Lemma finds_functional len t E o o' :
  NoDup (map (fun e : entry => take len e.1) E) -> finds len t E o -> finds len t E o' -> o = o'.
Proof.
  intros Hnd. destruct o as [d|]; cbn [finds].
  - intros (k & Hk & <-) H'. symmetry. now apply (finds_unique len E k).
  - destruct o' as [d'|]; [|reflexivity]. cbn [finds]. intros Hn (k & Hk & Et).
    rewrite Forall_forall in Hn. now destruct (Hn _ Hk).
Qed.

Section index_claims.
Context {M : Type} `{mgr : OverlayManager M}.

(** C5: Inserting a key that is not in the index adds exactly its entry, in its place in
    the order of keys; the file stays a well-formed index with all leaves at one depth,
    whose root is the one the code returns and records in the meta area, and at most one
    node per level and a root are allocated. This is so as long as the file, with that many new
    nodes, stays below 8 MiB. *)
Theorem OBtree_add_refines_insertion fuel m n rt ht E k d :
  index m n rt ht E -> k ∉ map fst E -> length k = 20%nat -> (ht < fuel)%nat ->
  n + 103 * (Z.of_nat ht + 2) < 2 ^ 23 ->
  wp (OBtree_add fuel rt (Some k) (Some d)) m (fun rt' m' => exists n' ht' E1 E2,
    E = E1 ++ E2 /\ index m' n' rt' ht' (E1 ++ (k, d) :: E2) /\ sorted_entries (E1 ++ (k, d) :: E2) /\
    n <= n' <= n + 103 * (Z.of_nat ht + 2) /\ (ht' <= S ht)%nat).
Proof.
  intros Hi Hk Hlk Hf Hn. wp_last OBtree_add_index as (n' & ht' & E1 & E2 & -> & Hi' & Hn' & Hh'); [eassumption..|].
  exists n', ht', E1, E2. pose proof Hi' as (_ & _ & _ & _ & _ & _ & _ & _ & _ & Hs). auto 10.
Qed.

(** C11: Searching an index is the search for the first five bytes of the key among its
    entries in order, as long as no two entries share these bytes; the file is unchanged. *)
Theorem OBtree_find_equiv_lookup fuel m n rt ht E k :
  index m n rt ht E -> (5 <= length k)%nat -> (ht < fuel)%nat -> NoDup (map (fun e : entry => take 5 e.1) E) ->
  wp (NormalIndexManager_find fuel rt (Some k)) m (fun r m' =>
    r = (lookup_prefix (take 5 k) E, DATA_OPTR_LOCATED_AT_NORMAL) /\ index m' n rt ht E).
Proof.
  intros Hi Hk Hf Hnd. wp_seq OBtree_find_index giving o as (Hi' & Ho); [eassumption..|]. apply wp_ret.
  split; [|assumption]. f_equal. apply (finds_functional 5 (take 5 k) E); [assumption..|].
  pose proof (lookup_prefix_finds (take 5 k) E) as H. rewrite length_take in H. now replace (5 `min` length k)%nat with 5%nat in H by lia.
Qed.

(** A file without the format code is opened as an empty index; opening an index file
    again finds the root and the entries it was left with. *)
Theorem OBtree_new_opens m :
  (forall v, mholds 0 m v -> vlist v 0 20 <> FORMAT_CODE ->
     wp OBtree_new m (fun rt m' => index m' 203 rt 0 [])) /\
  (forall n rt ht E, index m n rt ht E -> wp OBtree_new m (fun rt' m' => rt' = rt /\ index m' n rt ht E)).
Proof. split; [exact (OBtree_new_fresh m)|intros n rt ht E; apply OBtree_new_reopen]. Qed.

(** C9: After a sequence of at most 5817 insertions into a new index, whose keys
    differ in their first five bytes, every key is found with its data, also when the
    file was opened again, and every other five bytes are found to be absent. The bound is that of [room]: each
    insertion is counted as a new node on every level of a binary tree and a new root, and the
    index file has to stay below 8 MiB. *)
Theorem index_roundtrip fuel kds m v :
  mholds 0 m v -> vlist v 0 20 <> FORMAT_CODE ->
  Forall (fun e : entry => length e.1 = 20%nat) kds -> NoDup (map (fun e : entry => take 5 e.1) kds) ->
  (length kds < fuel)%nat -> room 203 0 (length kds) ->
  wp (rt ← OBtree_new; _ ← add_all fuel rt kds; OBtree_new) m (fun rt m' =>
    (forall k d, (k, d) ∈ kds -> wp (OBtree_find fuel rt (Some k)) m' (fun o _ => o = Some d)) /\
    (forall k, length k = 20%nat -> take 5 k ∉ map (fun e : entry => take 5 e.1) kds ->
       wp (OBtree_find fuel rt (Some k)) m' (fun o _ => o = None))).
Proof.
  intros Hv Hf H20 Hnd Hfuel Hr. wp_seq OBtree_new_fresh giving rt as Hi; [eassumption..|].
  assert (Hnd' : NoDup (map fst kds ++ map fst (@nil entry))).
  { cbn. rewrite app_nil_r. apply (NoDup_fmap_1 (take 5)). now rewrite <- list_fmap_compose. }
  wp_seq (add_all_index fuel kds _ 203 rt 0 []) giving rt' as (n' & ht' & E & Hi' & Hp & Hh); [eassumption..|lia|assumption|].
  wp_last OBtree_new_reopen as (-> & Hi2); [eassumption|]. rewrite app_nil_r in Hp. split.
  - intros k d Hk. rewrite Forall_forall in H20. pose proof (H20 _ Hk) as Hk20. cbn in Hk20.
    wp_last OBtree_find_index as (_ & Ho); [eassumption|lia|lia|].
    apply (finds_permutation 5 _ E kds) in Ho; [|assumption]. now apply (finds_unique 5 kds k d).
  - intros k Hk20 Hk. wp_last OBtree_find_index giving o as (_ & Ho); [eassumption|lia|lia|].
    apply (finds_permutation 5 _ E kds) in Ho; [|assumption]. destruct o as [d|]; [|reflexivity].
    destruct Ho as (k' & Hk' & Et). destruct Hk. rewrite <- Et. now apply (list_elem_of_fmap_2 (fun e : entry => take 5 e.1) kds (k', d)).
Qed.
End index_claims.

(** ** The same on a concrete pair of empty files *)

Definition sample_key (z : Z) : list byte := be_encode 20 (z * 2 ^ 120).
Definition sample_entry (z : Z) : entry := (sample_key z, addr_set z).

Lemma empty_not_formatted : vlist (fm_view empty_file) 0 20 <> FORMAT_CODE.
Proof. vm_compute. discriminate. Qed.

Lemma open_empty_spec :
  wp (_ ← manager_clear; OBtree_new) empty_manager (fun rt m => index m 203 rt 0 []).
Proof.
  wp_seq empty_manager_clear as Hv. exact (OBtree_new_fresh _ _ Hv empty_not_formatted).
Qed.

Lemma OBtree_add_refines_insertion_witness :
  wp (rt ← (_ ← manager_clear; OBtree_new); OBtree_add 1 rt (Some (sample_key 3)) (Some (addr_set 3))) empty_manager
    (fun rt' m' => exists n' ht' E1 E2, [] = E1 ++ E2 /\ index m' n' rt' ht' (E1 ++ sample_entry 3 :: E2) /\
      sorted_entries (E1 ++ sample_entry 3 :: E2) /\ 203 <= n' <= 203 + 103 * (Z.of_nat 0 + 2) /\ (ht' <= 1)%nat).
Proof.
  wp_seq open_empty_spec giving rt as Hi.
  apply (OBtree_add_refines_insertion 1 _ 203 rt 0 [] (sample_key 3) (addr_set 3));
    [exact Hi|intros H; inversion H|reflexivity|lia|lia].
Defined.

Lemma OBtree_find_equiv_lookup_witness :
  wp (rt ← (_ ← manager_clear; OBtree_new); add_all 4 rt (map sample_entry [5; 2; 9; 1])) empty_manager
    (fun rt m => exists n ht E, E ≡ₚ map sample_entry [5; 2; 9; 1] ++ [] /\
      wp (NormalIndexManager_find 5 rt (Some (sample_key 9))) m (fun r m' =>
        r = (lookup_prefix (take 5 (sample_key 9)) E, DATA_OPTR_LOCATED_AT_NORMAL) /\ index m' n rt ht E)).
Proof.
  wp_seq open_empty_spec giving rt as Hi.
  wp_last (add_all_index 4 (map sample_entry [5; 2; 9; 1]) _ 203 rt 0 []) as (n & ht & E & Hi' & Hp & Hh).
  - exact Hi.
  - apply (bool_decide_unpack _). vm_compute. exact I.
  - repeat constructor.
  - cbn; lia.
  - vm_compute. reflexivity.
  - exists n, ht, E. split; [exact Hp|]. cbn in Hh.
    apply (OBtree_find_equiv_lookup 5 _ n _ ht E (sample_key 9)); [exact Hi'|vm_compute; lia|lia|].
    rewrite Hp. apply (bool_decide_unpack _). vm_compute. exact I.
Defined.

Lemma index_roundtrip_witness :
  wp (_ ← manager_clear; rt ← OBtree_new; _ ← add_all 5 rt (map sample_entry [5; 2; 9; 1]); OBtree_new) empty_manager
    (fun rt m' =>
    (forall k d, (k, d) ∈ map sample_entry [5; 2; 9; 1] -> wp (OBtree_find 5 rt (Some k)) m' (fun o _ => o = Some d)) /\
    (forall k, length k = 20%nat -> take 5 k ∉ map (fun e : entry => take 5 e.1) (map sample_entry [5; 2; 9; 1]) ->
       wp (OBtree_find 5 rt (Some k)) m' (fun o _ => o = None))).
Proof.
  wp_seq empty_manager_clear as Hv.
  apply (index_roundtrip 5 (map sample_entry [5; 2; 9; 1]) _ (fm_view empty_file));
    [exact Hv|exact empty_not_formatted|repeat constructor| |cbn; lia|vm_compute; reflexivity].
  apply (bool_decide_unpack _). vm_compute. exact I.
Defined.

Lemma OBtree_new_opens_witness :
  wp (_ ← manager_clear; rt ← OBtree_new; rt' ← OBtree_new; mret (rt, rt')) empty_manager
    (fun '(rt, rt') m' => rt' = rt /\ index m' 203 rt 0 []).
Proof.
  wp_seq empty_manager_clear giving u as Hv.
  wp_seq (proj1 (OBtree_new_opens _) _ Hv empty_not_formatted) giving rt as Hi.
  wp_seq (proj2 (OBtree_new_opens _) _ _ _ _ Hi) giving rt' as (-> & Hi').
  apply wp_ret. split; [reflexivity|exact Hi'].
Defined.
