(* ===== verification/BTreeRemove.v ===== *)
(** Removal from the B-tree index ([OBtree::remove] of [btree.cpp], [ONode::remove] of
    [o_node.cpp]): what it does where the code is right, a key of a leaf that keeps another
    one, and runs in which it damages the index. *)
From stdpp Require Import sorting.
From S2P Require Import Prelude OverlayPtr CacheTable Allocator MemoryManager ItemSet NodeStore ONode NodeOps NodeSplit.
From S2P Require Import BTree BTreeModel BTreeAdd BTreeIndex BTreeMap.
From Stdlib Require Import Lia Sorting.Sorted.

#[local] Open Scope Z_scope.

(** The 20 bytes the code takes for the key after the last one: an unused slot or, in a
    full node, the child count and the children. *)
Definition slot_after (r : rnode) : list byte :=
  match r_ks r !! Z.to_nat (r_kc r) with
  | Some k => k
  | None => take 20 (b8 (r_cc r) :: concat (map addr (r_cs r)))
  end.

(** These bytes differ from [k] in every inner node. *)
Definition settled (k : list byte) (h : gmap Z rnode) (T : tree) : Prop :=
  forall x r, x ∈ addrs T -> h !! x = Some r -> 0 < r_cc r -> slot_after r <> k.

Lemma plug_last fs f t : plug (fs ++ [f]) t = plug_frame f (plug fs t).
Proof. unfold plug. now rewrite fold_left_app. Qed.

(** The tree of a file seen from one of its nodes. *)
Lemma stored_unplug h fs : forall H p0 t, Forall frame_ok fs ->
  stored h H p0 (plug fs t) -> p0 = addrZero -> exists ht p, H = (length fs + ht)%nat /\
    stored_path h ht (root t) p fs /\ stored h ht p t.
Proof.
  induction fs as [|f fs IH]; intros H p0 t Hok Hst ->; [now exists H, addrZero|].
  apply Forall_cons in Hok as [[Hf1 Hf2] Hok].
  destruct (IH H addrZero (plug_frame f t) Hok Hst eq_refl) as (ht & p & -> & Hp & [(r & Hr & Hrep) Hcs]%stored_node).
  destruct ht as [|ht]; [now destruct (f_cs1 f)|]. destruct Hcs as (Hne & Hlen & Hcs).
  apply Forall_app in Hcs as [H1 [Ht H2]%Forall_cons]. exists ht, (f_a f). split; [cbn; lia|]. split; [|assumption].
  cbn [stored_path]. split; [reflexivity|]. split; [now split|]. split; [assumption|]. split.
  - exists r, p. rewrite map_app in Hrep. now repeat split.
  - apply Forall_app. now split.
Qed.

Lemma weave_l_in {A} (es : list A) ls x : length es = length ls -> x ∈ es -> x ∈ weave_l es ls.
Proof.
  revert ls; induction es as [|e es IH]; intros [|l ls] Hl Hx; try discriminate; [set_solver|].
  unfold weave_l in *. cbn. injection Hl as Hl. apply elem_of_cons in Hx as [-> |Hx]; [set_solver|].
  apply elem_of_app. right. now apply IH.
Qed.

Lemma weave_r_in {A} (es : list A) ls x : length es = length ls -> x ∈ es -> x ∈ weave_r es ls.
Proof.
  revert ls; induction es as [|e es IH]; intros [|l ls] Hl Hx; try discriminate; [set_solver|].
  unfold weave_r in *. cbn. injection Hl as Hl. apply elem_of_cons in Hx as [-> |Hx]; [set_solver|].
  right. apply elem_of_app. right. now apply IH.
Qed.

(** The entries of a node on the way stand on their side of a key below it. *)
Lemma frame_around f t k d :
  frame_ok f -> sorted_entries (elements (plug_frame f t)) -> (k, d) ∈ elements t ->
  Forall (fun e : entry => klt e.1 k) (f_es1 f) /\ Forall (fun e : entry => klt k e.1) (f_es2 f) /\ sorted_entries (elements t).
Proof.
  intros Hok Hs Hk. rewrite elements_plug_frame in Hs by assumption. destruct Hok as [H1 H2].
  apply sorted_entries_app in Hs as (Hl & _ & Hs). apply sorted_entries_app in Hs as (Hr & Hs & _).
  split; [|split; [|assumption]]; apply Forall_forall; intros e He.
  - apply (Hl e (k, d)); [apply weave_l_in; [now rewrite length_map|assumption]|set_solver].
  - apply (Hr (k, d) e); [assumption|apply weave_r_in; [now rewrite length_map|assumption]].
Qed.

Lemma plug_elements_in fs t e : Forall frame_ok fs -> e ∈ elements t -> e ∈ elements (plug fs t).
Proof. intros H He. rewrite elements_plug by assumption. set_solver. Qed.

Section descend.
Context {M : Type} `{mgr : OverlayManager M}.

Lemma vlist_children v a : vlist v (a + 66) 20 =
  take 20 (b8 (r_cc (rnode_of v a)) :: concat (map addr (r_cs (rnode_of v a)))).
Proof. cbn. rewrite b8_u8. rewrite <- !Z.add_assoc. reflexivity. Qed.

(** Reading the key after the last one. *)
Lemma read_slot_after {A} n m meta h s r p es cs (K : list byte -> prog M A) Q :
  nodes n m meta h -> h !! lin s = Some r -> rep r p es cs ->
  (forall m', nodes n m' meta h -> wp (K (slot_after r)) m' Q) ->
  wp (keyOptr ← (key s (Z.of_nat (length es)) ≫= must); rawKey ← omemcpy_out keyOptr 20; K rawKey) m Q.
Proof.
  intros Hm Hr Hrep HK. pose proof (rep_length _ _ _ _ Hrep) as [Hl3 _].
  apply wp_bind, wp_bind. wp_last (key_spec n meta s (Z.of_nat (length es)) m h r) as [(q & -> & Eq') Hm1];
    [assumption..|rewrite (rep_kc _ _ _ _ Hrep); lia|].
  apply wp_must_some. unfold slot_after in HK. rewrite (rep_kc _ _ _ _ Hrep), Nat2Z.id in HK.
  pose proof (nodes_ok _ _ _ _ _ _ Hm Hr) as Hok. destruct (decide (length es = 3%nat)) as [E3|E3].
  - rewrite lookup_ge_None_2 in HK by (rewrite (rok_ks _ Hok); lia). rewrite E3 in *.
    wp_seq (read_node n _ meta h s r q 66 20 (take 20 (b8 (r_cc r) :: concat (map addr (r_cs r))))) as (-> & Hm2); [eassumption|eassumption|exact Eq'|lia|lia| |].
    + intros v <-. apply vlist_children.
    + now apply HK.
  - destruct (lookup_lt_is_Some_2 (r_ks r) (length es)) as [k Hk]; [rewrite (rok_ks _ Hok); lia|]. rewrite Hk in HK.
    wp_seq (read_key20_spec n meta s q (Z.of_nat (length es)) k) as (-> & Hm2);
      [eassumption|eassumption|lia|now rewrite Nat2Z.id|exact Eq'|]. now apply HK.
Qed.

(** The loop of [remove] stops at the child between the smaller and the larger keys. *)
Lemma scan_remove_spec n meta h s r p es1 es2 cs c k :
  h !! lin s = Some r -> rep r p (es1 ++ es2) cs -> cs !! length es1 = Some c -> length k = 20%nat ->
  slot_after r <> k -> length (slot_after r) = 20%nat ->
  Forall (fun e : entry => klt e.1 k) es1 -> Forall (fun e : entry => klt k e.1) es2 ->
  forall j m, (j <= length es1)%nat -> nodes n m meta h ->
  wp (scan_remove s (Some k) (S (length (es1 ++ es2)) - j) (Z.of_nat j)) m (fun o m' => nodes n m' meta h /\
    (o = Next (Some c) \/ (o = Last /\ es2 = []))).
Proof.
  intros Hr Hrep Hc Hk Hslot Hslot20 H1 H2 j m Hj. rewrite length_app in *.
  remember (length es1 - j)%nat as q eqn:Eq. revert j m Eq Hj. induction q as [|q IH]; intros j m Eq Hj Hm.
  - assert (j = length es1) as -> by lia.
    replace (S (length es1 + length es2) - length es1)%nat with (S (length es2)) by lia. cbn [scan_remove].
    destruct H2 as [|e es2 He H2].
    + rewrite app_nil_r in Hrep. cbn [length]. eapply read_slot_after; [eassumption..|]. intros m1 Hm1.
      rewrite rd_key by assumption. apply wp_bind, wp_must_some.
      destruct (memcmp k (slot_after r)) eqn:E; [| |cbn [scan_remove]; apply wp_ret; auto].
      * apply memcmp_eq in E; [congruence|lia].
      * wp_seq child_spec as (-> & Hm3); [eassumption..|]. apply wp_ret. auto.
    + assert (Hi : (es1 ++ e :: es2) !! length es1 = Some e) by (now rewrite lookup_app_r, Nat.sub_diag by lia).
      eapply read_entry; [eassumption..|lia|]. intros m1 Hm1. rewrite take_ge by (destruct (rep_key _ _ _ _ _ _ Hrep Hi); lia).
      rewrite rd_key by assumption. apply wp_bind, wp_must_some. unfold klt in He. rewrite He.
      wp_seq child_spec as (-> & Hm3); [eassumption..|]. apply wp_ret. auto.
  - destruct (lookup_lt_is_Some_2 es1 j) as [e He]; [lia|].
    replace (S (length es1 + length es2) - j)%nat with (S (S (length es1 + length es2) - S j)) by lia. cbn [scan_remove].
    assert (Hi : (es1 ++ es2) !! j = Some e) by now apply lookup_app_l_Some.
    eapply read_entry; [eassumption..|lia|]. intros m1 Hm1. rewrite take_ge by (destruct (rep_key _ _ _ _ _ _ Hrep Hi); lia).
    rewrite rd_key by assumption. apply wp_bind, wp_must_some.
    rewrite (memcmp_flip e.1 k) by (exact (Forall_lookup_1 _ _ _ _ H1 He)).
    replace (Z.of_nat j + 1) with (Z.of_nat (S j)) by lia. apply IH; [lia|lia|assumption].
Qed.

Lemma slot_after_length n m meta h a r p es cs :
  nodes n m meta h -> h !! a = Some r -> rep r p es cs -> length (slot_after r) = 20%nat.
Proof.
  intros Hm Hr Hrep. pose proof (nodes_ok _ _ _ _ _ _ Hm Hr) as Hok. unfold slot_after.
  destruct (r_ks r !! _) as [k|] eqn:E; [exact (Forall_lookup_1 _ _ _ _ (rok_keys _ Hok) E)|].
  destruct (r_cs r) as [|c0 [|c1 [|c2 [|c3 [|]]]]] eqn:Ec; pose proof (rok_cs _ Hok) as Hl; rewrite Ec in Hl; try discriminate Hl.
  reflexivity.
Qed.

(** The descent of [remove] ends in the leaf that holds the key. *)
Lemma descend_remove_spec n meta h k d a es1 es2 fs : forall fuel H p m,
  (length fs < fuel)%nat -> nodes n m meta h -> Forall frame_ok fs -> length k = 20%nat ->
  let T := plug fs (Node a (es1 ++ (k, d) :: es2) []) in
  stored h H p T -> sorted_entries (elements T) -> settled k h T ->
  wp (descend_remove fuel (root T) (Some k)) m (fun a' m' => a' = a /\ nodes n m' meta h).
Proof.
  induction fs as [|f fs IH] using rev_ind; intros fuel H p m Hf Hm Hok Hk T Hst Hs Hset; unfold T in *; clear T;
    (destruct fuel as [|fuel]; [lia|]); cbn [descend_remove].
  - cbn [plug fold_left root] in *. apply stored_node in Hst as [(r & Hr & Hrep) _].
    wp_seq (childOptrCount_spec n meta a) as (-> & Hm1); [eassumption..|]. rewrite (rep_cc _ _ _ _ Hrep). apply wp_ret. now split.
  - rewrite plug_last in *. apply Forall_app in Hok as [Hok [Hfok _]%Forall_cons]. rewrite length_app in Hf. cbn in Hf.
    set (leaf := Node a (es1 ++ (k, d) :: es2) []) in *. set (X := plug fs leaf) in *.
    destruct (frame_around f X k d Hfok Hs) as (Ha & Hb & HsX).
    { apply plug_elements_in; [assumption|]. cbn. set_solver. }
    pose proof Hfok as [Hf1 Hf2]. apply stored_node in Hst as [(r & Hr & Hrep) Hcs].
    destruct H as [|H]; [now destruct (f_cs1 f)|]. destruct Hcs as (_ & Hlen & Hcs).
    rewrite map_app in Hrep. cbn [map] in Hrep. cbn [plug_frame root].
    apply Forall_app in Hcs as [_ [HX _]%Forall_cons].
    assert (Ecc : r_cc r = Z.of_nat (S (length (f_es1 f ++ f_es2 f)))).
    { rewrite (rep_cc _ _ _ _ Hrep). rewrite !length_app in *. cbn in *. rewrite !length_map. lia. }
    assert (Hc : (map root (f_cs1 f) ++ root X :: map root (f_cs2 f)) !! length (f_es1 f) = Some (root X)).
    { rewrite Hf1, lookup_app_r, length_map, Nat.sub_diag by (rewrite length_map; lia). reflexivity. }
    assert (Hsl : slot_after r <> k) by (apply (Hset (lin (f_a f))); [cbn; set_solver|assumption|lia]).
    assert (HsetX : settled k h X).
    { intros x rx Hx. apply Hset. rewrite addrs_plug_frame. set_solver. }
    wp_seq (childOptrCount_spec n meta (f_a f)) as (-> & Hm1); [eassumption..|].
    rewrite Ecc, (proj2 (Z.leb_le _ _)), Nat2Z.id by lia.
    wp_seq (scan_remove_spec n meta h (f_a f) r p (f_es1 f) (f_es2 f) _ (root X) k Hr Hrep Hc Hk Hsl (slot_after_length _ _ _ _ _ _ _ _ _ Hm Hr Hrep)
      Ha Hb 0%nat) giving o as (Hm2 & Ho); [lia|assumption|].
    destruct Ho as [-> |[-> Enil]].
    + apply wp_bind, wp_must_some. apply (IH fuel H (f_a f)); [lia|assumption..].
    + rewrite Enil, app_nil_r in *.
      replace (Z.of_nat (S (length (f_es1 f))) - 1) with (Z.of_nat (length (f_es1 f))) by lia.
      apply wp_bind. wp_seq child_spec as (-> & Hm3); [eassumption..|]. apply wp_must_some.
      apply (IH fuel H (f_a f)); [lia|assumption..].
Qed.
End descend.

(** *** Removal from a leaf *)

Section leaf.
Context {M : Type} `{mgr : OverlayManager M}.

Lemma ItemSet_remove_spec n meta s m h r p es1 es2 k d :
  nodes n m meta h -> h !! lin s = Some r -> rep r p (es1 ++ (k, d) :: es2) [] ->
  wp (ItemSet_remove s (Z.of_nat (length es1))) m (fun _ m' => exists r',
    nodes n m' meta (<[lin s := r']> h) /\ rep r' p (es1 ++ es2) []).
Proof.
  intros Hm Hr Hrep. pose proof (proj1 (rep_length _ _ _ _ Hrep)) as Hl. rewrite length_app in Hl. cbn [length] in Hl.
  unfold ItemSet_remove, moveDeleteKey, moveDeleteDataOptr.
  slots es1; slots es2; open_rep Hrep; split_entries; onode_run.
  all: eexists; split; [eassumption|close_rep].
Qed.

Lemma find_key_from_spec n meta s h r p es1 es2 k d cs :
  h !! lin s = Some r -> rep r p (es1 ++ (k, d) :: es2) cs -> length k = 20%nat ->
  Forall (fun e : entry => klt e.1 k) es1 ->
  forall j m, (j <= length es1)%nat -> nodes n m meta h ->
  wp (find_key_from s (Some k) (S (length (es1 ++ es2)) - j) (Z.of_nat j)) m (fun o m' =>
    o = Some (Z.of_nat (length es1)) /\ nodes n m' meta h).
Proof.
  intros Hr Hrep Hk Hlt j m Hj. rewrite length_app.
  remember (length es1 - j)%nat as q eqn:Eq. revert j m Eq Hj. induction q as [|q IH]; intros j m Eq Hj Hm.
  - assert (j = length es1) as -> by lia.
    replace (S (length es1 + length es2) - length es1)%nat with (S (length es2)) by lia. cbn [find_key_from].
    eapply read_entry; [eassumption|eassumption|eassumption|now rewrite lookup_app_r, Nat.sub_diag by lia|lia|].
    intros m1 Hm1. cbn [fst]. rewrite take_ge, rd_key by lia. apply wp_bind, wp_must_some. rewrite memcmp_refl. now apply wp_ret.
  - destruct (lookup_lt_is_Some_2 es1 j) as [e He]; [lia|].
    replace (S (length es1 + length es2) - j)%nat with (S (S (length es1 + length es2) - S j)) by lia. cbn [find_key_from].
    assert (Hi : (es1 ++ (k, d) :: es2) !! j = Some e) by now apply lookup_app_l_Some.
    eapply read_entry; [eassumption..|lia|]. intros m1 Hm1. rewrite take_ge by (destruct (rep_key _ _ _ _ _ _ Hrep Hi); lia).
    rewrite rd_key by assumption. apply wp_bind, wp_must_some.
    rewrite (memcmp_flip e.1 k) by (exact (Forall_lookup_1 _ _ _ _ Hlt He)).
    replace (Z.of_nat j + 1) with (Z.of_nat (S j)) by lia. apply IH; [lia|lia|assumption].
Qed.

Lemma ONode_remove_leaf_spec fuel n meta s m h r p es1 es2 k d :
  nodes n m meta h -> h !! lin s = Some r -> rep r p (es1 ++ (k, d) :: es2) [] -> length k = 20%nat ->
  Forall (fun e : entry => klt e.1 k) es1 -> p = addrZero \/ es1 ++ es2 <> [] ->
  wp (ONode_remove (S fuel) s (Some k)) m (fun o m' => o = None /\ exists r',
    nodes n m' meta (<[lin s := r']> h) /\ rep r' p (es1 ++ es2) []).
Proof.
  intros Hm Hr Hrep Hk Hlt Hp. cbn [ONode_remove]. unfold findIndex.
  assert (Ekc : r_kc r = Z.of_nat (S (length (es1 ++ es2)))) by (rewrite (rep_kc _ _ _ _ Hrep), !length_app; cbn; lia).
  apply wp_bind. wp_seq (keyCount_spec n meta s) as (-> & Hm1); [eassumption..|]. rewrite Ekc, Nat2Z.id.
  wp_seq (find_key_from_spec n meta s h r p es1 es2 k d [] Hr Hrep Hk Hlt 0%nat) as (-> & Hm2); [lia|assumption|].
  apply wp_ret. cbn [default from_option id]. rewrite (proj2 (Z.ltb_ge _ _)) by lia.
  wp_seq (childOptrCount_spec n meta s) as (-> & Hm3); [eassumption..|]. rewrite (rep_cc _ _ _ _ Hrep).
  change (1 <=? Z.of_nat (length [])) with false. cbv iota. unfold remove_from_leaf, is_root, ONode_parent.
  wp_seq (keyCount_spec n meta s) as (-> & Hm4); [eassumption..|]. rewrite Ekc. apply wp_bind.
  wp_seq (parent_spec n meta s) as (-> & Hm5); [eassumption..|]. apply wp_ret.
  assert (E : ((1 <? Z.of_nat (S (length (es1 ++ es2)))) || optr_eqb (r_parent r) addrZero)%bool = true).
  { rewrite (rep_r_parent _ _ _ _ Hrep). apply orb_true_iff. destruct Hp as [-> |Hp]; [now right|left].
    apply Z.ltb_lt. destruct (es1 ++ es2); [congruence|cbn; lia]. }
  rewrite E. wp_seq (ItemSet_remove_spec n meta s) as (r' & Hm6 & Hrep'); [eassumption..|].
  apply wp_ret. split; [reflexivity|]. eauto.
Qed.
End leaf.

(** ** Where removal is right *)

(** The key [k] stands in a leaf that keeps another entry, or in a root that is a leaf. *)
Definition removable (k : list byte) (d : optr) (T : tree) : Prop :=
  exists fs a es1 es2, T = plug fs (Node a (es1 ++ (k, d) :: es2) []) /\ Forall frame_ok fs /\
    (fs = [] \/ es1 ++ es2 <> []).

Section remove.
Context {M : Type} `{mgr : OverlayManager M}.

Lemma sorted_removed (l1 l2 : list entry) e : sorted_entries (l1 ++ e :: l2) -> sorted_entries (l1 ++ l2).
Proof.
  unfold sorted_entries. intros H. eapply StronglySorted_sublist; [|exact H]. apply fmap_sublist.
  apply sublist_app; [reflexivity|now apply sublist_cons].
Qed.

Lemma OBtree_remove_leaf fuel m n meta h ht T k d :
  nodes n m meta h -> formatted (root T) meta -> stored h ht addrZero T -> NoDup (addrs T) -> sorted_entries (elements T) ->
  removable k d T -> settled k h T -> (ht < fuel)%nat ->
  wp (OBtree_remove fuel (root T) (Some k)) m (fun rt' m' => rt' = root T /\ exists E1 E2,
    elements T = E1 ++ (k, d) :: E2 /\ index m' n (root T) ht (E1 ++ E2)).
Proof.
  intros Hm Hfmt Hst Hnd Hs (fs & a & es1 & es2 & -> & Hok & Hkeep) Hset Hf.
  destruct (stored_unplug h fs ht addrZero (Node a (es1 ++ (k, d) :: es2) []) Hok Hst eq_refl)
    as (ht0 & p & -> & Hpath & Hst0).
  pose proof Hst0 as [(r & Hr & Hrep) Hcs]%stored_node. cbn [map] in Hrep.
  assert (ht0 = 0%nat) as -> by (destruct ht0; [reflexivity|now destruct Hcs as (_ & ? & _)]). clear Hcs.
  set (leaf := Node a (es1 ++ (k, d) :: es2) []) in *.
  assert (Hel : elements (plug fs leaf) = (left_of fs ++ es1) ++ (k, d) :: es2 ++ right_of fs).
  { rewrite elements_plug by assumption. cbn. now rewrite <- !app_assoc. }
  pose proof (stored_keys _ _ _ _ _ _ _ Hm Hst) as H20. rewrite Hel in H20.
  assert (Hk : length k = 20%nat) by (apply Forall_app in H20 as [_ [H _]%Forall_cons]; exact H).
  unfold OBtree_remove.
  wp_seq (descend_remove_spec n meta h k d a es1 es2 fs fuel (length fs + 0) addrZero) as (-> & Hm1); [lia|assumption..|].
  destruct fuel as [|fuel]; [lia|].
  assert (Hlt : Forall (fun e : entry => klt e.1 k) es1).
  { rewrite Hel in Hs. apply sorted_entries_app in Hs as (H & _). apply Forall_forall. intros e He.
    apply (H e (k, d)); set_solver. }
  wp_seq (ONode_remove_leaf_spec fuel n meta a _ h r p es1 es2 k d) as (-> & r' & Hm2 & Hrep'); [eassumption..| |].
  { destruct Hkeep as [-> |Hkeep]; [left; exact Hpath|now right]. }
  apply wp_ret. split; [reflexivity|]. exists (left_of fs ++ es1), (es2 ++ right_of fs). split; [exact Hel|].
  assert (Hnd' : NoDup (addrs leaf ++ path_addrs fs)) by now rewrite <- addrs_plug.
  assert (Eroot : root (plug fs (Node a (es1 ++ es2) [])) = root (plug fs leaf)).
  { rewrite (plug_root_eq fs leaf), (plug_root_eq fs (Node a (es1 ++ es2) [])). reflexivity. }
  exists meta, (<[lin a := r']> h), (plug fs (Node a (es1 ++ es2) [])).
  split; [assumption|]. split; [assumption|]. split; [|split; [|split; [exact Eroot|split]]].
  - apply (stored_plug _ 0 p).
    + apply (stored_path_frame h); [|exact Hpath]. intros x Hx. apply lookup_insert_ne. intros <-.
      eapply (NoDup_app_notin _ _ _ Hnd'); [|exact Hx]. apply (root_in_addrs leaf).
    + apply stored_node. split; [|reflexivity]. exists r'. split; [apply lookup_insert_eq|assumption].
  - now rewrite addrs_plug.
  - rewrite elements_plug by assumption. cbn. now rewrite <- !app_assoc.
  - apply (sorted_removed _ _ (k, d)). now rewrite <- Hel.
Qed.
End remove.

(** ** What removal promises *)

Section remove_claims.
Context {M : Type} `{mgr : OverlayManager M}.

(** C24: Removing a key from a leaf that keeps another entry (or from a root that is a leaf)
    takes exactly its entry out of the index, keeps the root and the well-formed file, and
    a search for the key finds nothing afterwards, as long as the bytes the descent
    mistakes for a key after the last one are not the key itself and no two entries share
    their first five bytes. *)
Theorem OBtree_remove_from_leaf fuel m n meta h ht T k d :
  nodes n m meta h -> formatted (root T) meta -> stored h ht addrZero T -> NoDup (addrs T) -> sorted_entries (elements T) ->
  removable k d T -> settled k h T -> (ht < fuel)%nat -> length k = 20%nat ->
  NoDup (map (fun e : entry => take 5 e.1) (elements T)) ->
  wp (rt' ← OBtree_remove fuel (root T) (Some k); o ← OBtree_find fuel rt' (Some k); mret (rt', o)) m (fun '(rt', o) m' =>
    rt' = root T /\ o = None /\ exists E1 E2, elements T = E1 ++ (k, d) :: E2 /\ index m' n rt' ht (E1 ++ E2)).
Proof.
  intros Hm Hfmt Hst Hnd Hs Hrem Hset Hf Hk Hpre.
  wp_seq OBtree_remove_leaf giving rt' as (-> & E1 & E2 & Hel & Hi); [eassumption..|].
  wp_seq OBtree_find_index giving o as (Hi2 & Ho); [eassumption|lia|assumption|]. apply wp_ret.
  split; [reflexivity|]. split; [|eauto]. destruct o as [d'|]; [|reflexivity]. destruct Ho as (k' & Hk' & Et).
  rewrite Hel, map_app in Hpre. cbn [map fst] in Hpre. rewrite <- Permutation_middle in Hpre.
  apply NoDup_cons in Hpre as [Hn _]. destruct Hn. rewrite <- Et, <- map_app.
  now apply (list_elem_of_fmap_2 (fun e : entry => take 5 e.1) (E1 ++ E2) (k', d')).
Qed.
End remove_claims.

(** A root that is a leaf, for the witness. *)
Lemma add_to_root_leaf {M} `{mgr : OverlayManager M} n meta m h a r es1 es2 k d :
  nodes n m meta h -> h !! lin a = Some r -> rep r addrZero (es1 ++ es2) [] -> (length (es1 ++ es2) <= 2)%nat ->
  in_order es1 k es2 -> length k = 20%nat ->
  wp (OBtree_add 1 a (Some k) (Some d)) m (fun a' m' => a' = a /\ exists r',
    nodes n m' meta (<[lin a := r']> h) /\ rep r' addrZero (es1 ++ (k, d) :: es2) []).
Proof.
  intros Hm Hr Hrep Hl Ho Hk. unfold OBtree_add. cbn [descend_add recursiveAdd]. apply wp_bind.
  wp_seq (childOptrCount_spec n meta a) as (-> & Hm1); [eassumption..|]. rewrite (rep_cc _ _ _ _ Hrep).
  apply wp_ret. apply wp_bind. wp_seq (keyCount_spec n meta a) as (-> & Hm2); [eassumption..|].
  rewrite (rep_kc _ _ _ _ Hrep), (proj2 (Z.leb_gt DEFAULT_KEY_COUNT _)) by (change DEFAULT_KEY_COUNT with 3; lia).
  wp_seq (simple_add_leaf n meta a _ h r addrZero es1 es2) as (r' & Hm3 & Hrep'); [eassumption..|].
  apply wp_ret, wp_ret. eauto.
Qed.

Lemma removable_root a es1 k d es2 : removable k d (Node a (es1 ++ (k, d) :: es2) []).
Proof. exists [], a, es1, es2. split; [reflexivity|]. split; [constructor|now left]. Qed.

Lemma OBtree_remove_from_leaf_witness :
  wp (_ ← manager_clear; rt ← OBtree_new; rt ← OBtree_add 1 rt (Some (sample_key 1)) (Some (addr_set 1));
      rt ← OBtree_add 1 rt (Some (sample_key 2)) (Some (addr_set 2));
      rt' ← OBtree_remove 1 rt (Some (sample_key 1)); o ← OBtree_find 1 rt' (Some (sample_key 1)); mret (rt', o))
    empty_manager (fun '(rt', o) m' => o = None /\ exists E1 E2,
      [sample_entry 1; sample_entry 2] = E1 ++ sample_entry 1 :: E2 /\ index m' 203 rt' 0 (E1 ++ E2)).
Proof.
  wp_seq empty_manager_clear as Hv.
  wp_seq (OBtree_new_nodes _ _ Hv empty_not_formatted) giving rt as (meta & Hfmt & Hm).
  wp_seq (add_to_root_leaf 203 meta _ _ rt rnode_empty [] [] (sample_key 1) (addr_set 1)) as (-> & r1 & Hm1 & Hr1);
    [exact Hm|apply lookup_insert_eq|exact rep_empty|cbn; lia|repeat constructor|reflexivity|].
  wp_seq (add_to_root_leaf 203 meta _ _ rt r1 [sample_entry 1] [] (sample_key 2) (addr_set 2)) as (-> & r2 & Hm2 & Hr2);
    [exact Hm1|apply lookup_insert_eq|exact Hr1|cbn; lia|repeat constructor|reflexivity|].
  set (h := <[lin rt := r2]> _) in Hm2.
  assert (Hh : h !! lin rt = Some r2) by apply lookup_insert_eq.
  eapply wp_mono.
  - apply (OBtree_remove_from_leaf 1 _ 203 meta h 0 (Node rt [sample_entry 1; sample_entry 2] []) (sample_key 1) (addr_set 1)).
    + exact Hm2.
    + exact Hfmt.
    + apply stored_node. split; [exists r2; split; [exact Hh|exact Hr2]|reflexivity].
    + apply NoDup_singleton.
    + repeat constructor.
    + exact (removable_root rt [] (sample_key 1) (addr_set 1) [sample_entry 2]).
    + intros x r Hx Hr Hcc. apply list_elem_of_singleton in Hx as ->. rewrite Hh in Hr. injection Hr as <-.
      rewrite (rep_cc _ _ _ _ Hr2) in Hcc. cbn in Hcc. lia.
    + lia.
    + reflexivity.
    + apply (bool_decide_unpack _). vm_compute. exact I.
  - intros [rt' o] m' (-> & -> & E1 & E2 & Hel & Hi). split; [reflexivity|]. exists E1, E2. split; [exact Hel|exact Hi].
Defined.

(** ** Where it is not *)

(** Opens a new index, adds the keys [1], ..., [n] with the data [1], ..., [n], removes
    some of them and looks one up. *)
Definition removal_run (n : nat) (removed : list Z) (k : Z) : prog (Manager FlatMem FlatMem) (option Z) :=
  _ ← manager_clear;
  rt ← OBtree_new;
  rt ← add_all 10 rt (map sample_entry (map Z.of_nat (seq 1 n)));
  rt ← foldl (fun c z => rt ← c; OBtree_remove 10 rt (Some (sample_key z))) (mret rt) removed;
  o ← OBtree_find 10 rt (Some (sample_key k));
  mret (lin <$> o).

Definition answer {S A} (r : result S A) : option A := match r with Ok a _ => Some a | _ => None end.


(** Removal damages the index.  With the keys [1], ..., [6] and their data [1], ..., [6]:
    removing key 1 makes the search for key 4 answer the data of key 2, removing key 2 makes
    it answer that of key 1, and after removing 5 and 4 the keys 2 and 3 are gone and the
    search for key 1 answers the data of key 2. *)
Theorem removal_damages_index :
  answer (removal_run 6 [] 4 empty_manager) = Some (Some 4) /\
  answer (removal_run 6 [1] 4 empty_manager) = Some (Some 2) /\
  answer (removal_run 6 [2] 4 empty_manager) = Some (Some 1) /\
  map (fun k => answer (removal_run 6 [5; 4] k empty_manager)) [1; 2; 3] = [Some (Some 2); Some None; Some None].
Proof. repeat split; vm_compute; reflexivity. Qed.
