(* ===== verification/ValueStore.v ===== *)
(** miya_db value store ([value_store_manager.cpp]): values behind a fragment header in a
    data file, over the overlay memory manager. *)
From S2P Require Import Prelude OverlayPtr CacheTable Allocator MemoryManager ItemSet NodeStore.
From Stdlib Require Import Lia.

Definition VALUE_FLAGMENT_ADDR_SIZE : nat := 5.
Definition DEFAULT_VALUE_FLAGMENT_HEADER_SIZE : Z := 2 + 5 + 5 + 8 + 8.

(** The numbers are kept at their widths of 16 and 64 bits. *)
Record ValueFragmentHeader : Type := mkHeader {
  _headerLength : Z;
  _prevFlagment : optr;
  _nextFlagment : optr;
  _valueLength : Z;
  _timestamp : Z;
}.

(** The constructor at the given time; the header length is not initialised. *)
Definition ValueFragmentHeader_new (now : Z) : ValueFragmentHeader :=
  mkHeader 0 addrZero addrZero 0 (now mod 2 ^ 64).

Definition set_valueLength (valueLength : Z) (h : ValueFragmentHeader) : ValueFragmentHeader :=
  mkHeader (_headerLength h) (_prevFlagment h) (_nextFlagment h) (valueLength mod 2 ^ 64) (_timestamp h).

Section ValueStoreManager.
Context {M : Type} `{ops : !OverlayManagerOps M}.

(** Fields are copied as they lie in memory, least significant byte first. *)
Definition ValueFragmentHeader_importBinary (startFlagmentOptr : optr) : prog M ValueFragmentHeader :=
  hl ← omemcpy_out startFlagmentOptr 2;
  q ← must (oplus startFlagmentOptr 2);
  prevOAddr ← omemcpy_out q VALUE_FLAGMENT_ADDR_SIZE; prev ← must (optr_of_bytes prevOAddr);
  q ← must (oplus startFlagmentOptr 7);
  nextOAddr ← omemcpy_out q VALUE_FLAGMENT_ADDR_SIZE; next ← must (optr_of_bytes nextOAddr);
  q ← must (oplus startFlagmentOptr 12);
  vl ← omemcpy_out q 8;
  q ← must (oplus startFlagmentOptr 20);
  ts ← omemcpy_out q 8;
  mret (mkHeader (le_decode hl) prev next (le_decode vl) (le_decode ts)).

(** [exportBianry], which sets the header length of the object to that of the format: the
    links are dereferenced, the five bytes they point at are written. *)
Definition ValueFragmentHeader_exportBianry (h : ValueFragmentHeader) : prog M (list byte) :=
  prev ← omemcpy_out (_prevFlagment h) VALUE_FLAGMENT_ADDR_SIZE;
  next ← omemcpy_out (_nextFlagment h) VALUE_FLAGMENT_ADDR_SIZE;
  mret (le_encode 2 DEFAULT_VALUE_FLAGMENT_HEADER_SIZE ++ prev ++ next
        ++ le_encode 8 (_valueLength h) ++ le_encode 8 (_timestamp h)).

(** [add( data , dataLength )]; the overload for a query does the same with its value. *)
Definition ValueStoreManager_add (now : Z) (data : buffer) (dataLength : Z) : prog M optr :=
  let flagmentHeader := set_valueLength dataLength (ValueFragmentHeader_new now) in
  exportedFlagmentHeader ← ValueFragmentHeader_exportBianry flagmentHeader;
  storeTargetOptr ← manager_allocate (Z.of_nat (length exportedFlagmentHeader) + dataLength);
  _ ← omemcpy_in storeTargetOptr exportedFlagmentHeader;
  q ← must (oplus storeTargetOptr DEFAULT_VALUE_FLAGMENT_HEADER_SIZE);
  bytes ← must (rd dataLength data);
  _ ← omemcpy_in q bytes;
  mret storeTargetOptr.

(** [get]; the length is what the header says. *)
Definition ValueStoreManager_get (targetOptr : optr) : prog M (list byte) :=
  flagmentHeader ← ValueFragmentHeader_importBinary targetOptr;
  q ← must (oplus targetOptr (_headerLength flagmentHeader));
  omemcpy_out q (Z.to_nat (_valueLength flagmentHeader)).
End ValueStoreManager.

Definition ValueStoreManager_clear {D C} `{OverlayMemOps D} `{OverlayMemOps C} : prog (Manager D C) unit := manager_clear.

(** ** Values in a file *)

(** The value [bs] is stored at [a]: a header with its length, whatever its links and time
    are, and its bytes. *)
Record value_at (v : Z -> byte) (a : Z) (bs : list byte) : Prop := {
  va_header : vlist v a 2 = le_encode 2 DEFAULT_VALUE_FLAGMENT_HEADER_SIZE;
  va_length : vlist v (a + 12) 8 = le_encode 8 (Z.of_nat (length bs));
  va_bytes : vlist v (a + 28) (length bs) = bs;
}.

Lemma value_at_frame v v' a bs :
  (forall x, a <= x < a + 28 + Z.of_nat (length bs) -> v' x = v x) -> value_at v a bs -> value_at v' a bs.
Proof.
  intros H [H1 H2 H3]. split; [rewrite <- H1|rewrite <- H2|rewrite <- H3 at 2]; apply vlist_ext; intros x Hx; apply H; lia.
Qed.

Lemma value_at_view v v' a bs : v' ≡v v -> value_at v a bs -> value_at v' a bs.
Proof. intros E. apply value_at_frame. intros x _. apply E. Qed.

(** A value right after it was written. *)
Lemma value_at_written v a p nx ts bs :
  length p = 5%nat -> length nx = 5%nat -> Z.of_nat (length bs) < 2 ^ 64 ->
  value_at (vwrite (vwrite v a (le_encode 2 DEFAULT_VALUE_FLAGMENT_HEADER_SIZE ++ p ++ nx
      ++ le_encode 8 (Z.of_nat (length bs)) ++ le_encode 8 ts)) (a + 28) bs) a bs.
Proof.
  intros Hp Hn Hl. set (hd := le_encode 2 _ ++ _). assert (Hhd : length hd = 28%nat) by (unfold hd; rewrite_length; lia).
  assert (Hrd : forall off k, (off + k <= 28)%nat ->
    vlist (vwrite (vwrite v a hd) (a + 28) bs) (a + Z.of_nat off) k = take k (drop off hd)).
  { intros off k Hk. rewrite vlist_vwrite_other by lia. rewrite <- (vlist_vwrite_same v a hd) at 2. rewrite Hhd.
    apply list_eq. intros i. destruct (decide (i < k)%nat).
    - rewrite lookup_take_lt, lookup_drop, !vlist_lookup by lia. do 2 f_equal. lia.
    - rewrite !lookup_ge_None_2; [reflexivity|rewrite length_take, length_drop, vlist_length; lia|rewrite vlist_length; lia]. }
  split.
  - pose proof (Hrd 0%nat 2%nat ltac:(lia)) as H. rewrite Z.add_0_r in H. exact H.
  - change (a + 12) with (a + Z.of_nat 12). rewrite (Hrd 12%nat 8%nat) by lia. unfold hd.
    rewrite !app_assoc, <- (app_assoc _ (le_encode 8 _)), drop_app_length' by (rewrite_length; lia).
    now rewrite take_app_length' by now rewrite le_encode_length.
  - apply vlist_vwrite_same.
Qed.

Section value_specs.
Context {M : Type} `{mgr : OverlayManager M}.

(** Reading [k] bytes at an offset of a pointer. *)
Lemma read_off {A} n (m : M) v p off k (K : list byte -> prog M A) Q :
  mholds n m v -> 0 <= lin p < 2 ^ 23 -> 0 <= off < 2 ^ 16 -> (k <= 100)%nat ->
  (forall m', mholds n m' v -> wp (K (vlist v (lin p + off) k)) m' Q) ->
  wp (q ← must (oplus p off); bs ← omemcpy_out q k; K bs) m Q.
Proof.
  intros Hv Hp Hoff Hk HK. destruct (oplus_lin p off) as (q & Eq & Elq & _); [lia..|].
  apply wp_bind. eapply wp_must; [exact Eq|].
  wp_seq (@omemcpy_out_spec M _ (manager_mem n) q k) as (-> & Hv'); [exact Hv|lia|lia|]. rewrite Elq. now apply HK.
Qed.

Lemma export_length (h : ValueFragmentHeader) (m : M) n v :
  mholds n m v -> _prevFlagment h = addrZero -> _nextFlagment h = addrZero ->
  wp (ValueFragmentHeader_exportBianry h) m (fun bs m' => mholds n m' v /\ exists p nx, length p = 5%nat /\ length nx = 5%nat /\
    bs = le_encode 2 DEFAULT_VALUE_FLAGMENT_HEADER_SIZE ++ p ++ nx ++ le_encode 8 (_valueLength h) ++ le_encode 8 (_timestamp h)).
Proof.
  intros Hv Ep En. unfold ValueFragmentHeader_exportBianry. rewrite Ep, En.
  wp_seq (@omemcpy_out_spec M _ (manager_mem n) addrZero VALUE_FLAGMENT_ADDR_SIZE) as (-> & Hv1); [exact Hv|vm_compute; reflexivity|vm_compute; discriminate|].
  wp_seq (@omemcpy_out_spec M _ (manager_mem n) addrZero VALUE_FLAGMENT_ADDR_SIZE) as (-> & Hv2); [exact Hv1|vm_compute; reflexivity|vm_compute; discriminate|].
  apply wp_ret. split; [exact Hv2|]. do 2 eexists. split; [|split; [|reflexivity]]; apply vlist_length.
Qed.

(** Adding a value puts it into fresh space and changes nothing below. *)
Lemma ValueStoreManager_add_spec now (m : M) n v bs :
  mholds n m v -> n + 28 + Z.of_nat (length bs) < 2 ^ 23 -> 0 <= n ->
  wp (ValueStoreManager_add now (Some bs) (Z.of_nat (length bs))) m (fun p m' => lin p = n /\ exists v',
    mholds (n + 28 + Z.of_nat (length bs)) m' v' /\ value_at v' n bs /\ forall x, x < n -> v' x = v x).
Proof.
  intros Hv Hs Hn. unfold ValueStoreManager_add.
  wp_seq (export_length (set_valueLength (Z.of_nat (length bs)) (ValueFragmentHeader_new now)) m n v) giving hd as
    ([Hi1 Hv1] & pv & nx & Hpv & Hnx & Ehd); [exact Hv|reflexivity|reflexivity|].
  cbn [set_valueLength ValueFragmentHeader_new _valueLength _timestamp] in Ehd. rewrite Z.mod_small in Ehd by lia.
  assert (Hhd : length hd = 28%nat) by (rewrite Ehd; rewrite_length; lia). rewrite Hhd.
  wp_seq (mg_allocate_spec (Z.of_nat 28 + Z.of_nat (length bs))) giving p as (Ep & Hi2 & Hv2); [exact Hi1|lia|lia|].
  rewrite Hv1 in Hv2. change (Z.of_nat 28) with 28 in *. set (n' := n + (28 + Z.of_nat (length bs))) in *.
  wp_seq (@omemcpy_in_spec M _ (manager_mem n') p hd) as Hv3; [split; [exact Hi2|exact Hv2]|lia|lia|].
  destruct (oplus_lin p DEFAULT_VALUE_FLAGMENT_HEADER_SIZE) as (q & Eq & Elq & _); [lia|vm_compute; repeat split; discriminate|].
  apply wp_bind. eapply wp_must; [exact Eq|]. apply wp_bind. eapply wp_must; [apply rd_all|].
  wp_seq (@omemcpy_in_spec M _ (manager_mem n') q bs) as Hv4; [exact Hv3|change DEFAULT_VALUE_FLAGMENT_HEADER_SIZE with 28 in *; lia|lia|].
  apply wp_ret. split; [assumption|]. rewrite Elq, Ep in Hv4. change DEFAULT_VALUE_FLAGMENT_HEADER_SIZE with 28 in Hv4.
  eexists. split; [replace (n + 28 + Z.of_nat (length bs)) with n' by lia; exact Hv4|]. split.
  - rewrite Ehd. apply value_at_written; [assumption..|lia].
  - intros x Hx. rewrite !vwrite_out by lia. reflexivity.
Qed.

Lemma ValueStoreManager_get_spec p (m : M) n v bs :
  mholds n m v -> value_at v (lin p) bs -> 0 <= lin p -> lin p + 28 + Z.of_nat (length bs) <= n -> n < 2 ^ 23 ->
  wp (ValueStoreManager_get p) m (fun r m' => r = bs /\ mholds n m' v).
Proof.
  intros Hv [Hh Hl Hb] H0 Hn Hn2. unfold ValueStoreManager_get, ValueFragmentHeader_importBinary, VALUE_FLAGMENT_ADDR_SIZE.
  apply wp_bind. wp_seq (@omemcpy_out_spec M _ (manager_mem n) p 2) as (-> & Hv1); [exact Hv|lia|lia|].
  eapply read_off; [exact Hv1|lia|lia|lia|]. intros m2 Hv2. apply wp_bind. eapply wp_must; [rewrite <- optr_at_vlist; apply optr_of_addr|].
  eapply read_off; [exact Hv2|lia|lia|lia|]. intros m3 Hv3. apply wp_bind. eapply wp_must; [rewrite <- optr_at_vlist; apply optr_of_addr|].
  eapply read_off; [exact Hv3|lia|lia|lia|]. intros m4 Hv4. eapply read_off; [exact Hv4|lia|lia|lia|]. intros m5 Hv5.
  apply wp_ret. cbn [_headerLength _valueLength]. rewrite Hh, Hl, !le_decode_le by (unfold DEFAULT_VALUE_FLAGMENT_HEADER_SIZE; lia).
  destruct (oplus_lin p DEFAULT_VALUE_FLAGMENT_HEADER_SIZE) as (q & Eq & Elq & _); [lia|vm_compute; repeat split; discriminate|].
  change DEFAULT_VALUE_FLAGMENT_HEADER_SIZE with 28 in *. apply wp_bind. eapply wp_must; [exact Eq|].
  wp_last (@omemcpy_out_spec M _ (manager_mem n) q) as (-> & Hv6); [exact Hv5|lia|rewrite Nat2Z.id; lia|].
  rewrite Nat2Z.id, Elq. split; [exact Hb|exact Hv6].
Qed.
End value_specs.
