(* ===== verification/MMyISAM.v ===== *)
(** miya_db storage facade ([MMyISAM.cpp], [query_context.h]): a value store and an index
    as one key-value table, with slots for safe-mode copies.  The safe-mode index is an
    interface here. *)
From stdpp Require Import sorting.
From S2P Require Import Prelude OverlayPtr CacheTable Allocator Crypto MemoryManager ItemSet NodeStore ONode NodeOps.
From S2P Require Import BTree BTreeModel BTreeAdd BTreeIndex BTreeMap BTreeRemove ValueStore.
From Stdlib Require Import Lia Sorting.Sorted.

#[local] Open Scope Z_scope.

Definition ALLOWED_SAFE_REGISTRY_COUNT : nat := 5.

(** The fields of a query that the storage reads and writes. *)
Record QueryContext : Type := mkQuery {
  q_key : buffer;
  q_value : buffer;
  q_valueLength : Z;
  q_registryIndex : Z;
}.

Definition set_query_value (data : buffer) (dataLength : Z) (q : QueryContext) : QueryContext :=
  mkQuery (q_key q) data dataLength (q_registryIndex q).

(** What the facade calls of a [SafeIndexManager], which also reads the manager [I] of the
    normal index. *)
Class SafeIndexOps (I S : Type) : Type := {
  safe_add : buffer -> optr -> prog (S * I) unit;
  safe_remove : buffer -> prog (S * I) unit;
  safe_find : buffer -> prog (S * I) (option optr * Z);
}.

(** The normal value store and index with the root node its tree has in memory, and the
    active safe-mode indexes and value stores. *)
Record MMyISAM (I S : Type) : Type := mkMMyISAM {
  normal_valueStoreManager : I;
  normal_indexManager : I;
  normal_rootONode : optr;
  activeSafeIndexManagerArray : list (option S);
  activeValueStoreManagerArray : list (option I);
}.
Arguments mkMMyISAM {I S} _ _ _ _ _.
Arguments normal_valueStoreManager {I S} _.
Arguments normal_indexManager {I S} _.
Arguments normal_rootONode {I S} _.
Arguments activeSafeIndexManagerArray {I S} _.
Arguments activeValueStoreManagerArray {I S} _.

Section MMyISAM.
Context {D C S : Type} {Dops : OverlayMemOps D} {Cops : OverlayMemOps C} {ssl : OpenSSL}.
Context `{safe : !SafeIndexOps (Manager D C) S}.
Notation DB := (MMyISAM (Manager D C) S).
Implicit Types (s : DB) (qctx : QueryContext).

Definition on_values {A} (c : prog (Manager D C) A) : prog DB A :=
  zoom normal_valueStoreManager (fun v s => mkMMyISAM v (normal_indexManager s) (normal_rootONode s)
    (activeSafeIndexManagerArray s) (activeValueStoreManagerArray s)) c.

Definition on_index {A} (c : prog (Manager D C) A) : prog DB A :=
  zoom normal_indexManager (fun i s => mkMMyISAM (normal_valueStoreManager s) i (normal_rootONode s)
    (activeSafeIndexManagerArray s) (activeValueStoreManagerArray s)) c.

Definition set_root_node (r : optr) : prog DB unit := modify (fun s =>
  mkMMyISAM (normal_valueStoreManager s) (normal_indexManager s) r
    (activeSafeIndexManagerArray s) (activeValueStoreManagerArray s)).

Definition clearSafeMode : prog DB unit := modify (fun s =>
  mkMMyISAM (normal_valueStoreManager s) (normal_indexManager s) (normal_rootONode s)
    (map (fun _ => None) (activeSafeIndexManagerArray s)) (map (fun _ => None) (activeValueStoreManagerArray s))).

(** [_normal._indexManager->add] and [remove]: the tree keeps a new root. *)
Definition normal_add (fuel : nat) (key : buffer) (dataOptr : optr) : prog DB unit :=
  s ← get_state;
  r ← on_index (OBtree_add fuel (normal_rootONode s) key (Some dataOptr));
  set_root_node r.

Definition normal_remove (fuel : nat) (key : buffer) : prog DB unit :=
  s ← get_state;
  r ← on_index (OBtree_remove fuel (normal_rootONode s) key);
  set_root_node r.

Definition normal_find (fuel : nat) (key : buffer) : prog DB (option optr * Z) :=
  s ← get_state; on_index (NormalIndexManager_find fuel (normal_rootONode s) key).

(** [array.at( index )]: the slot, empty or not. *)
Definition slot {A} (arr : DB -> list (option A)) (index : Z) : prog DB (option A) :=
  s ← get_state;
  match arr s !! Z.to_nat index with Some o => mret o | None => throw OutOfRange end.

(** Running code on an active safe-mode value store or index. *)
Definition on_safe_values {A} (index : Z) (vs : Manager D C) (c : prog (Manager D C) A) : prog DB A :=
  zoom (fun _ => vs) (fun vs' s => mkMMyISAM (normal_valueStoreManager s) (normal_indexManager s) (normal_rootONode s)
    (activeSafeIndexManagerArray s) (<[Z.to_nat index := Some vs']> (activeValueStoreManagerArray s))) c.

Definition on_safe_index {A} (index : Z) (im : S) (c : prog (S * Manager D C) A) : prog DB A :=
  zoom (fun s => (im, normal_indexManager s)) (fun p s => mkMMyISAM (normal_valueStoreManager s) p.2 (normal_rootONode s)
    (<[Z.to_nat index := Some p.1]> (activeSafeIndexManagerArray s)) (activeValueStoreManagerArray s)) c.

(** [add]. *)
Definition MMyISAM_add (fuel : nat) (now : Z) (qctx : QueryContext) : prog DB bool :=
  let registryIndex := q_registryIndex qctx in
  if 0 <=? registryIndex then
    valueStoreManager ← slot activeValueStoreManagerArray registryIndex;
    match valueStoreManager with
    | None => mret false
    | Some vs =>
        storeTarget ← on_safe_values registryIndex vs (ValueStoreManager_add now (q_value qctx) (q_valueLength qctx));
        indexManager ← slot activeSafeIndexManagerArray registryIndex;
        match indexManager with
        | None => mret false
        | Some im => _ ← on_safe_index registryIndex im (safe_add (q_key qctx) storeTarget); mret true
        end
    end
  else
    storeTarget ← on_values (ValueStoreManager_add now (q_value qctx) (q_valueLength qctx));
    _ ← normal_add fuel (q_key qctx) storeTarget;
    _ ← on_index (syncDBState now);
    _ ← clearSafeMode;
    mret true.

(** [get]: true and the query with the value. In safe mode the value is read from the
    safe store wherever it is located. *)
Definition MMyISAM_get (fuel : nat) (qctx : QueryContext) : prog DB (bool * QueryContext) :=
  let registryIndex := q_registryIndex qctx in
  let answer (get : optr -> prog DB (list byte)) (dataOptr : option optr * Z) :=
    match dataOptr.1 with
    | None => mret (false, qctx)
    | Some p =>
        if (dataOptr.2 =? 0) || (dataOptr.2 =? 1) then
          data ← get p; mret (true, set_query_value (Some data) (Z.of_nat (length data)) qctx)
        else undef
    end in
  if 0 <=? registryIndex then
    safeIndexManager ← slot activeSafeIndexManagerArray registryIndex;
    match safeIndexManager with
    | None => mret (false, qctx)
    | Some im =>
        dataOptr ← on_safe_index registryIndex im (safe_find (q_key qctx));
        valueStoreManager ← slot activeValueStoreManagerArray registryIndex;
        answer (fun p => vs ← must valueStoreManager; on_safe_values registryIndex vs (ValueStoreManager_get p)) dataOptr
    end
  else
    dataOptr ← normal_find fuel (q_key qctx);
    answer (fun p => on_values (ValueStoreManager_get p)) dataOptr.

(** [remove]: the value stays in the store. *)
Definition MMyISAM_remove (fuel : nat) (qctx : QueryContext) : prog DB bool :=
  let registryIndex := q_registryIndex qctx in
  if 0 <=? registryIndex then
    safeIndexManager ← slot activeSafeIndexManagerArray registryIndex;
    match safeIndexManager with
    | None => mret false
    | Some im => _ ← on_safe_index registryIndex im (safe_remove (q_key qctx)); mret true
    end
  else
    _ ← normal_remove fuel (q_key qctx);
    _ ← clearSafeMode;
    mret true.

(** [exists]: the result of [find] is dropped, the pointer that is tested is the one the
    function started with. *)
Definition MMyISAM_exists (fuel : nat) (qctx : QueryContext) : prog DB bool :=
  let registryIndex := q_registryIndex qctx in
  let retDataOptr : option optr := None in
  let answer := match retDataOptr with None => mret false | Some _ => mret true end in
  if 0 <=? registryIndex then
    indexManager ← slot activeSafeIndexManagerArray registryIndex;
    match indexManager with
    | None => mret false
    | Some im => _ ← on_safe_index registryIndex im (safe_find (q_key qctx)); answer
    end
  else _ ← normal_find fuel (q_key qctx); answer.

(** [safeAbortExit] closes the copies of every slot. *)
Definition safeAbortExit (qctx : QueryContext) : prog DB bool :=
  if q_registryIndex qctx <? 0 then mret false else _ ← clearSafeMode; mret true.

(** [NormalIndexManager( indexFilePath )] on its file, opened: the root of the tree. *)
Definition NormalIndexManager_new (now : Z) : prog (Manager D C) optr :=
  root ← OBtree_new; _ ← syncDBState now; mret root.

(** The constructor, on the managers of files that were opened. *)
Definition MMyISAM_new (now : Z) (values index : Manager D C) : result unit DB :=
  match NormalIndexManager_new now index with
  | Ok root index' => Ok (mkMMyISAM values index' root (replicate ALLOWED_SAFE_REGISTRY_COUNT None) (replicate ALLOWED_SAFE_REGISTRY_COUNT None)) tt
  | Throw e _ => Throw e tt
  | Undef => Undef
  end.
End MMyISAM.

(** ** The database as a finite map *)

Section database.
Context {D C S : Type} `{memD : OverlayMem D} `{memC : OverlayMem C} {ssl : OpenSSL}.
Context `{safe : !SafeIndexOps (Manager D C) S}.
Notation DB := (MMyISAM (Manager D C) S).

(** An index entry [x.1.1], [x.2] whose data pointer leads to the stored value [x.1.2]. *)
Definition stored_value (v : Z -> byte) (n : Z) (x : list byte * list byte * optr) : Prop :=
  value_at v (lin x.2) x.1.2 /\ lin x.2 + 28 + Z.of_nat (length x.1.2) <= n.

(** The table holds the pairs [kvs], newest first: the values in the store, which is
    allocated up to [n1], the keys in the index, allocated up to [n2], of height [ht]. *)
Definition database (s : DB) (n1 n2 : Z) (ht : nat) (kvs : list (list byte * list byte)) : Prop :=
  exists v l E, mholds n1 (normal_valueStoreManager s) v /\ 0 <= n1 < 2 ^ 23 /\
    index (normal_indexManager s) n2 (normal_rootONode s) ht E /\
    E ≡ₚ map (fun x : list byte * list byte * optr => (x.1.1, x.2)) l /\ map fst l = kvs /\ Forall (stored_value v n1) l.

Lemma lin_nonneg p : 0 <= lin p.
Proof. pose proof (lin_range p). lia. Qed.

Lemma index_state_code (m : Manager D C) n rt ht E now :
  index m n rt ht E -> wp (syncDBState now) m (fun _ m' => index m' n rt ht E).
Proof.
  intros (meta & h & T & (v & Hv & Hrest) & Hi). wp_last syncDBState_spec as Hv'; [exact Hv|].
  exists meta, h, T. split; [exists v; now split|exact Hi].
Qed.

Lemma NormalIndexManager_new_fresh now (m : Manager D C) w :
  mholds 0 m w -> vlist w 0 20 <> FORMAT_CODE -> wp (NormalIndexManager_new now) m (fun rt m' => index m' 203 rt 0 []).
Proof.
  intros Hw Hf. unfold NormalIndexManager_new. wp_seq OBtree_new_fresh giving rt as Hi; [eassumption..|].
  wp_seq index_state_code as Hi'; [exact Hi|]. exact Hi'.
Qed.

Lemma database_new now (values index : Manager D C) v w :
  mholds 0 values v -> mholds 0 index w -> vlist w 0 20 <> FORMAT_CODE ->
  exists s, MMyISAM_new (S := S) now values index = Ok s tt /\ database s 0 203 0 [] /\
    activeSafeIndexManagerArray s = replicate 5 None /\ activeValueStoreManagerArray s = replicate 5 None.
Proof.
  intros Hv Hw Hf. pose proof (NormalIndexManager_new_fresh now index w Hw Hf) as H. unfold MMyISAM_new, wp in *.
  destruct (NormalIndexManager_new now index) as [rt i| |]; try contradiction. eexists. split; [reflexivity|].
  split; [|split; reflexivity]. exists v, [], []. split; [exact Hv|]. split; [lia|]. split; [exact H|].
  split; [reflexivity|]. split; [reflexivity|constructor].
Qed.

Lemma stored_value_frame v v' n n' x :
  (forall a, a < n -> v' a = v a) -> n <= n' -> stored_value v n x -> stored_value v' n' x.
Proof.
  intros H Hn [Hv Hl]. split; [|lia]. apply (value_at_frame v); [|assumption].
  intros a Ha. apply H. lia.
Qed.

Definition normal_query (k bs : list byte) : QueryContext := mkQuery (Some k) (Some bs) (Z.of_nat (length bs)) (-1).

Lemma database_add fuel now s n1 n2 ht kvs k bs :
  database s n1 n2 ht kvs -> k ∉ map fst kvs -> length k = 20%nat -> (ht < fuel)%nat ->
  n1 + 28 + Z.of_nat (length bs) < 2 ^ 23 -> n2 + 103 * (Z.of_nat ht + 2) < 2 ^ 23 ->
  wp (MMyISAM_add fuel now (normal_query k bs)) s (fun r s' => r = true /\ exists n2' ht',
    database s' (n1 + 28 + Z.of_nat (length bs)) n2' ht' ((k, bs) :: kvs) /\
    n2 <= n2' <= n2 + 103 * (Z.of_nat ht + 2) /\ (ht' <= Datatypes.S ht)%nat /\
    Forall (fun o => o = None) (activeSafeIndexManagerArray s') /\ Forall (fun o => o = None) (activeValueStoreManagerArray s')).
Proof.
  intros (v & l & E & Hv & Hn1 & Hi & HE & Hl & Hst) Hk Hk20 Hf Hs1 Hs2. unfold MMyISAM_add, normal_query.
  cbn [q_registryIndex q_value q_valueLength q_key]. change (0 <=? -1) with false. cbv iota.
  apply wp_bind, wp_zoom. wp_last (ValueStoreManager_add_spec now _ n1 v bs) giving p as (Ep & v' & Hv' & Hva & Hfr); [exact Hv|lia|lia|].
  unfold normal_add. apply wp_bind, wp_bind, wp_get. apply wp_bind, wp_zoom. cbn [normal_indexManager normal_rootONode].
  wp_last (OBtree_add_index fuel _ n2 (normal_rootONode s) ht E k p) giving rt as (n2' & ht' & E1 & E2 & -> & Hi' & Hn2 & Hht);
    [exact Hi| |assumption..|].
  { intros Hin. apply Hk. rewrite <- Hl. rewrite HE, map_map in Hin. rewrite map_map. exact Hin. }
  apply wp_modify. apply wp_bind, wp_zoom. wp_last index_state_code as Hi''; [exact Hi'|].
  unfold clearSafeMode. apply wp_bind, wp_modify, wp_ret. split; [reflexivity|]. exists n2', ht'.
  split; [|split; [assumption|split; [assumption|split; apply Forall_map, Forall_true; reflexivity]]].
  exists v', ((k, bs, p) :: l), (E1 ++ (k, p) :: E2). split; [exact Hv'|]. split; [lia|]. split; [exact Hi''|].
  split; [cbn [map fst snd]; now rewrite <- Permutation_middle, HE|]. split; [cbn; now rewrite Hl|].
  constructor; [split; cbn [fst snd]; rewrite Ep; [assumption|lia]|].
  eapply Forall_impl; [exact Hst|]. intros x. apply stored_value_frame; [assumption|lia].
Qed.

Lemma database_height s n1 n2 ht kvs : database s n1 n2 ht kvs -> Z.of_nat ht <= Z.log2 (Z.of_nat (length kvs) + 1).
Proof.
  intros (v & l & E & _ & _ & Hi & HE & <- & _). apply index_height in Hi. rewrite HE, length_map in Hi. now rewrite length_map.
Qed.

(** What [get] answers: the value of a pair whose key starts with the same five bytes. *)
Definition got (kvs : list (list byte * list byte)) (k : list byte) (r : bool * QueryContext) (qctx : QueryContext) : Prop :=
  (exists k' bs, (k', bs) ∈ kvs /\ take 5 k' = take 5 k /\ r = (true, set_query_value (Some bs) (Z.of_nat (length bs)) qctx)) \/
  (Forall (fun kv => take 5 kv.1 <> take 5 k) kvs /\ r = (false, qctx)).

Lemma database_get_any fuel s n1 n2 ht kvs k value len :
  database s n1 n2 ht kvs -> (5 <= length k)%nat -> (ht < fuel)%nat ->
  wp (MMyISAM_get fuel (mkQuery (Some k) value len (-1))) s (fun r s' => got kvs k r (mkQuery (Some k) value len (-1)) /\ database s' n1 n2 ht kvs).
Proof.
  intros (v & l & E & Hv & Hn1 & Hi & HE & Hl & Hst) Hk Hf. unfold MMyISAM_get.
  cbn [q_registryIndex q_value q_valueLength q_key]. change (0 <=? -1) with false. cbv iota.
  unfold normal_find. apply wp_bind, wp_bind, wp_get. apply wp_zoom. unfold NormalIndexManager_find.
  wp_seq (OBtree_find_index fuel _ n2 _ ht E k) giving o as (Hi' & Ho); [exact Hi|assumption..|]. apply wp_ret.
  apply (finds_permutation 5 _ E _ o HE) in Ho. cbn [fst snd].
  destruct o as [p|]; cbn [finds] in Ho.
  - destruct Ho as (k' & Hin & Et). apply list_elem_of_fmap in Hin as ([[k0 bs0] p0] & [= -> ->] & Hin). cbn [fst snd] in *.
    rewrite Forall_forall in Hst. destruct (Hst _ Hin) as [Hva Hle]. cbn [fst snd] in *.
    change ((DATA_OPTR_LOCATED_AT_NORMAL =? 0) || (DATA_OPTR_LOCATED_AT_NORMAL =? 1)) with true. cbv iota.
    apply wp_bind, wp_zoom. wp_last (ValueStoreManager_get_spec p0 _ n1 v bs0) as (-> & Hv'); [exact Hv|assumption|apply lin_nonneg|lia|lia|].
    apply wp_ret. split.
    + left. exists k0, bs0. split; [|split; [assumption|reflexivity]]. rewrite <- Hl. now apply (list_elem_of_fmap_2 fst l (k0, bs0, p0)).
    + exists v, l, E. split; [exact Hv'|]. split; [lia|]. split; [exact Hi'|]. split; [assumption|]. split; [assumption|now apply Forall_forall].
  - apply wp_ret. split.
    + right. split; [|reflexivity]. rewrite <- Hl. rewrite Forall_map in Ho |- *. exact Ho.
    + exists v, l, E. split; [exact Hv|]. split; [lia|]. split; [exact Hi'|]. now repeat split.
Qed.

Lemma database_get fuel s n1 n2 ht kvs k bs :
  database s n1 n2 ht kvs -> (5 <= length k)%nat -> (ht < fuel)%nat ->
  wp (MMyISAM_get fuel (normal_query k bs)) s (fun r s' => got kvs k r (normal_query k bs) /\ database s' n1 n2 ht kvs).
Proof. apply database_get_any. Qed.

(** Pairs whose keys differ in the first five bytes are told apart by them. *)
Lemma pair_unique (kvs : list (list byte * list byte)) k bs k' bs' :
  NoDup (map (fun kv => take 5 kv.1) kvs) -> (k, bs) ∈ kvs -> (k', bs') ∈ kvs -> take 5 k' = take 5 k -> (k', bs') = (k, bs).
Proof.
  intros Hnd Hk Hin Et. apply list_elem_of_lookup in Hk as [i Hi], Hin as [j Hj].
  assert (i = j) as <-; [|congruence].
  apply (NoDup_lookup _ i j (take 5 k) Hnd); rewrite list_lookup_fmap; [now rewrite Hi|rewrite Hj; cbn; now rewrite Et].
Qed.

(** A sequence of additions in normal mode; true when all of them answer true. *)
Fixpoint add_pairs (fuel : nat) (now : Z) (kvs : list (list byte * list byte)) : prog DB bool :=
  match kvs with
  | [] => mret true
  | (k, bs) :: kvs' =>
      r ← MMyISAM_add fuel now (normal_query k bs); rs ← add_pairs fuel now kvs'; mret (r && rs)
  end.

Fixpoint values_size (kvs : list (list byte * list byte)) : Z :=
  match kvs with [] => 0 | (_, bs) :: kvs' => 28 + Z.of_nat (length bs) + values_size kvs' end.

Lemma values_size_nonneg kvs : 0 <= values_size kvs.
Proof. induction kvs as [|[k bs] kvs IH]; cbn; lia. Qed.

Lemma add_pairs_database fuel now kvs : forall s n1 n2 ht old,
  database s n1 n2 ht old -> NoDup (map fst kvs ++ map fst old) -> Forall (fun kv => length kv.1 = 20%nat) kvs ->
  (ht + length kvs <= fuel)%nat -> n1 + values_size kvs < 2 ^ 23 -> room n2 (length old) (length kvs) ->
  wp (add_pairs fuel now kvs) s (fun r s' => r = true /\ exists n1' n2' ht' new,
    database s' n1' n2' ht' new /\ new ≡ₚ kvs ++ old /\ (ht' <= ht + length kvs)%nat).
Proof.
  induction kvs as [|[k bs] kvs IH]; intros s n1 n2 ht old Hdb Hnd H20 Hf Hn Hr; cbn [add_pairs map app fst length values_size] in *.
  - apply wp_ret. split; [reflexivity|]. exists n1, n2, ht, old. split; [assumption|]. split; [reflexivity|lia].
  - apply NoDup_cons in Hnd as [Hk Hnd]. apply Forall_cons in H20 as [Hk20 H20]. rewrite elem_of_app in Hk.
    pose proof (values_size_nonneg kvs). pose proof (database_height _ _ _ _ _ Hdb) as Hht. pose proof (room_one n2 ht _ (length kvs) Hr Hht).
    wp_seq (database_add fuel now s n1 n2 ht old k bs) giving r as (-> & n2' & ht' & Hdb' & Hn2 & Hht' & _);
      [assumption|tauto|assumption|lia|lia|assumption|].
    wp_seq (IH _ (n1 + 28 + Z.of_nat (length bs)) n2' ht' ((k, bs) :: old)) giving rs as (-> & n1' & n2'' & ht'' & new & Hdb'' & Hp & Hh);
      [assumption| |assumption|lia|lia|exact (room_step n2 n2' ht _ _ Hr Hht (proj2 Hn2))|].
    + cbn [map fst]. rewrite <- Permutation_middle. apply NoDup_cons. split; [|assumption]. rewrite elem_of_app. tauto.
    + apply wp_ret. split; [reflexivity|]. exists n1', n2'', ht'', new. split; [assumption|]. split; [|lia].
      rewrite Hp. apply Permutation_sym, Permutation_middle.
Qed.
End database.

(** ** What the database promises *)

Section database_claims.
Context {D C S : Type} `{memD : OverlayMem D} `{memC : OverlayMem C} {ssl : OpenSSL}.
Context `{safe : !SafeIndexOps (Manager D C) S}.
Notation DB := (MMyISAM (Manager D C) S).

(** C2: A new database is a key-value table: after any sequence of additions of pairs
    whose keys differ in their first five bytes, all of which answer true, [get] answers
    true and exactly the bytes that were added for every key, and false for every key
    whose first five bytes were not added. Index and values live in two files of bytes
    behind page caches and allocators. The sequence has to fit the files: the values with
    28 bytes of header each take less than 8 MiB in all, and there are at most as many
    additions as [room] allows, which counts for each of them a new node on every level of a
    binary tree and a new root: at most 5817. *)
Theorem database_refines_map fuel now (values index : Manager D C) v w kvs :
  mholds 0 values v -> mholds 0 index w -> vlist w 0 20 <> FORMAT_CODE ->
  Forall (fun kv => length kv.1 = 20%nat) kvs -> NoDup (map (fun kv => take 5 kv.1) kvs) ->
  (length kvs < fuel)%nat -> values_size kvs < 2 ^ 23 -> room 203 0 (length kvs) ->
  exists s, MMyISAM_new (S := S) now values index = Ok s tt /\
  wp (add_pairs fuel now kvs) s (fun r s' => r = true /\
    (forall k bs, (k, bs) ∈ kvs -> wp (MMyISAM_get fuel (normal_query k [])) s' (fun r _ =>
       r = (true, normal_query k bs))) /\
    (forall k, (5 <= length k)%nat -> take 5 k ∉ map (fun kv => take 5 kv.1) kvs ->
       wp (MMyISAM_get fuel (normal_query k [])) s' (fun r _ => r = (false, normal_query k [])))).
Proof.
  intros Hv Hw Hf H20 Hnd Hfuel Hn Hr. destruct (database_new (S := S) now values index v w Hv Hw Hf) as (s & Es & Hdb & _).
  exists s. split; [exact Es|].
  assert (Hnd' : NoDup (map fst kvs ++ map fst (@nil (list byte * list byte)))).
  { cbn. rewrite app_nil_r. apply (NoDup_fmap_1 (take 5)). now rewrite <- list_fmap_compose. }
  wp_last (add_pairs_database fuel now kvs s 0 203 0 []) giving r as (-> & n1 & n2 & ht & new & Hdb' & Hp & Hh);
    [assumption..|lia|lia|assumption|]. rewrite app_nil_r in Hp. split; [reflexivity|]. rewrite Forall_forall in H20. split.
  - intros k bs Hk. pose proof (H20 _ Hk) as Hk20. cbn in Hk20.
    wp_last (database_get fuel _ n1 n2 ht new k []) giving r as (Hgot & _); [eassumption|lia|lia|].
    destruct Hgot as [(k' & bs' & Hin & Et & ->)|[Hn' _]].
    + rewrite Hp in Hin. now injection (pair_unique kvs k bs k' bs' Hnd Hk Hin Et) as -> ->.
    + rewrite Forall_forall in Hn'. rewrite <- Hp in Hk. now destruct (Hn' _ Hk).
  - intros k Hk Hnin. wp_last (database_get fuel _ n1 n2 ht new k []) giving r as (Hgot & _); [eassumption|assumption|lia|].
    destruct Hgot as [(k' & bs' & Hin & Et & ->)|[_ ->]]; [|reflexivity]. destruct Hnin. rewrite <- Et. rewrite Hp in Hin.
    now apply (list_elem_of_fmap_2 (fun kv : list byte * list byte => take 5 kv.1) kvs (k', bs')).
Qed.

(** [exists] answers false for every key, also for those [get] finds. *)
Theorem exists_misses_every_key fuel (s : DB) n1 n2 ht kvs k bs :
  database s n1 n2 ht kvs -> (k, bs) ∈ kvs -> length k = 20%nat -> (ht < fuel)%nat ->
  wp (MMyISAM_exists fuel (normal_query k [])) s (fun r s' => r = false /\
    wp (MMyISAM_get fuel (normal_query k [])) s' (fun r _ => r.1 = true)).
Proof.
  intros Hdb Hk Hk20 Hf. pose proof Hdb as (v & l & E & Hv & Hn1 & Hi & Hrest). unfold MMyISAM_exists, normal_query, normal_find.
  cbn [q_registryIndex q_key]. change (0 <=? -1) with false. cbv iota. apply wp_bind, wp_bind, wp_get. apply wp_zoom.
  unfold NormalIndexManager_find. wp_seq (OBtree_find_index fuel _ n2 _ ht E k) giving o as (Hi' & Ho); [exact Hi|lia|assumption|].
  apply wp_ret, wp_ret. split; [reflexivity|].
  eapply wp_mono; [apply (database_get fuel _ n1 n2 ht kvs k []); [|lia|assumption]|].
  - exists v, l, E. split; [exact Hv|]. split; [lia|]. split; [exact Hi'|exact Hrest].
  - intros r s2 [[(k' & bs' & _ & _ & ->)|[Hn _]] _]; [reflexivity|].
    rewrite Forall_forall in Hn. now destruct (Hn _ Hk).
Qed.

(** In safe mode [get] never reads the normal value store, whatever location the index
    gives: for an entry that was not changed since the copy was opened, it reads the
    bytes at the pointer's address in the safe store. *)
Theorem safe_get_reads_safe_store fuel (s : DB) values k bs r i :
  (0 <= i) -> answer (MMyISAM_get fuel (mkQuery k bs r i) (mkMMyISAM values (normal_indexManager s) (normal_rootONode s)
    (activeSafeIndexManagerArray s) (activeValueStoreManagerArray s))) = answer (MMyISAM_get fuel (mkQuery k bs r i) s).
Proof.
  intros Hi. destruct s as [vals ix rt si sv]. unfold MMyISAM_get, slot, on_safe_index, on_safe_values, zoom.
  cbn [q_registryIndex q_key]. rewrite (proj2 (Z.leb_le 0 i)) by assumption.
  monad_step. cbn [activeSafeIndexManagerArray activeValueStoreManagerArray normal_indexManager normal_rootONode].
  destruct (si !! Z.to_nat i) as [[im|]|]; [|reflexivity|reflexivity].
  cbn [activeSafeIndexManagerArray activeValueStoreManagerArray normal_indexManager normal_rootONode normal_valueStoreManager].
  destruct (safe_find k (im, ix)) as [[p loc] [im' ix']|e [im' ix']|]; [|reflexivity|reflexivity].
  cbn [activeValueStoreManagerArray fst snd]. destruct (sv !! Z.to_nat i) as [ov|]; [|reflexivity].
  destruct p as [p|]; [|reflexivity]. destruct (_ || _)%bool; [|reflexivity]. destruct ov as [vs|]; [|reflexivity].
  destruct (ValueStoreManager_get p vs); reflexivity.
Qed.
End database_claims.

(** ** The same on concrete empty files *)

(** A safe-mode index that finds every key at the pointer zero, for the witnesses. *)
#[local] Instance sample_safe : SafeIndexOps (Manager FlatMem FlatMem) unit := {|
  safe_add _ _ := mret tt;
  safe_remove _ := mret tt;
  safe_find _ := mret (Some addrZero, DATA_OPTR_LOCATED_AT_NORMAL);
|}.

Lemma cleared_manager : exists m, manager_clear empty_manager = Ok tt m /\ mholds 0 m (fm_view empty_file).
Proof. destruct (wp_inv _ _ _ empty_manager_clear) as ([] & m & Em & Hm). eauto. Qed.

Definition sample_pairs : list (list byte * list byte) :=
  [(sample_key 3, [x01; x02]); (sample_key 1, []); (sample_key 7, [xff])].

Lemma database_refines_map_witness : exists m s,
  manager_clear empty_manager = Ok tt m /\ MMyISAM_new (S := unit) 1700000000 m m = Ok s tt /\
  wp (add_pairs 4 1700000000 sample_pairs) s (fun r s' => r = true /\
    (forall k bs, (k, bs) ∈ sample_pairs -> wp (MMyISAM_get 4 (normal_query k [])) s' (fun r _ =>
       r = (true, normal_query k bs))) /\
    (forall k, (5 <= length k)%nat -> take 5 k ∉ map (fun kv => take 5 kv.1) sample_pairs ->
       wp (MMyISAM_get 4 (normal_query k [])) s' (fun r _ => r = (false, normal_query k [])))).
Proof.
  destruct cleared_manager as (m & Em & Hm).
  destruct (database_refines_map (S := unit) 4 1700000000 m m (fm_view empty_file) (fm_view empty_file) sample_pairs) as (s & Es & Hs);
    [exact Hm|exact Hm|exact empty_not_formatted|repeat constructor| |cbn; lia|vm_compute; reflexivity|vm_compute; reflexivity|].
  - apply (bool_decide_unpack _). vm_compute. exact I.
  - exists m, s. split; [exact Em|]. split; [exact Es|exact Hs].
Defined.

Lemma exists_misses_every_key_witness : exists m s,
  manager_clear empty_manager = Ok tt m /\ MMyISAM_new (S := unit) 1700000000 m m = Ok s tt /\
  wp (MMyISAM_add 2 1700000000 (normal_query (sample_key 3) [x01])) s (fun r s' =>
    wp (MMyISAM_exists 2 (normal_query (sample_key 3) [])) s' (fun r s2 => r = false /\
      wp (MMyISAM_get 2 (normal_query (sample_key 3) [])) s2 (fun r _ => r.1 = true))).
Proof.
  destruct cleared_manager as (m & Em & Hm).
  destruct (database_new (S := unit) 1700000000 m m (fm_view empty_file) (fm_view empty_file) Hm Hm empty_not_formatted) as (s & Es & Hdb & _).
  exists m, s. split; [exact Em|]. split; [exact Es|].
  wp_last (database_add 2 1700000000 s 0 203 0 [] (sample_key 3) [x01]) giving r as (_ & n2 & ht & Hdb' & _ & Hht & _);
    [exact Hdb|intros H; inversion H|reflexivity|lia|cbn; lia|lia|].
  apply (exists_misses_every_key 2 _ (0 + 28 + Z.of_nat 1) n2 ht [(sample_key 3, [x01])] (sample_key 3) [x01]);
    [exact Hdb'|left|reflexivity|lia].
Defined.

Lemma safe_get_reads_safe_store_witness : exists m,
  manager_clear empty_manager = Ok tt m /\
  forall values, answer (MMyISAM_get 2 (mkQuery (Some (sample_key 3)) None 0 0)
      (mkMMyISAM values m addrZero [Some tt] [Some m])) =
    answer (MMyISAM_get 2 (mkQuery (Some (sample_key 3)) None 0 0) (mkMMyISAM m m addrZero [Some tt] [Some m])).
Proof.
  destruct cleared_manager as (m & Em & Hm). exists m. split; [exact Em|]. intros values.
  apply (safe_get_reads_safe_store 2 (mkMMyISAM m m addrZero [Some tt] [Some m]) values (Some (sample_key 3)) None 0 0). lia.
Defined.
