(* ===== verification/SafeONode.v ===== *)
(** miya_db safe-mode nodes ([safe_o_node.cpp]): a copy-on-write view of the B-tree. A node
    is still the pointer it was reached by; the conversion table says whether its item set
    lies in the normal file or was copied to the safe file, and where the data of its
    entries are. *)
From S2P Require Import Prelude OverlayPtr MemoryManager ItemSet ONode BTree.
From Stdlib Require Import Lia.

Definition DATA_OPTR_LOCATED_AT_SAFE : Z := 1.

#[global] Instance optr_countable : Countable optr := inj_countable' lin addr_set addr_set_lin.

(** A data pointer and the file it points into. *)
Definition DataOptrEx : Type := option optr * Z.

Record MappingContext : Type := mkMapping {
  _optr : optr;
  _dataOptrLocation : list Z;
}.

Definition MappingContext_new (target : optr) : MappingContext :=
  mkMapping target (replicate (Z.to_nat DEFAULT_DATA_OPTR_COUNT) DATA_OPTR_LOCATED_AT_NORMAL).

(** The conversion table with the managers of the two files. *)
Record ONodeConversionTable (M : Type) : Type := mkTable {
  _entryMap : gmap optr MappingContext;
  _safeOMemoryManager : M;
  _normalOMemoryManager : M;
}.
Arguments mkTable {M} _ _ _.
Arguments _entryMap {M} _.
Arguments _safeOMemoryManager {M} _.
Arguments _normalOMemoryManager {M} _.

(** A pointer with the file its [cacheTable()] belongs to. *)
Inductive node_file : Type :=
| NormalFile
| SafeFile.

Record placed : Type := mkPlaced {
  in_file : node_file;
  place : optr;
}.

Record ONodeConversionTableEntryDetail : Type := mkDetail {
  convertedONode : placed;
  detail_value : option MappingContext;
}.

Definition isExists (d : ONodeConversionTableEntryDetail) : bool := bool_decide (is_Some (detail_value d)).

Section SafeONode.
Context {M : Type} `{ops : !OverlayManagerOps M}.
Notation CT := (ONodeConversionTable M).

Definition on_safe {A} (c : prog M A) : prog CT A :=
  zoom _safeOMemoryManager (fun m t => mkTable (_entryMap t) m (_normalOMemoryManager t)) c.

Definition on_normal {A} (c : prog M A) : prog CT A :=
  zoom _normalOMemoryManager (fun m t => mkTable (_entryMap t) (_safeOMemoryManager t) m) c.

(** Running code of an item set where it lies. *)
Definition cget {A} (c : placed) (g : optr -> prog M A) : prog CT A :=
  match in_file c with NormalFile => on_normal (g (place c)) | SafeFile => on_safe (g (place c)) end.

(** [omemcpy( optr* , optr* , n )] between two files. *)
Fixpoint omemcpy_between_from (dest src : placed) (i : Z) (n : nat) : prog CT unit :=
  match n with
  | O => mret tt
  | S n' =>
      q ← must (oplus (place src) i);
      b ← cget (mkPlaced (in_file src) q) value;
      r ← must (oplus (place dest) i);
      _ ← cget (mkPlaced (in_file dest) r) (fun r => set_value r b);
      omemcpy_between_from dest src (i + 1) n'
  end.

Definition omemcpy_between (dest src : placed) (n : nat) : prog CT unit := omemcpy_between_from dest src 0 n.

(** ** The conversion table *)

(** [ref]: the node a pointer stands for, and whether it was converted. *)
Definition ref (target : optr) : prog CT (placed * bool) :=
  t ← get_state;
  match _entryMap t !! target with
  | None => mret (mkPlaced NormalFile target, false)
  | Some ctx => mret (mkPlaced SafeFile (_optr ctx), true)
  end.

Definition refEx (target : optr) : prog CT ONodeConversionTableEntryDetail :=
  t ← get_state;
  match _entryMap t !! target with
  | None => mret (mkDetail (mkPlaced NormalFile target) None)
  | Some ctx => mret (mkDetail (mkPlaced SafeFile (_optr ctx)) (Some ctx))
  end.

Definition set_entryMap (f : gmap optr MappingContext -> gmap optr MappingContext) : prog CT unit :=
  modify (fun t => mkTable (f (_entryMap t)) (_safeOMemoryManager t) (_normalOMemoryManager t)).

(** [insert] leaves an entry that exists. *)
Definition ONodeConversionTable_regist (key value : optr) : prog CT unit := set_entryMap (fun m =>
  match m !! key with None => <[key := MappingContext_new value]> m | Some _ => m end).

Definition update (key : optr) (target : MappingContext) : prog CT unit := set_entryMap (fun m =>
  match m !! key with None => m | Some _ => <[key := target]> m end).

Definition Table_init : prog CT unit := set_entryMap (fun _ => ∅).

(** ** Item sets *)

(** [citemSet()]: the item set where it lies. *)
Definition citemSet (this : optr) : prog CT placed := r ← ref this; mret r.1.

(** [itemSet()]: the item set in the safe file, copied there when it is not. *)
Definition itemSet (this : optr) : prog CT optr :=
  '(convertedONode, found) ← ref this;
  if found : bool then mret (place convertedONode)
  else
    baseOptr ← on_safe (manager_allocate O_NODE_ITEMSET_SIZE);
    _ ← omemcpy_between (mkPlaced SafeFile baseOptr) convertedONode (Z.to_nat O_NODE_ITEMSET_SIZE);
    _ ← ONodeConversionTable_regist baseOptr baseOptr;
    _ ← ONodeConversionTable_regist this baseOptr;
    mret baseOptr.

(** [citemSet()->g()] and [itemSet()->w()]. *)
Definition cread {A} (this : optr) (g : optr -> prog M A) : prog CT A := c ← citemSet this; cget c g.
Definition iwrite {A} (this : optr) (w : optr -> prog M A) : prog CT A := s ← itemSet this; on_safe (w s).

(** [SafeOCItemSet::dataOptr]. An item set the table does not know is read in the normal
    file, whose cache [refEx] gives to its pointer. *)
Definition SafeOCItemSet_dataOptr (c : placed) (index : Z) : prog CT DataOptrEx :=
  refRet ← refEx (place c);
  match detail_value refRet with
  | None =>
      first ← cget (mkPlaced NormalFile (place c)) (fun s => dataOptr s index);
      mret (first, DATA_OPTR_LOCATED_AT_NORMAL)
  | Some ctx =>
      first ← cget c (fun s => dataOptr s index);
      second ← must (_dataOptrLocation ctx !! Z.to_nat index);
      mret (first, second)
  end.

Definition SafeOCItemSet_exportDataOptrArray (c : placed) : prog CT (list DataOptrEx) :=
  n ← cget c dataOptrCount;
  fill_array (SafeOCItemSet_dataOptr c) (Z.to_nat n) 0 (replicate (Z.to_nat DEFAULT_DATA_OPTR_COUNT) (None, 0)).

(** [SafeOItemSet::dataOptr( index , target )] on an item set of the safe file. *)
Definition SafeOItemSet_dataOptr (s : optr) (index : Z) (target : DataOptrEx) : prog CT unit :=
  _ ← on_safe (set_dataOptr s index target.1);
  refRet ← refEx s;
  match detail_value refRet with
  | None => mret tt
  | Some ctx =>
      _ ← must (_dataOptrLocation ctx !! Z.to_nat index);
      update s (mkMapping (_optr ctx) (<[Z.to_nat index := target.2]> (_dataOptrLocation ctx)))
  end.

(** The entries moved up are those of the item set that is passed in. *)
Definition SafeOItemSet_moveInsertDataOptr (s : optr) (index : Z) (targetDataOptr : DataOptrEx) (c : placed) : prog CT unit :=
  n ← cget c dataOptrCount;
  _ ← for_down (Z.to_nat n) index (fun i => d ← SafeOCItemSet_dataOptr c (ushort (i - 1)); SafeOItemSet_dataOptr s i d);
  SafeOItemSet_dataOptr s index targetDataOptr.

(** ** Nodes *)

(** The constructor without an address. *)
Definition SafeONode_new : prog CT optr :=
  baseOptr ← on_safe (manager_allocate O_NODE_ITEMSET_SIZE);
  _ ← on_safe (ItemSet_clear baseOptr);
  _ ← ONodeConversionTable_regist baseOptr baseOptr;
  mret baseOptr.

Definition SafeONode_parent (this : optr) : prog CT optr := cread this parent.

Definition SafeONode_child (this : optr) (index : Z) : prog CT (option optr) :=
  cread this (fun s => childOptr s (ushort index)).

(** [citemSet()->Optr()]. *)
Definition converted_optr (this : optr) : prog CT optr := c ← citemSet this; mret (place c).

Definition SafeONode_findIndex (this : optr) (targetKey : buffer) : prog CT Z :=
  cread this (fun s => findIndex s targetKey).

Definition SafeONode_dataOptr (this : optr) (index : Z) : prog CT DataOptrEx :=
  c ← citemSet this; SafeOCItemSet_dataOptr c index.

Definition set_SafeONode_dataOptr (this : optr) (index : Z) (target : DataOptrEx) : prog CT unit :=
  s ← itemSet this; SafeOItemSet_dataOptr s index target.

(** [parent()->citemSet()->Optr()->addr()] is zero. *)
Definition SafeONode_is_root (this : optr) : prog CT bool :=
  p ← SafeONode_parent this; q ← converted_optr p; mret (optr_eqb q addrZero).

Fixpoint SafeONode_subtreeMax (fuel : nat) (this : optr) : prog CT optr :=
  match fuel with
  | O => undef
  | S fuel' =>
      cc ← cread this childOptrCount;
      if 1 <=? cc then c ← (SafeONode_child this (cc - 1) ≫= must); SafeONode_subtreeMax fuel' c
      else mret this
  end.

(** ** Insertion *)

Record SafeViewItemSet : Type := mkSafeView {
  sv_key : list buffer;
  sv_childOptr : list (option optr);
  sv_dataOPtr : list DataOptrEx;
}.

Definition SafeViewItemSet_importItemSet (c : placed) : prog CT SafeViewItemSet :=
  keySorce ← cget c exportKeyArray;
  dataOptrSource ← SafeOCItemSet_exportDataOptrArray c;
  childSorce ← cget c exportChildOptrArray;
  mret (mkSafeView (keySorce ++ [None]) (childSorce ++ [None]) (dataOptrSource ++ [(None, 0)])).

(** The view with the new key, data pointer and child in their places. *)
Definition SafeONode_split_view (this : optr) (targetKey : buffer) (targetDataOptr : DataOptrEx) (targetONode : option optr)
  : prog CT SafeViewItemSet :=
  c ← citemSet this;
  view ← SafeViewItemSet_importItemSet c;
  let keys0 := <[Z.to_nat DEFAULT_KEY_COUNT := targetKey]> (sv_key view) in
  keys ← must (std_sort_keys keys0);
  rawKeys ← must (mapM (rd KEY_SIZE) keys);
  t ← must (rd KEY_SIZE targetKey);
  let keyInsertedIndex := view_key_index t rawKeys 0 in
  datas ← array_move_insert keyInsertedIndex targetDataOptr (sv_dataOPtr view);
  childs ← (match targetONode with
            | Some n => p ← converted_optr n; array_move_insert (keyInsertedIndex + 1) (Some p) (sv_childOptr view)
            | None => mret (sv_childOptr view)
            end);
  mret (mkSafeView keys childs datas).

(** [for( i ... ) w( i , l.at(i) )]. *)
Fixpoint write_each {A} (w : Z -> A -> prog CT unit) (i : Z) (l : list A) : prog CT unit :=
  match l with
  | [] => mret tt
  | x :: l' => _ ← w i x; write_each w (i + 1) l'
  end.

(** The children that go to the new node are copied, as their parent changes. *)
Definition SafeONode_move_child (splitONode : optr) (i : Z) (c : option optr) : prog CT unit :=
  _ ← iwrite splitONode (fun s => set_childOptr s i c);
  _ ← iwrite splitONode (fun s => set_childOptrCount s (i + 1));
  c' ← cread splitONode (fun s => childOptr s i);
  match c' with
  | Some _ =>
      ch ← (SafeONode_child splitONode i ≫= must);
      iwrite ch (fun s => set_parent s (Some splitONode))
  | None => mret tt
  end.

(** The lambda [splitONode]. *)
Definition SafeONode_splitONode (this : optr) (targetKey : buffer) (targetDataOptr : DataOptrEx) (targetONode : option optr)
  : prog CT (buffer * DataOptrEx * optr) :=
  view ← SafeONode_split_view this targetKey targetDataOptr targetONode;
  let sep := Z.to_nat separatorKeyIndex in
  separatorKey ← must (sv_key view !! sep);
  separatorDataOptr ← must (sv_dataOPtr view !! sep);
  splitONode ← SafeONode_new;
  _ ← write_each (fun i k => iwrite splitONode (fun s => set_key s i k)) 0 (drop (S sep) (sv_key view));
  _ ← iwrite splitONode (fun s => set_keyCount s (DEFAULT_KEY_COUNT + 1 - separatorKeyIndex - 1));
  _ ← write_each (set_SafeONode_dataOptr splitONode) 0 (drop (S sep) (sv_dataOPtr view));
  _ ← iwrite splitONode (fun s => set_dataOptrCount s (DEFAULT_DATA_OPTR_COUNT + 1 - separatorKeyIndex - 1));
  s ← itemSet splitONode; p ← SafeONode_parent this; _ ← on_safe (set_parent s (Some p));
  _ ← write_each (fun i k => iwrite this (fun s => set_key s i k)) 0 (take sep (sv_key view));
  _ ← iwrite this (fun s => set_keyCount s separatorKeyIndex);
  _ ← write_each (set_SafeONode_dataOptr this) 0 (take sep (sv_dataOPtr view));
  _ ← iwrite this (fun s => set_dataOptrCount s separatorKeyIndex);
  cc ← cread this childOptrCount;
  _ ← (if 0 <? cc then
         let center := (length (sv_childOptr view) / 2)%nat in
         _ ← write_each (fun i c => iwrite this (fun s => set_childOptr s i c)) 0 (take center (sv_childOptr view));
         _ ← iwrite this (fun s => set_childOptrCount s (Z.of_nat center));
         _ ← write_each (SafeONode_move_child splitONode) 0 (drop center (sv_childOptr view));
         iwrite splitONode (fun s => set_childOptrCount s (Z.of_nat (length (sv_childOptr view)) - Z.of_nat center))
       else mret tt);
  mret (separatorKey, separatorDataOptr, splitONode).

(** A split root gets a new root above it; the address is written where the root is
    recorded in the meta area of the normal file. *)
Definition SafeONode_grow_root (this : optr) (targetKey : buffer) (targetDataOptr : DataOptrEx) (targetONode : optr)
  : prog CT optr :=
  newRootNode ← SafeONode_new;
  q ← must (oplus addrZero META_ROOT_NODE_OFFSET);
  r ← converted_optr newRootNode;
  _ ← on_safe (omemcpy_in q (addr r));
  _ ← iwrite newRootNode (fun s => set_key s 0 targetKey);
  _ ← iwrite newRootNode (fun s => set_keyCount s 1);
  _ ← set_SafeONode_dataOptr newRootNode 0 targetDataOptr;
  _ ← iwrite newRootNode (fun s => set_dataOptrCount s 1);
  s ← itemSet newRootNode; c ← converted_optr this; _ ← on_safe (set_childOptr s 0 (Some c));
  _ ← iwrite newRootNode (fun s => set_childOptrCount s 1);
  s ← itemSet newRootNode; c ← converted_optr targetONode; _ ← on_safe (set_childOptr s 1 (Some c));
  _ ← iwrite newRootNode (fun s => set_childOptrCount s 2);
  _ ← iwrite this (fun s => set_parent s (Some newRootNode));
  _ ← iwrite targetONode (fun s => set_parent s (Some newRootNode));
  _ ← iwrite newRootNode (fun s => set_parent s None);
  mret newRootNode.

(** The branch of [recursiveAdd] for a node with room. *)
Definition SafeONode_simple_add (this : optr) (targetKey : buffer) (targetDataOptr : DataOptrEx) (targetONode : option optr)
  : prog CT unit :=
  s ← itemSet this; n ← cread this keyCount; _ ← on_safe (set_key s n targetKey);
  n ← cread this keyCount; _ ← iwrite this (fun s => set_keyCount s (n + 1));
  _ ← iwrite this sortKey;
  keyInsertedIndex ← cread this (fun s => keyInsertedIndex s targetKey);
  s ← itemSet this; c ← citemSet this; _ ← SafeOItemSet_moveInsertDataOptr s keyInsertedIndex targetDataOptr c;
  d ← cread this dataOptrCount; _ ← iwrite this (fun s => set_dataOptrCount s (d + 1));
  match targetONode with
  | Some t =>
      s ← itemSet this; p ← converted_optr t; _ ← on_safe (moveInsertChildOptr s (keyInsertedIndex + 1) (Some p));
      n ← cread this keyCount; iwrite this (fun s => set_childOptrCount s (n + 1))
  | None => mret tt
  end.

Fixpoint SafeONode_recursiveAdd (fuel : nat) (this : optr) (targetKey : buffer) (targetDataOptr : DataOptrEx)
    (targetONode : option optr) : prog CT (option optr) :=
  match fuel with
  | O => undef
  | S fuel' =>
      n ← cread this keyCount;
      if DEFAULT_KEY_COUNT <=? n then
        '(targetKey, targetDataOptr, targetONode) ← SafeONode_splitONode this targetKey targetDataOptr targetONode;
        parentONode ← SafeONode_parent this;
        p ← converted_optr parentONode;
        if optr_eqb p addrZero then
          newRootNode ← SafeONode_grow_root this targetKey targetDataOptr targetONode;
          mret (Some newRootNode)
        else SafeONode_recursiveAdd fuel' parentONode targetKey targetDataOptr (Some targetONode)
      else
        _ ← SafeONode_simple_add this targetKey targetDataOptr targetONode;
        mret None
  end.

(** ** Search *)

Fixpoint SafeONode_subtreeFind (fuel : nat) (this : optr) (targetKey : buffer) : prog CT (option DataOptrEx) :=
  match fuel with
  | O => undef
  | S fuel' =>
      n ← cread this keyCount;
      t ← must (rd 5 targetKey);
      step ← cread this (fun s => compare_keys s t 5 (Z.to_nat n) 0);
      match step with
      | Found i => d ← SafeONode_dataOptr this i; mret (Some d)
      | _ =>
          c ← cread this (fun s => candidateChild s step);
          match c with None => mret None | Some c => SafeONode_subtreeFind fuel' c targetKey end
      end
  end.
End SafeONode.
