(* ===== verification/SafeRemove.v ===== *)
(** miya_db safe-mode nodes, continued ([safe_o_node.cpp]): removal with underflow and
    merging on the copy-on-write view of [SafeONode]. *)
From S2P Require Import Prelude OverlayPtr MemoryManager ItemSet ONode BTree SafeONode.
From Stdlib Require Import Lia.

Section SafeRemove.
Context {M : Type} `{ops : !OverlayManagerOps M}.
Notation CT := (ONodeConversionTable M).

(** [to->itemSet()->key( i , from->citemSet()->rawKey( j ) )]. *)
Definition move_key (to : optr) (i : prog CT Z) (from : optr) (j : prog CT Z) : prog CT unit :=
  s ← itemSet to; i ← i; j ← j; k ← cread from (fun s => rawKey s (ushort j)); on_safe (set_key s (ushort i) k).

(** The same for data pointers with their locations. *)
Definition move_data (to : optr) (i : prog CT Z) (from : optr) (j : prog CT Z) : prog CT unit :=
  s ← itemSet to; i ← i; j ← j; d ← SafeONode_dataOptr from (ushort j); SafeOItemSet_dataOptr s (ushort i) d.

(** [to->itemSet()->moveInsertKey( i , from->citemSet()->rawKey( j ) )]. *)
Definition insert_moved_key (to : optr) (i : prog CT Z) (from : optr) (j : Z) : prog CT unit :=
  s ← itemSet to; i ← i; k ← cread from (fun s => rawKey s (ushort j)); on_safe (moveInsertKey s i k).

(** [to->itemSet()->moveInsertDataOptr( i , citemSet()->dataOptr( j ) , citemSet() )]: the
    entries that are moved up are those of the node [from]. *)
Definition insert_moved_data (to : optr) (i : prog CT Z) (from : optr) (j : Z) : prog CT unit :=
  s ← itemSet to; i ← i; d ← SafeONode_dataOptr from (ushort j); c ← citemSet from;
  SafeOItemSet_moveInsertDataOptr s i d c.

(** [n->itemSet()->keyCount( n->citemSet()->keyCount() + d )] and for the other counts. *)
Definition add_keyCount (this : optr) (d : Z) : prog CT unit :=
  s ← itemSet this; n ← cread this keyCount; on_safe (set_keyCount s (n + d)).
Definition add_dataOptrCount (this : optr) (d : Z) : prog CT unit :=
  s ← itemSet this; n ← cread this dataOptrCount; on_safe (set_dataOptrCount s (n + d)).
Definition add_childOptrCount (this : optr) (d : Z) : prog CT unit :=
  s ← itemSet this; n ← cread this childOptrCount; on_safe (set_childOptrCount s (n + d)).

(** [to->itemSet()->moveInsertChildOptr( i , from->child( j )->citemSet()->Optr() )]. *)
Definition insert_moved_child (to : optr) (i : prog CT Z) (from : optr) (j : prog CT Z) : prog CT unit :=
  s ← itemSet to; i ← i; j ← j; c ← (SafeONode_child from j ≫= must); p ← converted_optr c;
  on_safe (moveInsertChildOptr s i (Some p)).

(** [this->child( i )->itemSet()->parent( this )]. *)
Definition adopt_child (this : optr) (i : prog CT Z) : prog CT unit :=
  i ← i; c ← (SafeONode_child this i ≫= must); iwrite c (fun s => set_parent s (Some this)).

Notation keys n := (cread n keyCount).
Notation datas n := (cread n dataOptrCount).
Notation childs n := (cread n childOptrCount).

(** The position of a child, compared by the places of the item sets. *)
Fixpoint SafeONode_child_index_from (this sourceONode : optr) (n : nat) (i : Z) : prog CT Z :=
  match n with
  | O => mret (-1)
  | S n' =>
      a ← converted_optr sourceONode;
      c ← (SafeONode_child this i ≫= must); b ← converted_optr c;
      if optr_eqb a b then mret i else SafeONode_child_index_from this sourceONode n' (i + 1)
  end.

Definition SafeONode_child_index (this sourceONode : optr) : prog CT Z :=
  n ← childs this; SafeONode_child_index_from this sourceONode (Z.to_nat n) 0.

Definition SafeONode_left_sibling (this : optr) (index : Z) : prog CT (option optr) :=
  if 0 <? index then SafeONode_child this (index - 1) else mret None.

Definition SafeONode_can_give (sibling : option optr) : prog CT bool :=
  match sibling with
  | None => mret false
  | Some s => n ← keys s; mret (2 <=? n)
  end.

(** [child(0)->itemSet()->parent(nullptr); return child(0)]. *)
Definition SafeONode_promote_child (this : optr) : prog CT (option optr) :=
  c ← (SafeONode_child this 0 ≫= must);
  _ ← iwrite c (fun s => set_parent s None);
  SafeONode_child this 0.

(** The last lines of the two top-level merges. *)
Definition promote_if_empty (this : optr) : prog CT (option optr) :=
  n ← keys this;
  if n <=? 0 then SafeONode_promote_child this else mret None.

(** [recursiveMerge( unsigned short )]; the test [index == -1] never holds for one. *)
Definition SafeONode_recursiveMerge (this : optr) (index : Z) : prog CT (option optr) :=
  n ← keys this;
  if n <=? 0 then SafeONode_promote_child this
  else
    targetONode ← SafeONode_child this index;
    leftChildONode ← SafeONode_left_sibling this index;
    rightChildONode ← SafeONode_child this (index + 1);
    giveLeft ← SafeONode_can_give leftChildONode;
    giveRight ← (if giveLeft : bool then mret false else SafeONode_can_give rightChildONode);
    match giveLeft, leftChildONode, giveRight, rightChildONode with
    | true, Some l, _, _ =>
        t ← must targetONode;
        _ ← move_key t (mret 0) this (mret 0);
        _ ← add_keyCount t 1;
        _ ← iwrite this (fun s => set_keyCount s 0);
        _ ← move_data t (mret 0) this (mret 0);
        _ ← iwrite this (fun s => set_dataOptrCount s 0);
        _ ← move_key this (mret 0) l (keys l);
        _ ← iwrite this (fun s => set_keyCount s 1);
        s ← itemSet l; n ← keys l; _ ← on_safe (moveDeleteKey s n);
        _ ← move_data this (mret 0) l (datas l);
        _ ← iwrite this (fun s => set_dataOptrCount s 1);
        s ← itemSet l; n ← datas l; _ ← on_safe (moveDeleteDataOptr s n);
        _ ← insert_moved_child t (mret 0) l (childs l);
        _ ← add_childOptrCount t 1;
        _ ← adopt_child t (mret 0);
        s ← itemSet l; n ← childs l; _ ← on_safe (moveDeleteChildOptr s n);
        mret None
    | _, _, true, Some r =>
        t ← must targetONode;
        _ ← move_key t (mret 0) this (mret 0);
        _ ← add_keyCount t 1;
        _ ← iwrite this (fun s => set_keyCount s 0);
        _ ← move_data t (mret 0) this (mret 0);
        _ ← iwrite this (fun s => set_dataOptrCount s 0);
        _ ← move_key this (mret 0) r (mret 0);
        _ ← iwrite this (fun s => set_keyCount s 1);
        _ ← iwrite r (fun s => moveDeleteKey s 0);
        _ ← move_data this (mret 0) r (mret 0);
        _ ← iwrite this (fun s => set_dataOptrCount s 1);
        _ ← iwrite r (fun s => moveDeleteDataOptr s 0);
        _ ← insert_moved_child t (childs t) r (mret 0);
        _ ← add_childOptrCount t 1;
        _ ← adopt_child t (n ← childs t; mret (n - 1));
        _ ← iwrite r (fun s => moveDeleteChildOptr s 0);
        mret None
    | _, Some l, _, _ =>
        _ ← insert_moved_key l (keys l) this (index - 1);
        _ ← add_keyCount l 1;
        _ ← iwrite this (fun s => moveDeleteKey s (ushort (index - 1)));
        _ ← insert_moved_data l (datas l) this (index - 1);
        _ ← add_dataOptrCount l 1;
        _ ← iwrite this (fun s => moveDeleteDataOptr s (ushort (index - 1)));
        t ← must targetONode;
        _ ← insert_moved_child l (childs l) t (mret 0);
        _ ← add_childOptrCount l 1;
        _ ← adopt_child l (n ← childs l; mret (n - 1));
        _ ← iwrite this (fun s => moveDeleteChildOptr s index);
        promote_if_empty this
    | _, None, _, Some r =>
        _ ← insert_moved_key r (mret 0) this index;
        _ ← add_keyCount r 1;
        _ ← iwrite this (fun s => moveDeleteKey s index);
        _ ← insert_moved_data r (mret 0) this index;
        _ ← add_dataOptrCount r 1;
        _ ← iwrite this (fun s => moveDeleteDataOptr s index);
        t ← must targetONode;
        _ ← insert_moved_child r (mret 0) t (mret 0);
        _ ← add_childOptrCount r 1;
        _ ← adopt_child r (n ← childs r; mret (n - 1));
        _ ← iwrite this (fun s => moveDeleteChildOptr s index);
        promote_if_empty this
    | _, _, _, _ => mret None
    end.

(** [recursiveMerge( std::shared_ptr<SafeONode> )]. *)
Definition SafeONode_recursiveMerge_of (this sourceONode : optr) : prog CT (option optr) :=
  index ← SafeONode_child_index this sourceONode; SafeONode_recursiveMerge this (ushort index).

(** The end of the recursive merges of [merge]. *)
Definition SafeONode_merge_up (this : optr) : prog CT (option optr) :=
  root ← SafeONode_is_root this;
  if root : bool then SafeONode_promote_child this
  else p ← SafeONode_parent this; SafeONode_recursiveMerge_of p this.

(** [merge( unsigned short )]. *)
Definition SafeONode_merge (this : optr) (index : Z) : prog CT (option optr) :=
  leftChildONode ← SafeONode_left_sibling this index;
  rightChildONode ← SafeONode_child this (index + 1);
  n ← keys this;
  match leftChildONode, rightChildONode with
  | Some l, _ =>
      if 2 <=? n then
        _ ← iwrite this (fun s => moveDeleteChildOptr s index);
        _ ← move_key l (keys l) this (mret (index - 1));
        _ ← add_keyCount l 1;
        _ ← iwrite this (fun s => moveDeleteKey s (ushort (index - 1)));
        _ ← move_data l (datas l) this (mret (index - 1));
        _ ← add_dataOptrCount l 1;
        mret None
      else
        _ ← insert_moved_key l (keys l) this (index - 1);
        _ ← add_keyCount l 1;
        _ ← iwrite this (fun s => moveDeleteKey s (ushort (index - 1)));
        _ ← insert_moved_data l (datas l) this (index - 1);
        _ ← add_dataOptrCount l 1;
        _ ← iwrite this (fun s => moveDeleteDataOptr s (ushort (index - 1)));
        _ ← iwrite this (fun s => moveDeleteChildOptr s index);
        SafeONode_merge_up this
  | None, Some r =>
      if 2 <=? n then
        _ ← iwrite this (fun s => moveDeleteChildOptr s index);
        _ ← insert_moved_key r (mret 0) this index;
        _ ← add_keyCount r 1;
        _ ← iwrite this (fun s => moveDeleteKey s index);
        _ ← insert_moved_data r (mret 0) this index;
        _ ← add_dataOptrCount r 0;
        mret None
      else
        _ ← insert_moved_key r (mret 0) this index;
        _ ← add_keyCount r 1;
        _ ← iwrite this (fun s => moveDeleteKey s index);
        _ ← insert_moved_data r (mret 0) this index;
        _ ← add_dataOptrCount r 1;
        _ ← iwrite this (fun s => moveDeleteDataOptr s index);
        _ ← iwrite this (fun s => moveDeleteChildOptr s index);
        SafeONode_merge_up this
  | None, None => mret None
  end.

(** A key moves from the left sibling [l] through this node to the emptied child. *)
Definition SafeONode_borrow_left (this sourceONode l : optr) (index : Z) : prog CT unit :=
  _ ← move_key sourceONode (mret 0) this (mret (index - 1));
  _ ← iwrite sourceONode (fun s => set_keyCount s 1);
  _ ← move_data sourceONode (mret 0) this (mret (index - 1));
  _ ← iwrite sourceONode (fun s => set_dataOptrCount s 1);
  _ ← move_key this (mret (index - 1)) l (n ← keys l; mret (n - 1));
  s ← itemSet l; n ← keys l; _ ← on_safe (moveDeleteKey s (ushort (n - 1)));
  _ ← move_data this (mret (index - 1)) l (n ← datas l; mret (n - 1));
  s ← itemSet l; n ← datas l; on_safe (moveDeleteDataOptr s (ushort (n - 1))).

(** The same from the right sibling [r]. *)
Definition SafeONode_borrow_right (this sourceONode r : optr) (index : Z) : prog CT unit :=
  _ ← move_key sourceONode (mret 0) this (mret index);
  _ ← iwrite sourceONode (fun s => set_keyCount s 1);
  _ ← move_data sourceONode (mret 0) this (mret index);
  _ ← iwrite sourceONode (fun s => set_dataOptrCount s 1);
  _ ← move_key this (mret index) r (mret 0);
  _ ← iwrite r (fun s => moveDeleteKey s 0);
  _ ← move_data this (mret index) r (mret 0);
  iwrite r (fun s => moveDeleteDataOptr s 0).

Definition SafeONode_underflow (this sourceONode : optr) : prog CT (option optr) :=
  index ← SafeONode_child_index this sourceONode;
  if index =? -1 then mret None
  else
    leftChildONode ← SafeONode_left_sibling this index;
    rightChildONode ← SafeONode_child this (index + 1);
    giveLeft ← SafeONode_can_give leftChildONode;
    giveRight ← (if giveLeft : bool then mret false else SafeONode_can_give rightChildONode);
    match giveLeft, leftChildONode, giveRight, rightChildONode with
    | true, Some l, _, _ => _ ← SafeONode_borrow_left this sourceONode l index; mret None
    | _, _, true, Some r => _ ← SafeONode_borrow_right this sourceONode r index; mret None
    | _, _, _, _ => SafeONode_merge this (ushort index)
    end.

(** [remove] in a leaf. The locations of the entries behind the removed one stay where
    they are. *)
Definition SafeONode_remove_from_leaf (this : optr) (index : Z) : prog CT (option optr) :=
  n ← keys this;
  root ← (if 1 <? n then mret true else SafeONode_is_root this);
  if root : bool then _ ← iwrite this (fun s => ItemSet_remove s index); mret None
  else
    root ← SafeONode_is_root this;
    if root : bool then _ ← iwrite this (fun s => moveDeleteKey s 0); mret None
    else p ← SafeONode_parent this; SafeONode_underflow p this.

(** A root without keys and with one child is replaced by that child. *)
Definition SafeONode_skip_empty_root (candidate : option optr) : prog CT (option optr) :=
  match candidate with
  | None => mret None
  | Some c =>
      n ← keys c;
      cc ← childs c;
      root ← (if (n <=? 0) && (cc =? 1) then SafeONode_is_root c else mret false);
      if root : bool then SafeONode_promote_child c else mret candidate
  end.

Fixpoint SafeONode_remove (fuel : nat) (this : optr) (targetKey : buffer) : prog CT (option optr) :=
  match fuel with
  | O => undef
  | S fuel' =>
      index ← SafeONode_findIndex this targetKey;
      if index <? 0 then mret None
      else
        cc ← childs this;
        if 1 <=? cc then
          c ← (SafeONode_child this 0 ≫= must);
          subtreeMax ← SafeONode_subtreeMax fuel c;
          _ ← move_key this (mret index) subtreeMax (n ← keys subtreeMax; mret (n - 1));
          _ ← move_data this (mret index) subtreeMax (n ← datas subtreeMax; mret (n - 1));
          n ← keys subtreeMax; k ← cread subtreeMax (fun s => rawKey s (ushort (n - 1)));
          candidateNewRootONode ← SafeONode_remove fuel' subtreeMax k;
          SafeONode_skip_empty_root candidateNewRootONode
        else SafeONode_remove_from_leaf this index
  end.
End SafeRemove.
