(* ===== verification/SafeBTree.v ===== *)
(** miya_db safe-mode index ([safe_btree.cpp], [safe_index_manager.cpp]): insertion,
    removal and search from the root of the copy-on-write tree, writing it back into the
    normal file, and the manager that owns it. *)
From S2P Require Import Prelude OverlayPtr MemoryManager Crypto ItemSet ONode BTree SafeONode SafeRemove.
From Stdlib Require Import Lia.

Definition SAFE_MODE_COLLICION_OFFSET : Z := O_NODE_ITEMSET_SIZE / 2.

(** [for( ; i < bound(); i++ ) body( i )] for a bound of at most [n]. *)
Fixpoint for_while {St} (n : nat) (i : Z) (bound : prog St Z) (body : Z -> prog St unit) : prog St unit :=
  match n with
  | O => undef
  | S n' => b ← bound; if i <? b then _ ← body i; for_while n' (i + 1) bound body else mret tt
  end.

Section SafeOBtree.
Context {M : Type} `{ops : !OverlayManagerOps M}.
Notation CT := (ONodeConversionTable M).

(** The while loop of [add]. *)
Fixpoint safe_descend_add (fuel : nat) (currentONode : optr) (targetKey : buffer) : prog CT optr :=
  match fuel with
  | O => undef
  | S fuel' =>
      cc ← cread currentONode childOptrCount;
      if 1 <=? cc then
        r ← cread currentONode (fun s => scan_add s targetKey (Z.to_nat cc) 0);
        next ← (match r with Some c => mret c | None => SafeONode_child currentONode (cc - 1) end);
        next ← must next;
        safe_descend_add fuel' next targetKey
      else mret currentONode
  end.

(** Data that is added lies in the safe value store. *)
Definition SafeOBtree_add (fuel : nat) (_rootONode : optr) (targetKey : buffer) (dataOptr : option optr) : prog CT optr :=
  currentONode ← safe_descend_add fuel _rootONode targetKey;
  newRootNode ← SafeONode_recursiveAdd fuel currentONode targetKey (dataOptr, DATA_OPTR_LOCATED_AT_SAFE) None;
  mret (default _rootONode newRootNode).

Fixpoint safe_descend_remove (fuel : nat) (currentONode : optr) (targetKey : buffer) : prog CT optr :=
  match fuel with
  | O => undef
  | S fuel' =>
      cc ← cread currentONode childOptrCount;
      if 1 <=? cc then
        r ← cread currentONode (fun s => scan_remove s targetKey (Z.to_nat cc) 0);
        match r with
        | Match => mret currentONode
        | Next c => c ← must c; safe_descend_remove fuel' c targetKey
        | Last => c ← (SafeONode_child currentONode (cc - 1) ≫= must); safe_descend_remove fuel' c targetKey
        end
      else mret currentONode
  end.

Definition SafeOBtree_remove (fuel : nat) (_rootONode : optr) (targetKey : buffer) : prog CT optr :=
  currentONode ← safe_descend_remove fuel _rootONode targetKey;
  newRootNode ← SafeONode_remove fuel currentONode targetKey;
  mret (default _rootONode newRootNode).

Definition SafeOBtree_find (fuel : nat) (_rootONode : optr) (targetKey : buffer) : prog CT (option DataOptrEx) :=
  SafeONode_subtreeFind fuel _rootONode targetKey.

(** [mergeSafeBtree]: a node the table maps to itself was created in safe mode and gets a
    new place in the normal file, a node it maps elsewhere is written back to its old
    place. A node has at most 255 children. *)
Fixpoint mergeSafeBtree (fuel : nat) (subtreeRootONode : optr) (childIndex : Z) (parentONode : option optr) : prog CT optr :=
  match fuel with
  | O => undef
  | S fuel' =>
      retDetail ← refEx subtreeRootONode;
      swapONode ← (match detail_value retDetail with
        | None => mret subtreeRootONode
        | Some ctx =>
            swapToONodeOptr ← (if optr_eqb subtreeRootONode (_optr ctx)
              then on_normal (manager_allocate O_NODE_ITEMSET_SIZE) else mret subtreeRootONode);
            _ ← omemcpy_between (mkPlaced NormalFile swapToONodeOptr) (mkPlaced SafeFile (_optr ctx)) (Z.to_nat O_NODE_ITEMSET_SIZE);
            mret swapToONodeOptr
        end);
      _ ← (match parentONode with
           | Some p => if 0 <=? childIndex then on_normal (set_childOptr p (ushort childIndex) (Some swapONode)) else mret tt
           | None => mret tt
           end);
      _ ← on_normal (set_parent swapONode parentONode);
      _ ← for_while 256 0 (cread subtreeRootONode childOptrCount) (fun i =>
            c ← SafeONode_child subtreeRootONode i;
            match c with
            | None => mret tt
            | Some c => _ ← mergeSafeBtree fuel' c i (Some swapONode); mret tt
            end);
      mret swapONode
  end.
End SafeOBtree.

(** ** The manager *)

Record SafeIndexManager (M : Type) : Type := mkSafeIndex {
  si_oMemoryManager : M;
  si_entryMap : gmap optr MappingContext;
  si_rootONode : optr;
  si_migrationDBState : list byte;
}.
Arguments mkSafeIndex {M} _ _ _ _.
Arguments si_oMemoryManager {M} _.
Arguments si_entryMap {M} _.
Arguments si_rootONode {M} _.
Arguments si_migrationDBState {M} _.

(** The conversion table of a manager and the normal file, and back. *)
Definition table_of {M} (p : SafeIndexManager M * M) : ONodeConversionTable M :=
  mkTable (si_entryMap p.1) (si_oMemoryManager p.1) p.2.

Definition with_table {M} (t : ONodeConversionTable M) (p : SafeIndexManager M * M) : SafeIndexManager M * M :=
  (mkSafeIndex (_safeOMemoryManager t) (_entryMap t) (si_rootONode p.1) (si_migrationDBState p.1), _normalOMemoryManager t).

Definition on_table {M A} (c : prog (ONodeConversionTable M) A) : prog (SafeIndexManager M * M) A :=
  zoom table_of with_table c.

Definition set_safe_root {M} (r : optr) : prog (SafeIndexManager M * M) unit := modify (fun p =>
  (mkSafeIndex (si_oMemoryManager p.1) (si_entryMap p.1) r (si_migrationDBState p.1), p.2)).

Section SafeIndexManager.
Context {D C : Type} {Dops : OverlayMemOps D} {Cops : OverlayMemOps C} {ssl : OpenSSL}.
Notation SM := (SafeIndexManager (Manager D C) * Manager D C)%type.

(** [add] and [remove]; [now] is the time the state code is made of. *)
Definition SafeIndexManager_add (fuel : nat) (now : Z) (key : buffer) (dataOptr : optr) : prog SM unit :=
  p ← get_state;
  r ← on_table (SafeOBtree_add fuel (si_rootONode p.1) key (Some dataOptr));
  _ ← set_safe_root r;
  on_table (on_safe (syncDBState now)).

Definition SafeIndexManager_remove (fuel : nat) (now : Z) (key : buffer) : prog SM unit :=
  p ← get_state;
  r ← on_table (SafeOBtree_remove fuel (si_rootONode p.1) key);
  _ ← set_safe_root r;
  on_table (on_safe (syncDBState now)).

(** [find] dereferences the answer of the tree, null for a key that is not there. *)
Definition SafeIndexManager_find (fuel : nat) (key : buffer) : prog SM (option optr * Z) :=
  p ← get_state;
  ret ← on_table (SafeOBtree_find fuel (si_rootONode p.1) key);
  must ret.

Definition SafeIndexManager_mergeSafeBtree (fuel : nat) (now : Z) : prog SM optr :=
  p ← get_state;
  ret ← on_table (mergeSafeBtree fuel (si_rootONode p.1) (-1) None);
  _ ← on_table (on_safe (syncDBState now));
  mret ret.

(** The constructor on an opened safe file: space for the meta area, which is copied from
    the normal file, and a gap that keeps safe and normal addresses apart. *)
Definition SafeIndexManager_format : prog (ONodeConversionTable (Manager D C)) unit :=
  _ ← Table_init;
  _ ← on_safe manager_clear;
  _ ← on_safe (manager_allocate 100);
  _ ← omemcpy_between (mkPlaced SafeFile addrZero) (mkPlaced NormalFile addrZero) 100;
  _ ← on_safe (manager_allocate SAFE_MODE_COLLICION_OFFSET);
  mret tt.
End SafeIndexManager.
