(* ===== verification/SafeMode.v ===== *)
(** miya_db safe mode of a table ([MMyISAM.cpp], [mergeDataOptr] of
    [value_store_manager.cpp]): opening a copy, committing it into the normal files,
    giving it up. The safe-mode index is the manager of [SafeBTree]. *)
From stdpp Require Import sorting.
From S2P Require Import Prelude OverlayPtr CacheTable Allocator AllocatorRuns Crypto MemoryManager ItemSet NodeStore ONode NodeOps.
From S2P Require Import BTree BTreeModel BTreeAdd BTreeIndex BTreeMap BTreeRemove ValueStore MMyISAM.
From S2P Require Import SafeONode SafeRemove SafeBTree.
From Stdlib Require Import Lia.

#[local] Open Scope Z_scope.

(** Running code on an object of its own next to a state: what is left of the object. *)
Definition with_local {S T A} (init : S -> T) (out : T -> S -> S) (c : prog T A) : prog S (A * T) := fun s =>
  match c (init s) with
  | Ok a t => Ok (a, t) (out t s)
  | Throw e t => Throw e (out t s)
  | Undef => Undef
  end.

Section SafeMode.
Context {D C : Type} {Dops : OverlayMemOps D} {Cops : OverlayMemOps C} {ssl : OpenSSL}.
Notation Mgr := (Manager D C).
Notation DB := (MMyISAM Mgr (SafeIndexManager Mgr)).

(** The safe-mode index as the facade calls it, with the fuel of its descents and the time
    of its state codes. *)
Definition SafeIndexManager_ops (fuel : nat) (now : Z) : SafeIndexOps Mgr (SafeIndexManager Mgr) := {|
  safe_add := SafeIndexManager_add fuel now;
  safe_remove := SafeIndexManager_remove fuel now;
  safe_find := SafeIndexManager_find fuel;
|}.

(** [migrateToSafeMode] on the two safe files, opened. The body ends without a [return]:
    [None] in [answer] says that the undefined behaviour strikes, and [Some b] that the build
    goes on and the caller gets [b]. The array is indexed without a check. *)
Definition migrateToSafeMode (safeIndexFile safeValueFile : Mgr) (answer : option bool) (qctx : QueryContext) : prog DB bool :=
  let registryIndex := q_registryIndex qctx in
  dbState ← on_index manager_dbState;
  s ← get_state;
  '(_, t) ← with_local (fun s : DB => mkTable ∅ safeIndexFile (normal_indexManager s))
    (fun t s => mkMMyISAM (normal_valueStoreManager s) (_normalOMemoryManager t) (normal_rootONode s)
       (activeSafeIndexManagerArray s) (activeValueStoreManagerArray s))
    (_ ← SafeIndexManager_format; on_safe manager_clear);
  let safeIndexManager := mkSafeIndex (_safeOMemoryManager t) (_entryMap t) (normal_rootONode s) dbState in
  '(_, valueStoreManager) ← with_local (fun _ => safeValueFile) (fun _ s => s) ValueStoreManager_clear;
  if (0 <=? registryIndex) && (registryIndex <? Z.of_nat ALLOWED_SAFE_REGISTRY_COUNT) then
    _ ← modify (fun s : DB => mkMMyISAM (normal_valueStoreManager s) (normal_indexManager s) (normal_rootONode s)
      (<[Z.to_nat registryIndex := Some safeIndexManager]> (activeSafeIndexManagerArray s))
      (<[Z.to_nat registryIndex := Some valueStoreManager]> (activeValueStoreManagerArray s)));
    must answer
  else undef.

(** What a commit works on: the two value stores and the conversion table. *)
Record CommitState : Type := mkCommit {
  cm_values : Mgr;
  cm_safeValues : Mgr;
  cm_table : ONodeConversionTable Mgr;
}.

Definition cm_on_values {A} (c : prog Mgr A) : prog CommitState A :=
  zoom cm_values (fun m s => mkCommit m (cm_safeValues s) (cm_table s)) c.
Definition cm_on_safeValues {A} (c : prog Mgr A) : prog CommitState A :=
  zoom cm_safeValues (fun m s => mkCommit (cm_values s) m (cm_table s)) c.
Definition cm_on_table {A} (c : prog (ONodeConversionTable Mgr) A) : prog CommitState A :=
  zoom cm_table (fun t s => mkCommit (cm_values s) (cm_safeValues s) t) c.

(** One entry of the table: the values its node has in the safe store are copied to the
    normal store. The locations are those the entry had when the loop started. *)
Definition mergeDataOptr_entry (now : Z) (e : optr * MappingContext) : prog CommitState unit :=
  let targetSafeONode := e.1 in
  _ ← for_while 256 0 (cm_on_table (cread targetSafeONode dataOptrCount)) (fun i =>
        loc ← must (_dataOptrLocation e.2 !! Z.to_nat i);
        if loc =? DATA_OPTR_LOCATED_AT_SAFE then
          dataOptr ← cm_on_table (SafeONode_dataOptr targetSafeONode i);
          p ← must dataOptr.1;
          data ← cm_on_safeValues (ValueStoreManager_get p);
          copyedOptr ← cm_on_values (ValueStoreManager_add now (Some data) (Z.of_nat (length data)));
          cm_on_table (set_SafeONode_dataOptr targetSafeONode i (Some copyedOptr, DATA_OPTR_LOCATED_AT_NORMAL))
        else mret tt);
  cm_on_table (update e.1 e.2).

Fixpoint mergeDataOptr_loop (now : Z) (entries : list (optr * MappingContext)) : prog CommitState unit :=
  match entries with
  | [] => mret tt
  | e :: entries' => _ ← mergeDataOptr_entry now e; mergeDataOptr_loop now entries'
  end.

(** [iteration] is the order in which the hash table is iterated. *)
Definition mergeDataOptr (iteration : gmap optr MappingContext -> list (optr * MappingContext)) (now : Z) : prog CommitState unit :=
  s ← get_state;
  _ ← mergeDataOptr_loop now (iteration (_entryMap (cm_table s)));
  cm_on_values (syncDBState now).

(** The parts of the table a commit of the slot works on. *)
Definition on_commit {A} (index : Z) (im : SafeIndexManager Mgr) (vs : Mgr) (c : prog CommitState A) : prog DB A :=
  zoom (fun s : DB => mkCommit (normal_valueStoreManager s) vs (table_of (im, normal_indexManager s)))
    (fun x s => let p := with_table (cm_table x) (im, normal_indexManager s) in
       mkMMyISAM (cm_values x) p.2 (normal_rootONode s)
         (<[Z.to_nat index := Some p.1]> (activeSafeIndexManagerArray s))
         (<[Z.to_nat index := Some (cm_safeValues x)]> (activeValueStoreManagerArray s))) c.

(** [safeCommitExit]: the meta area, the values, the nodes. *)
Definition safeCommitExit (fuel : nat) (iteration : gmap optr MappingContext -> list (optr * MappingContext)) (now : Z)
    (qctx : QueryContext) : prog DB bool :=
  let registryIndex := q_registryIndex qctx in
  if registryIndex <? 0 then mret false
  else
    safeIndexManager ← slot activeSafeIndexManagerArray registryIndex;
    match safeIndexManager with
    | None => mret false
    | Some im =>
        valueStoreManager ← slot activeValueStoreManagerArray registryIndex;
        match valueStoreManager with
        | None => mret false
        | Some vs =>
            newRootONode ← on_commit registryIndex im vs (
              _ ← cm_on_table (omemcpy_between (mkPlaced NormalFile addrZero) (mkPlaced SafeFile addrZero) 100);
              _ ← mergeDataOptr iteration now;
              newRootONode ← cm_on_table (mergeSafeBtree fuel (si_rootONode im) (-1) None);
              _ ← cm_on_table (on_safe (syncDBState now));
              mret newRootONode);
            _ ← on_index (set_rootONode (Some newRootONode));
            _ ← set_root_node newRootONode;
            _ ← on_index (syncDBState now);
            _ ← clearSafeMode;
            mret true
        end
    end.
End SafeMode.
