(* ===== verification/SafeIsolation.v ===== *)
(** What safe mode leaves alone: every operation in safe mode keeps the normal index file
    as it is, on every path and for any tree, because nodes are copied to the safe file
    before they are written. *)
From stdpp Require Import sorting.
From S2P Require Import Prelude OverlayPtr CacheTable ControlBlock Allocator AllocatorRuns Crypto MemoryManager ItemSet NodeStore ONode NodeOps.
From S2P Require Import BTree BTreeModel BTreeAdd BTreeIndex BTreeMap BTreeRemove ValueStore MMyISAM.
From S2P Require Import SafeONode SafeRemove SafeBTree SafeMode.
From Stdlib Require Import Lia.

#[local] Open Scope Z_scope.

(** ** Code that keeps a property of the state *)

(** Every run that ends, normally or with an exception, keeps [R]. *)
Definition stable {S A} (R : S -> Prop) (c : prog S A) : Prop := forall s, R s -> post c s R.

Create HintDb stable.

Section stable.
Context {S : Type} (R : S -> Prop).

Lemma stable_ret {A} (a : A) : stable R (mret a).
Proof. intros s Hs. exact Hs. Qed.

Lemma stable_bind {A B} (c : prog S A) (k : A -> prog S B) :
  stable R c -> (forall a, stable R (k a)) -> stable R (c ≫= k).
Proof. intros Hc Hk s Hs. apply post_bind; [now apply Hc|]. intros a s'. apply Hk. Qed.

Lemma stable_must {A} (o : option A) : stable R (must o).
Proof. intros s Hs. now apply post_must. Qed.

Lemma stable_undef {A} : stable R (undef (A := A)).
Proof. intros s _. exact I. Qed.

Lemma stable_throw {A} e : stable R (throw (A := A) e).
Proof. intros s Hs. exact Hs. Qed.

Lemma stable_get : stable R get_state.
Proof. intros s Hs. exact Hs. Qed.

Lemma stable_modify f : (forall s, R s -> R (f s)) -> stable R (modify f).
Proof. intros H s. apply H. Qed.

Lemma stable_zoom {T A} (R' : T -> Prop) (get : S -> T) put (c : prog T A) :
  stable R' c -> (forall s, R s -> R' (get s)) -> (forall s t, R s -> R' t -> R (put t s)) -> stable R (zoom get put c).
Proof. intros Hc Hg Hp s Hs. apply post_zoom with (Q := R'); [apply Hc, Hg, Hs|]. intros t. now apply Hp. Qed.

Lemma post_local {T A} (init : S -> T) out (c : prog T A) s (P : S -> Prop) (Q : T -> Prop) :
  post c (init s) Q -> (forall t, Q t -> P (out t s)) -> post (with_local init out c) s P.
Proof. unfold post, with_local. destruct (c (init s)); auto. Qed.

Lemma stable_for_down n lo (body : Z -> prog S unit) : (forall i, stable R (body i)) -> stable R (for_down n lo body).
Proof.
  intros H. induction n as [|n IH]; [apply stable_ret|]. cbn [for_down]. case_match; [|apply stable_ret].
  apply stable_bind; [apply H|auto].
Qed.

Lemma stable_for_up n (body : Z -> prog S unit) : (forall i, stable R (body i)) -> forall i, stable R (for_up n i body).
Proof.
  intros H. induction n as [|n IH]; intros i; [apply stable_ret|]. cbn [for_up]. apply stable_bind; [apply H|auto].
Qed.

Lemma stable_for_while n bound (body : Z -> prog S unit) :
  stable R bound -> (forall i, stable R (body i)) -> forall i, stable R (for_while n i bound body).
Proof.
  intros Hb H. induction n as [|n IH]; intros i; [apply stable_undef|]. cbn [for_while].
  apply stable_bind; [exact Hb|]. intros b. case_match; [|apply stable_ret]. apply stable_bind; [apply H|auto].
Qed.

Lemma stable_fill_array {A} (get : Z -> prog S A) n : (forall i, stable R (get i)) -> forall i arr, stable R (fill_array get n i arr).
Proof.
  intros H. induction n as [|n IH]; intros i arr; [apply stable_ret|]. cbn [fill_array]. apply stable_bind; [apply H|].
  intros x. case_match; [apply IH|apply stable_throw].
Qed.
End stable.

#[export] Hint Resolve stable_ret stable_must stable_undef stable_throw stable_get : stable.

(** Takes a piece of code apart down to calls the hints know. *)
Ltac stable_step :=
  match goal with
  | |- stable _ (mbind _ _) => apply stable_bind; [|intros ?]
  | |- forall _, _ => intros ?
  | |- stable _ (match ?x with _ => _ end) => destruct x
  | |- stable _ (let _ := _ in _) => cbv zeta
  | |- stable _ (for_down _ _ _) => apply stable_for_down
  | |- stable _ (for_up _ _ _) => apply stable_for_up
  | |- stable _ (for_while _ _ _ _) => apply stable_for_while
  | |- stable _ (fill_array _ _ _ _) => apply stable_fill_array
  | |- stable _ _ => solve [eauto 4 with stable]
  end.
Ltac stable_code := repeat stable_step.

(** ** Reading item sets *)

Section reading.
Context {M : Type} `{ops : !OverlayManagerOps M} (P : M -> Prop).
Hypothesis Hread : forall p, stable P (value p).

Lemma stable_omemcpy_out src n : stable P (omemcpy_out src n).
Proof.
  unfold omemcpy_out. generalize 0. induction n as [|n IH]; intros i; cbn [omemcpy_out_from]; stable_code.
Qed.

Lemma stable_read_count s off : stable P (read_count s off).
Proof. unfold read_count. stable_code. Qed.
Hint Resolve stable_omemcpy_out stable_read_count : stable.

Lemma stable_parent s : stable P (parent s).
Proof. unfold parent. stable_code. Qed.
Lemma stable_keyCount s : stable P (keyCount s).
Proof. unfold keyCount. stable_code. Qed.
Lemma stable_childOptrCount s : stable P (childOptrCount s).
Proof. unfold childOptrCount. stable_code. Qed.
Lemma stable_dataOptrCount s : stable P (dataOptrCount s).
Proof. unfold dataOptrCount. stable_code. Qed.
Hint Resolve stable_parent stable_keyCount stable_childOptrCount stable_dataOptrCount : stable.

Lemma stable_key s i : stable P (key s i).
Proof. unfold key. stable_code. Qed.
Lemma stable_childOptr s i : stable P (childOptr s i).
Proof. unfold childOptr. stable_code. Qed.
Lemma stable_dataOptr s i : stable P (dataOptr s i).
Proof. unfold dataOptr. stable_code. Qed.
Hint Resolve stable_key stable_childOptr stable_dataOptr : stable.

Lemma stable_rawKey s i : stable P (rawKey s i).
Proof. unfold rawKey. stable_code. Qed.
Lemma stable_exportKeyArray s : stable P (exportKeyArray s).
Proof. unfold exportKeyArray, mapToMemory. stable_code. Qed.
Lemma stable_exportChildOptrArray s : stable P (exportChildOptrArray s).
Proof. unfold exportChildOptrArray. stable_code. Qed.

Lemma stable_find_key_from s k n : forall i, stable P (find_key_from s k n i).
Proof. induction n as [|n IH]; intros i; cbn [find_key_from]; stable_code. Qed.
Hint Resolve stable_find_key_from : stable.

Lemma stable_findIndex s k : stable P (findIndex s k).
Proof. unfold findIndex. stable_code. Qed.
Lemma stable_keyInsertedIndex s k : stable P (keyInsertedIndex s k).
Proof. unfold keyInsertedIndex. stable_code. Qed.

Lemma stable_compare_keys s k len n : forall i, stable P (compare_keys s k len n i).
Proof. induction n as [|n IH]; intros i; cbn [compare_keys]; stable_code. Qed.
Lemma stable_candidateChild s step : stable P (candidateChild s step).
Proof. unfold candidateChild, child. stable_code. Qed.

Lemma stable_scan_add s k n : forall i, stable P (scan_add s k n i).
Proof. unfold child. induction n as [|n IH]; intros i; cbn [scan_add]; unfold child; stable_code. Qed.
Lemma stable_scan_remove s k n : forall i, stable P (scan_remove s k n i).
Proof. induction n as [|n IH]; intros i; cbn [scan_remove]; unfold child; stable_code. Qed.
End reading.

#[export] Hint Resolve stable_omemcpy_out stable_read_count stable_parent stable_keyCount stable_childOptrCount stable_dataOptrCount
  stable_key stable_childOptr stable_dataOptr stable_rawKey stable_exportKeyArray stable_exportChildOptrArray
  stable_findIndex stable_keyInsertedIndex stable_compare_keys stable_candidateChild stable_scan_add stable_scan_remove : stable.

(** ** Nodes in safe mode *)

Section safe_nodes.
Context {M : Type} `{ops : !OverlayManagerOps M} (P : M -> Prop).
Hypothesis Hread : forall p, stable P (value p).
Notation CT := (ONodeConversionTable M).

(** The manager of the normal file has the property. *)
Definition normal_has (t : CT) : Prop := P (_normalOMemoryManager t).
Notation keeps := (stable normal_has).

Lemma keeps_on_safe {A} (c : prog M A) : keeps (on_safe c).
Proof. apply (stable_zoom _ (fun _ => True)); [intros s _; apply post_true|auto|auto]. Qed.

Lemma keeps_on_normal {A} (c : prog M A) : stable P c -> keeps (on_normal c).
Proof. intros Hc. apply (stable_zoom _ P); auto. Qed.

Lemma keeps_cget {A} c (g : optr -> prog M A) : (forall s, stable P (g s)) -> keeps (cget c g).
Proof. intros Hg. unfold cget. destruct (in_file c); [now apply keeps_on_normal|apply keeps_on_safe]. Qed.

Lemma keeps_set_entryMap f : keeps (set_entryMap f).
Proof. now apply stable_modify. Qed.

Hint Resolve keeps_on_safe keeps_set_entryMap : stable.

Lemma keeps_copy_in p src n : forall i, keeps (omemcpy_between_from (mkPlaced SafeFile p) src i n).
Proof.
  induction n as [|n IH]; intros i; cbn [omemcpy_between_from]; stable_code.
  - now apply keeps_cget.
  - apply keeps_on_safe.
Qed.

Lemma keeps_ref target : keeps (ref target).
Proof. unfold ref. stable_code. Qed.
Lemma keeps_refEx target : keeps (refEx target).
Proof. unfold refEx. stable_code. Qed.
Hint Resolve keeps_copy_in keeps_ref keeps_refEx : stable.

Lemma keeps_citemSet this : keeps (citemSet this).
Proof. unfold citemSet. stable_code. Qed.
Lemma keeps_itemSet this : keeps (itemSet this).
Proof. unfold itemSet, omemcpy_between, ONodeConversionTable_regist. stable_code. Qed.
Hint Resolve keeps_citemSet keeps_itemSet : stable.

Lemma keeps_cread {A} this (g : optr -> prog M A) : (forall s, stable P (g s)) -> keeps (cread this g).
Proof. intros Hg. unfold cread. stable_code. now apply keeps_cget. Qed.
Lemma keeps_iwrite {A} this (w : optr -> prog M A) : keeps (iwrite this w).
Proof. unfold iwrite. stable_code. Qed.
Hint Resolve keeps_iwrite : stable.

Ltac node_code := repeat first
  [ stable_step
  | match goal with
    | |- stable _ (cread _ _) => apply keeps_cread; intros ?
    | |- stable _ (cget _ _) => apply keeps_cget; intros ?
    end ].

Lemma keeps_SafeOCItemSet_dataOptr c i : keeps (SafeOCItemSet_dataOptr c i).
Proof. unfold SafeOCItemSet_dataOptr. node_code. Qed.
Lemma keeps_SafeOItemSet_dataOptr s i d : keeps (SafeOItemSet_dataOptr s i d).
Proof. unfold SafeOItemSet_dataOptr, update. node_code. Qed.
Hint Resolve keeps_SafeOCItemSet_dataOptr keeps_SafeOItemSet_dataOptr : stable.

Lemma keeps_exportDataOptrArray c : keeps (SafeOCItemSet_exportDataOptrArray c).
Proof. unfold SafeOCItemSet_exportDataOptrArray. node_code. Qed.
Lemma keeps_moveInsertDataOptr s i d c : keeps (SafeOItemSet_moveInsertDataOptr s i d c).
Proof. unfold SafeOItemSet_moveInsertDataOptr. node_code. Qed.
Lemma keeps_new : keeps SafeONode_new.
Proof. unfold SafeONode_new, ONodeConversionTable_regist. node_code. Qed.
Lemma keeps_parent this : keeps (SafeONode_parent this).
Proof. unfold SafeONode_parent. node_code. Qed.
Lemma keeps_child this i : keeps (SafeONode_child this i).
Proof. unfold SafeONode_child. node_code. Qed.
Lemma keeps_converted_optr this : keeps (converted_optr this).
Proof. unfold converted_optr. node_code. Qed.
Lemma keeps_findIndex this k : keeps (SafeONode_findIndex this k).
Proof. unfold SafeONode_findIndex. node_code. Qed.
Lemma keeps_dataOptr this i : keeps (SafeONode_dataOptr this i).
Proof. unfold SafeONode_dataOptr. node_code. Qed.
Lemma keeps_set_dataOptr this i d : keeps (set_SafeONode_dataOptr this i d).
Proof. unfold set_SafeONode_dataOptr. node_code. Qed.
Hint Resolve keeps_exportDataOptrArray keeps_moveInsertDataOptr keeps_new keeps_parent keeps_child keeps_converted_optr
  keeps_findIndex keeps_dataOptr keeps_set_dataOptr : stable.

Lemma keeps_is_root this : keeps (SafeONode_is_root this).
Proof. unfold SafeONode_is_root. node_code. Qed.
Lemma keeps_subtreeMax fuel : forall this, keeps (SafeONode_subtreeMax fuel this).
Proof. induction fuel as [|fuel IH]; intros this; cbn [SafeONode_subtreeMax]; node_code. Qed.
Hint Resolve keeps_is_root keeps_subtreeMax : stable.

(** *** Insertion and search *)

Lemma keeps_write_each {A} (w : Z -> A -> prog CT unit) l : (forall i x, keeps (w i x)) -> forall i, keeps (write_each w i l).
Proof. intros Hw. induction l as [|x l IH]; intros i; cbn [write_each]; node_code. Qed.

Lemma stable_array_move_insert {St A} (R : St -> Prop) i (x : A) l : stable R (array_move_insert i x l).
Proof. unfold array_move_insert. stable_code. Qed.
Hint Resolve keeps_write_each stable_array_move_insert : stable.

Lemma keeps_split_view this k d n : keeps (SafeONode_split_view this k d n).
Proof. unfold SafeONode_split_view, SafeViewItemSet_importItemSet. node_code. Qed.
Lemma keeps_move_child n i c : keeps (SafeONode_move_child n i c).
Proof. unfold SafeONode_move_child. node_code. Qed.
Hint Resolve keeps_split_view keeps_move_child : stable.

Lemma keeps_splitONode this k d n : keeps (SafeONode_splitONode this k d n).
Proof. unfold SafeONode_splitONode. node_code. Qed.
Lemma keeps_grow_root this k d n : keeps (SafeONode_grow_root this k d n).
Proof. unfold SafeONode_grow_root. node_code. Qed.
Lemma keeps_simple_add this k d n : keeps (SafeONode_simple_add this k d n).
Proof. unfold SafeONode_simple_add. node_code. Qed.
Hint Resolve keeps_splitONode keeps_grow_root keeps_simple_add : stable.

Lemma keeps_recursiveAdd fuel : forall this k d n, keeps (SafeONode_recursiveAdd fuel this k d n).
Proof. induction fuel as [|fuel IH]; intros this k d n; cbn [SafeONode_recursiveAdd]; node_code. Qed.
Lemma keeps_subtreeFind fuel : forall this k, keeps (SafeONode_subtreeFind fuel this k).
Proof. induction fuel as [|fuel IH]; intros this k; cbn [SafeONode_subtreeFind]; node_code. Qed.
Hint Resolve keeps_recursiveAdd keeps_subtreeFind : stable.

(** *** Removal *)

Lemma keeps_move_key to i from j : keeps i -> keeps j -> keeps (move_key to i from j).
Proof. intros Hi Hj. unfold move_key. node_code. Qed.
Lemma keeps_move_data to i from j : keeps i -> keeps j -> keeps (move_data to i from j).
Proof. intros Hi Hj. unfold move_data. node_code. Qed.
Lemma keeps_insert_moved_key to i from j : keeps i -> keeps (insert_moved_key to i from j).
Proof. intros Hi. unfold insert_moved_key. node_code. Qed.
Lemma keeps_insert_moved_data to i from j : keeps i -> keeps (insert_moved_data to i from j).
Proof. intros Hi. unfold insert_moved_data. node_code. Qed.
Lemma keeps_insert_moved_child to i from j : keeps i -> keeps j -> keeps (insert_moved_child to i from j).
Proof. intros Hi Hj. unfold insert_moved_child. node_code. Qed.
Lemma keeps_adopt_child this i : keeps i -> keeps (adopt_child this i).
Proof. intros Hi. unfold adopt_child. node_code. Qed.
Lemma keeps_add_keyCount this d : keeps (add_keyCount this d).
Proof. unfold add_keyCount. node_code. Qed.
Lemma keeps_add_dataOptrCount this d : keeps (add_dataOptrCount this d).
Proof. unfold add_dataOptrCount. node_code. Qed.
Lemma keeps_add_childOptrCount this d : keeps (add_childOptrCount this d).
Proof. unfold add_childOptrCount. node_code. Qed.
Hint Resolve keeps_add_keyCount keeps_add_dataOptrCount keeps_add_childOptrCount : stable.

Ltac remove_code := repeat first
  [ stable_step
  | match goal with
    | |- stable _ (move_key _ _ _ _) => apply keeps_move_key
    | |- stable _ (move_data _ _ _ _) => apply keeps_move_data
    | |- stable _ (insert_moved_key _ _ _ _) => apply keeps_insert_moved_key
    | |- stable _ (insert_moved_data _ _ _ _) => apply keeps_insert_moved_data
    | |- stable _ (insert_moved_child _ _ _ _) => apply keeps_insert_moved_child
    | |- stable _ (adopt_child _ _) => apply keeps_adopt_child
    | |- stable _ (cread _ _) => apply keeps_cread; intros ?
    end ].

Lemma keeps_child_index_from this src n : forall i, keeps (SafeONode_child_index_from this src n i).
Proof. induction n as [|n IH]; intros i; cbn [SafeONode_child_index_from]; node_code. Qed.
Hint Resolve keeps_child_index_from : stable.
Lemma keeps_child_index this src : keeps (SafeONode_child_index this src).
Proof. unfold SafeONode_child_index. node_code. Qed.
Lemma keeps_left_sibling this i : keeps (SafeONode_left_sibling this i).
Proof. unfold SafeONode_left_sibling. node_code. Qed.
Lemma keeps_can_give s : keeps (SafeONode_can_give s).
Proof. unfold SafeONode_can_give. node_code. Qed.
Lemma keeps_promote_child this : keeps (SafeONode_promote_child this).
Proof. unfold SafeONode_promote_child. node_code. Qed.
Hint Resolve keeps_child_index keeps_left_sibling keeps_can_give keeps_promote_child : stable.
Lemma keeps_promote_if_empty this : keeps (promote_if_empty this).
Proof. unfold promote_if_empty. node_code. Qed.
Hint Resolve keeps_promote_if_empty : stable.

Lemma keeps_recursiveMerge this i : keeps (SafeONode_recursiveMerge this i).
Proof. unfold SafeONode_recursiveMerge. remove_code. Qed.
Hint Resolve keeps_recursiveMerge : stable.
Lemma keeps_merge_up this : keeps (SafeONode_merge_up this).
Proof. unfold SafeONode_merge_up, SafeONode_recursiveMerge_of. remove_code. Qed.
Hint Resolve keeps_merge_up : stable.
Lemma keeps_merge this i : keeps (SafeONode_merge this i).
Proof. unfold SafeONode_merge. remove_code. Qed.
Hint Resolve keeps_merge : stable.
Lemma keeps_underflow this src : keeps (SafeONode_underflow this src).
Proof. unfold SafeONode_underflow, SafeONode_borrow_left, SafeONode_borrow_right. remove_code. Qed.
Hint Resolve keeps_underflow : stable.
Lemma keeps_remove_from_leaf this i : keeps (SafeONode_remove_from_leaf this i).
Proof. unfold SafeONode_remove_from_leaf. remove_code. Qed.
Lemma keeps_skip_empty_root c : keeps (SafeONode_skip_empty_root c).
Proof. unfold SafeONode_skip_empty_root. remove_code. Qed.
Hint Resolve keeps_remove_from_leaf keeps_skip_empty_root : stable.
Lemma keeps_remove fuel : forall this k, keeps (SafeONode_remove fuel this k).
Proof. induction fuel as [|fuel IH]; intros this k; cbn [SafeONode_remove]; remove_code. Qed.
Hint Resolve keeps_remove : stable.

(** *** From the root *)

Lemma keeps_descend_add fuel : forall this k, keeps (safe_descend_add fuel this k).
Proof. induction fuel as [|fuel IH]; intros this k; cbn [safe_descend_add]; node_code. Qed.
Lemma keeps_descend_remove fuel : forall this k, keeps (safe_descend_remove fuel this k).
Proof. induction fuel as [|fuel IH]; intros this k; cbn [safe_descend_remove]; node_code. Qed.
Hint Resolve keeps_descend_add keeps_descend_remove : stable.
Lemma keeps_SafeOBtree_add fuel r k d : keeps (SafeOBtree_add fuel r k d).
Proof. unfold SafeOBtree_add. node_code. Qed.
Lemma keeps_SafeOBtree_remove fuel r k : keeps (SafeOBtree_remove fuel r k).
Proof. unfold SafeOBtree_remove. node_code. Qed.
Lemma keeps_SafeOBtree_find fuel r k : keeps (SafeOBtree_find fuel r k).
Proof. unfold SafeOBtree_find. node_code. Qed.
End safe_nodes.
