(* ===== verification/SafeSpec.v ===== *)
(** What safe mode promises: isolation of the normal table, what a copy answers right
    after it was opened, and what a commit does to the header of the index file. *)
From stdpp Require Import sorting.
From S2P Require Import Prelude OverlayPtr CacheTable ControlBlock Allocator AllocatorRuns Crypto MemoryManager ItemSet NodeStore ONode NodeOps.
From S2P Require Import BTree BTreeModel BTreeAdd BTreeIndex BTreeMap BTreeRemove ValueStore MMyISAM.
From S2P Require Import SafeONode SafeRemove SafeBTree SafeMode SafeIsolation.
From Stdlib Require Import Lia.

#[local] Open Scope Z_scope.

(** ** Memories in which reading changes nothing, whatever the pointer *)

Class QuietMem (M : Type) `{OverlayMem M} : Prop :=
  quiet_value : forall v p, stable (fun m => holds m v) (value p).

#[global] Instance CacheTable_quiet : QuietMem CacheTable.
Proof.
  intros v p m Hm. destruct (decide (lin p < 2 ^ 32)) as [Hp|Hp].
  - pose proof (value_holds p m v Hm Hp) as Hw. unfold wp, post in *. destruct (value p m); tauto.
  - cbn [value CacheTable_ops]. unfold CacheTable.convert. rewrite frame_undefined by lia. exact I.
Qed.

#[global] Instance FlatMem_quiet : QuietMem FlatMem.
Proof. intros v p m Hm. exact Hm. Qed.

Section isolation.
Context {D C : Type} `{memD : OverlayMem D} `{memC : OverlayMem C} {ssl : OpenSSL}.
Context {quietD : QuietMem D} {quietC : QuietMem C}.
Notation Mgr := (Manager D C).
Notation DB := (MMyISAM Mgr (SafeIndexManager Mgr)).

Lemma manager_read n v p : stable (fun m : Mgr => mholds n m v) (value p).
Proof.
  apply (stable_zoom _ (fun d => holds d v)); [apply quiet_value| |].
  - intros m [(Hd & _) Hv]. now split.
  - intros m d [(_ & Hn & Hf) _] [Hd Hv]. split; [|exact Hv]. now split.
Qed.

(** Reading the index file keeps it an index. *)
Lemma index_read n rt ht E p : stable (fun m : Mgr => index m n rt ht E) (value p).
Proof.
  intros m (meta & h & T & (v & Hv & Hh) & Hi). pose proof (manager_read n v p m Hv) as H.
  unfold post in *. destruct (value p m); [..|exact I]; exists meta, h, T; (split; [now exists v|exact Hi]).
Qed.

Lemma freeList_read c p : stable (fun m : C => cholds m c) (value p).
Proof.
  intros m (v & Hv & Hc). pose proof (quiet_value v p m Hv) as H. unfold post in *.
  destruct (value p m); [..|exact I]; now exists v.
Qed.

(** So does reading the state code in the file of control blocks. *)
Lemma index_dbState n rt ht E : stable (fun m : Mgr => index m n rt ht E) manager_dbState.
Proof.
  intros m (meta & h & T & (v & ((Hd & Hn & c & fb & un & al & rs & tl & Hc & Hb) & Hv) & Hh) & Hi).
  apply post_zoom with (Q := fun f => cholds f c).
  - unfold dbState. apply post_bind; [now apply post_must|]. intros q f Hf.
    assert (Hout : forall k i f, cholds f c -> post (omemcpy_out_from q i k) f (fun f' => cholds f' c)).
    { induction k as [|k IH]; intros i f' Hf'; [exact Hf'|]. cbn [omemcpy_out_from]. apply post_bind; [now apply post_must|].
      intros q' f2 H2. apply post_bind; [now apply freeList_read|]. intros b f3 H3. apply post_bind; [now apply IH|].
      intros bs f4 H4. exact H4. }
    now apply Hout.
  - intros f Hf. exists meta, h, T. split; [|exact Hi]. exists v. split; [|exact Hh]. split; [|exact Hv].
    split; [exact Hd|]. split; [exact Hn|]. exists c, fb, un, al, rs, tl. now split.
Qed.

(** ** Isolation *)

Section requests.
Context (n1 n2 : Z) (ht : nat) (kvs : list (list byte * list byte)).
Notation table := (fun s : DB => database s n1 n2 ht kvs).

Lemma table_on_safe_values {A} i vs (c : prog Mgr A) : stable table (on_safe_values i vs c).
Proof. apply (stable_zoom _ (fun _ => True)); [intros m _; apply post_true|auto|]. intros s t Hs _. exact Hs. Qed.

(** A property of the normal index file, as a safe-mode index sees it. *)
Lemma table_on_safe_index {A} i im (c : prog (SafeIndexManager Mgr * Mgr) A) :
  (forall rt E, stable (fun p => index p.2 n2 rt ht E) c) -> stable table (on_safe_index i im c).
Proof.
  intros Hc s (v & l & E & Hv & Hn & Hi & Hrest).
  apply post_zoom with (Q := fun p => index p.2 n2 (normal_rootONode s) ht E); [now apply Hc|].
  intros p Hp. exists v, l, E. split; [exact Hv|]. split; [exact Hn|]. split; [exact Hp|exact Hrest].
Qed.

Lemma table_slot {A} (arr : DB -> list (option A)) i : stable table (slot arr i).
Proof. unfold slot. stable_code. Qed.

Lemma index_on_table {A} rt E (c : prog (ONodeConversionTable Mgr) A) :
  stable (normal_has (fun m => index m n2 rt ht E)) c ->
  stable (fun p : SafeIndexManager Mgr * Mgr => index p.2 n2 rt ht E) (on_table c).
Proof. intros Hc. apply (stable_zoom _ _ _ _ _ Hc); auto. Qed.

Lemma index_set_safe_root rt E r : stable (fun p : SafeIndexManager Mgr * Mgr => index p.2 n2 rt ht E) (set_safe_root r).
Proof. now apply stable_modify. Qed.

Hint Resolve table_on_safe_values table_slot index_set_safe_root : stable.

Lemma safe_add_keeps fuel now key d rt E :
  stable (fun p : SafeIndexManager Mgr * Mgr => index p.2 n2 rt ht E) (SafeIndexManager_add fuel now key d).
Proof.
  unfold SafeIndexManager_add. stable_code; apply index_on_table; [apply keeps_SafeOBtree_add, index_read|apply keeps_on_safe].
Qed.

Lemma safe_remove_keeps fuel now key rt E :
  stable (fun p : SafeIndexManager Mgr * Mgr => index p.2 n2 rt ht E) (SafeIndexManager_remove fuel now key).
Proof.
  unfold SafeIndexManager_remove. stable_code; apply index_on_table; [apply keeps_SafeOBtree_remove, index_read|apply keeps_on_safe].
Qed.

Lemma safe_find_keeps fuel key rt E :
  stable (fun p : SafeIndexManager Mgr * Mgr => index p.2 n2 rt ht E) (SafeIndexManager_find fuel key).
Proof. unfold SafeIndexManager_find. stable_code. apply index_on_table, keeps_SafeOBtree_find, index_read. Qed.

Lemma format_keeps (P : Mgr -> Prop) : (forall p, stable P (value p)) -> stable (normal_has P) SafeIndexManager_format.
Proof.
  intros HP. unfold SafeIndexManager_format, Table_init, omemcpy_between.
  stable_code; first [apply keeps_on_safe|apply keeps_set_entryMap|now apply keeps_copy_in].
Qed.

Lemma migrate_keeps fi fv answer q : stable table (migrateToSafeMode fi fv answer q).
Proof.
  unfold migrateToSafeMode. apply stable_bind.
  { intros s (v & l & E & Hv & Hn & Hi & Hrest).
    apply post_zoom with (Q := fun m => index m n2 (normal_rootONode s) ht E); [now apply index_dbState|].
    intros p Hp. exists v, l, E. split; [exact Hv|]. split; [exact Hn|]. split; [exact Hp|exact Hrest]. }
  intros st. apply stable_bind; [apply stable_get|]. intros s0. apply stable_bind.
  - intros s (v & l & E & Hv & Hn & Hi & Hrest).
    apply (post_local _ _ _ _ _ (normal_has (fun m => index m n2 (normal_rootONode s) ht E))).
    + apply (stable_bind _ SafeIndexManager_format); [apply format_keeps, index_read|intros _; apply keeps_on_safe|exact Hi].
    + intros t Ht. exists v, l, E. split; [exact Hv|]. split; [exact Hn|]. split; [exact Ht|exact Hrest].
  - intros [_ t]. apply stable_bind.
    + intros s Hs. apply (post_local _ _ _ _ _ (fun _ => True)); [apply post_true|auto].
    + intros [_ vs]. stable_code.
Qed.
End requests.

(** ** Requests in safe mode *)

(** What a client can ask for in safe mode, short of a commit. *)
Inductive safe_request : Type :=
| ReqMigrate (safeIndexFile safeValueFile : Mgr) (answer : option bool)
| ReqAdd
| ReqGet
| ReqRemove
| ReqExists
| ReqAbort.

Definition run_request (fuel : nat) (now : Z) (r : safe_request * QueryContext) : prog DB bool :=
  match r.1 with
  | ReqMigrate fi fv answer => migrateToSafeMode fi fv answer r.2
  | ReqAdd => MMyISAM_add (safe := SafeIndexManager_ops fuel now) fuel now r.2
  | ReqGet => x ← MMyISAM_get (safe := SafeIndexManager_ops fuel now) fuel r.2; mret x.1
  | ReqRemove => MMyISAM_remove (safe := SafeIndexManager_ops fuel now) fuel r.2
  | ReqExists => MMyISAM_exists (safe := SafeIndexManager_ops fuel now) fuel r.2
  | ReqAbort => safeAbortExit r.2
  end.

Fixpoint run_requests (fuel : nat) (now : Z) (rs : list (safe_request * QueryContext)) : prog DB (list bool) :=
  match rs with
  | [] => mret []
  | r :: rs' => a ← run_request fuel now r; l ← run_requests fuel now rs'; mret (a :: l)
  end.

Lemma request_keeps fuel now n1 n2 ht kvs r :
  0 <= q_registryIndex r.2 -> stable (fun s => database s n1 n2 ht kvs) (run_request fuel now r).
Proof.
  intros Hr. destruct r as [r q]. cbn [snd] in Hr. pose proof (proj2 (Z.leb_le 0 _) Hr) as Hb. unfold run_request. cbn [fst snd].
  destruct r as [fi fv answer| | | | |].
  - apply migrate_keeps.
  - unfold MMyISAM_add. rewrite Hb. stable_code; try (apply table_slot || apply table_on_safe_values).
    apply table_on_safe_index. intros rt E. apply safe_add_keeps.
  - unfold MMyISAM_get. rewrite Hb. stable_code; try (apply table_slot || apply table_on_safe_values).
    apply table_on_safe_index. intros rt E. apply safe_find_keeps.
  - unfold MMyISAM_remove. rewrite Hb. stable_code; try apply table_slot.
    apply table_on_safe_index. intros rt E. apply safe_remove_keeps.
  - unfold MMyISAM_exists. rewrite Hb. stable_code; try apply table_slot.
    apply table_on_safe_index. intros rt E. apply safe_find_keeps.
  - unfold safeAbortExit. stable_code.
Qed.

(** C7: Safe mode is isolated: whatever a client does with safe-mode queries short of a
    commit (opening copies over any files, adding, looking up and removing any keys in
    any order, giving copies up), and even when a request ends in an exception, the
    normal table stays the same finite map, in the same files. *)
Theorem safe_mode_isolated fuel now (s : DB) n1 n2 ht kvs rs :
  database s n1 n2 ht kvs -> Forall (fun r => 0 <= q_registryIndex r.2) rs ->
  post (run_requests fuel now rs) s (fun s' => database s' n1 n2 ht kvs).
Proof.
  intros Hs Hrs. revert s Hs. induction Hrs as [|r rs Hr _ IH]; intros s Hs; [exact Hs|]. cbn [run_requests].
  apply post_bind; [now apply request_keeps|]. intros a s1 H1. apply post_bind; [now apply IH|].
  intros l s2 H2. exact H2.
Qed.
End isolation.

(** ** Right after a copy was opened *)

Section fresh_copy.
Context {M : Type} `{mgr : OverlayManager M}.
Notation CT := (ONodeConversionTable M).

(** With an empty table, code that only reads runs on the normal file. *)
Definition reads_normal {A B} (f : A -> B) (c : prog CT B) (g : prog M A) : Prop := forall sm m,
  c (mkTable ∅ sm m) = match g m with
                       | Ok a m' => Ok (f a) (mkTable ∅ sm m')
                       | Throw e m' => Throw e (mkTable ∅ sm m')
                       | Undef => Undef
                       end.

Lemma cread_normal {A} this (g : optr -> prog M A) : reads_normal id (cread this g) (g this).
Proof.
  intros sm m. unfold cread, citemSet, ref, cget, on_normal, zoom. monad_step. cbn [_entryMap]. rewrite lookup_empty. cbn.
  now destruct (g this m).
Qed.

Lemma reads_bind {A A' B B'} (f : A -> A') (h : B -> B') (c : prog CT A') k (c' : prog M A) k' :
  reads_normal f c c' -> (forall a, reads_normal h (k (f a)) (k' a)) -> reads_normal h (c ≫= k) (c' ≫= k').
Proof. intros Hc Hk sm m. unfold mbind, prog_bind. rewrite Hc. destruct (c' m); [apply Hk|reflexivity..]. Qed.

Lemma dataOptr_normal this i :
  reads_normal (fun d => (d, DATA_OPTR_LOCATED_AT_NORMAL)) (SafeONode_dataOptr this i) (dataOptr this i).
Proof.
  intros sm m. unfold SafeONode_dataOptr, citemSet, ref, SafeOCItemSet_dataOptr, refEx, cget, on_normal, zoom. monad_step.
  cbn [_entryMap]. rewrite lookup_empty. cbn. rewrite lookup_empty. cbn. now destruct (dataOptr this i m).
Qed.

Definition located (o : option (option optr)) : option DataOptrEx :=
  (fun d => (d, DATA_OPTR_LOCATED_AT_NORMAL)) <$> o.

Lemma find_normal fuel : forall this k, reads_normal located (SafeONode_subtreeFind fuel this k) (tagged_find fuel this k).
Proof.
  induction fuel as [|fuel IH]; intros this k; cbn [SafeONode_subtreeFind tagged_find]; [intros sm m; reflexivity|].
  eapply reads_bind; [apply cread_normal|]. intros n. unfold id.
  apply (reads_bind id); [intros sm m; now destruct (rd 5 k)|]. intros t. unfold id.
  eapply reads_bind; [exact (cread_normal this (fun s => compare_keys s t 5 (Z.to_nat n) 0))|]. intros step. unfold id.
  destruct step as [i|i|]; [eapply reads_bind; [apply dataOptr_normal|intros d sm m; reflexivity]|..];
    (eapply reads_bind; [exact (cread_normal this (fun s => candidateChild s _))|]; intros [c|]; [apply IH|intros sm m; reflexivity]).
Qed.

(** Search in a copy nothing was written to. *)
Lemma find_in_fresh_copy fuel sm m n rt ht E k :
  index m n rt ht E -> (5 <= length k)%nat -> (ht < fuel)%nat ->
  wp (SafeOBtree_find fuel rt (Some k)) (mkTable ∅ sm m) (fun o t =>
    _entryMap t = ∅ /\ _safeOMemoryManager t = sm /\ index (_normalOMemoryManager t) n rt ht E /\
    match o with
    | Some (Some d, loc) => loc = DATA_OPTR_LOCATED_AT_NORMAL /\ finds 5 (take 5 k) E (Some d) /\
        exists m', OBtree_find fuel rt (Some k) m = Ok (Some d) m'
    | Some (None, _) => False
    | None => finds 5 (take 5 k) E None /\ exists m', OBtree_find fuel rt (Some k) m = Ok None m'
    end).
Proof.
  intros (meta & h & T & Hm & Hfmt & Hst & Hnd & <- & <- & Hs) Hk Hf. unfold SafeOBtree_find, wp.
  rewrite (find_normal fuel (root T) (Some k) sm m).
  destruct (wp_inv _ _ _ (tagged_find_spec n meta h k ht fuel addrZero T m Hf Hm Hst Hs Hk)) as (o & m' & Et & Hm' & Ho).
  assert (OBtree_find fuel (root T) (Some k) m = Ok (mjoin o) m') as En
    by (unfold OBtree_find; rewrite subtreeFind_tagged; unfold mbind, prog_bind; now rewrite Et).
  rewrite Et.
  split; [reflexivity|]. split; [reflexivity|]. split.
  - exists meta, h, T. repeat (split; [assumption||reflexivity|]). assumption.
  - destruct o as [[d|]|]; cbn; [split; [reflexivity|split; [exact Ho|now exists m']]|exact Ho|split; [exact Ho|now exists m']].
Qed.
End fresh_copy.

(** *** Opening a copy *)

Section opened.
Context {D C : Type} `{memD : OverlayMem D} `{memC : OverlayMem C} {ssl : OpenSSL}.
Context {quietD : QuietMem D} {quietC : QuietMem C}.
Notation Mgr := (Manager D C).
Notation DB := (MMyISAM Mgr (SafeIndexManager Mgr)).

Lemma table_empty_format : forall t : ONodeConversionTable Mgr,
  post (_ ← SafeIndexManager_format; on_safe manager_clear) t (fun t' => _entryMap t' = ∅).
Proof.
  assert (Hsafe : forall A (c : prog Mgr A), stable (fun t : ONodeConversionTable Mgr => _entryMap t = ∅) (on_safe c)).
  { intros A c. apply (stable_zoom _ (fun _ => True)); [intros m _; apply post_true|auto|auto]. }
  assert (Hget : forall A p (g : optr -> prog Mgr A), stable (fun t : ONodeConversionTable Mgr => _entryMap t = ∅) (cget p g)).
  { intros A p g. unfold cget. destruct (in_file p); [|apply Hsafe].
    apply (stable_zoom _ (fun _ => True)); [intros m _; apply post_true|auto|auto]. }
  assert (Hcopy : forall p q n i, stable (fun t : ONodeConversionTable Mgr => _entryMap t = ∅) (omemcpy_between_from p q i n)).
  { intros p q n. induction n as [|n IH]; intros i; cbn [omemcpy_between_from]; stable_code. }
  intros t. unfold SafeIndexManager_format. apply post_bind with (P := fun t' => _entryMap t' = ∅); [|intros _ t' Ht'; now apply Hsafe].
  apply post_bind with (P := fun t' => _entryMap t' = ∅); [reflexivity|]. intros _.
  change (stable (fun t : ONodeConversionTable Mgr => _entryMap t = ∅) (_ ← on_safe manager_clear; _ ← on_safe (manager_allocate 100);
    _ ← omemcpy_between (mkPlaced SafeFile addrZero) (mkPlaced NormalFile addrZero) 100;
    _ ← on_safe (manager_allocate SAFE_MODE_COLLICION_OFFSET); mret tt)).
  unfold omemcpy_between. stable_code.
Qed.

(** A copy of the slot [i] nothing was written to. *)
Definition fresh_slot (i : nat) (s : DB) : Prop := exists sm code vs,
  activeSafeIndexManagerArray s !! i = Some (Some (mkSafeIndex sm ∅ (normal_rootONode s) code)) /\
  activeValueStoreManagerArray s !! i = Some (Some vs).

Lemma migrate_opens fi fv answer q (s s' : DB) a :
  migrateToSafeMode fi fv answer q s = Ok a s' ->
  (Z.to_nat (q_registryIndex q) < length (activeSafeIndexManagerArray s))%nat ->
  (Z.to_nat (q_registryIndex q) < length (activeValueStoreManagerArray s))%nat ->
  answer = Some a /\ fresh_slot (Z.to_nat (q_registryIndex q)) s'.
Proof.
  unfold migrateToSafeMode, on_index, zoom, with_local. monad_step. intros H Hl1 Hl2.
  destruct (manager_dbState (normal_indexManager s)) as [code m1| |]; try discriminate. cbn in H.
  pose proof (table_empty_format (mkTable ∅ fi m1)) as He. unfold post, mbind, prog_bind in He.
  match type of H with context [SafeIndexManager_format ?t] => destruct (SafeIndexManager_format t) as [u t1| |] end; try discriminate.
  cbn in H. match type of H with context [on_safe ?c t1] => destruct (on_safe c t1) as [u2 t2| |] end; try discriminate.
  destruct (ValueStoreManager_clear fv) as [u3 vs| |]; try discriminate. cbn in H.
  destruct ((0 <=? q_registryIndex q) && (q_registryIndex q <? Z.of_nat ALLOWED_SAFE_REGISTRY_COUNT)); [|discriminate].
  destruct answer as [b|]; [|discriminate]. injection H as <- <-. split; [reflexivity|]. exists (_safeOMemoryManager t2), code, vs. cbn. rewrite He.
  split; apply list_lookup_insert_eq; assumption.
Qed.

Definition safe_query (i : Z) (k bs : list byte) : QueryContext := mkQuery (Some k) (Some bs) (Z.of_nat (length bs)) i.

(** What a search in the index says about the pairs of the table. *)
Lemma finds_pairs (v : Z -> byte) n l E kvs len t o :
  E ≡ₚ map (fun x : list byte * list byte * optr => (x.1.1, x.2)) l -> map fst l = kvs -> Forall (stored_value v n) l ->
  finds len t E o ->
  match o with
  | Some p => exists k bs, (k, bs) ∈ kvs /\ take len k = t /\ value_at v (lin p) bs
  | None => t ∉ map (fun kv : list byte * list byte => take len kv.1) kvs
  end.
Proof.
  intros HE <- Hst Ho. apply (finds_permutation len t E _ o HE) in Ho. rewrite Forall_forall in Hst. destruct o as [p|]; cbn [finds] in Ho.
  - destruct Ho as (k & Hin & Et). apply list_elem_of_fmap in Hin as ([[k0 bs] p0] & [= -> ->] & Hin).
    destruct (Hst _ Hin) as [Hva _]. exists k0, bs. split; [now apply (list_elem_of_fmap_2 fst l (k0, bs, p0))|now split].
  - rewrite Forall_map, Forall_forall in Ho. intros Hin. apply list_elem_of_fmap in Hin as (kv & -> & Hin).
    apply list_elem_of_fmap in Hin as (x & -> & Hin). now apply (Ho x).
Qed.

(** Search through the manager of a copy nothing was written to. *)
Lemma fresh_find fuel (m : Mgr) n rt ht E sm code k :
  index m n rt ht E -> (5 <= length k)%nat -> (ht < fuel)%nat -> exists o p',
  SafeIndexManager_find fuel (Some k) (mkSafeIndex sm ∅ rt code, m) =
    must ((fun p => (Some p, DATA_OPTR_LOCATED_AT_NORMAL)) <$> o) p' /\ finds 5 (take 5 k) E o /\
    exists m', OBtree_find fuel rt (Some k) m = Ok o m'.
Proof.
  intros Hix Hk Hf. destruct (wp_inv _ _ _ (find_in_fresh_copy fuel sm m n rt ht E k Hix Hk Hf)) as (o & t & Eo & _ & _ & _ & Ho).
  unfold SafeIndexManager_find, on_table, zoom. monad_step. cbn [fst snd si_rootONode]. unfold table_of.
  cbn [fst snd si_entryMap si_oMemoryManager]. rewrite Eo.
  destruct o as [[[d|] loc]|]; [|contradiction|]; [destruct Ho as [-> Ho]; exists (Some d)|exists None]; eexists; (split; [reflexivity|exact Ho]).
Qed.

(** C22: A copy answers like the index it was opened from, for the keys that are there. Right
    after [migrateToSafeMode], in a build in which that function, which flows off its end,
    comes back to its caller, the copy's search for such a key finds the very pointer into
    the normal value store that the index's own search finds, with that location, and the
    value of a pair with the same first five bytes is stored there. For a key whose first five bytes are not
    there the normal table answers false, and any look-up in the copy dereferences a null
    pointer. *)
Theorem fresh_copy_answers fuel now fi fv answer i (s s' : DB) a n1 n2 ht kvs k :
  database s n1 n2 ht kvs -> migrateToSafeMode fi fv answer (safe_query i [] []) s = Ok a s' ->
  0 <= i -> (Z.to_nat i < length (activeSafeIndexManagerArray s))%nat ->
  (Z.to_nat i < length (activeValueStoreManagerArray s))%nat -> (5 <= length k)%nat -> (ht < fuel)%nat ->
  answer = Some a /\
  (take 5 k ∈ map (fun kv => take 5 kv.1) kvs -> exists im v p,
     activeSafeIndexManagerArray s' !! Z.to_nat i = Some (Some im) /\ mholds n1 (normal_valueStoreManager s') v /\
     wp (normal_find fuel (Some k)) s' (fun r _ => r = (Some p, DATA_OPTR_LOCATED_AT_NORMAL)) /\
     wp (SafeIndexManager_find fuel (Some k)) (im, normal_indexManager s') (fun r _ => r = (Some p, DATA_OPTR_LOCATED_AT_NORMAL)) /\
     exists k' bs, (k', bs) ∈ kvs /\ take 5 k' = take 5 k /\ value_at v (lin p) bs) /\
  (take 5 k ∉ map (fun kv => take 5 kv.1) kvs ->
     MMyISAM_get (safe := SafeIndexManager_ops fuel now) fuel (safe_query i k []) s' = Undef /\
     wp (MMyISAM_get (safe := SafeIndexManager_ops fuel now) fuel (normal_query k [])) s' (fun r _ => r.1 = false)).
Proof.
  intros Hdb Hmig Hi Hl1 Hl2 Hk Hf. destruct (migrate_opens _ _ _ _ _ _ _ Hmig Hl1 Hl2) as (-> & sm & code & vs & Hslot & _). cbn in Hslot.
  split; [reflexivity|].
  assert (Hdb' : database s' n1 n2 ht kvs).
  { pose proof (migrate_keeps n1 n2 ht kvs fi fv (Some a) (safe_query i [] []) s Hdb) as H. unfold post in H. now rewrite Hmig in H. }
  pose proof Hdb' as (v & l & E & Hv & Hn1 & Hix & HE & Hkv & Hst).
  destruct (fresh_find fuel _ n2 _ ht E sm code k Hix Hk Hf) as (o & p' & Eo & Ho & m' & En).
  apply (finds_pairs v n1 l E kvs 5 _ o HE Hkv Hst) in Ho. split; intros Hin.
  - destruct o as [p|]; [|exfalso; exact (Ho Hin)]. eexists _, v, p. split; [exact Hslot|]. split; [exact Hv|]. split; [|split].
    + unfold normal_find, on_index, NormalIndexManager_find, zoom, wp. monad_step. now rewrite En.
    + unfold wp. now rewrite Eo.
    + destruct Ho as (k' & bs & Ho). now exists k', bs.
  - destruct o as [p|]; [destruct Ho as (k' & bs & Hkb & Et & _); destruct Hin; rewrite <- Et;
      now apply (list_elem_of_fmap_2 (fun kv : list byte * list byte => take 5 kv.1) kvs (k', bs))|]. split.
    + unfold MMyISAM_get, slot, safe_query. cbn [q_registryIndex q_key]. rewrite (proj2 (Z.leb_le 0 i) Hi). monad_step.
      rewrite Hslot. unfold on_safe_index, zoom. cbn [safe_find SafeIndexManager_ops]. now rewrite Eo.
    + wp_last (database_get (safe := SafeIndexManager_ops fuel now) fuel s' n1 n2 ht kvs k []) giving r as (Hgot & _); [assumption..|].
      destruct Hgot as [(k' & bs & Hin' & Et & _)|[_ ->]]; [|reflexivity]. destruct Hin. rewrite <- Et.
      now apply (list_elem_of_fmap_2 (fun kv : list byte * list byte => take 5 kv.1) kvs (k', bs)).
Qed.
End opened.

(** ** Runs on empty files *)

Notation sample_mgr := (Manager FlatMem FlatMem).
Notation sample_db := (MMyISAM sample_mgr (SafeIndexManager sample_mgr)).
#[local] Instance sample_safe_index : SafeIndexOps sample_mgr (SafeIndexManager sample_mgr) := SafeIndexManager_ops 8 1700000000.

Definition sample_migrate : prog sample_db bool := migrateToSafeMode empty_manager empty_manager (Some true) (safe_query 0 [] []).

Definition normal_add_one (k : Z) (bs : list byte) : prog sample_db bool := MMyISAM_add 8 1700000000 (normal_query (sample_key k) bs).
Definition safe_add_one (k : Z) (bs : list byte) : prog sample_db bool := MMyISAM_add 8 1700000000 (safe_query 0 (sample_key k) bs).
Definition normal_get_one (k : Z) : prog sample_db (bool * buffer) :=
  r ← MMyISAM_get 8 (normal_query (sample_key k) []); mret (r.1, q_value r.2).

(** Opening the same files again. *)
Definition reopen : prog sample_db unit := fun s =>
  match MMyISAM_new (S := SafeIndexManager sample_mgr) 1700000000 (normal_valueStoreManager s) (normal_indexManager s) with
  | Ok s' _ => Ok tt s'
  | Throw e _ => Throw e s
  | Undef => Undef
  end.

(** A new table on empty files, and the answers of a run on it. *)
Definition sample_table : sample_db :=
  match manager_clear empty_manager with
  | Ok _ m => match MMyISAM_new (S := SafeIndexManager sample_mgr) 1700000000 m m with Ok s _ => s | _ => mkMMyISAM m m addrZero [] [] end
  | _ => mkMMyISAM empty_manager empty_manager addrZero [] []
  end.

Definition sample_run {A} (c : prog sample_db A) : option A :=
  match c sample_table with Ok a _ => Some a | _ => None end.

(** A commit overwrites the header of the index file with the first node of the safe
    file, since [migrateToSafeMode] formats the copy and then clears it again, so that
    its first node lies where the copied header was. The values of both tables are found
    after the commit, and none of them once the files are opened again. *)
Theorem commit_loses_header :
  sample_run (_ ← normal_add_one 3 [x01]; _ ← sample_migrate; _ ← safe_add_one 5 [x02; x03];
    done ← safeCommitExit 8 map_to_list 1700000000 (safe_query 0 [] []);
    a ← normal_get_one 3; b ← normal_get_one 5;
    header ← on_index (omemcpy_out addrZero 20);
    _ ← reopen;
    c ← normal_get_one 3; d ← normal_get_one 5;
    mret (done, a, b, bool_decide (header = FORMAT_CODE), c, d)) =
  Some (true, (true, Some [x01]), (true, Some [x02; x03]), false, (false, Some []), (false, Some [])).
Proof. vm_compute. reflexivity. Qed.

(** A removal in a copy shifts the data pointers of a node and leaves their locations
    where they are. The key that was added before it then counts as one of the normal
    store, its value is not copied by the commit, and it is answered with the value of
    another key. Without the removal the commit copies it. *)
Theorem commit_after_removal_mixes_values :
  let run := fun removal : prog sample_db bool => sample_run (_ ← normal_add_one 3 [x01]; _ ← normal_add_one 4 [x04]; _ ← sample_migrate;
    _ ← safe_add_one 5 [x02; x03]; _ ← removal;
    _ ← safeCommitExit 8 map_to_list 1700000000 (safe_query 0 [] []);
    a ← normal_get_one 4; b ← normal_get_one 5; mret (a, b)) in
  run (MMyISAM_remove 8 (safe_query 0 (sample_key 3) [])) = Some ((true, Some [x04]), (true, Some [x01])) /\
  run (mret true) = Some ((true, Some [x04]), (true, Some [x02; x03])).
Proof. vm_compute. split; reflexivity. Qed.

Lemma sample_table_database : database sample_table 0 203 0 [] /\
  length (activeSafeIndexManagerArray sample_table) = 5%nat /\ length (activeValueStoreManagerArray sample_table) = 5%nat.
Proof.
  destruct cleared_manager as (m & Em & Hm).
  destruct (database_new (S := SafeIndexManager sample_mgr) 1700000000 m m (fm_view empty_file) (fm_view empty_file) Hm Hm empty_not_formatted)
    as (s & Es & Hdb & E1 & E2).
  unfold sample_table. rewrite Em, Es, E1, E2. now repeat split.
Qed.

Lemma safe_mode_isolated_witness :
  let requests := [(ReqMigrate empty_manager empty_manager (Some true), safe_query 0 [] []); (ReqAdd, safe_query 0 (sample_key 5) [x02]);
    (ReqGet, safe_query 0 (sample_key 5) []); (ReqRemove, safe_query 0 (sample_key 5) []); (ReqAbort, safe_query 0 [] [])] in
  sample_run (run_requests 8 1700000000 requests) = Some [true; true; true; true; true] /\
  post (run_requests 8 1700000000 requests) sample_table (fun s' => database s' 0 203 0 []).
Proof.
  split; [vm_compute; reflexivity|]. apply (safe_mode_isolated 8 1700000000 sample_table 0 203 0 []); [apply sample_table_database|].
  repeat apply Forall_cons_2; try apply Forall_nil_2; cbn; lia.
Defined.

(** The table with one pair, and a copy of it. *)
Definition state_after {A} (c : prog sample_db A) (s : sample_db) : sample_db := match c s with Ok _ s' => s' | _ => s end.
Definition sample_one : sample_db := state_after (normal_add_one 3 [x01]) sample_table.
Definition sample_copy : sample_db := state_after sample_migrate sample_one.

Lemma sample_one_database : exists ht n2, (ht <= 1)%nat /\ database sample_one 29 n2 ht [(sample_key 3, [x01])].
Proof.
  destruct (wp_inv _ _ _ (database_add (S := SafeIndexManager sample_mgr) 8 1700000000 sample_table 0 203 0 [] (sample_key 3) [x01]
    (proj1 sample_table_database) ltac:(intros H; inversion H) eq_refl ltac:(lia) ltac:(cbn; lia) ltac:(lia)))
    as (r & s1 & E1 & -> & n2 & ht & Hdb1 & _ & Hht & _).
  exists ht, n2. split; [exact Hht|]. unfold sample_one, state_after, normal_add_one. rewrite E1. exact Hdb1.
Qed.

Lemma sample_migrate_ok : sample_migrate sample_one = Ok true sample_copy.
Proof.
  assert (H : match sample_migrate sample_one with Ok a _ => a | _ => false end = true) by (vm_compute; reflexivity).
  unfold sample_copy, state_after. destruct (sample_migrate sample_one) as [a s| |]; [now subst a|discriminate..].
Qed.

Lemma fresh_copy_answers_witness :
  sample_migrate sample_one = Ok true sample_copy /\
  (exists im v p, activeSafeIndexManagerArray sample_copy !! Z.to_nat 0 = Some (Some im) /\ mholds 29 (normal_valueStoreManager sample_copy) v /\
     wp (normal_find 8 (Some (sample_key 3))) sample_copy (fun r _ => r = (Some p, DATA_OPTR_LOCATED_AT_NORMAL)) /\
     wp (SafeIndexManager_find 8 (Some (sample_key 3))) (im, normal_indexManager sample_copy) (fun r _ => r = (Some p, DATA_OPTR_LOCATED_AT_NORMAL)) /\
     exists k' bs, (k', bs) ∈ [(sample_key 3, [x01])] /\ take 5 k' = take 5 (sample_key 3) /\ value_at v (lin p) bs) /\
  MMyISAM_get (safe := SafeIndexManager_ops 8 1700000000) 8 (safe_query 0 (sample_key 5) []) sample_copy = Undef.
Proof.
  destruct sample_one_database as (ht & n2 & Hht & Hdb). split; [exact sample_migrate_ok|].
  assert (H1 : length (activeSafeIndexManagerArray sample_one) = 5%nat) by (vm_compute; reflexivity).
  assert (H2 : length (activeValueStoreManagerArray sample_one) = 5%nat) by (vm_compute; reflexivity).
  pose proof (fun k => fresh_copy_answers 8 1700000000 empty_manager empty_manager (Some true) 0 sample_one sample_copy true 29 n2 ht
    [(sample_key 3, [x01])] k Hdb sample_migrate_ok ltac:(lia) ltac:(rewrite H1; cbn; lia) ltac:(rewrite H2; cbn; lia)) as H.
  destruct (H (sample_key 3) ltac:(vm_compute; lia) ltac:(lia)) as (_ & H3 & _).
  destruct (H (sample_key 5) ltac:(vm_compute; lia) ltac:(lia)) as (_ & _ & H5).
  split; [exact (H3 ltac:(apply (bool_decide_unpack _); vm_compute; exact I))|].
  exact (proj1 (H5 ltac:(apply (bool_decide_unpack _); vm_compute; exact I))).
Defined.
