(* ===== verification/Script.v ===== *)
(** Transaction scripts ([chain/transaction/script/]): opcodes, the byte codec of
    scripts, the P2PKH locking and unlocking scripts and the stack machine that
    validates them. *)
From S2P Require Import Prelude Crypto.
From Stdlib Require Import Lia.

(** ** Opcodes and scripts (script.h) *)

Inductive OP_CODES : Type :=
| OP_COMMON
| OP_DUP
| OP_HASH_160
| OP_EQUALVERIFY
| OP_CHECKSIG
| OP_DATA (_code : byte).

#[export] Instance OP_CODES_eq_dec : EqDecision OP_CODES.
Proof. solve_decision. Defined.

Definition item : Type := OP_CODES * buffer.
Definition script : Type := list item.

Definition Script_pushBack (opcode : OP_CODES) (data : buffer) (s : script) : script :=
  match opcode with
  | OP_DATA _ => s ++ [(opcode, data)]
  | _ => s ++ [(opcode, None)]
  end.

Definition OP_DATALength (opcode : OP_CODES) : Z :=
  match opcode with OP_DATA c => u8 c | _ => 0 end.

(** The overload on raw bytes only knows lengths up to 95. *)
Definition OP_DATALength_raw (opcode : byte) : Z :=
  if (1 <=? u8 opcode) && (u8 opcode <=? 95) then u8 opcode else 0.

Definition parseRawOPCode (raw : byte) : OP_CODES :=
  match raw with
  | x76 => OP_DUP
  | xa9 => OP_HASH_160
  | x88 => OP_EQUALVERIFY
  | xac => OP_CHECKSIG
  | _ => OP_DATA raw
  end.

Definition rawOPCode (opcode : OP_CODES) : byte :=
  match opcode with
  | OP_DUP => x76
  | OP_HASH_160 => xa9
  | OP_EQUALVERIFY => x88
  | OP_CHECKSIG => xac
  | OP_DATA c => c
  | OP_COMMON => x00
  end.

Definition exportScriptContentSize (opcode : OP_CODES) : Z :=
  match opcode with OP_DATA _ => OP_DATALength opcode + 1 | _ => 1 end.

Definition Script_exportRawSize (s : script) : Z :=
  foldl (fun ret i => ret + exportScriptContentSize i.1) 0 s.

Definition export_item (i : item) : option (list byte) :=
  match i.1 with
  | OP_DATA _ => d ← rd (OP_DATALength i.1) i.2; Some (rawOPCode i.1 :: d)
  | _ => Some [rawOPCode i.1]
  end.

Fixpoint export_items (s : script) : option (list byte) :=
  match s with
  | [] => Some []
  | i :: s' => b ← export_item i; bs ← export_items s'; Some (b ++ bs)
  end.

(** [Script::exportRaw]: an empty script leaves the result pointer alone and
    returns 0, which is the empty byte string here. *)
Definition Script_exportRaw (s : script) : option (list byte) := export_items s.

(** [Script::importRaw]: [raw] is everything readable from [fromRaw] on; items are
    appended to [s]; the result is the script and the final position. *)
Fixpoint import_loop (fuel : nat) (raw : list byte) (len i : Z) (s : script) : option (script * Z) :=
  if i <? len then
    match fuel with
    | O => None
    | S fuel' =>
        match raw !! Z.to_nat i with
        | None => None
        | Some b =>
            let opcode := parseRawOPCode b in
            if 0 <? OP_DATALength opcode then
              opdata ← sub raw (i + 1) (OP_DATALength opcode);
              import_loop fuel' raw len (i + 1 + OP_DATALength opcode) (Script_pushBack opcode (Some opdata) s)
            else import_loop fuel' raw len (i + 1) (Script_pushBack opcode None s)
        end
    end
  else Some (s, i).

Definition Script_importRaw (raw : list byte) (len : Z) (s : script) : option (script * Z) :=
  import_loop (Z.to_nat len) raw len 0 s.

Definition Script_OPCount (s : script) : Z := Z.of_nat (length s).

(** ** The P2PKH locking script (pk_script.cpp) *)

(** [PkScript::exportRawWithP2PKHPkScript]: 0 and no bytes without a hash; else the
    script is replaced by the P2PKH template and written out. *)
Definition PkScript_exportRawWithP2PKHPkScript (pubKeyHash : buffer) : prog script (list byte) :=
  match pubKeyHash with
  | None => mret []
  | Some _ =>
      s ← get_state;
      _ ← (if 0 <? Script_OPCount s then set_state [] else mret ());
      _ ← modify (Script_pushBack OP_DUP None);
      _ ← modify (Script_pushBack OP_HASH_160 None);
      _ ← modify (Script_pushBack (OP_DATA x14) pubKeyHash);
      _ ← modify (Script_pushBack OP_EQUALVERIFY None);
      _ ← modify (Script_pushBack OP_CHECKSIG None);
      s ← get_state;
      must (Script_exportRaw s)
  end.

(** [PkScript::importRaw] appends to the script it already has. *)
Definition PkScript_importRaw (fromRaw : list byte) (fromRawLength : Z) : prog script Z :=
  s ← get_state;
  r ← must (Script_importRaw fromRaw fromRawLength s);
  _ ← set_state r.1;
  mret r.2.

(** ** The unlocking script (signature_script.cpp) *)

Section SignatureScript_code.
Context {ssl : OpenSSL}.

Record SignatureScript : Type := mkSignatureScript {
  _sign : buffer;
  _signLength : Z;
  _isSigned : bool;
  _pkey : option PKEY;
  _script : script;
}.

(** [_signLength] is not initialised by the constructor; it is 0 here. *)
Definition SignatureScript_new : SignatureScript := mkSignatureScript None 0 false None [].

Definition SignatureScript_pkey (pkey : option PKEY) (x : SignatureScript) : SignatureScript :=
  mkSignatureScript (_sign x) (_signLength x) (_isSigned x) pkey (_script x).

Definition SignatureScript_sign (sign : buffer) (signLength : Z) (isSigned : bool)
    (x : SignatureScript) : SignatureScript :=
  mkSignatureScript sign signLength isSigned (_pkey x) (_script x).

Definition set_script (s : script) (x : SignatureScript) : SignatureScript :=
  mkSignatureScript (_sign x) (_signLength x) (_isSigned x) (_pkey x) s.

Definition set_sign (sign : buffer) (signLength : Z) (x : SignatureScript) : SignatureScript :=
  mkSignatureScript sign signLength (_isSigned x) (_pkey x) (_script x).

(** [Script::at( int )] throws when there is no such item. *)
Definition Script_at (s : script) (i : nat) {S} : prog S item :=
  match s !! i with Some x => mret x | None => throw OutOfRange end.

Definition SignatureScript_importRaw (fromRaw : list byte) (fromRawLength : Z)
  : prog SignatureScript Z :=
  if fromRawLength <=? 20 then mret 0
  else
    x ← get_state;
    r ← must (Script_importRaw fromRaw fromRawLength (_script x));
    _ ← modify (set_script r.1);
    rawSignPair ← Script_at r.1 0;
    _ ← modify (set_sign rawSignPair.2 (OP_DATALength rawSignPair.1));
    rawPubKeyPair ← Script_at r.1 1;
    k ← must (toPkey rawPubKeyPair.2 (OP_DATALength rawPubKeyPair.1));
    _ ← modify (SignatureScript_pkey k);
    mret fromRawLength.

Definition clear_script : prog SignatureScript unit :=
  x ← get_state; if 0 <? Script_OPCount (_script x) then set_state (set_script [] x) else mret ().

(** The hash of the public key, to be signed; the script is cleared on the way. *)
Definition SignatureScript_exportRawWithPubKeyHash : prog SignatureScript (list byte) :=
  x ← get_state;
  match _pkey x with
  | None => mret []
  | Some k =>
      _ ← clear_script;
      let rawPubKey := toRawPubKey k in
      must (SHAHash (Some rawPubKey) (Z.of_nat (length rawPubKey)) sha1)
  end.

(** Signature and public key as two data pushes with one-byte lengths. *)
Definition SignatureScript_exportRawWithSignatureScript : prog SignatureScript (list byte) :=
  x ← get_state;
  match _pkey x with
  | None => mret []
  | Some k =>
      _ ← clear_script;
      _ ← modify (fun x => set_script
             (Script_pushBack (OP_DATA (b8 (Z.land (_signLength x) 255))) (_sign x) (_script x)) x);
      let rawPubKey := toRawPubKey k in
      let rawPubKeyLength := Z.of_nat (length rawPubKey) mod 2 ^ 16 in
      _ ← modify (fun x => set_script
             (Script_pushBack (OP_DATA (b8 (Z.land rawPubKeyLength 255))) (Some rawPubKey) (_script x)) x);
      x ← get_state;
      must (Script_exportRaw (_script x))
  end.
End SignatureScript_code.

(** ** The validating stack machine (script_validator.cpp) *)

Section Validator_code.
Context {ssl : OpenSSL}.

(** The top of the stack is the head of the list; popping an empty one is undefined. *)
Definition stack : Type := list item.

Definition stack_push (opcode : OP_CODES) (data : buffer) (st : stack) : stack := (opcode, data) :: st.

Definition popBack (st : stack) : option (item * stack) :=
  match st with [] => None | x :: st' => Some (x, st') end.

Record ValidationOptions : Type := mkOptions { _txHash : buffer * Z; _opData : buffer * Z }.

(** What every [exe] is: a boolean result and a new stack. *)
Definition exe_fn : Type := stack -> ValidationOptions -> option (bool * stack).

Definition OP_DUP_exe : exe_fn := fun st _ =>
  '(e, st) ← popBack st;
  Some (true, stack_push e.1 e.2 (stack_push e.1 e.2 st)).

Definition OP_HASH_160_exe : exe_fn := fun st _ =>
  '(e, st) ← popBack st;
  md ← SHAHash e.2 (OP_DATALength e.1) sha1;
  Some (true, stack_push (OP_DATA x14) (Some md) st).

Definition OP_EQUALVERIFY_exe : exe_fn := fun st _ =>
  '(e1, st) ← popBack st;
  '(e2, st) ← popBack st;
  d1 ← rd (OP_DATALength e1.1) e1.2;
  d2 ← rd (OP_DATALength e1.1) e2.2;
  Some (match memcmp d1 d2 with Eq => true | _ => false end, st).

Definition OP_CHECKSIG_exe : exe_fn := fun st opts =>
  '(e1, st) ← popBack st;
  '(e2, st) ← popBack st;
  pubKey ← toPkey e1.2 (OP_DATALength e1.1);
  r ← ECDSAManager_verify e2.2 (OP_DATALength e2.1) (_txHash opts).1 (_txHash opts).2 pubKey sha256;
  Some (r, st).

Definition OP_DATA_exe : exe_fn := fun st opts =>
  Some (true, stack_push (OP_DATA (b8 (_opData opts).2)) (_opData opts).1 st).

(** [ValidationStack::controlStack]: -1 when the callback fails. *)
Definition controlStack (f : exe_fn) (st : stack) (opts : ValidationOptions) : option (Z * stack) :=
  '(r, st) ← f st opts; Some (if r : bool then 0 else -1, st).

(** The constructor of [ScriptValidator] joins signature script and locking script. *)
Definition joinedScript (pkScript signatureScript : script) : script := signatureScript ++ pkScript.

(** One round of the loop of [verifyP2PKHScript]: [None] for an item without effect. *)
Definition step_item (txHash : buffer) (txHashLength : Z) (i : item) (st : stack)
    (opts : ValidationOptions) : option (option Z * stack * ValidationOptions) :=
  let run f opts := '(r, st) ← controlStack f st opts; Some (Some r, st, opts) in
  match i.1 with
  | OP_DUP => run OP_DUP_exe opts
  | OP_HASH_160 => run OP_HASH_160_exe opts
  | OP_EQUALVERIFY => run OP_EQUALVERIFY_exe opts
  | OP_CHECKSIG => run OP_CHECKSIG_exe (mkOptions (txHash, txHashLength) (_opData opts))
  | OP_DATA _ => run OP_DATA_exe (mkOptions (_txHash opts) (i.2, OP_DATALength i.1))
  | OP_COMMON => Some (None, st, opts)
  end.

Fixpoint verify_loop (txHash : buffer) (txHashLength : Z) (s : script) (st : stack)
    (opts : ValidationOptions) : option bool :=
  match s with
  | [] => Some true
  | i :: s' =>
      '(r, st, opts) ← step_item txHash txHashLength i st opts;
      match r with
      | None => verify_loop txHash txHashLength s' st opts
      | Some flag => if flag =? 0 then verify_loop txHash txHashLength s' st opts else Some false
      end
  end.

Definition verifyP2PKHScript (pkScript signatureScript : script) (txHash : buffer)
    (txHashLength : Z) : option bool :=
  verify_loop txHash txHashLength (joinedScript pkScript signatureScript) []
    (mkOptions (None, 0) (None, 0)).
End Validator_code.

(** ** The codec *)

(** An item that survives being written and read: its code is not taken for
    another opcode, and its buffer holds as many bytes as the code says. *)
Definition item_ok (i : item) : Prop :=
  match i.1 with
  | OP_COMMON => False
  | OP_DATA c =>
      parseRawOPCode c = OP_DATA c /\
      match i.2 with
      | Some d => u8 c <> 0 /\ Z.of_nat (length d) = u8 c
      | None => u8 c = 0
      end
  | _ => i.2 = None
  end.

Definition script_ok (s : script) : Prop := Forall item_ok s.

Lemma parse_raw b : rawOPCode (parseRawOPCode b) = b.
Proof. destruct b; reflexivity. Qed.

Lemma parse_data b : OP_DATALength (parseRawOPCode b) =
  match parseRawOPCode b with OP_DATA _ => u8 b | _ => 0 end.
Proof. destruct b; reflexivity. Qed.

Lemma OP_DATALength_range op : 0 <= OP_DATALength op < 256.
Proof. destruct op; simpl; try lia. apply u8_range. Qed.

Lemma export_items_app s1 s2 b1 b2 :
  export_items s1 = Some b1 -> export_items s2 = Some b2 -> export_items (s1 ++ s2) = Some (b1 ++ b2).
Proof.
  revert b1; induction s1 as [|i s1 IH]; intros b1 H1 H2; simpl in *;
    [injection H1 as <-; exact H2|].
  destruct (export_item i) as [b|]; [|discriminate]. simpl in *.
  destruct (export_items s1) as [bs|]; [|discriminate]. simpl in *. injection H1 as <-.
  rewrite (IH bs) by auto. simpl. now rewrite app_assoc.
Qed.

Lemma export_pushed b d :
  match OP_DATALength (parseRawOPCode b) with
  | 0 => d = None
  | n => exists l, d = Some l /\ Z.of_nat (length l) = n
  end ->
  exists bs, export_items [(parseRawOPCode b, d)] = Some bs /\ bs = b :: bytes_of d.
Proof.
  intros H. eexists. split; [|reflexivity]. unfold export_items, export_item. simpl fst. simpl snd.
  pose proof (parse_raw b) as Hr. destruct (parseRawOPCode b) as [| | | | |c] eqn:E; simpl in *;
    try (subst; reflexivity).
  subst c. destruct (u8 b) eqn:Eu.
  - subst d. reflexivity.
  - destruct H as (l & -> & <-). simpl. rewrite rd_all. simpl. now rewrite app_nil_r.
  - destruct H as (l & _ & Hl). pose proof (u8_range b). lia.
Qed.

Lemma pushBack_parsed b d s :
  match OP_DATALength (parseRawOPCode b) with 0 => d = None | _ => True end ->
  Script_pushBack (parseRawOPCode b) d s = s ++ [(parseRawOPCode b, d)].
Proof.
  intros H. destruct (parseRawOPCode b) eqn:E; simpl in *; try reflexivity; now subst.
Qed.

Lemma take_sub raw i n l :
  0 <= i -> 0 <= n -> sub raw i n = Some l ->
  take (Z.to_nat (i + n)) raw = take (Z.to_nat i) raw ++ l /\ i + n <= Z.of_nat (length raw).
Proof.
  unfold sub, rd. intros Hi Hn. destruct (_ && _) eqn:E; [|discriminate].
  apply andb_prop in E as [_ E%Z.leb_le].
  rewrite Z2Nat.inj_add, <- take_take_drop by lia.
  destruct (Z.eqb_spec n 0) as [->|].
  - intros [= <-]. split; [reflexivity|lia].
  - destruct (Z.leb_spec n (Z.of_nat (length (drop (Z.to_nat i) raw)))) as [Hl|]; [|discriminate].
    intros [= <-]. rewrite length_drop in Hl. split; [reflexivity|lia].
Qed.

Lemma take_lookup_snoc (raw : list byte) i b :
  raw !! i = Some b -> take (S i) raw = take i raw ++ [b].
Proof. apply take_S_r. Qed.

Lemma import_loop_export fuel raw len i s s' i' pre :
  0 <= i <= Z.of_nat (length raw) ->
  export_items s = Some (pre ++ take (Z.to_nat i) raw) ->
  import_loop fuel raw len i s = Some (s', i') ->
  export_items s' = Some (pre ++ take (Z.to_nat i') raw) /\ i <= i' <= Z.of_nat (length raw) /\ len <= i'.
Proof.
  revert i s; induction fuel as [|fuel IH]; intros i s Hi He; cbn [import_loop];
    (destruct (Z.ltb_spec i len) as [Hlt|]; [|intros [= <- <-]; split; [assumption|lia]]); [discriminate|].
  destruct (raw !! Z.to_nat i) as [b|] eqn:Eb; [|discriminate].
  pose proof (lookup_lt_Some _ _ _ Eb) as Hlt'.
  assert (H1 : take (Z.to_nat (i + 1)) raw = take (Z.to_nat i) raw ++ [b]).
  { rewrite Z2Nat.inj_add by lia. rewrite Nat.add_comm. now apply take_lookup_snoc. }
  pose proof (OP_DATALength_range (parseRawOPCode b)) as Hr.
  destruct (Z.ltb_spec 0 (OP_DATALength (parseRawOPCode b))) as [Hp|Hz].
  - destruct (sub raw (i + 1) (OP_DATALength (parseRawOPCode b))) as [d|] eqn:Ed; [|discriminate].
    pose proof (sub_length _ _ _ _ Ed ltac:(lia)) as Hd.
    apply take_sub in Ed as [Et Hlen]; [|lia..]. simpl. intros H.
    apply IH in H as (H & ? & ?); [split; [assumption|lia]|lia|].
    rewrite pushBack_parsed by (now destruct (OP_DATALength (parseRawOPCode b)) eqn:E; [lia|..]).
    destruct (export_pushed b (Some d)) as (bs & Ebs & ->).
    { destruct (OP_DATALength (parseRawOPCode b)) eqn:E; [lia|eauto|lia]. }
    erewrite export_items_app by eassumption. rewrite Et, H1. simpl. now rewrite <- !app_assoc.
  - intros H. apply IH in H as (H & ? & ?); [split; [assumption|lia]|lia|].
    assert (E0 : OP_DATALength (parseRawOPCode b) = 0) by lia.
    rewrite pushBack_parsed by now rewrite E0.
    destruct (export_pushed b None) as (bs & Ebs & ->); [now rewrite E0|].
    erewrite export_items_app by eassumption. rewrite H1. simpl. now rewrite <- !app_assoc.
Qed.

(** reading a script and writing it again gives back exactly the bytes read; the
    reader consumes at least the declared length. *)
Theorem import_then_export raw len s i :
  Script_importRaw raw len [] = Some (s, i) ->
  Script_exportRaw s = Some (take (Z.to_nat i) raw) /\ len <= i <= Z.of_nat (length raw).
Proof.
  unfold Script_importRaw, Script_exportRaw. intros H.
  eapply (import_loop_export _ _ _ _ _ _ _ []) in H; [|lia|reflexivity]. simpl in H. split; [tauto|lia].
Qed.

Lemma import_then_export_witness :
  Script_exportRaw [(OP_DUP, None); (OP_DATA x02, Some [x01; x02])] = Some [x76; x02; x01; x02] /\
  3 <= 4 <= 5.
Proof.
  apply (import_then_export [x76; x02; x01; x02; xff] 3
           [(OP_DUP, None); (OP_DATA x02, Some [x01; x02])] 4). reflexivity.
Defined.

Lemma parse_opcode op d :
  item_ok (op, d) -> parseRawOPCode (rawOPCode op) = op.
Proof. unfold item_ok. destruct op; cbn [fst snd rawOPCode]; intros H; [destruct H|reflexivity..|apply H]. Qed.

Lemma export_item_ok i :
  item_ok i -> export_item i = Some (rawOPCode i.1 :: bytes_of i.2) /\
    Z.of_nat (length (bytes_of i.2)) = OP_DATALength i.1.
Proof.
  destruct i as [[| | | | |c] d]; unfold item_ok, export_item; simpl; try (intros ->; now split); [tauto|].
  intros [_ H]. destruct d as [d|]; simpl.
  - destruct H as [_ <-]. now rewrite rd_all.
  - rewrite H. now split.
Qed.

Lemma pushBack_item i s : item_ok i -> Script_pushBack i.1 i.2 s = s ++ [i].
Proof. destruct i as [[| | | | |c] d]; unfold item_ok; cbn [fst snd Script_pushBack]; try (intros ->); reflexivity || tauto. Qed.

Lemma item_buffer i :
  item_ok i -> i.2 = (if 0 <? OP_DATALength i.1 then Some (bytes_of i.2) else None).
Proof.
  destruct i as [[| | | | |c] d]; unfold item_ok; cbn [fst snd OP_DATALength]; try tauto.
  intros [_ H]. pose proof (u8_range c). destruct d as [d|]; [|now rewrite H].
  destruct (Z.ltb_spec 0 (u8 c)); [reflexivity|lia].
Qed.

Lemma import_loop_ok s : forall fuel pre rest s0 raw len,
  script_ok s -> export_items s = Some raw -> len = Z.of_nat (length (pre ++ raw)) ->
  (length raw <= fuel)%nat ->
  import_loop fuel (pre ++ raw ++ rest) len (Z.of_nat (length pre)) s0 = Some (s0 ++ s, len).
Proof.
  induction s as [|i s IH]; intros fuel pre rest s0 raw len Hok He -> Hf.
  - injection He as <-. rewrite !app_nil_r. destruct fuel; cbn [import_loop]; now rewrite Z.ltb_irrefl.
  - apply Forall_cons in Hok as [Hi Hok]. destruct (export_item_ok _ Hi) as [Ei El].
    simpl in He. rewrite Ei in He. simpl in He. destruct (export_items s) as [bs|] eqn:Ebs; [|discriminate].
    injection He as <-. simpl length in Hf. destruct fuel as [|fuel]; [lia|]. cbn [import_loop].
    rewrite (proj2 (Z.ltb_lt _ _)) by (rewrite length_app; simpl; lia).
    rewrite Nat2Z.id, lookup_app_r, Nat.sub_diag by lia. simpl lookup. cbv iota beta.
    rewrite (parse_opcode i.1 i.2) by now destruct i. rewrite length_app in Hf.
    assert (Epre : pre ++ (rawOPCode i.1 :: bytes_of i.2 ++ bs) ++ rest =
                   (pre ++ rawOPCode i.1 :: bytes_of i.2) ++ bs ++ rest) by (simpl; now rewrite <- !app_assoc).
    assert (Elen : length (pre ++ rawOPCode i.1 :: bytes_of i.2 ++ bs) =
                   length ((pre ++ rawOPCode i.1 :: bytes_of i.2) ++ bs)) by (rewrite <- app_assoc; reflexivity).
    pose proof (item_buffer _ Hi) as Hbuf. pose proof (pushBack_item _ s0 Hi) as Hpush.
    rewrite Elen. destruct (Z.ltb_spec 0 (OP_DATALength i.1)) as [Hp|Hz]; rewrite Hbuf in Hpush.
    + assert (Es : sub (pre ++ (rawOPCode i.1 :: bytes_of i.2 ++ bs) ++ rest) (Z.of_nat (length pre) + 1)
                     (OP_DATALength i.1) = Some (bytes_of i.2)).
      { rewrite <- El. pose proof (sub_app (pre ++ [rawOPCode i.1]) (bytes_of i.2) (bs ++ rest)) as H.
        rewrite <- app_assoc, length_app, Nat2Z.inj_add in H. simpl app in *.
        rewrite <- app_assoc. exact H. }
      rewrite Es. cbn [mbind option_bind]. rewrite Epre.
      replace (Z.of_nat (length pre) + 1 + OP_DATALength i.1)
        with (Z.of_nat (length (pre ++ rawOPCode i.1 :: bytes_of i.2))) by (rewrite length_app; simpl; lia).
      rewrite (IH fuel _ rest _ bs _ Hok eq_refl eq_refl), Hpush, <- app_assoc by lia. reflexivity.
    + assert (Eb : bytes_of i.2 = []) by (destruct (bytes_of i.2); [reflexivity|simpl in El; lia]).
      rewrite Eb in *. rewrite Epre.
      replace (Z.of_nat (length pre) + 1) with (Z.of_nat (length (pre ++ [rawOPCode i.1]))) by (rewrite length_app; simpl; lia).
      rewrite (IH fuel _ rest _ bs _ Hok eq_refl eq_refl), Hpush, <- app_assoc by lia. reflexivity.
Qed.

(** a script of opcodes and exactly sized data pushes, none of whose length codes
    collides with an opcode, is read back unchanged from its bytes, whatever
    follows them. *)
Theorem export_then_import s raw rest :
  script_ok s -> Script_exportRaw s = Some raw ->
  Script_importRaw (raw ++ rest) (Z.of_nat (length raw)) [] = Some (s, Z.of_nat (length raw)).
Proof.
  intros Hs He. unfold Script_importRaw. rewrite Nat2Z.id.
  exact (import_loop_ok s (length raw) [] rest [] raw _ Hs He eq_refl (le_n _)).
Qed.

Definition sample_script : script :=
  [(OP_DUP, None); (OP_HASH_160, None); (OP_DATA x03, Some [x01; x02; x03]); (OP_CHECKSIG, None)].

Lemma export_then_import_witness :
  Script_importRaw ([x76; xa9; x03; x01; x02; x03; xac] ++ [xff]) 7 [] = Some (sample_script, 7).
Proof.
  apply (export_then_import sample_script).
  - repeat constructor; simpl; discriminate.
  - reflexivity.
Defined.

Lemma import_loop_prefix fuel raw len i s s' i' :
  import_loop fuel raw len i s = Some (s', i') -> exists t, s' = s ++ t.
Proof.
  revert i s; induction fuel as [|fuel IH]; intros i s; cbn [import_loop];
    (destruct (i <? len); [|intros [= <- <-]; exists []; now rewrite app_nil_r]); [discriminate|].
  destruct (raw !! Z.to_nat i) as [b|]; [|discriminate].
  assert (Hp : forall d, exists t, Script_pushBack (parseRawOPCode b) d s = s ++ t)
    by (intros d; unfold Script_pushBack; destruct (parseRawOPCode b); eexists; reflexivity).
  destruct (0 <? _).
  - destruct (sub raw (i + 1) _) as [d|]; [|discriminate]. simpl. intros H.
    destruct (IH _ _ H) as [t ->]. destruct (Hp (Some d)) as [t' ->]. exists (t' ++ t). now rewrite app_assoc.
  - intros H. destruct (IH _ _ H) as [t ->]. destruct (Hp None) as [t' ->]. exists (t' ++ t). now rewrite app_assoc.
Qed.

Lemma import_loop_step fuel raw len i s :
  import_loop (S fuel) raw len i s =
  if i <? len then
    match raw !! Z.to_nat i with
    | None => None
    | Some b =>
        let opcode := parseRawOPCode b in
        if 0 <? OP_DATALength opcode then
          opdata ← sub raw (i + 1) (OP_DATALength opcode);
          import_loop fuel raw len (i + 1 + OP_DATALength opcode) (Script_pushBack opcode (Some opdata) s)
        else import_loop fuel raw len (i + 1) (Script_pushBack opcode None s)
    end
  else Some (s, i).
Proof. reflexivity. Qed.

(** a data push of 118 bytes never survives: its length byte is read back as
    OP_DUP, whatever the data is and whatever follows. *)
Theorem data_push_118_misread d rest :
  length d = 118%nat ->
  exists raw, Script_exportRaw [(OP_DATA x76, Some d)] = Some raw /\
  forall s i, Script_importRaw (raw ++ rest) (Z.of_nat (length raw)) [] = Some (s, i) ->
  s !! 0%nat = Some (OP_DUP, None).
Proof.
  intros Hd. exists (x76 :: d). split.
  - unfold Script_exportRaw, export_items, export_item. simpl fst. simpl snd.
    assert (Ed : rd (u8 x76) (Some d) = Some d) by (replace (u8 x76) with (Z.of_nat (length d)) by (rewrite Hd; reflexivity); apply rd_all).
    simpl OP_DATALength. rewrite Ed. simpl. now rewrite app_nil_r.
  - intros s i. unfold Script_importRaw. rewrite Nat2Z.id. simpl length.
    rewrite import_loop_step, (proj2 (Z.ltb_lt 0 _)) by lia.
    change (((x76 :: d) ++ rest) !! Z.to_nat 0) with (Some x76).
    change (0 <? OP_DATALength (parseRawOPCode x76)) with false. cbv iota beta.
    change (Script_pushBack (parseRawOPCode x76) None []) with [(OP_DUP, @None (list byte))].
    intros [t ->]%import_loop_prefix. reflexivity.
Qed.

Lemma data_push_118_misread_witness : exists raw,
  Script_exportRaw [(OP_DATA x76, Some (replicate 118 x00))] = Some raw /\
  forall s i, Script_importRaw (raw ++ [x00]) (Z.of_nat (length raw)) [] = Some (s, i) ->
  s !! 0%nat = Some (OP_DUP, None).
Proof. apply (data_push_118_misread (replicate 118 x00) [x00]). reflexivity. Defined.

(** ** Validation *)

(** The locking and the unlocking script of a P2PKH output. *)
Definition p2pkh_script (h : list byte) : script :=
  [(OP_DUP, None); (OP_HASH_160, None); (OP_DATA x14, Some h); (OP_EQUALVERIFY, None);
   (OP_CHECKSIG, None)].

Definition unlock_script (sig pk : list byte) : script :=
  [(OP_DATA (b8 (Z.of_nat (length sig))), Some sig); (OP_DATA (b8 (Z.of_nat (length pk))), Some pk)].

Lemma u8_b8_small z : 0 <= z < 256 -> u8 (b8 z) = z.
Proof. intros. rewrite u8_b8. now apply Z.mod_small. Qed.

Section validation.
Context {ssl : OpenSSL} {laws : OpenSSL_laws}.

Lemma verify_loop_run txHash txLen i s st st' opts opts' r :
  step_item txHash txLen i st opts = Some (Some r, st', opts') ->
  verify_loop txHash txLen (i :: s) st opts =
  if r =? 0 then verify_loop txHash txLen s st' opts' else Some false.
Proof. intros H. cbn [verify_loop]. rewrite H. reflexivity. Qed.

Lemma step_data txHash txLen d st opts :
  Z.of_nat (length d) < 256 ->
  step_item txHash txLen (OP_DATA (b8 (Z.of_nat (length d))), Some d) st opts =
  Some (Some 0, (OP_DATA (b8 (Z.of_nat (length d))), Some d) :: st,
        mkOptions (_txHash opts) (Some d, Z.of_nat (length d))).
Proof. intros Hd. cbn. rewrite u8_b8_small by lia. reflexivity. Qed.

Lemma step_hash txHash txLen d st opts :
  Z.of_nat (length d) < 256 ->
  step_item txHash txLen (OP_HASH_160, None) ((OP_DATA (b8 (Z.of_nat (length d))), Some d) :: st) opts =
  Some (Some 0, (OP_DATA x14, Some (EVP_SHA1 d)) :: st, opts).
Proof.
  intros Hd. cbn. unfold OP_HASH_160_exe, SHAHash. cbn. rewrite u8_b8_small, rd_all by lia. reflexivity.
Qed.

Lemma step_equal txHash txLen a b st opts :
  length a = 20%nat -> length b = 20%nat ->
  step_item txHash txLen (OP_EQUALVERIFY, None) ((OP_DATA x14, Some a) :: (OP_DATA x14, Some b) :: st) opts =
  Some (Some (if decide (a = b) then 0 else -1), st, opts).
Proof.
  intros Ha Hb. unfold step_item, controlStack, OP_EQUALVERIFY_exe. cbn [popBack mbind option_bind fst snd OP_DATALength].
  assert (Ra : rd (u8 x14) (Some a) = Some a) by (change (u8 x14) with (Z.of_nat 20); rewrite <- Ha; apply rd_all).
  assert (Rb : rd (u8 x14) (Some b) = Some b) by (change (u8 x14) with (Z.of_nat 20); rewrite <- Hb; apply rd_all).
  rewrite Ra, Rb. simpl. pose proof (memcmp_eq a b ltac:(congruence)) as He.
  destruct (decide (a = b)) as [->|Hne]; [now rewrite memcmp_refl|].
  destruct (memcmp a b) eqn:E; try reflexivity. exfalso. apply Hne. now apply He.
Qed.

Lemma step_checksig txHash sig pk st opts :
  Z.of_nat (length sig) < 256 -> Z.of_nat (length pk) < 256 ->
  exists opts', step_item (Some txHash) (Z.of_nat (length txHash)) (OP_CHECKSIG, None)
    ((OP_DATA (b8 (Z.of_nat (length pk))), Some pk) :: (OP_DATA (b8 (Z.of_nat (length sig))), Some sig) :: st) opts =
  Some (Some (if EVP_PKEY_verify (d2i_PUBKEY pk) sig (EVP_SHA256 txHash) then 0 else -1), st, opts').
Proof.
  intros Hs Hp. eexists. unfold step_item, controlStack, OP_CHECKSIG_exe, popBack.
  cbn [mbind option_bind fst snd OP_DATALength _txHash]. unfold toPkey.
  rewrite (u8_b8_small (Z.of_nat (length pk))), (u8_b8_small (Z.of_nat (length sig))) by lia.
  rewrite (rd_all pk). cbn [mbind option_bind].
  unfold ECDSAManager_verify, SHAHash. rewrite rd_all. unfold ECDSAManager_verify_digest.
  rewrite rd_all. reflexivity.
Qed.

Lemma verifyP2PKHScript_run h sig pk txHash :
  length h = 20%nat -> Z.of_nat (length sig) < 256 -> Z.of_nat (length pk) < 256 ->
  verifyP2PKHScript (p2pkh_script h) (unlock_script sig pk) (Some txHash) (Z.of_nat (length txHash)) =
  Some (if decide (EVP_SHA1 pk = h) then EVP_PKEY_verify (d2i_PUBKEY pk) sig (EVP_SHA256 txHash) else false).
Proof.
  intros Hh Hs Hp. unfold verifyP2PKHScript, joinedScript, unlock_script. cbn [app].
  erewrite verify_loop_run by (apply step_data; lia). cbn [Z.eqb].
  erewrite verify_loop_run by (apply step_data; lia). cbn [Z.eqb]. unfold p2pkh_script.
  erewrite verify_loop_run by reflexivity. cbn [Z.eqb].
  erewrite verify_loop_run by (apply step_hash; lia). cbn [Z.eqb].
  erewrite verify_loop_run by reflexivity. cbn [Z.eqb]. change (b8 (OP_DATALength (OP_DATA x14))) with x14.
  erewrite verify_loop_run by (apply step_equal; [exact Hh|apply SHA1_length]). cbn [fst snd].
  destruct (decide (h = EVP_SHA1 pk)) as [->|Hne].
  - rewrite decide_True by reflexivity. cbn [Z.eqb].
    destruct (step_checksig txHash sig pk [] (mkOptions (None, 0) (Some (EVP_SHA1 pk), 20))) as (o & Ho); [lia..|].
    erewrite verify_loop_run by exact Ho. now destruct (EVP_PKEY_verify _ _ _).
  - rewrite decide_False by congruence. reflexivity.
Qed.

(** C25: validating the unlocking script with signature [sig] and raw public key [pk]
    against the P2PKH locking script of hash [h] succeeds exactly when [h] is the
    SHA-1 of the key and the signature verifies over the SHA-256 of the
    transaction bytes under that key. *)
Theorem verifyP2PKHScript_correct h sig pk txHash :
  length h = 20%nat -> Z.of_nat (length sig) < 256 -> Z.of_nat (length pk) < 256 ->
  verifyP2PKHScript (p2pkh_script h) (unlock_script sig pk) (Some txHash) (Z.of_nat (length txHash)) =
  Some (if decide (EVP_SHA1 pk = h) then EVP_PKEY_verify (d2i_PUBKEY pk) sig (EVP_SHA256 txHash) else false).
Proof. apply verifyP2PKHScript_run. Qed.

(** Writing the locking script of a 20-byte hash. *)
Lemma PkScript_export_spec h s :
  length h = 20%nat ->
  PkScript_exportRawWithP2PKHPkScript (Some h) s =
  Ok ([x76; xa9; x14] ++ h ++ [x88; xac]) (p2pkh_script h).
Proof.
  intros Hh.
  assert (Er : rd (u8 x14) (Some h) = Some h) by (change (u8 x14) with (Z.of_nat 20); rewrite <- Hh; apply rd_all).
  assert (Ee : Script_exportRaw (p2pkh_script h) = Some ([x76; xa9; x14] ++ h ++ [x88; xac])).
  { unfold Script_exportRaw, p2pkh_script, export_items, export_item. cbn [fst snd OP_DATALength].
    rewrite Er. reflexivity. }
  transitivity (must (Script_exportRaw (p2pkh_script h)) (p2pkh_script h)); [now destruct s|now rewrite Ee].
Qed.

Lemma p2pkh_script_ok h : length h = 20%nat -> script_ok (p2pkh_script h).
Proof.
  intros Hh. repeat constructor; unfold item_ok; cbn [fst snd]; try discriminate.
  change (u8 x14) with (Z.of_nat 20). now rewrite Hh.
Qed.
End validation.

Lemma verifyP2PKHScript_correct_witness :
  let pk := [x30; x07] in let sig := x07 :: EVP_SHA256 [x01] in
  verifyP2PKHScript (p2pkh_script (EVP_SHA1 pk)) (unlock_script sig pk) (Some [x01]) 1 = Some true.
Proof.
  intros pk sig. rewrite (verifyP2PKHScript_correct (EVP_SHA1 pk) sig pk [x01]).
  - vm_compute. reflexivity.
  - reflexivity.
  - vm_compute. reflexivity.
  - vm_compute. reflexivity.
Defined.

Lemma sub_some raw off n :
  0 <= off -> 0 <= n -> off + n <= Z.of_nat (length raw) -> exists l, sub raw off n = Some l.
Proof.
  intros Ho Hn Hl. unfold sub, rd. rewrite (proj2 (Z.leb_le 0 off)), (proj2 (Z.leb_le off _)) by lia.
  cbn [andb]. destruct (n =? 0); [eauto|]. rewrite length_drop.
  rewrite (proj2 (Z.leb_le n _)) by lia. eauto.
Qed.

Lemma import_loop_returns fuel raw len i s :
  0 <= i -> len + 255 <= Z.of_nat (length raw) -> len - i <= Z.of_nat fuel -> i <= len + 255 ->
  exists s' i', import_loop fuel raw len i s = Some (s', i') /\ len <= i' <= len + 255.
Proof.
  revert i s; induction fuel as [|fuel IH]; intros i s Hi Hl Hf Hm; cbn [import_loop];
    destruct (Z.ltb_spec i len) as [Hlt|]; try lia; try (exists s, i; split; [reflexivity|lia]).
  destruct (lookup_lt_is_Some_2 raw (Z.to_nat i)) as [b Eb]; [lia|]. rewrite Eb.
  pose proof (OP_DATALength_range (parseRawOPCode b)) as Hr.
  destruct (Z.ltb_spec 0 (OP_DATALength (parseRawOPCode b))).
  - destruct (sub_some raw (i + 1) (OP_DATALength (parseRawOPCode b))) as [d Ed]; [lia..|].
    rewrite Ed. cbn [mbind option_bind]. apply IH; lia.
  - apply IH; lia.
Qed.

(** reading a script always ends: with 255 readable bytes after the declared
    length it yields a script and a position at most 255 bytes beyond that length.
    Such overruns do happen: the length of a data push is not checked against the
    declared length. *)
Theorem importRaw_ends raw len s :
  0 <= len -> len + 255 <= Z.of_nat (length raw) ->
  exists s' i, Script_importRaw raw len s = Some (s', i) /\ len <= i <= len + 255.
Proof. intros. apply import_loop_returns; lia. Qed.

Lemma importRaw_ends_witness :
  exists s' i, Script_importRaw (xff :: replicate 255 x00) 1 [] = Some (s', i) /\ 1 <= i <= 256.
Proof. apply (importRaw_ends (xff :: replicate 255 x00) 1 []); [lia|vm_compute; discriminate]. Defined.
