(* ===== verification/TxFormat.v ===== *)
(** Transaction inputs and outputs ([chain/transaction/tx/]): the fields as they lie in
    memory (multi-byte integers already in network order) and their byte formats. *)
From S2P Require Import Prelude Crypto Script.
From Stdlib Require Import Lia.

(** ** prev_out *)

Record prev_out : Type := mkPrevOut { _txID : list byte; _index : Z }.

Definition prev_out_new : prev_out := mkPrevOut (replicate 32 x00) (2 ^ 32 - 1).

Definition prev_out_txID (target : buffer) (p : prev_out) : prev_out :=
  match target with
  | None => mkPrevOut (replicate 32 x00 ++ drop 32 (_txID p)) (_index p)
  | Some t => mkPrevOut t (_index p)
  end.

(** The getter narrows the 32-bit index to [unsigned short]. *)
Definition prev_out_index (p : prev_out) : Z := bswap32 (_index p) mod 2 ^ 16.

Definition prev_out_set_index (target : Z) (p : prev_out) : prev_out :=
  mkPrevOut (_txID p) (bswap32 target).

Definition prev_out_exportRaw (p : prev_out) : option (list byte) :=
  t ← rd 32 (Some (_txID p)); Some (t ++ le_encode 4 (_index p)).

(** Overwrites the first 32 bytes of the id buffer in place. *)
Definition prev_out_importRaw (fromRaw : list byte) : prog prev_out Z :=
  p ← get_state;
  t ← must (sub fromRaw 0 32);
  i ← must (sub fromRaw 32 4);
  _ ← set_state (mkPrevOut (t ++ drop 32 (_txID p)) (le_decode i));
  mret 36.

(** ** TxIn *)

Section TxFormat_code.
Context {ssl : OpenSSL}.

Record TxIn : Type := mkTxIn {
  _prevOut : prev_out;
  _script_bytes : Z;
  _signatureScript : SignatureScript;
  _sequence : Z;
  tx_pkey : option PKEY;
}.

(** [_pkey] is not initialised by the constructor; it is null here. *)
Definition TxIn_new : TxIn := mkTxIn prev_out_new 0 SignatureScript_new (2 ^ 32 - 1) None.

Definition set_prevOut (p : prev_out) (t : TxIn) : TxIn :=
  mkTxIn p (_script_bytes t) (_signatureScript t) (_sequence t) (tx_pkey t).
Definition set_signatureScript (x : SignatureScript) (t : TxIn) : TxIn :=
  mkTxIn (_prevOut t) (_script_bytes t) x (_sequence t) (tx_pkey t).
Definition set_sequence (z : Z) (t : TxIn) : TxIn :=
  mkTxIn (_prevOut t) (_script_bytes t) (_signatureScript t) z (tx_pkey t).
Definition TxIn_set_pkey (k : option PKEY) (t : TxIn) : TxIn :=
  mkTxIn (_prevOut t) (_script_bytes t) (_signatureScript t) (_sequence t) k.

Definition scriptBytes (t : TxIn) : Z := bswap32 (_script_bytes t).
Definition set_scriptBytes (bytes : Z) (t : TxIn) : TxIn :=
  mkTxIn (_prevOut t) (bswap32 bytes) (_signatureScript t) (_sequence t) (tx_pkey t).

Definition TxIn_isSigned (t : TxIn) : bool := _isSigned (_signatureScript t).

Definition TxIn_sign (sign : buffer) (signLength : Z) (isSigned : bool) (t : TxIn) : TxIn :=
  set_signatureScript (SignatureScript_sign sign signLength isSigned (_signatureScript t)) t.

Definition on_signatureScript {A} : prog SignatureScript A -> prog TxIn A :=
  zoom _signatureScript set_signatureScript.
Definition on_prevOut {A} : prog prev_out A -> prog TxIn A := zoom _prevOut set_prevOut.

(** The output with the script as it is, without its own signature. *)
Definition TxIn_exportRaw : prog TxIn (list byte) :=
  t ← get_state;
  rawprev_out ← must (prev_out_exportRaw (_prevOut t));
  rawScript ← must (Script_exportRaw (_script (_signatureScript t)));
  _ ← modify (set_scriptBytes (Z.of_nat (length rawScript)));
  t ← get_state;
  mret (rawprev_out ++ le_encode 4 (_script_bytes t) ++ rawScript ++ le_encode 4 (_sequence t)).

Definition TxIn_exportRawWithEmpty : prog TxIn (list byte) :=
  t ← get_state;
  rawprev_out ← must (prev_out_exportRaw (_prevOut t));
  mret (rawprev_out ++ le_encode 4 (_sequence t)).

Definition TxIn_exportRawWithPubKeyHash : prog TxIn (list byte) :=
  t ← get_state;
  _ ← (match _pkey (_signatureScript t) with
       | None => on_signatureScript (modify (SignatureScript_pkey (tx_pkey t)))
       | Some _ => mret ()
       end);
  rawprev_out ← must (prev_out_exportRaw (_prevOut t));
  exportedPubKeyHash ← on_signatureScript SignatureScript_exportRawWithPubKeyHash;
  _ ← modify (set_scriptBytes (Z.of_nat (length exportedPubKeyHash)));
  t ← get_state;
  mret (rawprev_out ++ le_encode 4 (_script_bytes t) ++ exportedPubKeyHash ++ le_encode 4 (_sequence t)).

Definition TxIn_exportRawWithSignatureScript : prog TxIn (list byte) :=
  t ← get_state;
  if negb (TxIn_isSigned t) then mret []
  else
    rawprev_out ← must (prev_out_exportRaw (_prevOut t));
    exportedSignatureScript ← on_signatureScript SignatureScript_exportRawWithSignatureScript;
    _ ← modify (set_scriptBytes (Z.of_nat (length exportedSignatureScript)));
    t ← get_state;
    mret (rawprev_out ++ le_encode 4 (_script_bytes t) ++ exportedSignatureScript ++ le_encode 4 (_sequence t)).

(** [importRaw]: everything readable from [fromRaw] on; the number of bytes consumed
    is computed from the declared script length. *)
Definition TxIn_importRaw (fromRaw : list byte) : prog TxIn Z :=
  prevOutLength ← on_prevOut (prev_out_importRaw fromRaw);
  sb ← must (sub fromRaw prevOutLength 4);
  _ ← modify (fun t => mkTxIn (_prevOut t) (le_decode sb) (_signatureScript t) (_sequence t) (tx_pkey t));
  let currentPtr := prevOutLength + 4 in
  t ← get_state;
  rest ← must (sub fromRaw currentPtr (Z.of_nat (length fromRaw) - currentPtr));
  signatureScriptLength ← on_signatureScript (SignatureScript_importRaw rest (scriptBytes t));
  let currentPtr := currentPtr + signatureScriptLength in
  t ← get_state;
  i1 ← Script_at (_script (_signatureScript t)) 1;
  k ← must (toPkey i1.2 (OP_DATALength i1.1));
  _ ← modify (TxIn_set_pkey k);
  sq ← must (sub fromRaw currentPtr 4);
  _ ← modify (set_sequence (le_decode sq));
  mret (currentPtr + 4).
End TxFormat_code.

(** ** TxOut *)

Record TxOut : Type := mkTxOut {
  _value : Z;
  _pkScriptBytes : Z;
  _pkScript : script;
  _pubKeyHash : buffer;
}.

(** [_pkScriptBytes] is not initialised by the constructor; it is 0 here. *)
Definition TxOut_new : TxOut := mkTxOut 0 0 [] None.

Definition TxOut_init (value : Z) (pubKeyHash : buffer) (t : TxOut) : TxOut :=
  mkTxOut (bswap64 (value mod 2 ^ 32)) (_pkScriptBytes t) (_pkScript t) pubKeyHash.

(** The getter narrows the 64-bit value to [unsigned short]. *)
Definition TxOut_value (t : TxOut) : Z := bswap64 (_value t) mod 2 ^ 16.
Definition TxOut_set_value (value : Z) (t : TxOut) : TxOut :=
  mkTxOut (bswap64 (value mod 2 ^ 32)) (_pkScriptBytes t) (_pkScript t) (_pubKeyHash t).

Definition pkScriptBytes (t : TxOut) : Z := bswap64 (_pkScriptBytes t) mod 2 ^ 32.

Definition on_pkScript {A} : prog script A -> prog TxOut A :=
  zoom _pkScript (fun s t => mkTxOut (_value t) (_pkScriptBytes t) s (_pubKeyHash t)).

Definition TxOut_exportRaw : prog TxOut (list byte) :=
  t ← get_state;
  match _pubKeyHash t with
  | None => mret []
  | Some _ =>
      exportedRawPkScript ← on_pkScript (PkScript_exportRawWithP2PKHPkScript (_pubKeyHash t));
      _ ← modify (fun t => mkTxOut (_value t) (bswap64 (Z.of_nat (length exportedRawPkScript)))
                             (_pkScript t) (_pubKeyHash t));
      t ← get_state;
      pk ← must (rd (pkScriptBytes t) (Some exportedRawPkScript));
      mret (le_encode 8 (_value t) ++ le_encode 8 (_pkScriptBytes t) ++ pk)
  end.

Definition TxOut_importRaw (fromRaw : list byte) : prog TxOut Z :=
  v ← must (sub fromRaw 0 8);
  n ← must (sub fromRaw 8 8);
  _ ← modify (fun t => mkTxOut (le_decode v) (le_decode n) (_pkScript t) (_pubKeyHash t));
  t ← get_state;
  rest ← must (sub fromRaw 16 (Z.of_nat (length fromRaw) - 16));
  importedPkScriptLength ← on_pkScript (PkScript_importRaw rest (pkScriptBytes t));
  t ← get_state;
  i2 ← Script_at (_pkScript t) 2;
  _ ← modify (fun t => mkTxOut (_value t) (_pkScriptBytes t) (_pkScript t) i2.2);
  mret (16 + importedPkScriptLength).

(** ** Getters and setters *)

(** the index a transaction input refers to reads back as it was set exactly when it
    is below 65536; the getter narrows it to 16 bits. *)
Theorem prev_out_index_exact_iff z p :
  0 <= z < 2 ^ 32 -> (prev_out_index (prev_out_set_index z p) = z <-> z < 65536).
Proof.
  intros Hz. unfold prev_out_index, prev_out_set_index. cbn [_index].
  rewrite bswap32_inv by lia.
  pose proof (Z.mod_pos_bound z (2 ^ 16) ltac:(lia)). split; intros Hlt; [lia|]. now apply Z.mod_small.
Qed.

Lemma prev_out_index_exact_iff_witness :
  prev_out_index (prev_out_set_index 65536 prev_out_new) = 65536 <-> 65536 < 65536.
Proof. apply (prev_out_index_exact_iff 65536 prev_out_new). lia. Defined.

(** the amount of an output reads back as it was initialised exactly when it is below
    65536; the getter narrows the 64-bit field to 16 bits. *)
Theorem TxOut_value_exact_iff v h t :
  0 <= v < 2 ^ 32 -> (TxOut_value (TxOut_init v h t) = v <-> v < 65536).
Proof.
  intros Hv. unfold TxOut_value, TxOut_init. cbn [_value].
  rewrite (Z.mod_small v (2 ^ 32)), bswap64_inv by lia.
  pose proof (Z.mod_pos_bound v (2 ^ 16) ltac:(lia)). split; intros Hlt; [lia|]. now apply Z.mod_small.
Qed.

Lemma TxOut_value_exact_iff_witness :
  TxOut_value (TxOut_init 100000 None TxOut_new) = 100000 <-> 100000 < 65536.
Proof. apply (TxOut_value_exact_iff 100000 None TxOut_new). lia. Defined.

(** ** Round trips of inputs and outputs *)

(** Signature and key pushes that can be read back. *)
Definition push_ok (d : list byte) : Prop :=
  0 < Z.of_nat (length d) < 256 /\
  parseRawOPCode (b8 (Z.of_nat (length d))) = OP_DATA (b8 (Z.of_nat (length d))).

Definition unlock_bytes (sig pk : list byte) : list byte :=
  b8 (Z.of_nat (length sig)) :: sig ++ b8 (Z.of_nat (length pk)) :: pk.

Lemma unlock_export sig pk :
  Z.of_nat (length sig) < 256 -> Z.of_nat (length pk) < 256 ->
  Script_exportRaw (unlock_script sig pk) = Some (unlock_bytes sig pk).
Proof.
  intros Hs Hp. unfold Script_exportRaw, unlock_script, export_items, export_item.
  cbn [fst snd OP_DATALength]. rewrite (u8_b8_small (Z.of_nat (length sig))), (u8_b8_small (Z.of_nat (length pk))) by lia.
  rewrite !rd_all. simpl. now rewrite app_nil_r.
Qed.

Lemma unlock_ok sig pk : push_ok sig -> push_ok pk -> script_ok (unlock_script sig pk).
Proof.
  intros [Hs Ps] [Hp Pp]. repeat constructor; unfold item_ok; cbn [fst snd];
    try assumption; rewrite u8_b8_small; lia.
Qed.

Section round_trips.
Context {ssl : OpenSSL} {laws : OpenSSL_laws}.

(** The bytes of an input with the given signature script. *)
Definition txin_bytes (t : TxIn) (scr : list byte) : list byte :=
  take 32 (_txID (_prevOut t)) ++ le_encode 4 (_index (_prevOut t)) ++
  be_encode 4 (Z.of_nat (length scr)) ++ scr ++ le_encode 4 (_sequence t).

(** A signed input: its key's encoding and its signature are readable pushes. *)
Record signed_input (t : TxIn) (k : PKEY) (sig : list byte) : Prop := {
  si_txid : (32 <= length (_txID (_prevOut t)))%nat;
  si_signed : TxIn_isSigned t = true;
  si_key : _pkey (_signatureScript t) = Some k;
  si_sig : _sign (_signatureScript t) = Some sig;
  si_sig_len : _signLength (_signatureScript t) = Z.of_nat (length sig);
  si_push_sig : push_ok sig;
  si_push_key : push_ok (i2d_PUBKEY k);
  si_long : 20 < Z.of_nat (length (unlock_bytes sig (i2d_PUBKEY k)));
  si_index : 0 <= _index (_prevOut t) < 2 ^ 32;
  si_sequence : 0 <= _sequence t < 2 ^ 32;
}.

(** The input after its signature script has been written out. *)
Definition exported (t : TxIn) (k : PKEY) (sig : list byte) : TxIn :=
  set_scriptBytes (Z.of_nat (length (unlock_bytes sig (i2d_PUBKEY k))))
    (set_signatureScript (set_script (unlock_script sig (i2d_PUBKEY k)) (_signatureScript t)) t).

Lemma SignatureScript_export_spec x k sig :
  _pkey x = Some k -> _sign x = Some sig -> _signLength x = Z.of_nat (length sig) ->
  Z.of_nat (length sig) < 256 -> Z.of_nat (length (i2d_PUBKEY k)) < 256 ->
  SignatureScript_exportRawWithSignatureScript x =
  Ok (unlock_bytes sig (i2d_PUBKEY k)) (set_script (unlock_script sig (i2d_PUBKEY k)) x).
Proof.
  intros Hk Hs Hl Hls Hlk. unfold SignatureScript_exportRawWithSignatureScript.
  unfold mbind, prog_bind, get_state. rewrite Hk.
  assert (Hc : exists s, clear_script x = Ok tt (set_script s x) /\ s = []).
  { unfold clear_script, mbind, prog_bind, get_state. destruct x as [? ? ? ? s]. cbn [_script].
    exists []. split; [|reflexivity]. destruct s; reflexivity. }
  destruct Hc as (? & -> & ->). unfold modify. destruct x as [sg sl sn pk s]. cbn in Hk, Hs, Hl. subst.
  cbn [set_script _signLength _sign _script _isSigned _pkey Script_pushBack app].
  unfold toRawPubKey. rewrite (Z.mod_small _ (2 ^ 16)) by lia. rewrite !land_255 by lia.
  transitivity (must (Script_exportRaw (unlock_script sig (i2d_PUBKEY k)))
    (mkSignatureScript (Some sig) (Z.of_nat (length sig)) sn (Some k) (unlock_script sig (i2d_PUBKEY k))));
    [reflexivity|now rewrite unlock_export].
Qed.

Lemma prev_out_export_spec p :
  (32 <= length (_txID p))%nat ->
  prev_out_exportRaw p = Some (take 32 (_txID p) ++ le_encode 4 (_index p)).
Proof.
  intros H. unfold prev_out_exportRaw, rd. cbn [Z.eqb]. rewrite (proj2 (Z.leb_le _ _)) by lia. reflexivity.
Qed.

Lemma TxIn_export_spec t k sig :
  signed_input t k sig ->
  TxIn_exportRawWithSignatureScript t =
  Ok (txin_bytes t (unlock_bytes sig (i2d_PUBKEY k))) (exported t k sig).
Proof.
  intros [Htx Hsi Hk Hs Hl [Hps _] [Hpk _] _ _ _].
  unfold TxIn_exportRawWithSignatureScript, mbind, prog_bind, get_state. rewrite Hsi. cbn [negb].
  rewrite prev_out_export_spec by assumption. cbn [must mret]. unfold on_signatureScript, zoom.
  unfold mret, prog_ret.
  rewrite (SignatureScript_export_spec _ k sig) by (assumption || lia). unfold modify. cbv iota beta.
  f_equal. unfold txin_bytes. rewrite <- !app_assoc. repeat f_equal. apply le_encode_bswap32.
Qed.

(** The input a reader gets: not marked as signed, with the public key only. *)
Definition imported (t : TxIn) (k : PKEY) (sig : list byte) : TxIn :=
  let pk := i2d_PUBKEY k in
  mkTxIn (mkPrevOut (take 32 (_txID (_prevOut t))) (_index (_prevOut t)))
    (bswap32 (Z.of_nat (length (unlock_bytes sig pk))))
    (mkSignatureScript (Some sig) (Z.of_nat (length sig)) false (Some (public_part k)) (unlock_script sig pk))
    (_sequence t) (Some (public_part k)).

Lemma SignatureScript_import_spec sig k rest :
  push_ok sig -> push_ok (i2d_PUBKEY k) -> 20 < Z.of_nat (length (unlock_bytes sig (i2d_PUBKEY k))) ->
  SignatureScript_importRaw (unlock_bytes sig (i2d_PUBKEY k) ++ rest)
    (Z.of_nat (length (unlock_bytes sig (i2d_PUBKEY k)))) SignatureScript_new =
  Ok (Z.of_nat (length (unlock_bytes sig (i2d_PUBKEY k))))
    (mkSignatureScript (Some sig) (Z.of_nat (length sig)) false (Some (public_part k))
       (unlock_script sig (i2d_PUBKEY k))).
Proof.
  intros Hs Hk Hlen. unfold SignatureScript_importRaw. rewrite (proj2 (Z.leb_gt _ _)) by lia.
  unfold mbind, prog_bind, get_state, modify. cbn [_script SignatureScript_new].
  assert (Ei : Script_importRaw (unlock_bytes sig (i2d_PUBKEY k) ++ rest)
    (Z.of_nat (length (unlock_bytes sig (i2d_PUBKEY k)))) [] =
    Some (unlock_script sig (i2d_PUBKEY k), Z.of_nat (length (unlock_bytes sig (i2d_PUBKEY k))))).
  { unfold Script_importRaw. rewrite Nat2Z.id.
    apply (import_loop_ok _ _ [] rest []); [now apply unlock_ok|apply unlock_export; apply Hs || apply Hk|reflexivity|lia]. }
  rewrite Ei. unfold must, mret, prog_ret. cbn [fst snd]. unfold Script_at. cbn [unlock_script lookup list_lookup].
  unfold mret, prog_ret. cbn [fst snd OP_DATALength]. unfold toPkey.
  destruct Hs as [Hs _], Hk as [Hk _].
  rewrite (u8_b8_small (Z.of_nat (length sig))), (u8_b8_small (Z.of_nat (length (i2d_PUBKEY k)))) by lia.
  rewrite rd_all, d2i_i2d. reflexivity.
Qed.

Lemma prev_out_import_spec tx ix rest :
  length tx = 32%nat -> 0 <= ix < 2 ^ 32 ->
  prev_out_importRaw (tx ++ le_encode 4 ix ++ rest) prev_out_new = Ok 36 (mkPrevOut tx ix).
Proof.
  intros Ht Hi. unfold prev_out_importRaw, mbind, prog_bind, get_state.
  rewrite (sub_at _ [] tx (le_encode 4 ix ++ rest)) by (try reflexivity; now rewrite Ht).
  cbn [must mret prog_ret]. unfold mret, prog_ret.
  rewrite (sub_at _ tx (le_encode 4 ix) rest) by (try reflexivity; now rewrite Ht).
  unfold must, mret, prog_ret, set_state. rewrite le_decode_le by exact Hi.
  cbn [_txID prev_out_new]. rewrite drop_ge by (rewrite length_replicate; lia). now rewrite app_nil_r.
Qed.

Lemma TxIn_import_spec t k sig rest :
  signed_input t k sig ->
  let raw := txin_bytes t (unlock_bytes sig (i2d_PUBKEY k)) in
  TxIn_importRaw (raw ++ rest) TxIn_new = Ok (Z.of_nat (length raw)) (imported t k sig).
Proof.
  intros [Htx Hsi Hk Hs Hl Hps Hpk Hlong Hix Hsq] raw.
  set (U := unlock_bytes sig (i2d_PUBKEY k)) in *. set (T := take 32 (_txID (_prevOut t))).
  assert (HT : length T = 32%nat) by (unfold T; rewrite length_take; lia).
  assert (HU : Z.of_nat (length U) < 2 ^ 32).
  { unfold U, unlock_bytes. destruct Hps as [? _], Hpk as [? _]. simpl length. rewrite length_app. simpl length. lia. }
  set (I := le_encode 4 (_index (_prevOut t))). set (L := be_encode 4 (Z.of_nat (length U))).
  set (Q := le_encode 4 (_sequence t)).
  assert (Eraw : raw ++ rest = T ++ I ++ L ++ U ++ Q ++ rest) by (unfold raw, txin_bytes; rewrite <- !app_assoc; reflexivity).
  assert (Elen : Z.of_nat (length raw) = 36 + 4 + Z.of_nat (length U) + 4).
  { unfold raw, txin_bytes. fold T I L Q. rewrite !length_app, HT. unfold I, L, Q.
    rewrite !le_encode_length, be_encode_length. lia. }
  assert (HTI : length (T ++ I) = 36%nat) by (rewrite length_app, HT; unfold I; now rewrite le_encode_length).
  assert (HTIL : length (T ++ I ++ L) = 40%nat) by (rewrite app_assoc, length_app, HTI; unfold L; now rewrite be_encode_length).
  unfold TxIn_importRaw, mbind, prog_bind, on_prevOut, zoom. rewrite Eraw. cbn [_prevOut TxIn_new].
  unfold I. rewrite prev_out_import_spec by assumption. fold I.
  rewrite (sub_at _ (T ++ I) L (U ++ Q ++ rest)) by (rewrite <- ?app_assoc, ?HTI; try reflexivity; unfold L; now rewrite be_encode_length).
  unfold must at 1, mret at 1, prog_ret at 1. unfold modify, get_state. change (36 + 4) with 40.
  rewrite (sub_rest _ (T ++ I ++ L) (U ++ Q ++ rest)) by (rewrite <- ?app_assoc, ?HTIL; reflexivity).
  unfold must at 1, mret at 1, prog_ret at 1. unfold scriptBytes. cbn [set_prevOut _script_bytes].
  assert (EL : bswap32 (le_decode L) = Z.of_nat (length U)).
  { unfold L. rewrite <- le_encode_bswap, le_decode_le by apply bswap_range.
    apply bswap32_inv. lia. }
  rewrite EL. unfold on_signatureScript, zoom. cbn [_signatureScript set_prevOut TxIn_new].
  unfold U at 1 2. rewrite SignatureScript_import_spec by assumption. fold U.
  cbn [set_signatureScript _signatureScript _script]. unfold Script_at.
  cbn [unlock_script lookup list_lookup]. unfold mret at 1, prog_ret at 1. cbn [fst snd OP_DATALength].
  unfold toPkey. destruct Hpk as [Hpk Hpk']. rewrite u8_b8_small, rd_all, d2i_i2d by lia.
  unfold must at 1, mret at 1, prog_ret at 1.
  rewrite (sub_at _ (T ++ I ++ L ++ U) Q rest); [|now rewrite <- !app_assoc| |unfold Q; now rewrite le_encode_length].
  2:{ rewrite app_assoc, (app_assoc (T ++ I)), length_app, <- app_assoc, HTIL. lia. }
  unfold must, mret, prog_ret. unfold Q. rewrite le_decode_le by exact Hsq. rewrite Elen.
  f_equal.
Qed.
End round_trips.

(** ** Outputs *)

Definition txout_bytes (v : Z) (h : list byte) : list byte :=
  le_encode 8 v ++ be_encode 8 25 ++ [x76; xa9; x14] ++ h ++ [x88; xac].

Lemma TxOut_export_spec t h :
  _pubKeyHash t = Some h -> length h = 20%nat ->
  TxOut_exportRaw t = Ok (txout_bytes (_value t) h) (mkTxOut (_value t) (bswap64 25) (p2pkh_script h) (Some h)).
Proof.
  intros Hp Hh. destruct t as [v n s p]. cbn in Hp. subst p.
  unfold TxOut_exportRaw, mbind, prog_bind, get_state. cbn [_pubKeyHash].
  unfold on_pkScript, zoom. cbn [_pkScript]. rewrite PkScript_export_spec by assumption.
  assert (El : Z.of_nat (length ([x76; xa9; x14] ++ h ++ [x88; xac])) = 25)
    by (rewrite !length_app, Hh; reflexivity).
  unfold modify. rewrite El. unfold pkScriptBytes. cbn [_pkScriptBytes _value _pkScript _pubKeyHash].
  change (bswap64 (bswap64 25) mod 2 ^ 32) with 25. rewrite <- El, rd_all. unfold must, mret, prog_ret.
  rewrite El. unfold txout_bytes. now rewrite <- (le_encode_bswap 8 25).
Qed.

Lemma txout_bytes_length v h : length h = 20%nat -> length (txout_bytes v h) = 41%nat.
Proof.
  intros Hh. unfold txout_bytes. rewrite !length_app, le_encode_length, be_encode_length, Hh. reflexivity.
Qed.

(** Reading the locking script of a 20-byte hash. *)
Lemma p2pkh_script_import h rest : length h = 20%nat ->
  Script_importRaw (([x76; xa9; x14] ++ h ++ [x88; xac]) ++ rest) 25 [] = Some (p2pkh_script h, 25).
Proof.
  intros Hh. set (S := [x76; xa9; x14] ++ h ++ [x88; xac]).
  assert (HS : length S = 25%nat) by (unfold S; rewrite !length_app, Hh; reflexivity).
  unfold Script_importRaw. apply (import_loop_ok _ _ [] rest []).
  - now apply p2pkh_script_ok.
  - unfold export_items, p2pkh_script, export_item. cbn [fst snd OP_DATALength].
    assert (Er : rd (u8 x14) (Some h) = Some h)
      by (change (u8 x14) with (Z.of_nat 20); rewrite <- Hh; apply rd_all).
    rewrite Er. reflexivity.
  - simpl app. now rewrite HS.
  - rewrite HS. simpl. lia.
Qed.

Lemma TxOut_import_spec v h rest :
  0 <= v < 2 ^ 64 -> length h = 20%nat ->
  TxOut_importRaw (txout_bytes v h ++ rest) TxOut_new =
  Ok 41 (mkTxOut v (bswap64 25) (p2pkh_script h) (Some h)).
Proof.
  intros Hv Hh. set (V := le_encode 8 v). set (N := be_encode 8 25).
  set (S := [x76; xa9; x14] ++ h ++ [x88; xac]).
  assert (Eraw : txout_bytes v h ++ rest = V ++ N ++ S ++ rest) by (unfold txout_bytes, V, N, S; rewrite <- !app_assoc; reflexivity).
  assert (HV : length V = 8%nat) by apply le_encode_length.
  assert (HN : length N = 8%nat) by apply be_encode_length.
  assert (HS : length S = 25%nat) by (unfold S; rewrite !length_app, Hh; reflexivity).
  unfold TxOut_importRaw, mbind, prog_bind. rewrite Eraw.
  rewrite (sub_at _ [] V (N ++ S ++ rest)) by (try reflexivity; now rewrite HV).
  unfold must at 1, mret at 1, prog_ret at 1.
  rewrite (sub_at _ V N (S ++ rest)) by (try reflexivity; now rewrite ?HV, ?HN).
  unfold must at 1, mret at 1, prog_ret at 1. unfold modify, get_state.
  rewrite (sub_rest _ (V ++ N) (S ++ rest)) by (rewrite <- ?app_assoc, ?length_app, ?HV, ?HN; reflexivity).
  unfold must at 1, mret at 1, prog_ret at 1. unfold pkScriptBytes.
  cbn [_pkScriptBytes _value _pkScript _pubKeyHash TxOut_new].
  assert (EN : le_decode N = bswap64 25) by (unfold N; rewrite <- le_encode_bswap; apply le_decode_le, bswap_range).
  rewrite EN. change (bswap64 (bswap64 25) mod 2 ^ 32) with 25.
  unfold on_pkScript, zoom. cbn [_pkScript]. unfold PkScript_importRaw, mbind, prog_bind, get_state.
  pose proof (p2pkh_script_import h rest Hh) as Ei. fold S in Ei.
  assert (EV : le_decode V = v) by now apply le_decode_le.
  rewrite Ei, EV. reflexivity.
Qed.
