(* ===== verification/P2PKH.v ===== *)
(** P2PKH transactions ([chain/transaction/p2pkh/p2pkh.cpp]): signing, validation and
    the byte format.  The inputs of one transaction are distinct objects. *)
From S2P Require Import Prelude Crypto Script TxFormat.
From Stdlib Require Import Lia.

Section P2PKH_code.
Context {ssl : OpenSSL}.

Record P2PKH : Type := mkP2PKH { _version : Z; _ins : list TxIn; _outs : list TxOut }.

Definition P2PKH_new : P2PKH := mkP2PKH 0 [] [].

Definition P2PKH_add_in (t : TxIn) (p : P2PKH) : P2PKH := mkP2PKH (_version p) (_ins p ++ [t]) (_outs p).
Definition P2PKH_add_out (t : TxOut) (p : P2PKH) : P2PKH := mkP2PKH (_version p) (_ins p) (_outs p ++ [t]).
Definition inCount (p : P2PKH) : Z := Z.of_nat (length (_ins p)) mod 2 ^ 16.
Definition outCount (p : P2PKH) : Z := Z.of_nat (length (_outs p)) mod 2 ^ 16.

Definition on_ins {A} : prog (list TxIn) A -> prog P2PKH A :=
  zoom _ins (fun l p => mkP2PKH (_version p) l (_outs p)).
Definition on_outs {A} : prog (list TxOut) A -> prog P2PKH A :=
  zoom _outs (fun l p => mkP2PKH (_version p) (_ins p) l).

(** [formatExportedRawTxVector]: the concatenation of the exported parts. *)
Definition formatExportedRawTxVector (v : list (list byte)) : list byte := concat v.

(** The common layout: version, input count, inputs, output count, outputs. *)
Definition layout (version : Z) (ins outs : list (list byte)) : list byte :=
  le_encode 4 version ++ le_encode 4 (bswap32 (Z.of_nat (length ins))) ++ formatExportedRawTxVector ins ++
  le_encode 4 (bswap32 (Z.of_nat (length outs))) ++ formatExportedRawTxVector outs.

(** [txHashOnTxIn]: the transaction with a public key hash in input [index] and empty
    scripts elsewhere; despite its name it returns the bytes, not their hash. *)
Definition txHashOnTxIn (index : nat) : prog P2PKH (list byte) :=
  ins ← on_ins (each (fun i => if decide (i = index) then TxIn_exportRawWithPubKeyHash else TxIn_exportRawWithEmpty));
  outs ← on_outs (each (fun _ => TxOut_exportRaw));
  p ← get_state;
  mret (layout (_version p) ins outs).

(** One round of [sign()]: signs the bytes for input [i] and stores the signature. *)
Definition sign_in (i : nat) : prog P2PKH unit :=
  exportedRaw ← txHashOnTxIn i;
  p ← get_state;
  t ← must (_ins p !! i);
  sg ← must (ECDSAManager_sign (Some exportedRaw) (Z.of_nat (length exportedRaw)) (tx_pkey t));
  modify (fun p => mkP2PKH (_version p) (alter (TxIn_sign (Some sg) (Z.of_nat (length sg)) true) i (_ins p)) (_outs p)).

Fixpoint sign_from (n i : nat) : prog P2PKH unit :=
  match n with
  | O => mret ()
  | S n' => _ ← sign_in i; sign_from n' (S i)
  end.

Definition P2PKH_sign : prog P2PKH bool :=
  p ← get_state; _ ← sign_from (length (_ins p)) 0; mret true.

(** [verify( utxoSet )]; [utxo] is the lookup of [LightUTXOSet::get] by transaction id
    and index, which yields the locking script. *)
Fixpoint verify_from (utxo : list byte -> Z -> option script) (n i : nat) (flag : bool) : prog P2PKH bool :=
  match n with
  | O => mret flag
  | S n' =>
      p ← get_state;
      itr ← must (_ins p !! i);
      match utxo (_txID (_prevOut itr)) (prev_out_index (_prevOut itr)) with
      | None => mret false
      | Some pkScript =>
          if Script_OPCount pkScript <=? 0 then mret false
          else
            let sg := _script (_signatureScript itr) in
            if Script_OPCount sg <=? 0 then mret false
            else
              txHash ← txHashOnTxIn i;
              flag ← must (verifyP2PKHScript pkScript sg (Some txHash) (Z.of_nat (length txHash)));
              let flag := true in
              verify_from utxo n' (S i) flag
      end
  end.

Definition P2PKH_verify (utxo : list byte -> Z -> option script) : prog P2PKH bool :=
  p ← get_state; verify_from utxo (length (_ins p)) 0 false.

Definition P2PKH_exportRaw : prog P2PKH (list byte) :=
  p ← get_state;
  if negb (forallb TxIn_isSigned (_ins p)) then mret []
  else
    ins ← on_ins (each (fun _ => TxIn_exportRawWithSignatureScript));
    outs ← on_outs (each (fun _ => TxOut_exportRaw));
    p ← get_state;
    mret (layout (_version p) ins outs).

(** Reads [n] objects one after the other from [pos] on and hands them over. *)
Definition import_many {T} (fromRaw : list byte) (n : Z) (new : T) (import : list byte -> prog T Z)
    (add : list T -> P2PKH -> P2PKH) (pos : Z) : prog P2PKH Z := fun p =>
  let c pos := r ← must (sub fromRaw pos (Z.of_nat (length fromRaw) - pos)); import r in
  match repeat_new (Z.to_nat n) new c pos with
  | Ok pos' l => Ok pos' (add l p)
  | Throw e l => Throw e (add l p)
  | Undef => Undef
  end.

(** [importRawSequentially]: inputs and outputs are appended to those already there. *)
Definition P2PKH_importRawSequentially (fromRaw : list byte) : prog P2PKH Z :=
  v ← must (sub fromRaw 0 4);
  _ ← modify (fun p => mkP2PKH (le_decode v) (_ins p) (_outs p));
  n ← must (sub fromRaw 4 4);
  pos ← import_many fromRaw (bswap32 (le_decode n)) TxIn_new TxIn_importRaw
          (fun l p => mkP2PKH (_version p) (_ins p ++ l) (_outs p)) 8;
  m ← must (sub fromRaw pos 4);
  import_many fromRaw (bswap32 (le_decode m)) TxOut_new TxOut_importRaw
    (fun l p => mkP2PKH (_version p) (_ins p) (_outs p ++ l)) (pos + 4).

(** The overload on a [shared_ptr] repeats the same code. *)
Definition P2PKH_importRawSequentially_shared (fromRaw : list byte) : prog P2PKH Z :=
  P2PKH_importRawSequentially fromRaw.

(** [export_to_binary]: a vector of the exported bytes. *)
Definition P2PKH_export_to_binary : prog P2PKH (list byte) := P2PKH_exportRaw.

Definition calcTxID : prog P2PKH (list byte) :=
  raw ← P2PKH_exportRaw; must (SHAHash (Some raw) (Z.of_nat (length raw)) sha256).
End P2PKH_code.

(** ** The bytes that are signed *)

Section signing.
Context {ssl : OpenSSL} {laws : OpenSSL_laws}.

(** The key an input signs with, and the hash of its encoding. *)
Definition key_of (t : TxIn) : option PKEY :=
  match _pkey (_signatureScript t) with Some k => Some k | None => tx_pkey t end.
Definition pkh_of (t : TxIn) : list byte :=
  match key_of t with Some k => EVP_SHA1 (i2d_PUBKEY k) | None => [] end.

(** What the signed bytes depend on. *)
Record in_core : Type := mkCore { c_txid : list byte; c_index : Z; c_sequence : Z; c_pkh : list byte }.
Definition core (t : TxIn) : in_core :=
  mkCore (take 32 (_txID (_prevOut t))) (_index (_prevOut t)) (_sequence t) (pkh_of t).
Definition out_core (t : TxOut) : Z * list byte := (_value t, bytes_of (_pubKeyHash t)).

Definition core_bytes (with_hash : bool) (c : in_core) : list byte :=
  c_txid c ++ le_encode 4 (c_index c) ++
  (if with_hash then be_encode 4 (Z.of_nat (length (c_pkh c))) ++ c_pkh c else []) ++
  le_encode 4 (c_sequence c).

Definition hash_bytes (i : nat) (version : Z) (ins : list in_core) (outs : list (Z * list byte)) : list byte :=
  layout version (imap (fun j c => core_bytes (bool_decide (j = i)) c) ins)
    (map (fun o => txout_bytes o.1 o.2) outs).

Definition tx_hash_bytes (i : nat) (p : P2PKH) : list byte :=
  hash_bytes i (_version p) (map core (_ins p)) (map out_core (_outs p)).

Definition in_ok (t : TxIn) : Prop := (32 <= length (_txID (_prevOut t)))%nat.
Definition out_ok (t : TxOut) : Prop := exists h, _pubKeyHash t = Some h /\ length h = 20%nat.
Definition tx_ok (p : P2PKH) : Prop := Forall in_ok (_ins p) /\ Forall out_ok (_outs p).

(** An input whose public key hash has been written out. *)
Definition hashed (t : TxIn) : TxIn :=
  let x := SignatureScript_pkey (key_of t) (_signatureScript t) in
  set_scriptBytes (Z.of_nat (length (pkh_of t)))
    (set_signatureScript (match key_of t with Some _ => set_script [] x | None => x end) t).

Definition out_after (t : TxOut) : TxOut :=
  mkTxOut (_value t) (bswap64 25) (p2pkh_script (bytes_of (_pubKeyHash t))) (_pubKeyHash t).

Lemma TxIn_empty_spec t :
  in_ok t -> TxIn_exportRawWithEmpty t = Ok (core_bytes false (core t)) t.
Proof.
  intros H. unfold TxIn_exportRawWithEmpty, mbind, prog_bind, get_state.
  rewrite prev_out_export_spec by exact H. unfold core_bytes, core. cbn [c_txid c_index c_sequence app].
  now rewrite app_assoc.
Qed.

Lemma SignatureScript_pkh_spec x :
  SignatureScript_exportRawWithPubKeyHash x =
  Ok (match _pkey x with Some k => EVP_SHA1 (i2d_PUBKEY k) | None => [] end)
     (match _pkey x with Some _ => set_script [] x | None => x end).
Proof.
  unfold SignatureScript_exportRawWithPubKeyHash, mbind, prog_bind, get_state.
  destruct x as [sg sl sn [k|] s]; cbn [_pkey]; [|reflexivity].
  assert (Hc : clear_script (mkSignatureScript sg sl sn (Some k) s) =
               Ok tt (mkSignatureScript sg sl sn (Some k) [])) by now destruct s.
  rewrite Hc. unfold toRawPubKey, SHAHash. rewrite rd_all. reflexivity.
Qed.

Lemma TxIn_pkh_spec t :
  in_ok t -> TxIn_exportRawWithPubKeyHash t = Ok (core_bytes true (core t)) (hashed t).
Proof.
  intros H. unfold TxIn_exportRawWithPubKeyHash, mbind, prog_bind, get_state.
  assert (Hk : (match _pkey (_signatureScript t) with
       | None => on_signatureScript (modify (SignatureScript_pkey (tx_pkey t)))
       | Some _ => mret ()
       end) t = Ok tt (set_signatureScript (SignatureScript_pkey (key_of t) (_signatureScript t)) t)).
  { unfold key_of. destruct t as [p b [sg sl sn [k|] s] q tk]; reflexivity. }
  rewrite Hk, prev_out_export_spec by exact H. unfold must, mret, prog_ret, on_signatureScript, zoom.
  rewrite SignatureScript_pkh_spec. unfold modify, get_state. destruct t as [p b x q tk].
  cbn [_signatureScript set_signatureScript _pkey SignatureScript_pkey].
  fold (pkh_of (mkTxIn p b x q tk)). unfold core_bytes, core, hashed. f_equal.
  cbn [c_txid c_index c_sequence c_pkh _script_bytes set_scriptBytes _prevOut _sequence].
  rewrite <- le_encode_bswap. now rewrite <- !app_assoc.
Qed.

Lemma hashed_core t : core (hashed t) = core t.
Proof. destruct t as [p b [sg sl sn [k|] s] q [tk|]]; reflexivity. Qed.

Lemma out_after_core o : out_core (out_after o) = out_core o.
Proof. reflexivity. Qed.

Lemma outs_spec l :
  Forall out_ok l ->
  each (fun _ => TxOut_exportRaw) l =
  Ok (map (fun o => txout_bytes (_value o) (bytes_of (_pubKeyHash o))) l) (map out_after l).
Proof.
  intros H. rewrite (each_ok _ (fun _ o => txout_bytes (_value o) (bytes_of (_pubKeyHash o))) (fun _ => out_after)).
  - f_equal; clear H; induction l as [|o l IH]; cbn; f_equal; exact IH.
  - intros j o Ho. rewrite Forall_lookup in H. destruct (H j o Ho) as (h & Eh & Hh).
    rewrite (TxOut_export_spec o h) by assumption. unfold out_after. now rewrite Eh.
Qed.

Lemma imap_alter {A} (f : A -> A) i (l : list A) :
  imap (fun j x => if decide (j = i) then f x else x) l = alter f i l.
Proof.
  apply list_eq. intros j. rewrite list_lookup_imap.
  destruct (decide (j = i)) as [->|Hne].
  - rewrite list_lookup_alter_eq. now destruct (l !! i).
  - rewrite list_lookup_alter_ne by congruence. now destruct (l !! j).
Qed.

Definition hashed_tx (i : nat) (p : P2PKH) : P2PKH :=
  mkP2PKH (_version p) (alter hashed i (_ins p)) (map out_after (_outs p)).

Lemma txHashOnTxIn_spec i p :
  tx_ok p -> txHashOnTxIn i p = Ok (tx_hash_bytes i p) (hashed_tx i p).
Proof.
  intros [Hi Ho]. unfold txHashOnTxIn, mbind, prog_bind, on_ins, on_outs, zoom.
  rewrite (each_ok _ (fun j t => core_bytes (bool_decide (j = i)) (core t))
             (fun j t => if decide (j = i) then hashed t else t)).
  - cbn [_outs]. rewrite outs_spec by assumption. unfold get_state, mret, prog_ret. cbn [_version].
    unfold hashed_tx. rewrite imap_alter. f_equal. unfold tx_hash_bytes, hash_bytes.
    rewrite imap_fmap, map_map. reflexivity.
  - intros j t Hj. rewrite Forall_lookup in Hi. specialize (Hi j t Hj).
    destruct (decide (j = i)); [rewrite bool_decide_true by assumption; now apply TxIn_pkh_spec|].
    rewrite bool_decide_false by assumption. now apply TxIn_empty_spec.
Qed.

Lemma alter_core f i l : (forall t, core (f t) = core t) -> map core (alter f i l) = map core l.
Proof.
  intros H. apply list_eq. intros j. rewrite !list_lookup_fmap. destruct (decide (i = j)) as [->|].
  - rewrite list_lookup_alter_eq. destruct (l !! j); cbn; [now rewrite H|reflexivity].
  - now rewrite list_lookup_alter_ne.
Qed.

Lemma map_out_after l : map out_core (map out_after l) = map out_core l.
Proof. rewrite map_map. reflexivity. Qed.

Lemma hashed_tx_bytes i j p : tx_hash_bytes j (hashed_tx i p) = tx_hash_bytes j p.
Proof.
  unfold tx_hash_bytes, hashed_tx. cbn [_version _ins _outs].
  now rewrite (alter_core _ _ _ hashed_core), map_out_after.
Qed.

Lemma hashed_tx_ok i p : tx_ok p -> tx_ok (hashed_tx i p).
Proof.
  intros [Hi Ho]. split; cbn [_ins _outs hashed_tx].
  - rewrite Forall_lookup in *. intros j t. destruct (decide (i = j)) as [->|].
    + rewrite list_lookup_alter_eq. intros (t' & Ht & ->)%fmap_Some. exact (Hi j t' Ht).
    + rewrite list_lookup_alter_ne by assumption. apply Hi.
  - clear Hi. induction Ho as [|o l (h & Eh & Hh) _ IH]; constructor; [|assumption].
    exists h. split; assumption.
Qed.
End signing.

(** ** Signing *)

Section sign.
Context {ssl : OpenSSL} {laws : OpenSSL_laws}.

Definition sig_of (p : P2PKH) (i : nat) (t : TxIn) : list byte :=
  EVP_PKEY_sign (tx_pkey t) (EVP_SHA256 (tx_hash_bytes i p)).

(** Input [i] after [sign()]. *)
Definition signed (p : P2PKH) (i : nat) (t : TxIn) : TxIn :=
  TxIn_sign (Some (sig_of p i t)) (Z.of_nat (length (sig_of p i t))) true (hashed t).

Lemma signed_core p i t : core (signed p i t) = core t.
Proof. unfold signed. rewrite <- (hashed_core t). reflexivity. Qed.

Definition signed_tx (i : nat) (p : P2PKH) : P2PKH :=
  mkP2PKH (_version p) (alter (signed p i) i (_ins p)) (map out_after (_outs p)).

Lemma sign_in_spec i p t :
  tx_ok p -> _ins p !! i = Some t -> sign_in i p = Ok tt (signed_tx i p).
Proof.
  intros Hok Ht. unfold sign_in, mbind, prog_bind, get_state. rewrite txHashOnTxIn_spec by assumption.
  cbn [_ins hashed_tx]. rewrite list_lookup_alter_eq, Ht. cbn [fmap option_fmap option_map must].
  unfold mret, prog_ret, ECDSAManager_sign, SHAHash. rewrite rd_all.
  replace (tx_pkey (hashed t)) with (tx_pkey t) by now destruct t as [? ? [? ? ? [?|] ?] ? [?|]].
  unfold must, mret, prog_ret, modify. cbn [_version _ins _outs hashed_tx]. unfold signed_tx.
  do 2 f_equal. apply list_eq. intros j. destruct (decide (i = j)) as [<-|Hne].
  - rewrite !list_lookup_alter_eq, Ht. reflexivity.
  - now rewrite !list_lookup_alter_ne.
Qed.

Lemma signed_tx_ok i p : tx_ok p -> tx_ok (signed_tx i p).
Proof.
  intros [Hi Ho]. split; cbn [_ins _outs signed_tx].
  - apply Forall_alter; [assumption|]. intros t _ Ht. exact Ht.
  - apply (hashed_tx_ok i p); split; assumption.
Qed.

Lemma signed_tx_bytes i j p : tx_hash_bytes j (signed_tx i p) = tx_hash_bytes j p.
Proof.
  unfold tx_hash_bytes, signed_tx. cbn [_version _ins _outs].
  now rewrite (alter_core _ _ _ (signed_core p i)), map_out_after.
Qed.

Lemma sign_from_spec n : forall i p,
  tx_ok p -> (i + n = length (_ins p))%nat ->
  exists p', sign_from n i p = Ok tt p' /\ tx_ok p' /\ _version p' = _version p /\
    map out_core (_outs p') = map out_core (_outs p) /\
    (forall j, _ins p' !! j = (if decide (i <= j)%nat then signed p j else id) <$> _ins p !! j).
Proof.
  induction n as [|n IH]; intros i p Hok Hn.
  - exists p. repeat split; try apply Hok. intros j. destruct (decide (i <= j)%nat) as [Hle|].
    + rewrite !lookup_ge_None_2 by lia. reflexivity.
    + now destruct (_ins p !! j).
  - destruct (lookup_lt_is_Some_2 (_ins p) i) as [t Ht]; [lia|].
    destruct (IH (S i) (signed_tx i p)) as (p' & E & Hok' & Ev & Eo & Ej); [now apply signed_tx_ok|cbn; rewrite length_alter; lia|].
    exists p'. cbn [sign_from]. unfold mbind, prog_bind. rewrite (sign_in_spec i p t) by assumption.
    split; [assumption|]. split; [assumption|]. split; [now rewrite Ev|]. split; [now rewrite Eo; apply map_out_after|].
    intros j. rewrite Ej. cbn [_ins signed_tx]. destruct (decide (i = j)) as [<-|Hne].
    + rewrite list_lookup_alter_eq, Ht. rewrite decide_False, decide_True by lia. reflexivity.
    + rewrite list_lookup_alter_ne by assumption. destruct (decide (i <= j)%nat).
      * rewrite decide_True by lia. unfold signed, sig_of. now rewrite signed_tx_bytes.
      * now rewrite decide_False by lia.
Qed.

Lemma tx_hash_bytes_ext i p p' :
  _version p' = _version p -> map core (_ins p') = map core (_ins p) ->
  map out_core (_outs p') = map out_core (_outs p) -> tx_hash_bytes i p' = tx_hash_bytes i p.
Proof. intros Hv Hi Ho. unfold tx_hash_bytes. now rewrite Hv, Hi, Ho. Qed.

Lemma P2PKH_sign_spec p :
  tx_ok p -> exists p', P2PKH_sign p = Ok true p' /\ tx_ok p' /\ _version p' = _version p /\
    _ins p' = imap (signed p) (_ins p) /\ map out_core (_outs p') = map out_core (_outs p).
Proof.
  intros Hok. destruct (sign_from_spec (length (_ins p)) 0 p Hok eq_refl) as (p' & E & Hok' & Ev & Eo & Ej).
  exists p'. unfold P2PKH_sign, mbind, prog_bind, get_state. rewrite E. repeat split; try assumption; try apply Hok'.
  apply list_eq. intros j. rewrite Ej, list_lookup_imap. reflexivity.
Qed.
End sign.

(** ** Writing and reading *)

Section codec.
Context {ssl : OpenSSL} {laws : OpenSSL_laws}.

Definition signed_in (t : TxIn) : Prop := exists k sig, signed_input t k sig.
Definition sig_bytes (t : TxIn) : list byte := bytes_of (_sign (_signatureScript t)).
Definition in_bytes (t : TxIn) : list byte :=
  match _pkey (_signatureScript t) with
  | Some k => txin_bytes t (unlock_bytes (sig_bytes t) (i2d_PUBKEY k))
  | None => []
  end.
Definition in_after (t : TxIn) : TxIn :=
  match _pkey (_signatureScript t) with Some k => exported t k (sig_bytes t) | None => t end.
Definition in_read (t : TxIn) : TxIn :=
  match _pkey (_signatureScript t) with Some k => imported t k (sig_bytes t) | None => t end.

Definition out_bytes (o : TxOut) : list byte := txout_bytes (_value o) (bytes_of (_pubKeyHash o)).

Definition tx_bytes (p : P2PKH) : list byte :=
  layout (_version p) (map in_bytes (_ins p)) (map out_bytes (_outs p)).

Lemma signed_in_eqs t k sig :
  signed_input t k sig -> in_bytes t = txin_bytes t (unlock_bytes sig (i2d_PUBKEY k)) /\
    in_after t = exported t k sig /\ in_read t = imported t k sig.
Proof.
  intros H. unfold in_bytes, in_after, in_read, sig_bytes.
  rewrite (si_key _ _ _ H), (si_sig _ _ _ H). now repeat split.
Qed.

Lemma imap_const {A B} (f : A -> B) (l : list A) : imap (fun _ => f) l = map f l.
Proof. induction l as [|x l IH]; cbn; f_equal; exact IH. Qed.

Lemma P2PKH_export_spec p :
  Forall signed_in (_ins p) -> Forall out_ok (_outs p) ->
  P2PKH_exportRaw p = Ok (tx_bytes p) (mkP2PKH (_version p) (map in_after (_ins p)) (map out_after (_outs p))).
Proof.
  intros Hi Ho. unfold P2PKH_exportRaw, mbind, prog_bind, get_state.
  assert (Hs : forallb TxIn_isSigned (_ins p) = true).
  { clear Ho. induction Hi as [|t l (k & sig & H) _ IH]; [reflexivity|]. cbn [forallb]. now rewrite (si_signed _ _ _ H), IH. }
  rewrite Hs. cbn [negb]. unfold on_ins, on_outs, zoom.
  rewrite (each_ok _ (fun _ => in_bytes) (fun _ => in_after)).
  - cbn [_outs]. rewrite outs_spec by assumption. rewrite !imap_const. reflexivity.
  - intros j t Ht. rewrite Forall_lookup in Hi. destruct (Hi j t Ht) as (k & sig & H).
    destruct (signed_in_eqs _ _ _ H) as (-> & -> & _). now apply TxIn_export_spec.
Qed.

Lemma concat_split {A} (f : A -> list byte) l1 x l2 :
  concat (map f (l1 ++ x :: l2)) = concat (map f l1) ++ f x ++ concat (map f l2).
Proof. rewrite map_app, concat_app. reflexivity. Qed.

Lemma concat_size {A} (f : A -> list byte) l :
  Z.of_nat (length (concat (map f l))) = foldr (fun x z => Z.of_nat (length (f x)) + z) 0 l.
Proof. induction l as [|x l IH]; [reflexivity|]. cbn. rewrite length_app, <- IH. lia. Qed.

(** Reading back a sequence of objects that was written one after the other. *)
Lemma import_many_spec {A T} (f : A -> list byte) (g : A -> T) new import add pre post (l : list A) raw p :
  (forall x rest, x ∈ l -> import (f x ++ rest) new = Ok (Z.of_nat (length (f x))) (g x)) ->
  raw = pre ++ concat (map f l) ++ post ->
  import_many raw (Z.of_nat (length l)) new import add (Z.of_nat (length pre)) p =
  Ok (Z.of_nat (length (pre ++ concat (map f l)))) (add (map g l) p).
Proof.
  intros Hx ->. unfold import_many. rewrite Nat2Z.id.
  rewrite (repeat_new_ok new _ (fun x => Z.of_nat (length (f x))) g l).
  - rewrite length_app, Nat2Z.inj_add, concat_size. reflexivity.
  - intros l1 x l2 ->. rewrite <- concat_size. unfold mbind, prog_bind.
    rewrite (sub_rest _ (pre ++ concat (map f l1)) (f x ++ concat (map f l2) ++ post));
      [|rewrite concat_split, <- !app_assoc; reflexivity|rewrite length_app; lia].
    unfold must, mret, prog_ret. apply Hx. set_solver.
Qed.

Lemma count_bytes n : 0 <= n < 2 ^ 32 -> bswap32 (le_decode (le_encode 4 (bswap32 n))) = n.
Proof. intros Hn. rewrite le_decode_le by apply bswap_range. now apply bswap32_inv. Qed.

Lemma P2PKH_import_spec p rest :
  0 <= _version p < 2 ^ 32 -> Z.of_nat (length (_ins p)) < 2 ^ 32 -> Z.of_nat (length (_outs p)) < 2 ^ 32 ->
  Forall signed_in (_ins p) -> Forall out_ok (_outs p) -> Forall (fun o => 0 <= _value o < 2 ^ 64) (_outs p) ->
  P2PKH_importRawSequentially (tx_bytes p ++ rest) P2PKH_new =
  Ok (Z.of_nat (length (tx_bytes p)))
     (mkP2PKH (_version p) (map in_read (_ins p)) (map out_after (_outs p))).
Proof.
  intros Hv Hni Hno Hi Ho Hval. set (raw := tx_bytes p ++ rest).
  set (V := le_encode 4 (_version p)).
  set (N := le_encode 4 (bswap32 (Z.of_nat (length (_ins p))))).
  set (IN := concat (map in_bytes (_ins p))).
  set (K := le_encode 4 (bswap32 (Z.of_nat (length (_outs p))))).
  set (OUT := concat (map out_bytes (_outs p))).
  assert (Etx : tx_bytes p = V ++ N ++ IN ++ K ++ OUT)
    by (unfold tx_bytes, layout, formatExportedRawTxVector; rewrite !length_map; reflexivity).
  assert (HV : length V = 4%nat) by apply le_encode_length.
  assert (HN : length N = 4%nat) by apply le_encode_length.
  assert (HK : length K = 4%nat) by apply le_encode_length.
  assert (Eraw : raw = V ++ N ++ IN ++ K ++ OUT ++ rest) by (unfold raw; rewrite Etx, <- !app_assoc; reflexivity).
  unfold P2PKH_importRawSequentially, mbind, prog_bind.
  rewrite (sub_at _ [] V (N ++ IN ++ K ++ OUT ++ rest)) by (try reflexivity; try exact Eraw; now rewrite HV).
  unfold must at 1, mret at 1, prog_ret at 1. unfold modify.
  rewrite (sub_at _ V N (IN ++ K ++ OUT ++ rest)) by (try exact Eraw; now rewrite ?HV, ?HN).
  unfold must at 1, mret at 1, prog_ret at 1. unfold N at 1. rewrite count_bytes by lia.
  assert (E8 : 8 = Z.of_nat (length (V ++ N))) by (rewrite length_app, HV, HN; reflexivity). rewrite E8.
  rewrite (import_many_spec in_bytes in_read _ _ _ (V ++ N) (K ++ OUT ++ rest) (_ins p)).
  2:{ intros t r Ht. rewrite Forall_forall in Hi. destruct (Hi t Ht) as (k & sig & H).
      destruct (signed_in_eqs _ _ _ H) as (-> & _ & ->). now apply TxIn_import_spec. }
  2:{ rewrite Eraw, <- !app_assoc. reflexivity. }
  fold IN. rewrite (sub_at _ ((V ++ N) ++ IN) K (OUT ++ rest)) by (rewrite ?HK, <- ?app_assoc; try reflexivity; exact Eraw).
  unfold must at 1, mret at 1, prog_ret at 1. unfold K at 1. rewrite count_bytes by lia.
  replace (Z.of_nat (length ((V ++ N) ++ IN)) + 4) with (Z.of_nat (length ((V ++ N ++ IN) ++ K)))
    by (rewrite !length_app, HK; lia).
  rewrite (import_many_spec out_bytes out_after _ _ _ ((V ++ N ++ IN) ++ K) rest (_outs p)).
  - fold OUT. cbn [_version _ins _outs P2PKH_new app]. f_equal.
    + rewrite Etx, <- !app_assoc. reflexivity.
    + f_equal. unfold V. apply le_decode_le. lia.
  - intros o r Hin. rewrite Forall_forall in Ho, Hval. destruct (Ho o Hin) as (h & Eh & Hh).
    unfold out_bytes, out_after. rewrite Eh. cbn [bytes_of default].
    rewrite txout_bytes_length by assumption. apply TxOut_import_spec; auto.
  - rewrite Eraw, <- !app_assoc. reflexivity.
Qed.
End codec.

(** ** Properties *)

Section properties.
Context {ssl : OpenSSL} {laws : OpenSSL_laws}.

(** A transaction [sign()] can be applied to: addressed outputs, and inputs with a
    private key whose encoding fits a data push. *)
Definition signable_in (t : TxIn) : Prop :=
  in_ok t /\ 0 <= _index (_prevOut t) < 2 ^ 32 /\ 0 <= _sequence t < 2 ^ 32 /\
  exists k, tx_pkey t = Some k /\ key_of t = Some k /\ has_private k = true /\ push_ok (i2d_PUBKEY k).

Record signable (p : P2PKH) : Prop := {
  sg_version : 0 <= _version p < 2 ^ 32;
  sg_in_count : Z.of_nat (length (_ins p)) < 2 ^ 32;
  sg_out_count : Z.of_nat (length (_outs p)) < 2 ^ 32;
  sg_ins : Forall signable_in (_ins p);
  sg_outs : Forall out_ok (_outs p);
  sg_values : Forall (fun o => 0 <= _value o < 2 ^ 64) (_outs p);
}.

(** Signatures over a 32-byte digest fit a data push and are not tiny. *)
Definition signature_sizes : Prop := forall k m,
  has_private k = true -> length m = 32%nat -> push_ok (EVP_PKEY_sign (Some k) m) /\
  20 < Z.of_nat (length (EVP_PKEY_sign (Some k) m)).

Lemma signable_ok p : signable p -> tx_ok p.
Proof.
  intros H. split; [|apply (sg_outs _ H)].
  eapply Forall_impl; [exact (sg_ins _ H)|]. intros t Ht. apply Ht.
Qed.

Lemma signed_signed_input p i t k :
  signature_sizes -> signable_in t -> key_of t = Some k -> signed_input (signed p i t) k (sig_of p i t).
Proof.
  intros Hsz (Hok & Hix & Hsq & k' & Htk & Hk & Hpriv & Hpk) Hk'. rewrite Hk' in Hk. injection Hk as <-.
  unfold sig_of. rewrite Htk. destruct (Hsz k (EVP_SHA256 (tx_hash_bytes i p)) Hpriv (SHA256_length _)) as [Hp Hl].
  unfold signed, hashed, sig_of. rewrite Htk, Hk'. constructor; try assumption; try reflexivity.
  unfold unlock_bytes. simpl length. rewrite length_app. simpl length. lia.
Qed.

Lemma signed_signed_in p i t : signature_sizes -> signable_in t -> signed_in (signed p i t).
Proof.
  intros Hsz H. pose proof H as (_ & _ & _ & k & _ & Hk & _). exists k, (sig_of p i t).
  now apply signed_signed_input.
Qed.

Lemma out_core_ok l l' : map out_core l' = map out_core l -> Forall out_ok l' ->
  Forall (fun o => 0 <= _value o < 2 ^ 64) l -> Forall (fun o => 0 <= _value o < 2 ^ 64) l'.
Proof.
  revert l'. induction l as [|o l IH]; intros [|o' l'] He Hok Hv; try discriminate; [constructor|].
  injection He as Ev _ He. apply Forall_cons in Hok as [_ Hok]. apply Forall_cons in Hv as [Hv Hvs].
  constructor; [now rewrite Ev|now apply IH].
Qed.

(** The state [sign()] leaves can be written and read back. *)
Lemma sign_codec p rest :
  signature_sizes -> signable p ->
  exists p1, P2PKH_sign p = Ok true p1 /\ _ins p1 = imap (signed p) (_ins p) /\
    map out_core (_outs p1) = map out_core (_outs p) /\ _version p1 = _version p /\
    P2PKH_exportRaw p1 = Ok (tx_bytes p1) (mkP2PKH (_version p1) (map in_after (_ins p1)) (map out_after (_outs p1))) /\
    P2PKH_importRawSequentially (tx_bytes p1 ++ rest) P2PKH_new =
    Ok (Z.of_nat (length (tx_bytes p1))) (mkP2PKH (_version p1) (map in_read (_ins p1)) (map out_after (_outs p1))).
Proof.
  intros Hsz H. destruct (P2PKH_sign_spec p (signable_ok p H)) as (p1 & E & Hok & Ev & Ei & Eo).
  assert (Hin : Forall signed_in (_ins p1)).
  { rewrite Ei, Forall_lookup. intros i t. rewrite list_lookup_imap. intros (t0 & Ht0 & ->)%fmap_Some.
    apply signed_signed_in; [assumption|]. pose proof (sg_ins _ H) as Hs. rewrite Forall_lookup in Hs. exact (Hs i t0 Ht0). }
  exists p1. repeat split; try assumption; [now apply P2PKH_export_spec; [|apply Hok]|].
  apply P2PKH_import_spec; try assumption; try apply Hok.
  - rewrite Ev. apply (sg_version _ H).
  - rewrite Ei, length_imap. apply (sg_in_count _ H).
  - rewrite <- (length_map out_core), Eo, length_map. apply (sg_out_count _ H).
  - eapply out_core_ok; [exact Eo|apply Hok|apply (sg_values _ H)].
Qed.

(** C30: a transaction that was signed is written out and read back, whatever bytes
    follow it, to the same version, inputs and outputs, with the public keys only
    and without the mark that it is signed. *)
Theorem P2PKH_round_trip p rest :
  signature_sizes -> signable p ->
  exists p1 raw p2, P2PKH_sign p = Ok true p1 /\ P2PKH_exportRaw p1 = Ok raw p2 /\
    P2PKH_importRawSequentially (raw ++ rest) P2PKH_new =
    Ok (Z.of_nat (length raw)) (mkP2PKH (_version p) (map in_read (_ins p1)) (_outs p2)) /\
    _ins p1 = imap (signed p) (_ins p) /\ map out_core (_outs p2) = map out_core (_outs p).
Proof.
  intros Hsz H. destruct (sign_codec p rest Hsz H) as (p1 & E & Ei & Eo & Ev & Ex & Er).
  do 3 eexists. split; [exact E|]. split; [exact Ex|]. rewrite Er, Ev. cbn [_outs].
  split; [reflexivity|]. split; [assumption|]. now rewrite map_out_after.
Qed.

Lemma in_read_core t : signed_in t -> core (in_read t) = core t.
Proof.
  intros (k & sig & H). destruct (signed_in_eqs _ _ _ H) as (_ & _ & ->).
  unfold core, imported. cbn [_prevOut _sequence _txID _index]. rewrite take_take. unfold pkh_of, key_of.
  cbn [_pkey _signatureScript]. rewrite (si_key _ _ _ H), i2d_public. reflexivity.
Qed.

(** What the receiver of a signed transaction has, and that every input of it validates. *)
Lemma signed_received p rest :
  signature_sizes -> signable p ->
  exists p1 p2, let p3 := mkP2PKH (_version p1) (map in_read (imap (signed p) (_ins p))) (map out_after (_outs p1)) in
    P2PKH_sign p = Ok true p1 /\ P2PKH_exportRaw p1 = Ok (tx_bytes p1) p2 /\
    P2PKH_importRawSequentially (tx_bytes p1 ++ rest) P2PKH_new = Ok (Z.of_nat (length (tx_bytes p1))) p3 /\
    map out_core (_outs p3) = map out_core (_outs p) /\
    forall i t k, _ins p !! i = Some t -> key_of t = Some k ->
    exists bytes p4, txHashOnTxIn i p3 = Ok bytes p4 /\
      verifyP2PKHScript (p2pkh_script (EVP_SHA1 (i2d_PUBKEY k))) (_script (_signatureScript (in_read (signed p i t))))
        (Some bytes) (Z.of_nat (length bytes)) = Some true.
Proof.
  intros Hsz H. destruct (sign_codec p rest Hsz H) as (p1 & E & Ei & Eo & Ev & Ex & Er).
  exists p1, (mkP2PKH (_version p1) (map in_after (_ins p1)) (map out_after (_outs p1))). cbn zeta. rewrite Ei in Er.
  split; [exact E|]. split; [exact Ex|]. split; [exact Er|]. cbn [_outs].
  split; [now rewrite map_out_after|]. intros i t k Ht Hk.
  pose proof (sg_ins _ H) as Hall. rewrite Forall_lookup in Hall.
  pose proof (Hall i t Ht) as (Hok & Hix & Hsq & k' & Htk & Hk' & Hpriv & Hpk).
  rewrite Hk in Hk'. injection Hk' as <-.
  assert (Hin : forall j t0, _ins p !! j = Some t0 -> signed_in (signed p j t0))
    by (intros j t0 Hj; apply signed_signed_in; [assumption|exact (Hall j t0 Hj)]).
  assert (Hsi : signed_input (signed p i t) k (sig_of p i t)) by (apply signed_signed_input; auto; exact (Hall i t Ht)).
  set (p3 := mkP2PKH _ _ _). exists (tx_hash_bytes i p), (hashed_tx i p3). split.
  - rewrite txHashOnTxIn_spec.
    + f_equal. apply tx_hash_bytes_ext; cbn [_version _ins _outs p3]; [assumption| |now rewrite map_out_after].
      apply list_eq. intros j. rewrite !list_lookup_fmap, list_lookup_imap.
      destruct (_ins p !! j) as [t0|] eqn:Ej; [|reflexivity]. cbn. rewrite in_read_core by (now apply Hin).
      now rewrite signed_core.
    + split; cbn [_ins _outs p3].
      * rewrite Forall_lookup. intros j tj. rewrite list_lookup_fmap, list_lookup_imap.
        intros (t1 & (t0 & Ej & ->)%fmap_Some & ->)%fmap_Some.
        destruct (Hin j t0 Ej) as (k0 & sg0 & H0). destruct (signed_in_eqs _ _ _ H0) as (_ & _ & ->).
        unfold in_ok, imported. cbn [_prevOut _txID]. rewrite length_take. pose proof (si_txid _ _ _ H0). lia.
      * apply (hashed_tx_ok 0 p1). destruct (P2PKH_sign_spec p (signable_ok p H)) as (p1' & E' & Hok' & _).
        rewrite E in E'. injection E' as <-. assumption.
  - destruct (signed_in_eqs _ _ _ Hsi) as (_ & _ & ->). unfold imported. cbn [_signatureScript _script].
    pose proof (si_push_sig _ _ _ Hsi) as [Hls _]. destruct Hpk as [Hlk _].
    rewrite verifyP2PKHScript_run by (try apply SHA1_length; lia).
    rewrite decide_True by reflexivity. rewrite d2i_i2d. unfold sig_of. rewrite Htk.
    now rewrite verify_sign.
Qed.

(** C1: what a node signs another node can validate: after [sign()], export and import,
    the script of every input validates against the locking script of its signer's
    key hash, over the bytes the receiver recomputes for that input. *)
Theorem signed_transaction_validates p rest :
  signature_sizes -> signable p ->
  exists p1 raw p2 p3, P2PKH_sign p = Ok true p1 /\ P2PKH_exportRaw p1 = Ok raw p2 /\
    P2PKH_importRawSequentially (raw ++ rest) P2PKH_new = Ok (Z.of_nat (length raw)) p3 /\
    length (_ins p3) = length (_ins p) /\
    forall i t k, _ins p !! i = Some t -> key_of t = Some k ->
    exists t3 bytes p4, _ins p3 !! i = Some t3 /\ txHashOnTxIn i p3 = Ok bytes p4 /\
      verifyP2PKHScript (p2pkh_script (EVP_SHA1 (i2d_PUBKEY k))) (_script (_signatureScript t3))
        (Some bytes) (Z.of_nat (length bytes)) = Some true.
Proof.
  intros Hsz H. destruct (signed_received p rest Hsz H) as (p1 & p2 & E & Ex & Er & _ & Hv).
  do 4 eexists. split; [exact E|]. split; [exact Ex|]. split; [exact Er|].
  cbn [_ins]. split; [now rewrite length_map, length_imap|]. intros i t k Ht Hk.
  destruct (Hv i t k Ht Hk) as (bytes & p4 & Hb & Hs). exists (in_read (signed p i t)), bytes, p4.
  split; [|now split]. rewrite list_lookup_fmap, list_lookup_imap, Ht. reflexivity.
Qed.
End properties.

(** ** What a received transaction can no longer do *)

Section received.
Context {ssl : OpenSSL} {laws : OpenSSL_laws}.

Lemma Script_at_post {S} s i (x : S) P : P x -> post (Script_at s i) x P.
Proof. unfold Script_at. destruct (s !! i); auto. Qed.

Lemma SignatureScript_import_unsigned raw n x :
  _isSigned x = false -> post (SignatureScript_importRaw raw n) x (fun x' => _isSigned x' = false).
Proof.
  intros H. unfold SignatureScript_importRaw. destruct (n <=? 20); [exact H|].
  repeat first [apply post_bind; [try exact H|intros ? ? ?]]; auto using Script_at_post with post.
Qed.

Lemma TxIn_import_unsigned raw t :
  TxIn_isSigned t = false -> post (TxIn_importRaw raw) t (fun t' => TxIn_isSigned t' = false).
Proof.
  intros H. unfold TxIn_importRaw, on_prevOut, on_signatureScript.
  apply post_bind; [apply post_zoom with (Q := fun _ => True); [apply post_true|auto]|intros ? ? ?].
  do 4 (apply post_bind; [auto with post|intros ? ? ?]).
  apply post_bind; [eapply post_zoom; [apply SignatureScript_import_unsigned; eassumption|auto]|intros ? ? ?].
  repeat (apply post_bind; [auto using Script_at_post with post|intros ? ? ?]). auto.
Qed.

Lemma repeat_new_unsigned n c pos l :
  (forall pos, post (c pos) TxIn_new (fun t => TxIn_isSigned t = false)) ->
  (exists pos', repeat_new n TxIn_new c pos = Ok pos' l) -> Forall (fun t => TxIn_isSigned t = false) l.
Proof.
  intros Hc. revert pos l. induction n as [|n IH]; intros pos l [pos' H]; cbn [repeat_new] in H;
    [injection H as _ <-; constructor|].
  specialize (Hc pos) as Hp. unfold post in Hp. destruct (c pos TxIn_new) as [k x| |]; try discriminate.
  destruct (repeat_new n TxIn_new c (pos + k)) as [q l'| |] eqn:E; try discriminate.
  injection H as _ <-. constructor; [assumption|]. apply (IH (pos + k)). eauto.
Qed.

Lemma P2PKH_import_unsigned raw n p :
  P2PKH_importRawSequentially raw P2PKH_new = Ok n p ->
  Forall (fun t => TxIn_isSigned t = false) (_ins p).
Proof.
  unfold P2PKH_importRawSequentially, mbind, prog_bind. intros H.
  destruct (sub raw 0 4) as [v|]; [|discriminate]. cbn in H.
  destruct (sub raw 4 4) as [m|]; [|discriminate]. cbn in H.
  unfold import_many at 1 in H. cbv zeta in H.
  destruct (repeat_new _ TxIn_new _ 8) as [q l| |] eqn:E; try discriminate.
  destruct (sub raw q 4) as [k|]; [|discriminate]. cbn in H. unfold import_many in H. cbv zeta in H.
  destruct (repeat_new _ TxOut_new _ _) as [r o| |]; try discriminate. injection H as _ <-. cbn [_ins].
  eapply repeat_new_unsigned; [|exists q; exact E]. intros pos. apply post_bind; [now apply post_must|].
  intros a s Hs. now apply TxIn_import_unsigned.
Qed.

(** a transaction with at least one input that was read from bytes, whatever these
    are, is never written out again, because reading does not mark inputs as
    signed; its computed id is the hash of no bytes at all, the same for every
    received transaction. *)
Theorem received_not_exportable raw n p :
  P2PKH_importRawSequentially raw P2PKH_new = Ok n p -> _ins p <> [] ->
  P2PKH_exportRaw p = Ok [] p /\ calcTxID p = Ok (EVP_SHA256 []) p.
Proof.
  intros H Hne. apply P2PKH_import_unsigned in H.
  assert (E : P2PKH_exportRaw p = Ok [] p).
  { unfold P2PKH_exportRaw, mbind, prog_bind, get_state. destruct (_ins p) as [|t l]; [contradiction|].
    apply Forall_cons in H as [Ht _]. cbn [forallb]. now rewrite Ht. }
  split; [assumption|]. unfold calcTxID, mbind, prog_bind. rewrite E. reflexivity.
Qed.

(** ** Validation does not depend on the signatures *)

(** Inputs that carry some signature and some key, of whatever quality. *)
Definition unlocked (t : TxIn) : Prop := in_ok t /\ exists sig pk,
  _script (_signatureScript t) = unlock_script sig pk /\
  Z.of_nat (length sig) < 256 /\ Z.of_nat (length pk) < 256.

Lemma verify_from_all utxo h : length h = 20%nat -> (forall id i, utxo id i = Some (p2pkh_script h)) ->
  forall n i flag p, tx_ok p -> (i + n = length (_ins p))%nat ->
  (forall j t, (i <= j)%nat -> _ins p !! j = Some t -> unlocked t) ->
  exists p', verify_from utxo n i flag p = Ok (if decide (n = 0%nat) then flag else true) p' /\ tx_ok p' /\
    forall j, _ins p' !! j = (if decide (i <= j)%nat then hashed else id) <$> _ins p !! j.
Proof.
  intros Hh Hutxo. induction n as [|n IH]; intros i flag p Hok Hn Hun.
  - exists p. split; [reflexivity|]. split; [assumption|]. intros j. destruct (decide (i <= j)%nat).
    + now rewrite !lookup_ge_None_2 by lia.
    + now destruct (_ins p !! j).
  - destruct (lookup_lt_is_Some_2 (_ins p) i) as [t Ht]; [lia|].
    destruct (Hun i t (le_n _) Ht) as (_ & sig & pk & Es & Hs & Hp).
    destruct (IH (S i) true (hashed_tx i p)) as (p' & E & Hok' & Ej).
    { now apply hashed_tx_ok. }
    { cbn [_ins hashed_tx]. rewrite length_alter. lia. }
    { intros j t' Hj. cbn [_ins hashed_tx]. rewrite list_lookup_alter_ne by lia. apply Hun. lia. }
    exists p'. split; [|split; [assumption|]].
    + cbn [verify_from]. unfold mbind, prog_bind, get_state. rewrite Ht. unfold must at 1, mret at 1, prog_ret at 1.
      rewrite Hutxo, Es. change (Script_OPCount (p2pkh_script h) <=? 0) with false.
      change (Script_OPCount (unlock_script sig pk) <=? 0) with false. cbv beta iota.
      rewrite txHashOnTxIn_spec by assumption.
      rewrite verifyP2PKHScript_run by assumption. unfold must, mret, prog_ret. cbv zeta.
      rewrite E. destruct n; reflexivity.
    + intros j. rewrite Ej. cbn [_ins hashed_tx]. destruct (decide (i = j)) as [<-|Hne].
      * rewrite list_lookup_alter_eq, Ht, decide_False, decide_True by lia. reflexivity.
      * rewrite list_lookup_alter_ne by assumption. destruct (decide (i <= j)%nat);
          [rewrite decide_True by lia|rewrite decide_False by lia]; reflexivity.
Qed.

(** [verify()] accepts every transaction whose inputs carry some data in the place of
    signature and key and refer to outputs locked to any hash [h]: it computes
    the result of the script of each input and then overwrites it with [true]. *)
Theorem verify_accepts_any_signature utxo h p :
  length h = 20%nat -> (forall id i, utxo id i = Some (p2pkh_script h)) ->
  Forall unlocked (_ins p) -> Forall out_ok (_outs p) -> _ins p <> [] ->
  exists p', P2PKH_verify utxo p = Ok true p'.
Proof.
  intros Hh Hu Hi Ho Hne. destruct (verify_from_all utxo h Hh Hu (length (_ins p)) 0 false p) as (p' & E & _).
  - split; [|assumption]. eapply Forall_impl; [exact Hi|]. intros t Ht. apply Ht.
  - reflexivity.
  - intros j t _ Hj. rewrite Forall_lookup in Hi. exact (Hi j t Hj).
  - exists p'. unfold P2PKH_verify, mbind, prog_bind, get_state. rewrite E.
    destruct (_ins p); [contradiction|reflexivity].
Qed.

(** [verify()] can be called once only: computing the bytes to check clears the
    signature scripts, so a second call rejects the transaction it has accepted. *)
Theorem verify_twice_rejects utxo h p :
  length h = 20%nat -> (forall id i, utxo id i = Some (p2pkh_script h)) ->
  Forall unlocked (_ins p) -> Forall out_ok (_outs p) -> _ins p <> [] ->
  Forall (fun t => key_of t <> None) (_ins p) ->
  exists p' p'', P2PKH_verify utxo p = Ok true p' /\ P2PKH_verify utxo p' = Ok false p''.
Proof.
  intros Hh Hu Hi Ho Hne Hkey. destruct (verify_from_all utxo h Hh Hu (length (_ins p)) 0 false p) as (p' & E & Hok' & Ej).
  - split; [|assumption]. eapply Forall_impl; [exact Hi|]. intros t Ht. apply Ht.
  - reflexivity.
  - intros j t _ Hj. rewrite Forall_lookup in Hi. exact (Hi j t Hj).
  - exists p', p'. unfold P2PKH_verify, mbind, prog_bind, get_state. rewrite E.
    destruct (_ins p) as [|t l] eqn:Ep; [contradiction|]. split; [reflexivity|].
    pose proof (Ej 0%nat) as E0. cbn in E0.
    destruct (_ins p') as [|t' l'] eqn:Ep'; [discriminate|]. injection E0 as Et'. cbn [length verify_from].
    unfold mbind, prog_bind, get_state. rewrite Ep'. cbn [lookup list_lookup]. unfold must at 1, mret at 1, prog_ret at 1.
    rewrite Hu. change (Script_OPCount (p2pkh_script h) <=? 0) with false. cbv beta iota.
    assert (Es : _script (_signatureScript t') = []).
    { rewrite Et'. unfold hashed. apply Forall_cons in Hkey as [Hk _]. destruct (key_of t); [reflexivity|contradiction]. }
    rewrite Es. reflexivity.
Qed.
End received.

(** ** The theorems at a one-input transaction *)

Definition sample_key : PKEY := (true, x07).
Definition sample_in : TxIn := TxIn_set_pkey (Some sample_key) TxIn_new.
Definition sample_out : TxOut := TxOut_init 5 (Some (replicate 20 x01)) TxOut_new.
Definition sample_tx : P2PKH := P2PKH_add_out sample_out (P2PKH_add_in sample_in P2PKH_new).

Lemma toy_signature_sizes : signature_sizes.
Proof.
  intros [[] k] m; [|discriminate]. intros _ Hm.
  assert (El : length (EVP_PKEY_sign (Some ((true, k) : PKEY)) m) = 33%nat) by (cbn; now rewrite Hm).
  unfold push_ok. rewrite El.
  vm_compute. repeat split; discriminate || reflexivity.
Qed.

Lemma sample_range z b : (0 <=? z) && (z <? b) = true -> 0 <= z < b.
Proof. intros [?%Z.leb_le ?%Z.ltb_lt]%andb_prop. lia. Qed.

Lemma sample_signable : signable sample_tx.
Proof.
  constructor.
  - apply sample_range. reflexivity.
  - reflexivity.
  - reflexivity.
  - apply Forall_singleton. split; [exact (le_n 32)|]. split; [apply sample_range; reflexivity|].
    split; [apply sample_range; reflexivity|]. exists sample_key. split; [reflexivity|].
    split; [reflexivity|]. split; [reflexivity|]. split; [split; reflexivity|reflexivity].
  - apply Forall_singleton. exists (replicate 20 x01). split; reflexivity.
  - apply Forall_singleton. apply sample_range. vm_compute. reflexivity.
Qed.

Lemma P2PKH_round_trip_witness :
  exists p1 raw p2, P2PKH_sign sample_tx = Ok true p1 /\ P2PKH_exportRaw p1 = Ok raw p2 /\
    P2PKH_importRawSequentially (raw ++ []) P2PKH_new =
    Ok (Z.of_nat (length raw)) (mkP2PKH 0 (map in_read (_ins p1)) (_outs p2)) /\
    _ins p1 = imap (signed sample_tx) [sample_in] /\ map out_core (_outs p2) = map out_core [sample_out].
Proof. apply (P2PKH_round_trip sample_tx []); [exact toy_signature_sizes|exact sample_signable]. Defined.

Lemma signed_transaction_validates_witness :
  exists p1 raw p2 p3, P2PKH_sign sample_tx = Ok true p1 /\ P2PKH_exportRaw p1 = Ok raw p2 /\
    P2PKH_importRawSequentially (raw ++ [xff]) P2PKH_new = Ok (Z.of_nat (length raw)) p3 /\
    length (_ins p3) = 1%nat /\
    forall i t k, _ins sample_tx !! i = Some t -> key_of t = Some k ->
    exists t3 bytes p4, _ins p3 !! i = Some t3 /\ txHashOnTxIn i p3 = Ok bytes p4 /\
      verifyP2PKHScript (p2pkh_script (EVP_SHA1 (i2d_PUBKEY k))) (_script (_signatureScript t3))
        (Some bytes) (Z.of_nat (length bytes)) = Some true.
Proof. apply (signed_transaction_validates sample_tx [xff]); [exact toy_signature_sizes|exact sample_signable]. Defined.

(** The bytes of the signed sample, and the transaction read from them. *)
Definition sample_bytes : list byte :=
  match P2PKH_sign sample_tx with
  | Ok _ p => match P2PKH_exportRaw p with Ok raw _ => raw | _ => [] end
  | _ => []
  end.

Definition sample_read : P2PKH :=
  match P2PKH_importRawSequentially sample_bytes P2PKH_new with Ok _ p => p | _ => P2PKH_new end.

Lemma received_not_exportable_witness :
  _ins sample_read <> [] /\ P2PKH_exportRaw sample_read = Ok [] sample_read /\
  calcTxID sample_read = Ok (EVP_SHA256 []) sample_read.
Proof.
  assert (Hne : _ins sample_read <> []) by (vm_compute; discriminate).
  split; [exact Hne|]. apply (received_not_exportable sample_bytes (Z.of_nat (length sample_bytes)) sample_read).
  - vm_compute. reflexivity.
  - exact Hne.
Defined.

(** An input with a signature and a key that are both nonsense. *)
Definition forged_in : TxIn :=
  set_signatureScript (mkSignatureScript None 0 false (Some (false, x09)) (unlock_script [x00] [x00])) TxIn_new.
Definition forged_tx : P2PKH := mkP2PKH 0 [forged_in] [sample_out].

Lemma forged_unlocked : Forall unlocked (_ins forged_tx).
Proof.
  apply Forall_singleton. split; [exact (le_n 32)|]. exists [x00], [x00]. split; [reflexivity|].
  split; reflexivity.
Qed.

Lemma forged_outs : Forall out_ok (_outs forged_tx).
Proof. apply Forall_singleton. exists (replicate 20 x01). split; reflexivity. Qed.

Lemma verify_accepts_any_signature_witness :
  verifyP2PKHScript (p2pkh_script (replicate 20 x01)) (unlock_script [x00] [x00]) None 0 = Some false /\
  exists p', P2PKH_verify (fun _ _ => Some (p2pkh_script (replicate 20 x01))) forged_tx = Ok true p'.
Proof.
  split; [vm_compute; reflexivity|].
  apply (verify_accepts_any_signature _ (replicate 20 x01)).
  - reflexivity.
  - reflexivity.
  - exact forged_unlocked.
  - exact forged_outs.
  - discriminate.
Defined.

Lemma verify_twice_rejects_witness :
  exists p' p'', P2PKH_verify (fun _ _ => Some (p2pkh_script (replicate 20 x01))) forged_tx = Ok true p' /\
    P2PKH_verify (fun _ _ => Some (p2pkh_script (replicate 20 x01))) p' = Ok false p''.
Proof.
  apply (verify_twice_rejects _ (replicate 20 x01)).
  - reflexivity.
  - reflexivity.
  - exact forged_unlocked.
  - exact forged_outs.
  - discriminate.
  - apply Forall_singleton. discriminate.
Defined.
