(* ===== verification/BlockHeader.v ===== *)
(** Block headers and proof of work ([chain/block/block_header.cpp],
    [chain/mining/simple_mining.cpp]): the difficulty mask a header's [_nBits] stands
    for, the check of a header against it, and the search of a nonce. *)
From S2P Require Import Prelude Crypto.
From Stdlib Require Import Lia.

(** ** Difficulty masks *)

(** [std::array::operator[]] assignment: an index outside the array is undefined. *)
Definition array_set (a : list byte) (i : Z) (b : byte) : option (list byte) :=
  if (0 <=? i) && (i <? Z.of_nat (length a)) then Some (<[Z.to_nat i := b]> a) else None.

Definition generatenBitMask (nBits : Z) : option (list byte) :=
  let ucnBits := le_encode 4 (bswap32 nBits) in
  exponent ← ucnBits !! 0%nat;
  c0 ← ucnBits !! 1%nat;
  c1 ← ucnBits !! 2%nat;
  c2 ← ucnBits !! 3%nat;
  let shift := (u8 exponent - 3) mod 2 ^ 16 in
  let nBitsMask := replicate 32 x00 in
  nBitsMask ← array_set nBitsMask (31 - (shift + 2)) c0;
  nBitsMask ← array_set nBitsMask (31 - (shift + 1)) c1;
  array_set nBitsMask (31 - shift) c2.

(** The comparison loop over the 32 bytes, first byte first. *)
Fixpoint mbitcmp (rawNBitMask hash : list byte) : bool :=
  match rawNBitMask, hash with
  | m :: ms, h :: hs =>
      if u8 m <? u8 h then false
      else if u8 m =? u8 h then mbitcmp ms hs
      else true
  | _, _ => true
  end.

(** ** Block headers *)

Record BlockHeader : Type := mkHeader {
  h_version : Z;
  _previousBlockHeaderHash : list byte;
  _merkleRoot : list byte;
  _time : Z;
  _nBits : Z;
  _nonce : Z;
}.

(** [now] is the clock; [_merkleRoot] is not initialised by the code, zero here. *)
Definition BlockHeader_new (now : Z) : BlockHeader :=
  mkHeader (bswap32 0) (replicate 32 x00) (replicate 32 x00) (now mod 2 ^ 32) 0 0.

Definition set_merkleRoot (target : buffer) (h : BlockHeader) : option BlockHeader :=
  m ← rd 32 target;
  Some (mkHeader (h_version h) (_previousBlockHeaderHash h) m (_time h) (_nBits h) (_nonce h)).
Definition set_nBits (target : Z) (h : BlockHeader) : BlockHeader :=
  mkHeader (h_version h) (_previousBlockHeaderHash h) (_merkleRoot h) (_time h) target (_nonce h).
Definition set_nonce (target : Z) (h : BlockHeader) : BlockHeader :=
  mkHeader (h_version h) (_previousBlockHeaderHash h) (_merkleRoot h) (_time h) (_nBits h) target.
Definition updateTime (now : Z) (h : BlockHeader) : BlockHeader :=
  mkHeader (h_version h) (_previousBlockHeaderHash h) (_merkleRoot h) (now mod 2 ^ 32) (_nBits h) (_nonce h).
Definition set_prevBlockHash (target : buffer) (h : BlockHeader) : option BlockHeader :=
  p ← (match target with None => Some (replicate 32 x00) | Some _ => rd 32 target end);
  Some (mkHeader (h_version h) p (_merkleRoot h) (_time h) (_nBits h) (_nonce h)).

(** No previous block when the 32 bytes are zero. *)
Definition prevBlockHash (h : BlockHeader) : buffer :=
  match memcmp (_previousBlockHeaderHash h) (replicate 32 x00) with
  | Eq => None
  | _ => Some (_previousBlockHeaderHash h)
  end.

(** The struct has no padding: 4 + 32 + 32 + 4 + 4 + 4 bytes. *)
Definition BlockHeader_exportRaw (h : BlockHeader) : list byte :=
  le_encode 4 (h_version h) ++ _previousBlockHeaderHash h ++ _merkleRoot h ++
  le_encode 4 (_time h) ++ le_encode 4 (_nBits h) ++ le_encode 4 (_nonce h).

Definition BlockHeader_importRawSequentially (fromRaw : list byte) : prog BlockHeader Z :=
  v ← must (sub fromRaw 0 4);
  p ← must (sub fromRaw 4 32);
  m ← must (sub fromRaw 36 32);
  t ← must (sub fromRaw 68 4);
  b ← must (sub fromRaw 72 4);
  n ← must (sub fromRaw 76 4);
  _ ← set_state (mkHeader (le_decode v) p m (le_decode t) (le_decode b) (le_decode n));
  mret 80.

Section BlockHeader_code.
Context {ssl : OpenSSL}.

Definition headerHash (h : BlockHeader) : option (list byte) :=
  let raw := BlockHeader_exportRaw h in SHAHash (Some raw) (Z.of_nat (length raw)) sha256.

Definition BlockHeader_verify (h : BlockHeader) : option bool :=
  let raw := BlockHeader_exportRaw h in
  nBitMask ← generatenBitMask (_nBits h);
  ret ← SHAHash (Some raw) (Z.of_nat (length raw)) sha256;
  Some (mbitcmp nBitMask ret).

Definition BlockHeader_compare (targetBlockHash : buffer) (h : BlockHeader) : option bool :=
  a ← headerHash h; b ← rd 32 targetBlockHash; a ← rd 32 (Some a);
  Some (match memcmp a b with Eq => true | _ => false end).

Definition cmpMerkleRoot (target : buffer) (h : BlockHeader) : option bool :=
  t ← rd 32 target; Some (match memcmp (_merkleRoot h) t with Eq => true | _ => false end).

Definition cmpPrevBlockHash (target : buffer) (h : BlockHeader) : option bool :=
  t ← rd 32 target; Some (match memcmp (_previousBlockHeaderHash h) t with Eq => true | _ => false end).

(** ** Mining *)

(** Overwrites the last four bytes of the exported header. *)
Definition put_nonce (raw : list byte) (n : Z) : list byte :=
  take (length raw - 4) raw ++ le_encode 4 n.

Fixpoint mining_loop (fuel : nat) (raw mask : list byte) (candidate : Z) : option Z :=
  match fuel with
  | O => None
  | S fuel' =>
      hash ← SHAHash (Some (put_nonce raw candidate)) (Z.of_nat (length (put_nonce raw candidate))) sha256;
      if mbitcmp mask hash then Some candidate
      else mining_loop fuel' raw mask ((candidate + 1) mod 2 ^ 32)
  end.

(** [simpleMining]: sets the difficulty of the header and searches a nonce, which the
    caller stores. *)
Definition simpleMining (fuel : nat) (nBits : Z) : prog BlockHeader Z :=
  _ ← modify (set_nBits nBits);
  h ← get_state;
  nBitsMask ← must (generatenBitMask nBits);
  must (mining_loop fuel (BlockHeader_exportRaw h) nBitsMask 0).
End BlockHeader_code.

(** ** The mask and the comparison *)

Definition exponent (nBits : Z) : Z := nBits / 2 ^ 24.
Definition coefficient (nBits : Z) : Z := nBits mod 2 ^ 24.

(** The target that a compact difficulty stands for. *)
Definition target (nBits : Z) : Z := coefficient nBits * 256 ^ (exponent nBits - 3).

Lemma mask_bytes (e c0 c1 c2 : byte) :
  (let shift := (u8 e - 3) mod 2 ^ 16 in
   m ← array_set (replicate 32 x00) (31 - (shift + 2)) c0;
   m ← array_set m (31 - (shift + 1)) c1;
   array_set m (31 - shift) c2) =
  if (3 <=? u8 e) && (u8 e <=? 32)
  then Some (replicate (32 - Z.to_nat (u8 e)) x00 ++ [c0; c1; c2] ++ replicate (Z.to_nat (u8 e) - 3) x00)
  else None.
Proof. destruct e; reflexivity. Qed.

Lemma exponent_byte nBits : 0 <= nBits < 2 ^ 32 -> u8 (b8 (nBits / 2 ^ 24)) = exponent nBits.
Proof.
  intros H. rewrite u8_b8. apply Z.mod_small. unfold exponent.
  split; [apply Z.div_pos; lia|apply Z.div_lt_upper_bound; lia].
Qed.

Lemma generatenBitMask_some nBits :
  0 <= nBits < 2 ^ 32 -> 3 <= exponent nBits <= 32 ->
  exists m, generatenBitMask nBits = Some m /\ length m = 32%nat /\ be_decode m = target nBits.
Proof.
  intros Hn He. unfold generatenBitMask. unfold bswap32. rewrite le_encode_bswap, be_encode_4.
  cbn [lookup list_lookup mbind option_bind]. cbv zeta. rewrite mask_bytes.
  rewrite exponent_byte by assumption.
  rewrite (proj2 (Z.leb_le 3 _)), (proj2 (Z.leb_le _ 32)) by lia. cbn [andb].
  eexists. split; [reflexivity|]. split.
  - buffer_lia.
  - rewrite !be_decode_app, be_decode_zeros, be_decode_zeros, length_replicate.
    rewrite Nat2Z.inj_sub, Z2Nat.id by lia. unfold target.
    rewrite <- be_encode_3, be_decode_encode, Z.add_0_r, Z.mul_0_l, Z.add_0_l. reflexivity.
Qed.

Lemma generatenBitMask_none nBits :
  0 <= nBits < 2 ^ 32 -> ~ 3 <= exponent nBits <= 32 -> generatenBitMask nBits = None.
Proof.
  intros Hn He. unfold generatenBitMask. unfold bswap32. rewrite le_encode_bswap, be_encode_4.
  cbn [lookup list_lookup mbind option_bind]. cbv zeta. rewrite mask_bytes.
  rewrite exponent_byte by assumption.
  destruct (Z.leb_spec 3 (exponent nBits)), (Z.leb_spec (exponent nBits) 32); try reflexivity. lia.
Qed.

Lemma mbitcmp_memcmp m h : mbitcmp m h = match memcmp m h with Lt => false | _ => true end.
Proof.
  revert h; induction m as [|x m IH]; intros [|y h]; try reflexivity. cbn [mbitcmp memcmp].
  destruct (Z.compare_spec (u8 x) (u8 y)) as [E|E|E], (Z.ltb_spec (u8 x) (u8 y)), (Z.eqb_spec (u8 x) (u8 y));
    try lia; try reflexivity. apply IH.
Qed.

Lemma mbitcmp_le m h : length m = length h -> mbitcmp m h = (be_decode h <=? be_decode m).
Proof.
  intros Hl. rewrite mbitcmp_memcmp, memcmp_be by assumption.
  destruct (Z.compare_spec (be_decode m) (be_decode h)), (Z.leb_spec (be_decode h) (be_decode m)); lia || reflexivity.
Qed.

(** ** Checking and mining *)

Section mining.
Context {ssl : OpenSSL} {laws : OpenSSL_laws}.

(** The number that the hash of a header stands for. *)
Definition hash_value (h : BlockHeader) : Z := be_decode (EVP_SHA256 (BlockHeader_exportRaw h)).

Lemma SHAHash_all l : SHAHash (Some l) (Z.of_nat (length l)) sha256 = Some (EVP_SHA256 l).
Proof. unfold SHAHash. now rewrite rd_all. Qed.

Lemma BlockHeader_verify_run h :
  0 <= _nBits h < 2 ^ 32 ->
  BlockHeader_verify h =
  if (3 <=? exponent (_nBits h)) && (exponent (_nBits h) <=? 32)
  then Some (hash_value h <=? target (_nBits h)) else None.
Proof.
  intros Hn. unfold BlockHeader_verify. rewrite SHAHash_all.
  destruct (Z.leb_spec 3 (exponent (_nBits h))), (Z.leb_spec (exponent (_nBits h)) 32);
    try (rewrite generatenBitMask_none by lia; reflexivity).
  destruct (generatenBitMask_some (_nBits h)) as (m & Em & Hl & Hv); [lia..|].
  rewrite Em. cbn [mbind option_bind andb]. rewrite mbitcmp_le by now rewrite Hl, SHA256_length.
  now rewrite Hv.
Qed.

(** C32: a header passes the check exactly when its hash, read as a 256-bit number, is at most
    the target its difficulty stands for (coefficient * 256^(exponent-3)), for every
    exponent from 3 to 32 (the README asks for a hash below the target; the code also takes one that
    is equal to it); any other exponent, which a peer can put in a header, makes
    the check write outside the mask, which is undefined. *)
Theorem BlockHeader_verify_correct h :
  0 <= _nBits h < 2 ^ 32 ->
  BlockHeader_verify h =
  if (3 <=? exponent (_nBits h)) && (exponent (_nBits h) <=? 32)
  then Some (hash_value h <=? target (_nBits h)) else None.
Proof. apply BlockHeader_verify_run. Qed.

Lemma put_nonce_export h n : put_nonce (BlockHeader_exportRaw h) n = BlockHeader_exportRaw (set_nonce n h).
Proof.
  unfold put_nonce, BlockHeader_exportRaw, set_nonce. cbn [h_version _previousBlockHeaderHash _merkleRoot _time _nBits _nonce].
  rewrite !app_assoc, length_app, le_encode_length, Nat.add_sub, take_app_length. reflexivity.
Qed.

(** One round of the loop, as the check of the header with the candidate. *)
Lemma mining_loop_step fuel h mask c :
  generatenBitMask (_nBits h) = Some mask ->
  mining_loop (S fuel) (BlockHeader_exportRaw h) mask c =
  match BlockHeader_verify (set_nonce c h) with
  | Some true => Some c
  | _ => mining_loop fuel (BlockHeader_exportRaw h) mask ((c + 1) mod 2 ^ 32)
  end.
Proof.
  intros Hm. cbn [mining_loop]. rewrite put_nonce_export, SHAHash_all. cbn [mbind option_bind].
  unfold BlockHeader_verify. cbn [_nBits set_nonce]. rewrite Hm, SHAHash_all. cbn [mbind option_bind].
  now destruct (mbitcmp _ _).
Qed.

Lemma mining_loop_finds h mask n :
  generatenBitMask (_nBits h) = Some mask -> 0 <= n < 2 ^ 32 ->
  BlockHeader_verify (set_nonce n h) = Some true ->
  forall k c, c = n - Z.of_nat k -> 0 <= c ->
  (forall m, c <= m < n -> BlockHeader_verify (set_nonce m h) = Some false) ->
  mining_loop (S k) (BlockHeader_exportRaw h) mask c = Some n.
Proof.
  intros Hm Hn Hv. induction k as [|k IH]; intros c Ec Hc Hall; rewrite mining_loop_step by assumption.
  - replace c with n by lia. now rewrite Hv.
  - rewrite Hall by lia. rewrite Z.mod_small by lia. apply IH; [lia..|]. intros m ?. apply Hall. lia.
Qed.

(** If any nonce will do, the search ends with one that does. *)
Lemma mining_loop_ends h mask n :
  generatenBitMask (_nBits h) = Some mask -> n < 2 ^ 32 ->
  BlockHeader_verify (set_nonce n h) = Some true ->
  forall k c, c = n - Z.of_nat k -> 0 <= c ->
  exists fuel m, mining_loop fuel (BlockHeader_exportRaw h) mask c = Some m /\
    BlockHeader_verify (set_nonce m h) = Some true.
Proof.
  intros Hm Hn Hv. induction k as [|k IH]; intros c Ec Hc.
  - exists 1%nat, n. rewrite mining_loop_step by assumption. replace c with n by lia. now rewrite Hv.
  - destruct (BlockHeader_verify (set_nonce c h)) as [[]|] eqn:E.
    + exists 1%nat, c. rewrite mining_loop_step, E by assumption. now split.
    + destruct (IH (c + 1)) as (fuel & m & H1 & H2); [lia..|]. exists (S fuel), m.
      rewrite mining_loop_step, E, Z.mod_small by (assumption || lia). now split.
    + destruct (IH (c + 1)) as (fuel & m & H1 & H2); [lia..|]. exists (S fuel), m.
      rewrite mining_loop_step, E, Z.mod_small by (assumption || lia). now split.
Qed.

Lemma mining_loop_none h mask :
  generatenBitMask (_nBits h) = Some mask ->
  (forall m, 0 <= m < 2 ^ 32 -> BlockHeader_verify (set_nonce m h) <> Some true) ->
  forall fuel c, 0 <= c < 2 ^ 32 -> mining_loop fuel (BlockHeader_exportRaw h) mask c = None.
Proof.
  intros Hm Hall. induction fuel as [|fuel IH]; intros c Hc; [reflexivity|].
  rewrite mining_loop_step by assumption. specialize (Hall c Hc).
  destruct (BlockHeader_verify _) as [[]|]; [now destruct Hall|..]; apply IH; apply Z.mod_pos_bound; lia.
Qed.

Lemma simpleMining_run fuel nBits h mask :
  generatenBitMask nBits = Some mask ->
  simpleMining fuel nBits h =
  match mining_loop fuel (BlockHeader_exportRaw (set_nBits nBits h)) mask 0 with
  | Some n => Ok n (set_nBits nBits h)
  | None => Undef
  end.
Proof.
  intros Hm. unfold simpleMining, mbind, prog_bind, modify, get_state. rewrite Hm. cbn [must].
  unfold mret, prog_ret. now destruct (mining_loop _ _ _ _).
Qed.

(** C33: mining returns the least nonce with which the header, given the requested
    difficulty, passes its own check, after as many rounds as there are candidates up
    to it, and leaves nothing but the difficulty changed. *)
Theorem simpleMining_finds_least nBits h n :
  0 <= nBits < 2 ^ 32 -> 3 <= exponent nBits <= 32 -> 0 <= n < 2 ^ 32 ->
  BlockHeader_verify (set_nonce n (set_nBits nBits h)) = Some true ->
  (forall m, 0 <= m < n -> BlockHeader_verify (set_nonce m (set_nBits nBits h)) = Some false) ->
  simpleMining (S (Z.to_nat n)) nBits h = Ok n (set_nBits nBits h).
Proof.
  intros Hb He Hn Hv Hall. destruct (generatenBitMask_some nBits Hb He) as (mask & Hm & _ & _).
  rewrite (simpleMining_run _ _ _ mask Hm).
  rewrite (mining_loop_finds (set_nBits nBits h) mask n Hm Hn Hv (Z.to_nat n) 0); [reflexivity|lia|lia|exact Hall].
Qed.

(** when no nonce makes the header pass its check, the search never ends: the candidate
    wraps around and neither the time nor any other field is changed. *)
Theorem simpleMining_diverges nBits h fuel :
  0 <= nBits < 2 ^ 32 -> 3 <= exponent nBits <= 32 ->
  (forall m, 0 <= m < 2 ^ 32 -> BlockHeader_verify (set_nonce m (set_nBits nBits h)) <> Some true) ->
  simpleMining fuel nBits h = Undef.
Proof.
  intros Hb He Hall. destruct (generatenBitMask_some nBits Hb He) as (mask & Hm & _ & _).
  rewrite (simpleMining_run _ _ _ mask Hm).
  rewrite (mining_loop_none (set_nBits nBits h) mask Hm Hall) by lia. reflexivity.
Qed.

(** ** The 80-byte format *)

Record header_ok (h : BlockHeader) : Prop := {
  ok_version : 0 <= h_version h < 2 ^ 32;
  ok_previous : length (_previousBlockHeaderHash h) = 32%nat;
  ok_merkle : length (_merkleRoot h) = 32%nat;
  ok_time : 0 <= _time h < 2 ^ 32;
  ok_nBits : 0 <= _nBits h < 2 ^ 32;
  ok_nonce : 0 <= _nonce h < 2 ^ 32;
}.

(** a header is written as 80 bytes and read back unchanged from them, whatever follows
    them, into any header object. *)
Theorem BlockHeader_round_trip h rest h0 :
  header_ok h ->
  length (BlockHeader_exportRaw h) = 80%nat /\
  BlockHeader_importRawSequentially (BlockHeader_exportRaw h ++ rest) h0 = Ok 80 h.
Proof.
  intros [Hv Hp Hm Ht Hb Hn]. destruct h as [v p m t b n]; cbn in Hv, Hp, Hm, Ht, Hb, Hn.
  unfold BlockHeader_exportRaw; cbn [h_version _previousBlockHeaderHash _merkleRoot _time _nBits _nonce].
  split; [rewrite !length_app, !le_encode_length, Hp, Hm; reflexivity|].
  set (V := le_encode 4 v). set (T := le_encode 4 t). set (B := le_encode 4 b). set (N := le_encode 4 n).
  assert (length V = 4 /\ length T = 4 /\ length B = 4 /\ length N = 4)%nat as (LV & LT & LB & LN)
    by (repeat split; apply le_encode_length).
  unfold BlockHeader_importRawSequentially, mbind, prog_bind.
  rewrite (sub_at _ [] V (p ++ m ++ T ++ B ++ N ++ rest)) by (rewrite <- ?app_assoc, ?LV; reflexivity).
  rewrite (sub_at _ V p (m ++ T ++ B ++ N ++ rest)) by (rewrite <- ?app_assoc, ?LV, ?Hp; reflexivity).
  rewrite (sub_at _ (V ++ p) m (T ++ B ++ N ++ rest)) by (rewrite <- ?app_assoc, ?length_app, ?LV, ?Hp, ?Hm; reflexivity).
  rewrite (sub_at _ (V ++ p ++ m) T (B ++ N ++ rest)) by (rewrite <- ?app_assoc, ?length_app, ?LV, ?Hp, ?Hm, ?LT; reflexivity).
  rewrite (sub_at _ (V ++ p ++ m ++ T) B (N ++ rest)) by (rewrite <- ?app_assoc, ?length_app, ?LV, ?Hp, ?Hm, ?LT, ?LB; reflexivity).
  rewrite (sub_at _ (V ++ p ++ m ++ T ++ B) N rest) by (rewrite <- ?app_assoc, ?length_app, ?LV, ?Hp, ?Hm, ?LT, ?LB, ?LN; reflexivity).
  cbn [must]. unfold mret, prog_ret, set_state. unfold V, T, B, N. now rewrite !le_decode_le.
Qed.
End mining.

(** ** Concrete headers *)

(** A hash that depends on the last four bytes, to have something to mine. *)
Definition tail_hash (m : list byte) : list byte :=
  pad 32 (map (fun b => b8 (255 - u8 b)) (drop (length m - 4) m)).

Definition mining_ssl : OpenSSL := {|
  PKEY := @PKEY toy_ssl;
  EVP_SHA1 := @EVP_SHA1 toy_ssl;
  EVP_SHA256 := tail_hash;
  i2d_PUBKEY := @i2d_PUBKEY toy_ssl;
  d2i_PUBKEY := @d2i_PUBKEY toy_ssl;
  EVP_PKEY_sign := @EVP_PKEY_sign toy_ssl;
  EVP_PKEY_verify := @EVP_PKEY_verify toy_ssl;
  public_part := @public_part toy_ssl;
  has_private := @has_private toy_ssl;
|}.

Lemma mining_ssl_laws : @OpenSSL_laws mining_ssl.
Proof. destruct toy_ssl_laws. split; try assumption. intros m. apply pad_length. Qed.

Lemma BlockHeader_verify_correct_witness :
  @BlockHeader_verify mining_ssl (set_nonce 3 (set_nBits 0x20fd0000 (BlockHeader_new 7))) = Some true.
Proof.
  etransitivity; [apply (@BlockHeader_verify_correct mining_ssl mining_ssl_laws); simpl; lia|].
  vm_compute. reflexivity.
Defined.

Lemma simpleMining_finds_least_witness :
  @simpleMining mining_ssl 4 0x20fd0000 (BlockHeader_new 7) = Ok 3 (set_nBits 0x20fd0000 (BlockHeader_new 7)).
Proof.
  apply (@simpleMining_finds_least mining_ssl 0x20fd0000 (BlockHeader_new 7) 3);
    [lia|vm_compute; split; discriminate|lia|vm_compute; reflexivity|].
  intros m Hm. assert (m = 0 \/ m = 1 \/ m = 2) as [->|[->| ->]] by lia; vm_compute; reflexivity.
Defined.

Lemma simpleMining_diverges_witness :
  @simpleMining toy_ssl 100 0x03000000 (set_nonce 9 (mkHeader 1 (replicate 32 x00) (replicate 32 x00) 7 0 0)) = Undef.
Proof.
  apply (@simpleMining_diverges toy_ssl); [lia|vm_compute; split; discriminate|].
  intros m Hm. vm_compute. discriminate.
Defined.

Lemma BlockHeader_round_trip_witness : exists h,
  BlockHeader_importRawSequentially (BlockHeader_exportRaw (BlockHeader_new 1700000000) ++ [xff]) (BlockHeader_new 0) =
  Ok 80 h /\ h = BlockHeader_new 1700000000.
Proof.
  eexists. split; [|reflexivity].
  apply (BlockHeader_round_trip (BlockHeader_new 1700000000) [xff] (BlockHeader_new 0)).
  split; vm_compute; repeat split; discriminate.
Defined.
