(* ===== verification/Coinbase.v ===== *)
(** Coinbase transactions ([chain/transaction/coinbase/]): the input that carries the
    height and a free text, and the transaction around it. *)
From S2P Require Import Prelude Crypto Script TxFormat.
From Stdlib Require Import Lia.

Section Coinbase_code.
Context {ssl : OpenSSL}.

(** ** Coinbase transactions *)

Record coinbase_tx_in : Type := mkCoinbaseIn {
  cb_prevOut : prev_out;
  cb_script_bytes : Z;
  cb_script : script;
  cb_sequence : Z;
}.

(** [_script_bytes] and, without a height, [_sequence] are not initialised; 0 here. *)
Definition coinbase_tx_in_new : coinbase_tx_in := mkCoinbaseIn prev_out_new 0 [] 0.

(** The length test is on [size_t], so texts shorter than the height field fail it. *)
Definition coinbase_tx_in_make (height : Z) (text : buffer) (textLength : Z) : coinbase_tx_in :=
  let p := prev_out_set_index (2 ^ 32 - 1) (prev_out_txID None prev_out_new) in
  let s := Script_pushBack (OP_DATA x04) (Some (le_encode 4 (bswap32 height))) [] in
  let s := if (textLength - 4) mod 2 ^ 64 <=? 100
           then Script_pushBack (OP_DATA (b8 textLength)) text s else s in
  mkCoinbaseIn p 0 s 0.

(** Narrowed to [unsigned short]. *)
Definition cb_scriptBytes (t : coinbase_tx_in) : Z := bswap32 (cb_script_bytes t) mod 2 ^ 16.

(** [Script::at( size_t , ret )] with its exception caught: no bytes. *)
Definition Script_data_at (s : script) (i : nat) : option (list byte) :=
  match s !! i with Some x => rd (OP_DATALength x.1) x.2 | None => Some [] end.

Definition coinbase_tx_in_height (t : coinbase_tx_in) : option Z :=
  rawHeight ← Script_data_at (cb_script t) 0;
  if Z.of_nat (length rawHeight) <=? 0 then Some (-1)
  else
    ret ← rd 4 (Some rawHeight);
    Some ((bswap32 (le_decode ret) + 2 ^ 31) mod 2 ^ 32 - 2 ^ 31).

(** The buffer is allocated with the narrowed length, so that a longer script is
    written past its end. *)
Definition coinbase_tx_in_exportRaw : prog coinbase_tx_in (list byte) :=
  t ← get_state;
  rawprev_out ← must (prev_out_exportRaw (cb_prevOut t));
  rawScript ← must (Script_exportRaw (cb_script t));
  let sb := bswap32 (Z.of_nat (length rawScript)) in
  let t := mkCoinbaseIn (cb_prevOut t) sb (cb_script t) (cb_sequence t) in
  _ ← set_state t;
  if cb_scriptBytes t <? Z.of_nat (length rawScript) then undef
  else mret (rawprev_out ++ le_encode 4 sb ++ rawScript ++ le_encode 4 (cb_sequence t)).

Definition coinbase_tx_in_importRaw (fromRaw : list byte) : prog coinbase_tx_in Z :=
  prevOutLength ← zoom cb_prevOut (fun p t => mkCoinbaseIn p (cb_script_bytes t) (cb_script t) (cb_sequence t))
                    (prev_out_importRaw fromRaw);
  sb ← must (sub fromRaw prevOutLength 4);
  let currentPtr := prevOutLength + 4 in
  t ← get_state;
  let t := mkCoinbaseIn (cb_prevOut t) (le_decode sb) (cb_script t) (cb_sequence t) in
  rest ← must (sub fromRaw currentPtr (Z.of_nat (length fromRaw) - currentPtr));
  r ← must (Script_importRaw rest (cb_scriptBytes t) (cb_script t));
  let currentPtr := currentPtr + r.2 in
  sq ← must (sub fromRaw currentPtr 4);
  _ ← set_state (mkCoinbaseIn (cb_prevOut t) (cb_script_bytes t) r.1 (le_decode sq));
  mret (currentPtr + 4).

Record coinbase : Type := mkCoinbase {
  cb_version : Z;
  cb_tx_in : coinbase_tx_in;
  cb_tx_out : TxOut;
  _pubkeyHash : buffer;
}.

(** [_version] is not initialised; 0 here. *)
Definition coinbase_new : coinbase := mkCoinbase 0 coinbase_tx_in_new TxOut_new None.
Definition coinbase_make (height : Z) (text : buffer) (textLength : Z) (pubkeyHash : buffer) : coinbase :=
  mkCoinbase 0 (coinbase_tx_in_make height text textLength) TxOut_new pubkeyHash.

Definition coinbase_add (target : TxOut) (c : coinbase) : coinbase :=
  mkCoinbase (cb_version c) (cb_tx_in c) target (_pubkeyHash c).
Definition coinbase_height (c : coinbase) : option Z := coinbase_tx_in_height (cb_tx_in c).

Definition on_tx_in {A} : prog coinbase_tx_in A -> prog coinbase A :=
  zoom cb_tx_in (fun t c => mkCoinbase (cb_version c) t (cb_tx_out c) (_pubkeyHash c)).
Definition on_tx_out {A} : prog TxOut A -> prog coinbase A :=
  zoom cb_tx_out (fun t c => mkCoinbase (cb_version c) (cb_tx_in c) t (_pubkeyHash c)).

Definition coinbase_exportRaw : prog coinbase (list byte) :=
  rawTxIn ← on_tx_in coinbase_tx_in_exportRaw;
  c ← get_state;
  match _pubkeyHash c with
  | None => throw AssertionFailure
  | Some _ =>
      _ ← on_tx_out (modify (fun t => mkTxOut (_value t) (_pkScriptBytes t) (_pkScript t) (_pubkeyHash c)));
      rawTxOut ← on_tx_out TxOut_exportRaw;
      mret (le_encode 4 (cb_version c) ++ le_encode 4 (bswap32 1) ++ rawTxIn ++
            le_encode 4 (bswap32 1) ++ rawTxOut)
  end.

(** The counts are skipped; exactly one input and one output are read. *)
Definition coinbase_importRawSequentially (from : list byte) : prog coinbase Z :=
  v ← must (sub from 0 4);
  _ ← modify (fun c => mkCoinbase (le_decode v) (cb_tx_in c) (cb_tx_out c) (_pubkeyHash c));
  tx_in_count ← must (sub from 4 4);
  r ← must (sub from 8 (Z.of_nat (length from) - 8));
  n ← on_tx_in (coinbase_tx_in_importRaw r);
  let currentPtr := 8 + n in
  tx_out_count ← must (sub from currentPtr 4);
  let currentPtr := currentPtr + 4 in
  r ← must (sub from currentPtr (Z.of_nat (length from) - currentPtr));
  m ← on_tx_out (TxOut_importRaw r);
  mret (currentPtr + m).

Definition coinbase_calcTxID : prog coinbase (list byte) :=
  raw ← coinbase_exportRaw; must (SHAHash (Some raw) (Z.of_nat (length raw)) sha256).
End Coinbase_code.

(** ** Written and read back *)

Section coinbase_codec.
Context {ssl : OpenSSL}.

(** Texts shorter than the height field or longer than 104 bytes are dropped. *)
Definition text_kept (n : Z) : bool := (4 <=? n) && (n <=? 104).

Definition coinbase_script (height : Z) (t : list byte) : script :=
  (OP_DATA x04, Some (be_encode 4 height)) ::
  if text_kept (Z.of_nat (length t)) then [(OP_DATA (b8 (Z.of_nat (length t))), Some t)] else [].

Definition script_raw (height : Z) (t : list byte) : list byte :=
  x04 :: be_encode 4 height ++
  if text_kept (Z.of_nat (length t)) then b8 (Z.of_nat (length t)) :: t else [].

Lemma coinbase_tx_in_make_script height t :
  Z.of_nat (length t) < 2 ^ 32 ->
  coinbase_tx_in_make height (Some t) (Z.of_nat (length t)) =
  mkCoinbaseIn (mkPrevOut (replicate 32 x00) (2 ^ 32 - 1)) 0 (coinbase_script height t) 0.
Proof.
  intros Hl. unfold coinbase_tx_in_make, coinbase_script, text_kept.
  unfold bswap32. rewrite le_encode_bswap.
  assert (E : ((Z.of_nat (length t) - 4) mod 2 ^ 64 <=? 100) = (4 <=? Z.of_nat (length t)) && (Z.of_nat (length t) <=? 104)).
  { destruct (Z.leb_spec 4 (Z.of_nat (length t))).
    - rewrite Z.mod_small by lia. destruct (Z.leb_spec (Z.of_nat (length t) - 4) 100), (Z.leb_spec (Z.of_nat (length t)) 104); lia || reflexivity.
    - replace (Z.of_nat (length t) - 4) with (Z.of_nat (length t) - 4 + 2 ^ 64 + (-1) * 2 ^ 64) by lia.
      rewrite Z_mod_plus_full, Z.mod_small by lia. apply Z.leb_gt. lia. }
  rewrite E. f_equal. now destruct (_ && _).
Qed.

Lemma text_kept_range n : text_kept n = true -> 4 <= n <= 104.
Proof. unfold text_kept. intros H. apply andb_prop in H as [H1%Z.leb_le H2%Z.leb_le]. lia. Qed.

Lemma data_opcode_small b : u8 b <= 104 -> parseRawOPCode b = OP_DATA b.
Proof. destruct b; try reflexivity; vm_compute; intros []; reflexivity. Qed.

Lemma height_item_ok height : item_ok (OP_DATA x04, Some (be_encode 4 height)).
Proof. split; [reflexivity|]. cbn [snd]. rewrite be_encode_length. split; [discriminate|reflexivity]. Qed.

Lemma coinbase_script_ok height t : script_ok (coinbase_script height t).
Proof.
  unfold coinbase_script. constructor; [apply height_item_ok|].
  destruct (text_kept _) eqn:E; repeat constructor. apply text_kept_range in E.
  - apply data_opcode_small. rewrite u8_b8_small; lia.
  - apply text_kept_range in E. cbn [fst snd]. rewrite u8_b8_small; lia.
  - apply text_kept_range in E. cbn [fst snd]. now rewrite u8_b8_small by lia.
Qed.

Lemma rd_be_encode n z : rd (Z.of_nat n) (Some (be_encode n z)) = Some (be_encode n z).
Proof. rewrite <- (be_encode_length n z) at 1. apply rd_all. Qed.

Lemma coinbase_script_export height t :
  Script_exportRaw (coinbase_script height t) = Some (script_raw height t).
Proof.
  unfold Script_exportRaw, coinbase_script, script_raw, export_items, export_item. cbn [fst snd OP_DATALength].
  change (u8 x04) with (Z.of_nat 4). rewrite rd_be_encode.
  destruct (text_kept _) eqn:E; [|reflexivity]. apply text_kept_range in E. cbn [mbind option_bind fst snd OP_DATALength].
  rewrite u8_b8_small, rd_all by lia. cbn [mbind option_bind]. now rewrite app_nil_r.
Qed.

Lemma script_raw_length height t : 5 <= Z.of_nat (length (script_raw height t)) <= 110.
Proof.
  unfold script_raw. cbn [length]. rewrite length_app, be_encode_length.
  destruct (text_kept _) eqn:E; [apply text_kept_range in E|]; cbn [length]; lia.
Qed.

Definition null_prev_out : prev_out := mkPrevOut (replicate 32 x00) (2 ^ 32 - 1).

Definition tx_in_bytes (raw : list byte) : list byte :=
  replicate 32 x00 ++ le_encode 4 (2 ^ 32 - 1) ++ be_encode 4 (Z.of_nat (length raw)) ++ raw ++ le_encode 4 0.

Lemma coinbase_tx_in_export_spec s raw sb :
  Script_exportRaw s = Some raw -> Z.of_nat (length raw) < 2 ^ 16 ->
  coinbase_tx_in_exportRaw (mkCoinbaseIn null_prev_out sb s 0) =
  Ok (tx_in_bytes raw) (mkCoinbaseIn null_prev_out (bswap32 (Z.of_nat (length raw))) s 0).
Proof.
  intros He Hl. unfold coinbase_tx_in_exportRaw, mbind, prog_bind, get_state. cbn [cb_prevOut cb_script].
  rewrite prev_out_export_spec by (cbn; lia). cbn [must]. rewrite He. unfold must, mret, prog_ret.
  unfold set_state, cb_scriptBytes. cbn [cb_script_bytes cb_sequence].
  rewrite bswap32_inv, Z.mod_small, Z.ltb_irrefl by lia. unfold mret, prog_ret. f_equal.
  unfold tx_in_bytes. rewrite <- !app_assoc. rewrite le_encode_bswap32. reflexivity.
Qed.

Lemma coinbase_tx_in_import_spec s raw rest :
  script_ok s -> Script_exportRaw s = Some raw -> Z.of_nat (length raw) < 2 ^ 16 ->
  coinbase_tx_in_importRaw (tx_in_bytes raw ++ rest) coinbase_tx_in_new =
  Ok (Z.of_nat (length (tx_in_bytes raw))) (mkCoinbaseIn null_prev_out (bswap32 (Z.of_nat (length raw))) s 0).
Proof.
  intros Hs He Hl. unfold tx_in_bytes. set (Z0 := replicate 32 x00).
  set (I := le_encode 4 (2 ^ 32 - 1)). set (L := be_encode 4 (Z.of_nat (length raw))). set (Q := le_encode 4 0).
  assert (Em : (Z0 ++ I ++ L ++ raw ++ Q) ++ rest = Z0 ++ I ++ L ++ raw ++ Q ++ rest) by now rewrite <- !app_assoc.
  assert (length Z0 = 32 /\ length I = 4 /\ length L = 4 /\ length Q = 4)%nat as (LZ & LI & LL & LQ).
  { unfold Z0, I, L, Q. now rewrite length_replicate, !le_encode_length, be_encode_length. }
  unfold coinbase_tx_in_importRaw, zoom, mbind, prog_bind. rewrite Em. cbn [cb_prevOut coinbase_tx_in_new].
  unfold I. rewrite prev_out_import_spec by (try apply length_replicate; lia). fold I.
  rewrite (sub_at _ (Z0 ++ I) L (raw ++ Q ++ rest)) by (rewrite <- ?app_assoc, ?length_app, ?LZ, ?LI, ?LL; reflexivity).
  cbn [must]. unfold mret, prog_ret, get_state. cbn [cb_prevOut cb_script cb_sequence].
  rewrite (sub_rest _ (Z0 ++ I ++ L) (raw ++ Q ++ rest)) by (rewrite <- ?app_assoc, ?length_app, ?LZ, ?LI, ?LL; reflexivity).
  cbn [must]. unfold mret, prog_ret. unfold cb_scriptBytes. cbn [cb_script_bytes].
  assert (EL : le_decode L = bswap32 (Z.of_nat (length raw))).
  { unfold L. rewrite <- le_encode_bswap32. apply le_decode_le, bswap_range. }
  rewrite EL, bswap32_inv, Z.mod_small by lia. unfold Script_importRaw. rewrite Nat2Z.id.
  pose proof (import_loop_ok s (length raw) [] (Q ++ rest) [] raw _ Hs He eq_refl (le_n _)) as Hi.
  cbn [app length] in Hi. change (Z.of_nat 0) with 0 in Hi.
  cbn [cb_script coinbase_tx_in_new]. rewrite Hi.
  cbn [must fst snd app]. unfold mret, prog_ret.
  rewrite (sub_at _ (Z0 ++ I ++ L ++ raw) Q rest);
    [|now rewrite <- !app_assoc|cbn [snd]; rewrite !length_app, LZ, LI, LL; lia|now rewrite LQ].
  unfold mret, prog_ret, set_state. cbn [cb_prevOut cb_script_bytes]. f_equal.
  cbn [snd]. rewrite !length_app, LZ, LI, LL, LQ. lia.
Qed.

Definition coinbase_bytes (version : Z) (raw : list byte) (v : Z) (h : list byte) : list byte :=
  le_encode 4 version ++ be_encode 4 1 ++ tx_in_bytes raw ++ be_encode 4 1 ++ txout_bytes v h.

(** A coinbase with a null reference, a script that can be written and a hash to pay to. *)
Record coinbase_ok (c : coinbase) (raw h : list byte) : Prop := {
  ok_prev_out : cb_prevOut (cb_tx_in c) = null_prev_out;
  ok_sequence : cb_sequence (cb_tx_in c) = 0;
  ok_script : Script_exportRaw (cb_script (cb_tx_in c)) = Some raw;
  ok_script_length : Z.of_nat (length raw) < 2 ^ 16;
  ok_pubkeyHash : _pubkeyHash c = Some h;
  ok_hash_length : length h = 20%nat;
}.

Definition coinbase_after (c : coinbase) (raw h : list byte) : coinbase :=
  mkCoinbase (cb_version c)
    (mkCoinbaseIn null_prev_out (bswap32 (Z.of_nat (length raw))) (cb_script (cb_tx_in c)) 0)
    (mkTxOut (_value (cb_tx_out c)) (bswap64 25) (p2pkh_script h) (Some h)) (Some h).

Lemma coinbase_export_spec c raw h :
  coinbase_ok c raw h ->
  coinbase_exportRaw c = Ok (coinbase_bytes (cb_version c) raw (_value (cb_tx_out c)) h) (coinbase_after c raw h).
Proof.
  intros [Hp Hq Hs Hl Hh Hn]. destruct c as [v [p sb s q] o pk]. cbn in Hp, Hq, Hs, Hh. subst p q pk.
  unfold coinbase_exportRaw, on_tx_in, on_tx_out, zoom, mbind, prog_bind. cbn [cb_tx_in].
  rewrite (coinbase_tx_in_export_spec s raw sb Hs Hl). unfold get_state. cbn [_pubkeyHash cb_version cb_tx_out].
  unfold modify. cbn [cb_tx_out cb_version _pubkeyHash]. rewrite (TxOut_export_spec _ h) by (try reflexivity; exact Hn).
  unfold mret, prog_ret. cbn [cb_version _value cb_tx_in cb_tx_out]. reflexivity.
Qed.

(** Writing a coinbase does not change what is written next. *)
Lemma coinbase_after_ok c raw h : coinbase_ok c raw h -> coinbase_ok (coinbase_after c raw h) raw h.
Proof. intros []. split; try assumption; reflexivity. Qed.

Lemma coinbase_after_after c raw h : coinbase_after (coinbase_after c raw h) raw h = coinbase_after c raw h.
Proof. reflexivity. Qed.

Lemma coinbase_import_spec version s raw v h rest :
  script_ok s -> Script_exportRaw s = Some raw -> Z.of_nat (length raw) < 2 ^ 16 ->
  0 <= version < 2 ^ 32 -> 0 <= v < 2 ^ 64 -> length h = 20%nat ->
  coinbase_importRawSequentially (coinbase_bytes version raw v h ++ rest) coinbase_new =
  Ok (Z.of_nat (length (coinbase_bytes version raw v h)))
     (mkCoinbase version (mkCoinbaseIn null_prev_out (bswap32 (Z.of_nat (length raw))) s 0)
        (mkTxOut v (bswap64 25) (p2pkh_script h) (Some h)) None).
Proof.
  intros Hs He Hl Hver Hv Hh. unfold coinbase_bytes. set (V := le_encode 4 version). set (N := be_encode 4 1).
  set (I := tx_in_bytes raw). set (O := txout_bytes v h).
  assert (Em : (V ++ N ++ I ++ N ++ O) ++ rest = V ++ N ++ I ++ N ++ O ++ rest) by now rewrite <- !app_assoc.
  assert (length V = 4 /\ length N = 4 /\ length O = 41)%nat as (LV & LN & LO).
  { unfold V, N, O. now rewrite le_encode_length, be_encode_length, txout_bytes_length. }
  unfold coinbase_importRawSequentially, on_tx_in, on_tx_out, zoom, mbind, prog_bind. rewrite Em.
  rewrite (sub_at _ [] V (N ++ I ++ N ++ O ++ rest)) by (rewrite ?LV; reflexivity).
  cbn [must]. unfold mret at 1, prog_ret at 1. unfold modify. cbn [cb_tx_in cb_tx_out _pubkeyHash coinbase_new].
  rewrite (sub_at _ V N (I ++ N ++ O ++ rest)) by (rewrite ?LV, ?LN; reflexivity).
  cbn [must]. unfold mret at 1, prog_ret at 1.
  rewrite (sub_rest _ (V ++ N) (I ++ N ++ O ++ rest)) by (rewrite <- ?app_assoc, ?length_app, ?LV, ?LN; reflexivity).
  cbn [must]. unfold mret at 1, prog_ret at 1. unfold I at 1. rewrite (coinbase_tx_in_import_spec s raw) by assumption. fold I.
  rewrite (sub_at _ (V ++ N ++ I) N (O ++ rest));
    [|now rewrite <- !app_assoc|rewrite !length_app, LV, LN; lia|now rewrite LN].
  cbn [must]. unfold mret at 1, prog_ret at 1.
  rewrite (sub_rest _ (V ++ N ++ I ++ N) (O ++ rest));
    [|now rewrite <- !app_assoc|rewrite !length_app, LV, LN; lia].
  cbn [must cb_version cb_tx_in cb_tx_out _pubkeyHash]. unfold mret at 1, prog_ret at 1. unfold O at 1.
  rewrite TxOut_import_spec by assumption. unfold mret, prog_ret. unfold V. rewrite le_decode_le by assumption. f_equal.
  rewrite !length_app, LN, LO, le_encode_length. lia.
Qed.

Lemma coinbase_make_ok height t h :
  Z.of_nat (length t) < 2 ^ 32 -> length h = 20%nat ->
  coinbase_ok (coinbase_make height (Some t) (Z.of_nat (length t)) (Some h)) (script_raw height t) h.
Proof.
  intros Hl Hh. unfold coinbase_make. pose proof (script_raw_length height t).
  split; cbn [cb_tx_in _pubkeyHash]; rewrite ?coinbase_tx_in_make_script by assumption; try reflexivity.
  - apply coinbase_script_export.
  - lia.
  - assumption.
Qed.

Lemma coinbase_script_data height t :
  Script_data_at (coinbase_script height t) 0 = Some (be_encode 4 height) /\
  Script_data_at (coinbase_script height t) 1 = Some (if text_kept (Z.of_nat (length t)) then t else []).
Proof.
  unfold Script_data_at, coinbase_script. cbn [lookup list_lookup fst snd OP_DATALength]. split.
  - apply (rd_be_encode 4).
  - destruct (text_kept _) eqn:E; cbn [lookup list_lookup]; [|reflexivity]. apply text_kept_range in E.
    cbn [fst snd OP_DATALength]. rewrite u8_b8_small by lia. apply rd_all.
Qed.

(** a new coinbase transaction (any height below 2^31, any text below 4 GiB, any 20-byte
    hash) is written and read back completely; the reader finds the height, pays the
    same hash, and finds the text if it has 4 to 104 bytes: a shorter text is dropped,
    because its length minus 4 is compared as an unsigned number, and so is a longer one. *)
Theorem coinbase_round_trip height t h rest :
  0 <= height < 2 ^ 31 -> Z.of_nat (length t) < 2 ^ 32 -> length h = 20%nat ->
  exists raw c' r,
    coinbase_exportRaw (coinbase_make height (Some t) (Z.of_nat (length t)) (Some h)) = Ok raw c' /\
    coinbase_importRawSequentially (raw ++ rest) coinbase_new = Ok (Z.of_nat (length raw)) r /\
    coinbase_height r = Some height /\
    _pubKeyHash (cb_tx_out r) = Some h /\
    Script_data_at (cb_script (cb_tx_in r)) 1 = Some (if text_kept (Z.of_nat (length t)) then t else []).
Proof.
  intros Hh Hl Hn. pose proof (coinbase_make_ok height t h Hl Hn) as Hok.
  pose proof (script_raw_length height t) as Hr. destruct (coinbase_script_data height t) as [D0 D1].
  exists (coinbase_bytes 0 (script_raw height t) 0 h). do 2 eexists.
  split; [now rewrite (coinbase_export_spec _ _ _ Hok)|].
  split; [apply (coinbase_import_spec 0 (coinbase_script height t)); try apply coinbase_script_ok; try apply coinbase_script_export; lia|].
  split; [|split; [reflexivity|exact D1]].
  unfold coinbase_height, coinbase_tx_in_height. cbn [cb_tx_in cb_script]. rewrite D0. cbn [mbind option_bind].
  rewrite be_encode_length. change (Z.of_nat 4 <=? 0) with false. cbv iota.
  rewrite (rd_be_encode 4). cbn [mbind option_bind].
  rewrite <- (le_encode_bswap32 height), le_decode_le by apply bswap_range. rewrite bswap32_inv by lia.
  f_equal. rewrite Z.mod_small by lia. lia.
Qed.
End coinbase_codec.

(** ** A coinbase without a hash to pay to *)

Section received_coinbase.
Context {ssl : OpenSSL}.

Lemma Script_at_post_any {S} s i (x : S) (P : S -> Prop) : P x -> post (Script_at s i) x P.
Proof. unfold Script_at. destruct (s !! i); auto. Qed.

(** Reading never sets the hash to pay to. *)
Lemma coinbase_import_hash raw c :
  post (coinbase_importRawSequentially raw) c (fun c' => _pubkeyHash c' = _pubkeyHash c).
Proof.
  unfold coinbase_importRawSequentially.
  apply post_bind; [now apply post_must|]. intros v c0 E0.
  apply post_bind; [exact E0|]. intros [] c1 E1.
  apply post_bind; [now apply post_must|]. intros n c2 E2.
  apply post_bind; [now apply post_must|]. intros r c3 E3.
  apply post_bind.
  { eapply post_zoom with (Q := fun _ => True); [apply post_true|]. intros t _. exact E3. }
  intros k c4 E4. apply post_bind; [now apply post_must|]. intros m c5 E5.
  apply post_bind; [now apply post_must|]. intros r' c6 E6. apply post_bind.
  { eapply post_zoom with (Q := fun _ => True); [apply post_true|]. intros t _. exact E6. }
  intros k' c7 E7. exact E7.
Qed.

Lemma coinbase_calcTxID_no_hash c :
  _pubkeyHash c = None -> forall id c', coinbase_calcTxID c <> Ok id c'.
Proof.
  intros Hn id c'. unfold coinbase_calcTxID, coinbase_exportRaw, on_tx_in, zoom, mbind, prog_bind.
  destruct (coinbase_tx_in_exportRaw (cb_tx_in c)); try discriminate.
  unfold get_state. cbn [_pubkeyHash]. now rewrite Hn.
Qed.
End received_coinbase.

Lemma coinbase_round_trip_witness :
  exists raw c' r,
    coinbase_exportRaw (coinbase_make 5 (Some [x61; x62; x63; x64]) 4 (Some (replicate 20 x01))) = Ok raw c' /\
    coinbase_importRawSequentially (raw ++ [xff]) coinbase_new = Ok (Z.of_nat (length raw)) r /\
    coinbase_height r = Some 5 /\
    _pubKeyHash (cb_tx_out r) = Some (replicate 20 x01) /\
    Script_data_at (cb_script (cb_tx_in r)) 1 = Some [x61; x62; x63; x64].
Proof. apply (coinbase_round_trip 5 [x61; x62; x63; x64]); [lia|simpl; lia|reflexivity]. Defined.
