(* ===== verification/Block.v ===== *)
(** Blocks ([chain/block/block.cpp]): a header, a coinbase and the other transactions, the
    Merkle root over them, and the validation of a block. *)
From S2P Require Import Prelude Crypto Script TxFormat P2PKH BlockHeader Coinbase.
From Stdlib Require Import Lia.

Section Block_code.
Context {ssl : OpenSSL}.

(** The shared pointers to transactions are taken to be distinct objects. *)
Record Block : Type := mkBlock {
  _header : BlockHeader;
  _coinbase : option coinbase;
  _txVector : list P2PKH;
}.

Definition Block_new (now : Z) : Block := mkBlock (BlockHeader_new now) None [].
Definition Block_set_header (target : BlockHeader) (b : Block) : Block :=
  mkBlock target (_coinbase b) (_txVector b).
Definition Block_set_coinbase (c : option coinbase) (b : Block) : Block :=
  mkBlock (_header b) c (_txVector b).
Definition Block_add (p : P2PKH) (b : Block) : Block :=
  mkBlock (_header b) (_coinbase b) (_txVector b ++ [p]).

(** One level of the tree: every second id is joined with itself. *)
Fixpoint join_level (v : list (list byte)) : option (list (list byte)) :=
  match v with
  | [] => Some []
  | x :: v' =>
      a ← rd 32 (Some x);
      h ← SHAHash (Some (a ++ a)) 64 sha256;
      rest ← match v' with [] => Some [] | _ :: v'' => join_level v'' end;
      Some (h :: rest)
  end.

(** The recursion of [calcRoot]; a level has at most half as many ids, rounded up. *)
Fixpoint calcRoot (fuel : nat) (v : list (list byte)) : option (list (list byte)) :=
  match fuel with
  | O => None
  | S fuel' =>
      if Z.of_nat (length v) <=? 1 then Some v
      else altTxVector ← join_level v; calcRoot fuel' altTxVector
  end.

Definition on_coinbase {A} : prog coinbase A -> prog Block A :=
  zoom (fun b => default coinbase_new (_coinbase b)) (fun c => Block_set_coinbase (Some c)).
Definition on_txVector {A} : prog (list P2PKH) A -> prog Block A :=
  zoom _txVector (fun l b => mkBlock (_header b) (_coinbase b) l).

(** [None]: 0 is returned and the result pointer is left alone. *)
Definition Block_calcMerkleRoot : prog Block buffer :=
  b ← get_state;
  match _coinbase b with
  | None => mret None
  | Some _ =>
      txID ← on_coinbase coinbase_calcTxID;
      txIDs ← on_txVector (each (fun _ => calcTxID));
      let txIDVector := txID :: txIDs in
      let txIDVector :=
        if Z.of_nat (length txIDVector) mod 2 =? 0 then txIDVector
        else txIDVector ++ [List.last txIDVector []] in
      retVector ← must (calcRoot (length txIDVector) txIDVector);
      mret (match retVector with [r] => Some r | _ => None end)
  end.

Definition Block_merkleRoot (target : buffer) : prog Block unit :=
  b ← get_state; h ← must (set_merkleRoot target (_header b)); modify (Block_set_header h).

Definition Block_exportHeader (b : Block) : list byte := BlockHeader_exportRaw (_header b).
Definition Block_blockHash (b : Block) : option (list byte) := headerHash (_header b).
Definition Block_time (b : Block) : Z := _time (_header b).

Definition Block_compare (targetBlockHash : buffer) (b : Block) : option bool :=
  h ← Block_blockHash b; a ← rd 32 (Some h); t ← rd 32 targetBlockHash;
  Some (match memcmp a t with Eq => true | _ => false end).

(** The loop over the transactions; it stops at the first that is rejected. *)
Fixpoint verify_txs (utxoSet : list byte -> Z -> option script) (l : list P2PKH)
  : result (list P2PKH) bool :=
  match l with
  | [] => Ok true []
  | itr :: l' =>
      match P2PKH_verify utxoSet itr with
      | Ok flag itr' =>
          if flag : bool then
            match verify_txs utxoSet l' with
            | Ok r l'' => Ok r (itr' :: l'')
            | Throw e l'' => Throw e (itr' :: l'')
            | Undef => Undef
            end
          else Ok false (itr' :: l')
      | Throw e itr' => Throw e (itr' :: l')
      | Undef => Undef
      end
  end.

Definition Block_verify (utxoSet : list byte -> Z -> option script) : prog Block bool :=
  b ← get_state;
  flag ← must (BlockHeader_verify (_header b));
  if negb flag then mret false
  else
    merkle ← Block_calcMerkleRoot;
    flag ← must (cmpMerkleRoot merkle (_header b));
    if negb flag then mret false
    else on_txVector (verify_txs utxoSet).

Definition on_header {A} : prog BlockHeader A -> prog Block A := zoom _header Block_set_header.

(** How the test programs build a block once its transactions are in it. *)
Definition assemble_block (fuel : nat) (nBits : Z) (prevBlockHash : buffer) : prog Block unit :=
  merkleRoot ← Block_calcMerkleRoot;
  _ ← Block_merkleRoot merkleRoot;
  _ ← on_header (modify (set_nBits nBits));
  b ← get_state;
  h ← must (set_prevBlockHash prevBlockHash (_header b));
  _ ← on_header (set_state h);
  nonce ← on_header (simpleMining fuel nBits);
  on_header (modify (set_nonce nonce)).
End Block_code.

(** ** The Merkle root *)

Section merkle.
Context {ssl : OpenSSL} {laws : OpenSSL_laws}.

(** An id joined with itself and hashed, [k] times. *)
Definition self_join (id : list byte) : list byte := EVP_SHA256 (id ++ id).

Definition ids_ok (v : list (list byte)) : Prop := Forall (fun x => length x = 32%nat) v.

Lemma join_step x :
  length x = 32%nat ->
  (a ← rd 32 (Some x); SHAHash (Some (a ++ a)) 64 sha256) = Some (self_join x).
Proof.
  intros Hx. change 32 with (Z.of_nat 32). rewrite <- Hx at 1. rewrite rd_all. cbn [mbind option_bind].
  replace 64 with (Z.of_nat (length (x ++ x))) by (rewrite length_app, Hx; reflexivity). apply SHAHash_all.
Qed.

Lemma join_level_spec n v :
  (length v <= n)%nat -> ids_ok v ->
  exists w, join_level v = Some w /\ ids_ok w /\ length w = Nat.div2 (S (length v)) /\
    forall x v', v = x :: v' -> exists w', w = self_join x :: w'.
Proof.
  revert v; induction n as [|n IH]; intros [|x v] Hl Hv; try (simpl in Hl; lia);
    [now exists []|now exists []|].
  apply Forall_cons in Hv as [Hx Hv]. pose proof (join_step x Hx) as Hj. unfold mbind, option_bind in Hj.
  cbn [join_level]. unfold mbind, option_bind.
  destruct (rd 32 (Some x)) as [a|]; [|discriminate]. rewrite Hj.
  assert (Hs : length (self_join x) = 32%nat) by apply SHA256_length.
  destruct v as [|y v].
  - exists [self_join x]. repeat split; [now repeat constructor|]. intros ? ? [= <- <-]. now exists [].
  - apply Forall_cons in Hv as [_ Hv]. destruct (IH v) as (w & Hw & Ho & Hlen & _); [simpl in Hl; lia|exact Hv|].
    rewrite Hw. exists (self_join x :: w). repeat split.
    + now constructor.
    + cbn [length]. rewrite Hlen. reflexivity.
    + intros ? ? [= <- <-]. now exists w.
Qed.

Lemma div2_succ_le n : (Nat.div2 (S n) <= n)%nat.
Proof.
  destruct n as [|n]; [reflexivity|]. rewrite Nat.div2_div. apply Nat.Div0.div_le_upper_bound. lia.
Qed.

Lemma log2_up_half m : (2 <= m)%nat -> Nat.log2_up m = S (Nat.log2_up (Nat.div2 (S m))).
Proof.
  destruct m as [|p]; [lia|]. intros Hp. rewrite Nat.log2_up_eqn by lia. f_equal. simpl pred.
  change (Nat.div2 (S (S p))) with (S (Nat.div2 p)).
  pose proof (Nat.div2_odd p) as Hd. destruct (Nat.div2 p) as [|q] eqn:Eq.
  - destruct (Nat.odd p); simpl in Hd; subst p; [reflexivity|lia].
  - rewrite Nat.log2_up_eqn by lia. simpl pred. rewrite Hd. destruct (Nat.odd p); cbn [Nat.b2n].
    + now rewrite Nat.log2_succ_double by lia.
    + now rewrite Nat.add_0_r, Nat.log2_double by lia.
Qed.

Lemma calcRoot_spec fuel : forall id v,
  (length (id :: v) <= fuel)%nat -> ids_ok (id :: v) ->
  calcRoot fuel (id :: v) = Some [Nat.iter (Nat.log2_up (length (id :: v))) self_join id].
Proof.
  induction fuel as [|fuel IH]; intros id v Hl Hv; [simpl in Hl; lia|]. cbn [calcRoot].
  destruct v as [|y v]; [reflexivity|]. rewrite (proj2 (Z.leb_gt _ _)) by (simpl; lia).
  destruct (join_level_spec (length (id :: y :: v)) (id :: y :: v)) as (w & Hw & Ho & Hlen & Hh); [lia|exact Hv|].
  destruct (Hh _ _ eq_refl) as (w' & ->). rewrite Hw. cbn [mbind option_bind].
  assert (Hd : Nat.div2 (S (length (id :: y :: v))) = S (Nat.div2 (S (length v)))) by reflexivity.
  rewrite IH; [|rewrite Hlen, Hd; pose proof (div2_succ_le (length v)); simpl in *; lia|exact Ho].
  rewrite Hlen, <- Nat.iter_succ_r, <- log2_up_half by (simpl; lia). reflexivity.
Qed.

Lemma calcTxID_length p id p' : calcTxID p = Ok id p' -> length id = 32%nat.
Proof.
  unfold calcTxID, mbind, prog_bind. destruct (P2PKH_exportRaw p) as [raw q| |]; try discriminate.
  rewrite SHAHash_all. intros [= <- _]. apply SHA256_length.
Qed.

Lemma coinbase_calcTxID_length c id c' : coinbase_calcTxID c = Ok id c' -> length id = 32%nat.
Proof.
  unfold coinbase_calcTxID, mbind, prog_bind. destruct (coinbase_exportRaw c) as [raw q| |]; try discriminate.
  rewrite SHAHash_all. intros [= <- _]. apply SHA256_length.
Qed.

Lemma txIDs_ok l i ids l' : each_from (fun _ => calcTxID) i l = Ok ids l' -> ids_ok ids /\ length ids = length l.
Proof.
  revert i ids l'; induction l as [|p l IH]; intros i ids l'; cbn [each_from]; [intros [= <- <-]; split; [constructor|reflexivity]|].
  destruct (calcTxID p) as [id p'| |] eqn:E; try discriminate. apply calcTxID_length in E.
  destruct (each_from _ _ l) as [ids' l''| |] eqn:El; try discriminate. intros [= <- <-].
  apply IH in El as [Ho Hl]. split; [now constructor|]. cbn [length]. now rewrite Hl.
Qed.

(** How often the id of the coinbase is joined with itself in a block with [n] other
    transactions. *)
Definition merkle_height (n : nat) : nat := Nat.log2_up (n + 1 + (n + 1) mod 2).

Lemma calcMerkleRoot_run b c id c' ids txs' :
  _coinbase b = Some c -> coinbase_calcTxID c = Ok id c' ->
  each (fun _ => calcTxID) (_txVector b) = Ok ids txs' ->
  Block_calcMerkleRoot b =
  Ok (Some (Nat.iter (merkle_height (length (_txVector b))) self_join id)) (mkBlock (_header b) (Some c') txs').
Proof.
  intros Hc Hid Htx. destruct b as [h oc txs]. cbn in Hc. subst oc.
  unfold Block_calcMerkleRoot, mbind, prog_bind, get_state, on_coinbase, on_txVector, zoom.
  cbn [_coinbase]. change (default coinbase_new (Some c)) with c. rewrite Hid. cbn [_txVector Block_set_coinbase].
  cbn [_txVector] in Htx |- *. rewrite Htx. apply txIDs_ok in Htx as [Ho Hl]. apply coinbase_calcTxID_length in Hid.
  cbv zeta. set (v := if Z.of_nat (length (id :: ids)) mod 2 =? 0 then _ else _).
  assert (exists w, v = id :: w /\ ids_ok (id :: w) /\ length (id :: w) = length txs + 1 + (length txs + 1) mod 2)%nat
    as (w & Ev & Hw & Hlen).
  { unfold v. assert (Hids : ids_ok (id :: ids)) by now constructor.
    rewrite <- Hl. replace (Z.of_nat (length (id :: ids)) mod 2) with (Z.of_nat ((length ids + 1) mod 2)).
    2:{ rewrite Nat2Z.inj_mod. cbn [length]. do 2 f_equal. lia. }
    pose proof (Nat.mod_upper_bound (length ids + 1) 2 ltac:(lia)).
    destruct (Z.eqb_spec (Z.of_nat ((length ids + 1) mod 2)) 0) as [E|E].
    - exists ids. repeat split; [assumption|]. buffer_lia.
    - exists (ids ++ [List.last (id :: ids) []]). repeat split.
      + apply (Forall_app_2 _ (id :: ids)); [assumption|]. constructor; [|constructor].
        unfold ids_ok in Hids; rewrite Forall_forall in Hids. apply Hids, list_elem_of_In.
        destruct (exists_last (l := id :: ids) ltac:(discriminate)) as (l0 & x & ->).
        rewrite List.last_last. apply in_or_app. right. now left.
      + cbn [length]. buffer_lia. }
  rewrite Ev, calcRoot_spec by (try assumption; reflexivity). rewrite Hlen. reflexivity.
Qed.

(** the Merkle root of a block depends on the coinbase transaction and on the number of
    the others, not on what they are: the tree joins every second id with itself
    instead of its neighbour, so the root is the coinbase id joined with itself and hashed
    once per level of the tree. *)
Theorem merkle_root_ignores_transactions b c id c' ids txs' :
  _coinbase b = Some c -> coinbase_calcTxID c = Ok id c' ->
  each (fun _ => calcTxID) (_txVector b) = Ok ids txs' ->
  Block_calcMerkleRoot b =
  Ok (Some (Nat.iter (merkle_height (length (_txVector b))) self_join id)) (mkBlock (_header b) (Some c') txs').
Proof. apply calcMerkleRoot_run. Qed.

(** a block whose coinbase was read from its bytes is never accepted: reading leaves the
    hash to pay to unset, so that computing the coinbase id fails an assertion. When the
    header is accepted the validation does not even return. *)
Theorem received_block_never_valid utxoSet raw n c b :
  coinbase_importRawSequentially raw coinbase_new = Ok n c -> _coinbase b = Some c ->
  match Block_verify utxoSet b with
  | Ok r _ => r = false /\ BlockHeader_verify (_header b) = Some false
  | _ => BlockHeader_verify (_header b) <> Some false
  end.
Proof.
  intros Hi Hc. pose proof (coinbase_import_hash raw coinbase_new) as Hp. unfold post in Hp. rewrite Hi in Hp.
  pose proof (coinbase_calcTxID_no_hash c Hp) as Hno.
  unfold Block_verify, mbind, prog_bind, get_state, must. destruct (BlockHeader_verify (_header b)) as [[]|] eqn:Ev;
    unfold mret, prog_ret, undef; cbn [negb]; [|now split|discriminate].
  unfold Block_calcMerkleRoot, mbind, prog_bind, get_state, on_coinbase, zoom. rewrite Hc.
  cbv beta. rewrite Hc. change (default coinbase_new (Some c)) with c.
  destruct (coinbase_calcTxID c) as [id c'| |] eqn:E; [now destruct (Hno id c')|cbv iota; intros [=]..].
Qed.

(** ** A block that was assembled and mined *)

Lemma merkle_check r h : length r = 32%nat -> length (_merkleRoot h) = 32%nat ->
  cmpMerkleRoot (Some r) h = Some (if decide (_merkleRoot h = r) then true else false).
Proof.
  intros Hr Hm. unfold cmpMerkleRoot. change 32 with (Z.of_nat 32). rewrite <- Hr at 1. rewrite rd_all.
  cbn [mbind option_bind]. f_equal. pose proof (memcmp_eq (_merkleRoot h) r ltac:(lia)) as He.
  destruct (decide _) as [E|E].
  - now apply He in E as ->.
  - destruct (memcmp _ _); [now destruct E; apply He|reflexivity|reflexivity].
Qed.

Lemma self_join_length k id : length id = 32%nat -> length (Nat.iter k self_join id) = 32%nat.
Proof. intros H. destruct k; [exact H|]. apply SHA256_length. Qed.

Lemma calcTxID_coinbase_ok c raw h : coinbase_ok c raw h ->
  coinbase_calcTxID c = Ok (EVP_SHA256 (coinbase_bytes (cb_version c) raw (_value (cb_tx_out c)) h)) (coinbase_after c raw h).
Proof.
  intros Hc. unfold coinbase_calcTxID, mbind, prog_bind. rewrite (coinbase_export_spec _ _ _ Hc), SHAHash_all. reflexivity.
Qed.

(** The header that is mined. *)
Definition prepared (nBits : Z) (prev root : list byte) (h : BlockHeader) : BlockHeader :=
  mkHeader (h_version h) prev root (_time h) nBits (_nonce h).

Definition block_root (c : coinbase) (raw h : list byte) (n : nat) : list byte :=
  Nat.iter (merkle_height n) self_join (EVP_SHA256 (coinbase_bytes (cb_version c) raw (_value (cb_tx_out c)) h)).

Lemma block_root_length c raw h n : length (block_root c raw h n) = 32%nat.
Proof. apply self_join_length, SHA256_length. Qed.

Lemma assemble_run b c raw h ids txs' nBits prev n :
  _coinbase b = Some c -> coinbase_ok c raw h ->
  each (fun _ => calcTxID) (_txVector b) = Ok ids txs' ->
  length prev = 32%nat -> 0 <= nBits < 2 ^ 32 -> 3 <= exponent nBits <= 32 -> 0 <= n < 2 ^ 32 ->
  let hd := prepared nBits prev (block_root c raw h (length (_txVector b))) (_header b) in
  BlockHeader_verify (set_nonce n hd) = Some true ->
  exists fuel m,
    assemble_block fuel nBits (Some prev) b =
      Ok tt (mkBlock (set_nonce m hd) (Some (coinbase_after c raw h)) txs') /\
    BlockHeader_verify (set_nonce m hd) = Some true.
Proof.
  intros Hc Hok Htx Hp Hb He Hn hd Hv. destruct (generatenBitMask_some nBits Hb He) as (mask & Hm & _ & _).
  destruct (mining_loop_ends hd mask n Hm (proj2 Hn) Hv (Z.to_nat n) 0) as (fuel & m & Hl & Hvm); [lia..|].
  exists fuel, m. split; [|exact Hvm]. unfold assemble_block, mbind, prog_bind.
  rewrite (calcMerkleRoot_run _ _ _ _ _ _ Hc (calcTxID_coinbase_ok _ _ _ Hok) Htx).
  fold (block_root c raw h (length (_txVector b))).
  unfold Block_merkleRoot, mbind, prog_bind, get_state, modify, on_header, zoom, set_merkleRoot. cbn [_header].
  rewrite rd_32 by apply block_root_length. cbn [mbind option_bind must]. unfold mret, prog_ret.
  cbn [_header Block_set_header set_nBits h_version _previousBlockHeaderHash _merkleRoot _time _nBits _nonce].
  unfold set_prevBlockHash. rewrite rd_32 by exact Hp. cbn [mbind option_bind must]. unfold mret, prog_ret, set_state.
  cbn [_header Block_set_header h_version _previousBlockHeaderHash _merkleRoot _time _nBits _nonce].
  rewrite (simpleMining_run _ _ _ mask Hm). unfold set_nBits. cbn [h_version _previousBlockHeaderHash _merkleRoot _time _nBits _nonce].
  change (mkHeader _ prev _ _ nBits _) with hd. rewrite Hl. reflexivity.
Qed.

(** C29: a block assembled and mined the way the tests do it is accepted: with a coinbase that
    pays a 20-byte hash, transactions whose ids can be computed and that pass their
    own validation, and a difficulty some nonce satisfies, the search ends, and the
    header check, the Merkle root recomputed from the mutated transactions and the
    transactions all pass. *)
Theorem assembled_block_verifies utxoSet b c raw h ids txs' ids' txs'' txs3 nBits prev n :
  _coinbase b = Some c -> coinbase_ok c raw h ->
  each (fun _ => calcTxID) (_txVector b) = Ok ids txs' ->
  each (fun _ => calcTxID) txs' = Ok ids' txs'' ->
  verify_txs utxoSet txs'' = Ok true txs3 ->
  length prev = 32%nat -> 0 <= nBits < 2 ^ 32 -> 3 <= exponent nBits <= 32 -> 0 <= n < 2 ^ 32 ->
  BlockHeader_verify (set_nonce n (prepared nBits prev (block_root c raw h (length (_txVector b))) (_header b))) = Some true ->
  exists fuel b' b'',
    assemble_block fuel nBits (Some prev) b = Ok tt b' /\ Block_verify utxoSet b' = Ok true b''.
Proof.
  intros Hc Hok Htx Htx' Hvt Hp Hb He Hn Hv.
  destruct (assemble_run b c raw h ids txs' nBits prev n Hc Hok Htx Hp Hb He Hn Hv) as (fuel & m & Ha & Hvm).
  exists fuel. do 2 eexists. split; [exact Ha|].
  unfold Block_verify, mbind, prog_bind, get_state. cbn [_header]. rewrite Hvm.
  cbn [must]. unfold mret, prog_ret. cbn [negb].
  set (b' := mkBlock _ _ _).
  assert (Hl : length txs' = length (_txVector b)).
  { pose proof (proj2 (txIDs_ok _ _ _ _ Htx)) as H1. apply each_from_length in Htx. lia. }
  pose proof (calcMerkleRoot_run b' _ _ _ ids' txs'' eq_refl
    (calcTxID_coinbase_ok _ _ _ (coinbase_after_ok _ _ _ Hok)) Htx') as Hr.
  rewrite Hr. cbn [_txVector b']. unfold b' at 1. cbn [_txVector]. rewrite Hl.
  fold (block_root c raw h (length (_txVector b))).
  change (Nat.iter _ _ _) with (block_root c raw h (length (_txVector b))).
  rewrite merkle_check by (apply block_root_length). cbn [_merkleRoot set_nonce prepared].
  rewrite decide_True by reflexivity. cbn [must]. unfold mret, prog_ret. cbn [negb].
  unfold on_txVector, zoom. cbn [_txVector]. rewrite Hvt. reflexivity.
Qed.
End merkle.

(** ** A concrete block *)

Definition run_state {S A} (c : prog S A) (s : S) : S :=
  match c s with Ok _ s' => s' | Throw _ s' => s' | Undef => s end.
Definition run_value {S A} (c : prog S A) (s : S) (a : A) : A :=
  match c s with Ok a' _ => a' | _ => a end.

Definition sample_hash : list byte := replicate 20 x01.
Definition sample_coinbase : coinbase :=
  coinbase_make 5 (Some [x61; x62; x63; x64]) 4 (Some sample_hash).
Definition sample_signed : P2PKH := run_state P2PKH_sign sample_tx.
Definition sample_block : Block := mkBlock (BlockHeader_new 7) (Some sample_coinbase) [sample_signed].
Definition sample_utxo : list byte -> Z -> option script := fun _ _ => Some (p2pkh_script sample_hash).
Definition ids_of : prog (list P2PKH) (list (list byte)) := each (fun _ => calcTxID).

Lemma merkle_root_ignores_transactions_witness : exists id b',
  Block_calcMerkleRoot sample_block = Ok (Some (self_join id)) b' /\
  merkle_height (length (_txVector sample_block)) = 1%nat.
Proof.
  exists (run_value coinbase_calcTxID sample_coinbase []). eexists. split; [|reflexivity].
  etransitivity; [apply (merkle_root_ignores_transactions sample_block sample_coinbase
    (run_value coinbase_calcTxID sample_coinbase []) (run_state coinbase_calcTxID sample_coinbase)
    (run_value ids_of [sample_signed] []) (run_state ids_of [sample_signed]))|reflexivity];
    [reflexivity|vm_compute; reflexivity|vm_compute; reflexivity].
Defined.

(** The bytes of the coinbase above, as a peer receives them. *)
Definition sample_raw : list byte := run_value coinbase_exportRaw sample_coinbase [].
Definition received_block : Block :=
  mkBlock (set_nBits 0x20ffffff (BlockHeader_new 7))
    (Some (run_state (coinbase_importRawSequentially sample_raw) coinbase_new)) [].

Lemma received_block_never_valid_witness :
  match Block_verify sample_utxo received_block with
  | Ok r _ => r = false /\ BlockHeader_verify (_header received_block) = Some false
  | _ => BlockHeader_verify (_header received_block) <> Some false
  end /\ BlockHeader_verify (_header received_block) = Some true.
Proof.
  split; [|vm_compute; reflexivity].
  apply (received_block_never_valid sample_utxo sample_raw
    (run_value (coinbase_importRawSequentially sample_raw) coinbase_new 0)
    (run_state (coinbase_importRawSequentially sample_raw) coinbase_new));
    [vm_compute; reflexivity|reflexivity].
Defined.

Lemma assembled_block_verifies_witness :
  exists fuel b' b'',
    assemble_block fuel 0x20ffffff (Some (replicate 32 x00)) sample_block = Ok tt b' /\
    Block_verify sample_utxo b' = Ok true b''.
Proof.
  pose (txs1 := run_state ids_of [sample_signed]). pose (txs2 := run_state ids_of txs1).
  apply (assembled_block_verifies sample_utxo sample_block sample_coinbase
    (script_raw 5 [x61; x62; x63; x64]) sample_hash
    (run_value ids_of [sample_signed] []) txs1 (run_value ids_of txs1 []) txs2
    (run_state (verify_txs sample_utxo) txs2) 0x20ffffff (replicate 32 x00) 0).
  - reflexivity.
  - apply (coinbase_make_ok 5 [x61; x62; x63; x64] sample_hash); [simpl; lia|reflexivity].
  - vm_compute; reflexivity.
  - vm_compute; reflexivity.
  - vm_compute; reflexivity.
  - reflexivity.
  - lia.
  - vm_compute; split; discriminate.
  - lia.
  - vm_compute; reflexivity.
Defined.
