(* ===== verification/HeaderSync.v ===== *)
(** Header synchronisation ([chain/chain_sync_manager/]): the pool of received headers, the
    subchains grown from a start header through the pool, and the manager that adds
    headers to the pool, extends its subchains and waits for them to come to an end. *)
From S2P Require Import Prelude Crypto BlockHeader.
From Stdlib Require Import Lia.

(** The clock in seconds, at its successive readings, and the number [std::rand()]
    gives first after [std::srand( seed )]. *)
Class Host : Type := {
  clock : nat -> Z;
  rand_after : Z -> Z;
}.

(** [memcmp( a , b , n ) == 0]. *)
Definition memeq (n : Z) (a b : buffer) : option bool :=
  x ← rd n a; y ← rd n b; Some (match memcmp x y with Eq => true | _ => false end).

(** Conversion to [short]. *)
Definition s16 (z : Z) : Z := (z + 2 ^ 15) mod 2 ^ 16 - 2 ^ 15.

Section HeaderSync_code.
Context {ssl : OpenSSL} {host : Host}.

(** ** Keys *)

(** A key made of a null pointer is not initialised; using it is undefined. *)
Definition BlockHashAsKey (from : buffer) : option (list byte) := rd 32 from.
Definition BlockHashAsKey_header (fromHeader : BlockHeader) : option (list byte) :=
  h ← headerHash fromHeader; rd 32 (Some h).
Definition PrevBlockHashAsKey (fromHash : buffer) : option (list byte) := rd 32 fromHash.

Definition same_key (a b : list byte) : bool := match memcmp a b with Eq => true | _ => false end.

(** ** The pool of headers *)

(** The second table is a multimap; equal keys are kept in the order of insertion. *)
Record BlockHeaderPool : Type := mkPool {
  _pool_blockHsah : list (list byte * BlockHeader);
  _pool_prevBlockHash : list (list byte * BlockHeader);
}.

Definition BlockHeaderPool_new : BlockHeaderPool := mkPool [] [].

Definition equal_range {A} (key : list byte) (m : list (list byte * A)) : list A :=
  map snd (List.filter (fun e => same_key e.1 key) m).

Definition insert_unique {A} (key : list byte) (a : A) (m : list (list byte * A)) : list (list byte * A) :=
  match equal_range key m with [] => m ++ [(key, a)] | _ => m end.

(** A multimap takes every entry: what the code tests after the insertion is the header
    pointer, which is not null. *)
Definition BlockHeaderPool_push (target : BlockHeader) : prog BlockHeaderPool (bool * Z) :=
  match prevBlockHash target with
  | None => mret (false, 0)
  | Some prev =>
      pbKey ← must (PrevBlockHashAsKey (Some prev));
      p ← get_state;
      let duplicateCount := s16 (Z.of_nat (length (equal_range pbKey (_pool_prevBlockHash p)))) in
      _ ← set_state (mkPool (_pool_blockHsah p) (_pool_prevBlockHash p ++ [(pbKey, target)]));
      bKey ← must (BlockHashAsKey_header target);
      _ ← modify (fun p => mkPool (insert_unique bKey target (_pool_blockHsah p)) (_pool_prevBlockHash p));
      mret (true, s16 (duplicateCount + 1))
  end.

Definition findByBlockHash (p : BlockHeaderPool) (blockHash : buffer) : option (option BlockHeader) :=
  key ← BlockHashAsKey blockHash; Some (head (equal_range key (_pool_blockHsah p))).

Definition findByPrevBlockHash (p : BlockHeaderPool) (prevBlockHash : buffer) : option (list BlockHeader) :=
  key ← PrevBlockHashAsKey prevBlockHash; Some (equal_range key (_pool_prevBlockHash p)).

(** ** Subchains *)

Record VirtualHeaderSubChain : Type := mkSubChain {
  _startBlockHeader : option BlockHeader;
  _latestBlockHeader : option BlockHeader;
  _updatedAt : Z;
  _isStoped : bool;
  _stopHash : buffer;
}.

Definition SUBCHAIN_LIFETIME : Z := 7.

(** The state is the number of readings of the clock so far. *)
Definition current_time : prog nat Z := fun t => Ok (clock t mod 2 ^ 32) (S t).

Definition SubChain_new (startBlockHeader : option BlockHeader) (stopHash : buffer)
  : prog nat VirtualHeaderSubChain :=
  now ← current_time;
  mret (mkSubChain startBlockHeader startBlockHeader now false stopHash).

Definition latestBlockHash (c : VirtualHeaderSubChain) : option (list byte) :=
  h ← _latestBlockHeader c; headerHash h.

Definition chainDigest (c : VirtualHeaderSubChain) : option (list byte) :=
  s ← _startBlockHeader c;
  startBlockHash ← headerHash s;
  latest ← match _latestBlockHeader c with
           | None => Some (replicate 32 x00)
           | Some h => headerHash h
           end;
  a ← rd 32 (Some startBlockHash);
  b ← rd 32 (Some latest);
  SHAHash (Some (a ++ b)) 64 sha1.

Definition SubChain_eqb (a b : VirtualHeaderSubChain) : option bool :=
  d ← chainDigest b; e ← chainDigest a; memeq (Z.of_nat (length d)) (Some e) (Some d).

Definition isActive (c : VirtualHeaderSubChain) : prog nat bool :=
  currentTimestamp ← current_time;
  mret ((currentTimestamp - _updatedAt c) mod 2 ^ 32 <? SUBCHAIN_LIFETIME).

Definition set_stoped (c : VirtualHeaderSubChain) : VirtualHeaderSubChain :=
  mkSubChain (_startBlockHeader c) (_latestBlockHeader c) (_updatedAt c) true (_stopHash c).
Definition SubChain_build (latest : BlockHeader) (c : VirtualHeaderSubChain) : VirtualHeaderSubChain :=
  mkSubChain (_startBlockHeader c) (Some latest) (_updatedAt c) (_isStoped c) (_stopHash c).
Definition set_updatedAt (now : Z) (c : VirtualHeaderSubChain) : VirtualHeaderSubChain :=
  mkSubChain (_startBlockHeader c) (_latestBlockHeader c) now (_isStoped c) (_stopHash c).

Definition syncUpdatedAt (c : VirtualHeaderSubChain) : prog nat VirtualHeaderSubChain :=
  now ← current_time; mret (set_updatedAt now c).

(** Has the end of the subchain the stop hash? *)
Definition reached_stop (latest : list byte) (c : VirtualHeaderSubChain) : option bool :=
  match _stopHash c with
  | None => Some false
  | Some stop => memeq 32 (Some latest) (Some stop)
  end.

(** The recursion goes on as long as the pool has one more header. *)
Fixpoint SubChain_extend (fuel : nat) (pool : BlockHeaderPool) (collisionAction : Z)
    (c : VirtualHeaderSubChain) : prog nat (bool * VirtualHeaderSubChain) :=
  match fuel with
  | O => undef
  | S fuel' =>
      active ← isActive c;
      if negb active then mret (false, c)
      else
        latest ← must (latestBlockHash c);
        stop ← must (reached_stop latest c);
        if stop : bool then mret (true, set_stoped c)
        else
          popRet ← must (findByPrevBlockHash pool (Some latest));
          match popRet with
          | [] => mret (false, c)
          | [h] =>
              c ← syncUpdatedAt (SubChain_build h c);
              SubChain_extend fuel' pool collisionAction c
          | _ =>
              if collisionAction =? 0 then mret (false, c)
              else if collisionAction =? 1 then
                seed ← current_time;
                h ← must (popRet !! Z.to_nat (rand_after seed mod Z.of_nat (length popRet)));
                c ← syncUpdatedAt (SubChain_build h c);
                SubChain_extend fuel' pool collisionAction c
              else SubChain_extend fuel' pool collisionAction c
          end
  end.

(** Back from the end of the subchain as far as the pool has the headers. *)
Fixpoint export_from (fuel : nat) (pool : BlockHeaderPool) (blockHeader : option BlockHeader)
  : option (list BlockHeader) :=
  match fuel with
  | O => None
  | S fuel' =>
      match blockHeader with
      | None => Some []
      | Some h =>
          next ← findByBlockHash pool (prevBlockHash h);
          rest ← export_from fuel' pool next;
          Some (h :: rest)
      end
  end.

Definition exportChainVector (fuel : nat) (pool : BlockHeaderPool) (c : VirtualHeaderSubChain)
  : option (list BlockHeader) := export_from fuel pool (_latestBlockHeader c).

(** ** The manager *)

Inductive VirtualHeaderSyncManagerState : Type := H_WORKING | H_PENDING | H_FINISHED | H_TIMEOUT | H_ERROR.

(** The finders of every subchain are bound to the pool of the manager. The set is kept as
    the list of its elements in the order of insertion. *)
Record VirtualHeaderSyncManager : Type := mkManager {
  _headerSubchainSet : list VirtualHeaderSubChain;
  m_startBlockHeader : option BlockHeader;
  m_stopHash : buffer;
  _blockHeaderPool : BlockHeaderPool;
  _status : VirtualHeaderSyncManagerState;
}.

Definition set_subchains (l : list VirtualHeaderSubChain) (m : VirtualHeaderSyncManager) : VirtualHeaderSyncManager :=
  mkManager l (m_startBlockHeader m) (m_stopHash m) (_blockHeaderPool m) (_status m).
Definition set_pool (p : BlockHeaderPool) (m : VirtualHeaderSyncManager) : VirtualHeaderSyncManager :=
  mkManager (_headerSubchainSet m) (m_startBlockHeader m) (m_stopHash m) p (_status m).
Definition set_status (st : VirtualHeaderSyncManagerState) (m : VirtualHeaderSyncManager) : VirtualHeaderSyncManager :=
  mkManager (_headerSubchainSet m) (m_startBlockHeader m) (m_stopHash m) (_blockHeaderPool m) st.

(** Is an equal subchain in the set? *)
Fixpoint subchain_in (c : VirtualHeaderSubChain) (l : list VirtualHeaderSubChain) : option bool :=
  match l with
  | [] => Some false
  | x :: l' => b ← SubChain_eqb x c; if b : bool then Some true else subchain_in c l'
  end.

(** The digest is computed for the hash of the set even when the set is empty. *)
Definition subchain_insert (c : VirtualHeaderSubChain) (l : list VirtualHeaderSubChain)
  : option (list VirtualHeaderSubChain) :=
  _ ← chainDigest c;
  b ← subchain_in c l;
  Some (if b : bool then l else l ++ [c]).

(** Readings of the clock, and the manager. *)
Definition on_clock {A} : prog nat A -> prog (nat * VirtualHeaderSyncManager) A :=
  zoom fst (fun t s => (t, s.2)).
Definition on_manager {A} : prog VirtualHeaderSyncManager A -> prog (nat * VirtualHeaderSyncManager) A :=
  zoom snd (fun m s => (s.1, m)).
Definition on_pool {A} : prog BlockHeaderPool A -> prog (nat * VirtualHeaderSyncManager) A :=
  zoom (fun s => _blockHeaderPool s.2) (fun p s => (s.1, set_pool p s.2)).

Definition VirtualHeaderSyncManager_new (start : option BlockHeader) (stopHash : buffer)
  : prog nat VirtualHeaderSyncManager :=
  initialSubChain ← SubChain_new start stopHash;
  set ← must (subchain_insert initialSubChain []);
  mret (mkManager set start stopHash BlockHeaderPool_new H_PENDING).

Fixpoint count_active (l : list VirtualHeaderSubChain) : prog nat Z :=
  match l with
  | [] => mret 0
  | c :: l' => a ← isActive c; n ← count_active l'; mret ((if a : bool then 1 else 0) + n)
  end.

Definition activeSubchainCount : prog (nat * VirtualHeaderSyncManager) Z :=
  s ← get_state; on_clock (count_active (_headerSubchainSet s.2)).

Fixpoint extend_each (fuel : nat) (pool : BlockHeaderPool) (collisionAction : Z) (l : list VirtualHeaderSubChain)
  : prog nat (bool * list VirtualHeaderSubChain) :=
  match l with
  | [] => mret (false, [])
  | c :: l' =>
      r ← SubChain_extend fuel pool collisionAction c;
      rs ← extend_each fuel pool collisionAction l';
      mret (r.1 || rs.1, r.2 :: rs.2)
  end.

Fixpoint insert_each (l set : list VirtualHeaderSubChain) : option (list VirtualHeaderSubChain) :=
  match l with
  | [] => Some set
  | c :: l' => set ← subchain_insert c set; insert_each l' set
  end.

Definition Manager_extend (fuel : nat) (collisionAction : bool) : prog (nat * VirtualHeaderSyncManager) bool :=
  s ← get_state;
  r ← on_clock (extend_each fuel (_blockHeaderPool s.2) (if collisionAction then 1 else 0)
                  (_headerSubchainSet s.2));
  set ← must (insert_each r.2 []);
  _ ← on_manager (modify (set_subchains set));
  _ ← on_manager (modify (fun m => if r.1 : bool then set_status H_FINISHED m else m));
  mret r.1.

Definition Manager_build (fuel : nat) (stopHeader : BlockHeader) : prog (nat * VirtualHeaderSyncManager) unit :=
  stopHash ← must (headerHash stopHeader);
  s ← get_state;
  newSubchain ← on_clock (SubChain_new (m_startBlockHeader s.2) (Some stopHash));
  r ← on_clock (SubChain_extend fuel (_blockHeaderPool s.2) 0 (SubChain_build stopHeader newSubchain));
  set ← must (subchain_insert r.2 (_headerSubchainSet s.2));
  on_manager (modify (set_subchains set)).

(** The headers whose previous hash another one of the pool has too. *)
Fixpoint push_each (l : list BlockHeader) : prog (nat * VirtualHeaderSyncManager) (list BlockHeader) :=
  match l with
  | [] => mret []
  | itr :: l' =>
      poolCtx ← on_pool (BlockHeaderPool_push itr);
      dups ← push_each l';
      mret (if poolCtx.1 && (1 <? poolCtx.2) then itr :: dups else dups)
  end.

Fixpoint build_each (fuel : nat) (l : list BlockHeader) : prog (nat * VirtualHeaderSyncManager) unit :=
  match l with
  | [] => mret tt
  | itr :: l' => _ ← Manager_build fuel itr; build_each fuel l'
  end.

Definition Manager_add (fuel : nat) (targetVector : list BlockHeader) : prog (nat * VirtualHeaderSyncManager) unit :=
  duplicateHeaders ← push_each targetVector;
  _ ← build_each fuel duplicateHeaders;
  stop ← Manager_extend fuel false;
  if stop : bool then on_manager (modify (set_status H_FINISHED)) else mret tt.

Definition subchainVector (m : VirtualHeaderSyncManager) : list VirtualHeaderSubChain := _headerSubchainSet m.

Definition stopedHeaderSubchain (m : VirtualHeaderSyncManager) : option VirtualHeaderSubChain :=
  List.find _isStoped (_headerSubchainSet m).

(** Batches of headers that arrive one after the other. *)
Fixpoint add_all (fuel : nat) (batches : list (list BlockHeader)) : prog (nat * VirtualHeaderSyncManager) unit :=
  match batches with
  | [] => mret tt
  | b :: l => _ ← Manager_add fuel b; add_all fuel l
  end.

Definition is_finished (m : VirtualHeaderSyncManager) : bool :=
  match _status m with H_FINISHED => true | _ => false end.

(** The waiting loop. During each sleep other threads add what has [arrived]; the
    requests it means to send are commented out in the code. *)
Fixpoint Manager_start (rounds fuel : nat) (arrived : list (list (list BlockHeader)))
  : prog (nat * VirtualHeaderSyncManager) bool :=
  match rounds with
  | O => undef
  | S rounds' =>
      active ← activeSubchainCount;
      s ← get_state;
      if (0 <? active) || is_finished s.2 then
        _ ← add_all fuel (default [] (head arrived));
        Manager_start rounds' fuel (tail arrived)
      else mret (is_finished s.2)
  end.
End HeaderSync_code.

(** ** Hashes and keys *)

#[export] Instance BlockHeader_eq_dec : EqDecision BlockHeader.
Proof. solve_decision. Defined.

Section keys.
Context {ssl : OpenSSL} {laws : OpenSSL_laws}.

Definition hash_of (h : BlockHeader) : list byte := EVP_SHA256 (BlockHeader_exportRaw h).

Lemma hash_of_length h : length (hash_of h) = 32%nat.
Proof. apply SHA256_length. Qed.

Lemma headerHash_some h : headerHash h = Some (hash_of h).
Proof. unfold headerHash, SHAHash. now rewrite rd_all. Qed.

Lemma rd_hash h : rd 32 (Some (hash_of h)) = Some (hash_of h).
Proof. apply rd_32, hash_of_length. Qed.

Lemma same_key_spec a b : length a = length b -> same_key a b = true <-> a = b.
Proof.
  intros H. unfold same_key. rewrite <- (memcmp_eq a b H). now destruct (memcmp a b).
Qed.

Lemma same_key_refl a : same_key a a = true.
Proof. now apply same_key_spec. Qed.

Lemma BlockHashAsKey_header_some h : BlockHashAsKey_header h = Some (hash_of h).
Proof. unfold BlockHashAsKey_header. rewrite headerHash_some. apply rd_hash. Qed.

Lemma equal_range_filter {A} key (f : A -> list byte) (hs : list A) :
  equal_range key (map (fun h => (f h, h)) hs) = List.filter (fun h => same_key (f h) key) hs.
Proof.
  unfold equal_range. induction hs as [|h hs IH]; [reflexivity|]. cbn [map List.filter fst].
  destruct (same_key (f h) key); cbn [map snd]; [f_equal|]; exact IH.
Qed.

(** A filter that one element at most passes. *)
Lemma filter_unique {A} (p : A -> bool) x (l : list A) :
  NoDup l -> (forall y, y ∈ l -> p y = true -> y = x) -> x ∈ l -> p x = true -> List.filter p l = [x].
Proof.
  induction l as [|y l IH]; intros Hn Hp Hx Hpx; [now apply elem_of_nil in Hx|].
  apply NoDup_cons in Hn as [Hy Hn]. cbn [List.filter].
  assert (IHl : x ∈ l -> List.filter p l = [x]) by (intros; apply IH; auto; intros; apply Hp; auto; now right).
  destruct (p y) eqn:E.
  - assert (y = x) as -> by (apply Hp; [now left|assumption]). f_equal.
    destruct (List.filter p l) as [|z r] eqn:F; [reflexivity|]. exfalso.
    assert (Hz : List.In z (List.filter p l)) by (rewrite F; now left).
    apply List.filter_In in Hz as [Hz1 Hz2]. apply list_elem_of_In in Hz1. assert (z = x) as -> by (apply Hp; [now right|assumption]).
    contradiction.
  - apply IHl. apply elem_of_cons in Hx as [->|Hx]; [congruence|assumption].
Qed.

Lemma filter_none {A} (p : A -> bool) (l : list A) :
  (forall y, y ∈ l -> p y = false) -> List.filter p l = [].
Proof.
  induction l as [|y l IH]; intros Hp; [reflexivity|]. cbn [List.filter].
  rewrite (Hp y) by now left. apply IH. intros z Hz. apply Hp. now right.
Qed.

Lemma find_prev_range pool h :
  findByPrevBlockHash pool (Some (hash_of h)) = Some (equal_range (hash_of h) (_pool_prevBlockHash pool)).
Proof. unfold findByPrevBlockHash, PrevBlockHashAsKey. now rewrite rd_hash. Qed.

Lemma find_hash_range pool h :
  findByBlockHash pool (Some (hash_of h)) = Some (head (equal_range (hash_of h) (_pool_blockHsah pool))).
Proof. unfold findByBlockHash, BlockHashAsKey. now rewrite rd_hash. Qed.
End keys.

(** ** Chains of headers *)

Section chain.
Context {ssl : OpenSSL} {laws : OpenSSL_laws} {host : Host}.

(** [c] continues the header [p], each header naming the hash of the one before. *)
Fixpoint linked (p : BlockHeader) (c : list BlockHeader) : Prop :=
  match c with
  | [] => True
  | h :: c' => prevBlockHash h = Some (hash_of p) /\ linked h c'
  end.

Definition chain_ok (s : BlockHeader) (c : list BlockHeader) : Prop :=
  linked s c /\ NoDup (map hash_of (s :: c)).

Lemma linked_lookup s c i h p :
  linked s c -> (s :: c) !! i = Some p -> (s :: c) !! S i = Some h -> prevBlockHash h = Some (hash_of p).
Proof.
  revert s i; induction c as [|x c IH]; intros s i Hl Hp Hh; [now destruct i|].
  destruct Hl as [Hx Hl]. destruct i as [|i].
  - injection Hp as <-. cbn in Hh. now injection Hh as <-.
  - exact (IH x i Hl Hp Hh).
Qed.

Lemma hash_lookup_inj s c i j p q :
  chain_ok s c -> (s :: c) !! i = Some p -> (s :: c) !! j = Some q -> hash_of p = hash_of q -> i = j.
Proof.
  intros [_ Hn] Hp Hq E. eapply NoDup_lookup; [exact Hn| |].
  - rewrite list_lookup_fmap, Hp. reflexivity.
  - rewrite list_lookup_fmap, Hq, E. reflexivity.
Qed.

Lemma chain_NoDup s c : chain_ok s c -> NoDup c.
Proof. intros [_ H]. cbn in H. apply NoDup_cons in H as [_ H]. now apply NoDup_fmap_1 in H. Qed.

(** The pool that holds the headers [hs]. *)
Definition prev_key (h : BlockHeader) : list byte := default [] (prevBlockHash h).
Definition pool_of (hs : list BlockHeader) : BlockHeaderPool :=
  mkPool (map (fun h => (hash_of h, h)) hs) (map (fun h => (prev_key h, h)) hs).

Lemma linked_prev_key s c i p h :
  linked s c -> (s :: c) !! i = Some p -> (s :: c) !! S i = Some h -> prev_key h = hash_of p.
Proof. intros. unfold prev_key. now rewrite (linked_lookup s c i h p) by assumption. Qed.

Section in_chain.
Context (s : BlockHeader) (c : list BlockHeader) (Hc : chain_ok s c).

Definition at_ (i : nat) (h : BlockHeader) : Prop := (s :: c) !! i = Some h.

Lemma in_chain_at h : h ∈ c -> exists i p, at_ i p /\ at_ (S i) h.
Proof.
  intros H. apply list_elem_of_lookup in H as [i Hi]. exists i.
  destruct (lookup_lt_is_Some_2 (s :: c) i) as [p Hp]; [|now exists p].
  apply lookup_lt_Some in Hi. cbn. lia.
Qed.

Lemma find_next hs i p :
  NoDup hs -> hs ⊆ c -> at_ i p ->
  findByPrevBlockHash (pool_of hs) (Some (hash_of p)) =
    Some (match (s :: c) !! S i with
          | Some h => if bool_decide (h ∈ hs) then [h] else []
          | None => []
          end).
Proof.
  intros Hn Hs Hp. rewrite find_prev_range. f_equal. cbn [pool_of _pool_prevBlockHash].
  rewrite equal_range_filter.
  assert (Hkey : forall y, y ∈ hs -> same_key (prev_key y) (hash_of p) = true -> at_ (S i) y).
  { intros y Hy E. destruct (in_chain_at y (Hs _ Hy)) as (j & q & Hq & Hy').
    rewrite (linked_prev_key _ _ _ _ _ (proj1 Hc) Hq Hy') in E.
    apply same_key_spec in E; [|now rewrite !hash_of_length].
    now rewrite (hash_lookup_inj _ _ _ _ _ _ Hc Hp Hq) by (symmetry; exact E). }
  change (c !! i) with ((s :: c) !! S i). destruct ((s :: c) !! S i) as [h|] eqn:Hh.
  - case_bool_decide as Hin.
    + apply filter_unique; [assumption| |assumption|].
      * intros y Hy E. pose proof (Hkey y Hy E) as H. unfold at_ in H. congruence.
      * rewrite (linked_prev_key _ _ _ _ _ (proj1 Hc) Hp Hh). apply same_key_refl.
    + apply filter_none. intros y Hy. apply not_true_is_false. intros E.
      pose proof (Hkey y Hy E) as H. unfold at_ in H. congruence.
  - apply filter_none. intros y Hy. apply not_true_is_false. intros E.
    pose proof (Hkey y Hy E) as H. unfold at_ in H. congruence.
Qed.

Lemma equal_hash hs p :
  NoDup hs -> hs ⊆ c -> p ∈ s :: c ->
  equal_range (hash_of p) (_pool_blockHsah (pool_of hs)) = if bool_decide (p ∈ hs) then [p] else [].
Proof.
  intros Hn Hs Hp. cbn [pool_of _pool_blockHsah]. rewrite equal_range_filter.
  assert (Hkey : forall y, y ∈ hs -> same_key (hash_of y) (hash_of p) = true -> y = p).
  { intros y Hy E. apply same_key_spec in E; [|now rewrite !hash_of_length].
    apply list_elem_of_lookup in Hp as [i Hp].
    assert (Hy' : y ∈ s :: c) by (right; now apply Hs).
    apply list_elem_of_lookup in Hy' as [j Hy'].
    pose proof (hash_lookup_inj _ _ _ _ _ _ Hc Hy' Hp E) as ->. congruence. }
  case_bool_decide as Hin.
  - apply filter_unique; [assumption|exact Hkey|assumption|apply same_key_refl].
  - apply filter_none. intros y Hy. apply not_true_is_false. intros E. rewrite (Hkey y Hy E) in Hy. contradiction.
Qed.

Lemma find_hash hs p :
  NoDup hs -> hs ⊆ c -> p ∈ s :: c ->
  findByBlockHash (pool_of hs) (Some (hash_of p)) = Some (if bool_decide (p ∈ hs) then Some p else None).
Proof.
  intros Hn Hs Hp. rewrite find_hash_range, equal_hash by assumption.
  now case_bool_decide.
Qed.

(** Pushing one more header of the chain. *)
Lemma push_fresh hs h :
  NoDup (hs ++ [h]) -> hs ++ [h] ⊆ c ->
  BlockHeaderPool_push h (pool_of hs) = Ok (true, 1) (pool_of (hs ++ [h])).
Proof.
  intros Hn Hs. apply NoDup_app in Hn as (Hn & Hh & _).
  assert (Hhc : h ∈ c) by (apply Hs, elem_of_app; right; now left).
  assert (Hnot : h ∉ hs) by (intros H; apply (Hh h H); now left).
  assert (Hsub : hs ⊆ c) by (intros y Hy; apply Hs, elem_of_app; now left).
  destruct (in_chain_at h Hhc) as (i & p & Hp & Hi).
  pose proof (linked_lookup _ _ _ _ _ (proj1 Hc) Hp Hi) as Hprev.
  unfold BlockHeaderPool_push. rewrite Hprev. unfold PrevBlockHashAsKey. rewrite rd_hash.
  pose proof (find_next hs i p Hn Hsub Hp) as F. rewrite find_prev_range in F. unfold at_ in Hi. rewrite Hi, bool_decide_eq_false_2 in F by assumption.
  injection F as F. unfold mbind, prog_bind, must, get_state, set_state, modify, mret, prog_ret.
  rewrite BlockHashAsKey_header_some. cbn beta iota. unfold insert_unique.
  pose proof (equal_hash hs h Hn Hsub ltac:(now right)) as G.
  rewrite bool_decide_eq_false_2 in G by assumption. cbn [pool_of _pool_blockHsah _pool_prevBlockHash] in *.
  rewrite G, F. cbn [length]. unfold pool_of. rewrite !map_app. cbn [map].
  assert (prev_key h = hash_of p) as -> by (unfold prev_key; now rewrite Hprev).
  reflexivity.
Qed.

(** ** Growing a subchain through the pool *)

(** All readings of the clock lie within the lifetime of a subchain. *)
Definition brisk : Prop := forall i j, (i <= j)%nat -> 0 <= clock j - clock i < SUBCHAIN_LIFETIME.

Context (tip : BlockHeader) (Htip : at_ (length c) tip) (stops : bool).

Definition stop_hash : buffer := if stops then Some (hash_of tip) else None.
Definition grown (p : BlockHeader) (i : nat) (stoped : bool) : VirtualHeaderSubChain :=
  mkSubChain (Some s) (Some p) (clock i mod 2 ^ 32) stoped stop_hash.

Lemma at_length k p : at_ k p -> (k <= length c)%nat.
Proof. intros H. apply lookup_lt_Some in H. cbn in H. lia. Qed.

Lemma grown_active p i t b : brisk -> (i <= t)%nat -> isActive (grown p i b) t = Ok true (S t).
Proof.
  intros Hb Hi. unfold isActive, current_time, mbind, prog_bind, mret, prog_ret, grown, SUBCHAIN_LIFETIME. cbn [_updatedAt].
  rewrite <- Zminus_mod. specialize (Hb i t Hi). unfold SUBCHAIN_LIFETIME in Hb.
  rewrite Z.mod_small by lia. rewrite (proj2 (Z.ltb_lt _ _)) by lia. reflexivity.
Qed.

Lemma latest_grown p i b : latestBlockHash (grown p i b) = Some (hash_of p).
Proof. unfold latestBlockHash, grown. cbn [_latestBlockHeader mbind option_bind]. apply headerHash_some. Qed.

Lemma grown_stop p k i b : at_ k p -> reached_stop (hash_of p) (grown p i b) = Some (stops && bool_decide (k = length c)).
Proof.
  intros Hp. unfold reached_stop, grown, stop_hash, memeq. cbn [_stopHash]. destruct stops; [|reflexivity].
  rewrite !rd_hash. cbn [mbind option_bind andb]. f_equal. fold (same_key (hash_of p) (hash_of tip)).
  case_bool_decide as E.
  - subst k. assert (p = tip) as -> by (unfold at_ in *; congruence). apply same_key_refl.
  - apply not_true_is_false. intros H. apply same_key_spec in H; [|now rewrite !hash_of_length].
    exact (E (hash_lookup_inj _ _ _ _ _ _ Hc Hp Htip H)).
Qed.

(** An extension stops at the tip, or where the pool lacks the next header. *)
Lemma extend_grown hs fuel k p i t b :
  brisk -> NoDup hs -> hs ⊆ c -> at_ k p -> (i <= t)%nat -> (length c - k < fuel)%nat ->
  exists k' p' i' t' b', SubChain_extend fuel (pool_of hs) 0 (grown p i b) t = Ok (b', grown p' i' (b || b')) t' /\
    at_ k' p' /\ (i' <= t')%nat /\ b' = stops && bool_decide (k' = length c) /\
    (forall h, (s :: c) !! S k' = Some h -> h ∉ hs).
Proof.
  intros Hb Hn Hs. revert k p i t; induction fuel as [|fuel IH]; intros k p i t Hp Hi Hf; [lia|].
  cbn [SubChain_extend]. rewrite (run_bind _ _ _ _ _ (grown_active p i t b Hb Hi)). cbn [negb].
  rewrite latest_grown, (run_must _ _ _), (grown_stop p k i b Hp), (run_must _ _ _).
  destruct (stops && bool_decide (k = length c)) eqn:Est.
  { exists k, p, i, (S t), true. cbn [mret prog_ret]. rewrite orb_true_r. split; [reflexivity|].
    split; [exact Hp|]. split; [lia|]. split; [now rewrite Est|]. intros h Hh.
    apply andb_true_iff in Est as [_ Est]. apply bool_decide_eq_true in Est. subst k.
    apply at_length in Hh. lia. }
  rewrite (find_next hs k p Hn Hs Hp), (run_must _ _ _).
  destruct ((s :: c) !! S k) as [h|] eqn:Hh.
  - destruct (bool_decide (h ∈ hs)) eqn:Hin.
    + rewrite (run_bind (syncUpdatedAt (SubChain_build h (grown p i b))) _ _ (grown h (S t) b) (S (S t)) eq_refl).
      destruct (IH (S k) h (S t) (S (S t)) Hh) as (k' & p' & i' & t' & b' & HE & HR); [lia| |].
      * apply at_length in Hh. lia.
      * exists k', p', i', t', b'. split; [exact HE|exact HR].
    + exists k, p, i, (S t), false. rewrite orb_false_r. split; [reflexivity|]. split; [exact Hp|]. split; [lia|].
      split; [now rewrite Est|]. intros h' Hh'. rewrite Hh in Hh'. injection Hh' as <-. now apply bool_decide_eq_false in Hin.
  - exists k, p, i, (S t), false. rewrite orb_false_r. split; [reflexivity|]. split; [exact Hp|]. split; [lia|].
    split; [now rewrite Est|]. intros h' Hh'. rewrite Hh in Hh'. discriminate.
Qed.

(** ** The manager on a chain *)

(** The manager with one subchain, grown to [p], and [hs] in its pool. *)
Definition managed (hs : list BlockHeader) (p : BlockHeader) (i : nat) (b : bool) : VirtualHeaderSyncManager :=
  mkManager [grown p i b] (Some s) stop_hash (pool_of hs) (if b then H_FINISHED else H_PENDING).

Lemma digest_grown p i b : chainDigest (grown p i b) = Some (EVP_SHA1 (hash_of s ++ hash_of p)).
Proof.
  unfold chainDigest, grown. cbn [_startBlockHeader _latestBlockHeader mbind option_bind].
  rewrite !headerHash_some. cbn [mbind option_bind]. rewrite !rd_hash. cbn [mbind option_bind].
  unfold SHAHash. change 64 with (Z.of_nat 64).
  replace 64%nat with (length (hash_of s ++ hash_of p)) by (rewrite length_app, !hash_of_length; reflexivity).
  now rewrite rd_all.
Qed.

Lemma push_each_fresh bs hs t m :
  NoDup (hs ++ bs) -> hs ++ bs ⊆ c -> _blockHeaderPool m = pool_of hs ->
  push_each bs (t, m) = Ok [] (t, set_pool (pool_of (hs ++ bs)) m).
Proof.
  revert hs m; induction bs as [|h bs IH]; intros hs m Hn Hs Hm; cbn [push_each].
  - rewrite app_nil_r. unfold mret, prog_ret. f_equal. f_equal. destruct m; cbn in *. now rewrite Hm.
  - replace (hs ++ h :: bs) with ((hs ++ [h]) ++ bs) in * by now rewrite <- app_assoc.
    assert (HP : on_pool (BlockHeaderPool_push h) (t, m) = Ok (true, 1) (t, set_pool (pool_of (hs ++ [h])) m)).
    { unfold on_pool, zoom. cbn [fst snd]. rewrite Hm, push_fresh; [reflexivity| |].
      - now apply NoDup_app in Hn.
      - intros y Hy. apply Hs. apply elem_of_app. now left. }
    rewrite (run_bind _ _ _ _ _ HP), (run_bind _ _ _ _ _ (IH (hs ++ [h]) (set_pool (pool_of (hs ++ [h])) m) Hn Hs eq_refl)).
    reflexivity.
Qed.

Lemma extend_managed hs fuel k p i t b :
  brisk -> NoDup hs -> hs ⊆ c -> at_ k p -> (i <= t)%nat -> (length c < fuel)%nat ->
  exists k' p' i' t' b',
    Manager_extend fuel false (t, managed hs p i b) = Ok b' (t', managed hs p' i' (b || b')) /\
    at_ k' p' /\ (i' <= t')%nat /\ b' = stops && bool_decide (k' = length c) /\
    (forall h, (s :: c) !! S k' = Some h -> h ∉ hs).
Proof.
  intros Hb Hn Hs Hp Hi Hf.
  destruct (extend_grown hs fuel k p i t b Hb Hn Hs Hp Hi ltac:(lia)) as (k' & p' & i' & t' & b' & HE & HR).
  exists k', p', i', t', b'. split; [|exact HR].
  unfold Manager_extend. rewrite run_get.
  assert (HX : on_clock (extend_each fuel (pool_of hs) 0 [grown p i b]) (t, managed hs p i b) =
    Ok (b', [grown p' i' (b || b')]) (t', managed hs p i b)).
  { unfold on_clock, zoom. cbn [fst snd extend_each]. rewrite (run_bind _ _ _ _ _ HE).
    unfold mbind, prog_bind, mret, prog_ret. cbn [fst snd]. now rewrite orb_false_r. }
  unfold managed at 1 2 3. cbn [snd _headerSubchainSet _blockHeaderPool]. fold (managed hs p i b).
  rewrite (run_bind _ _ _ _ _ HX). cbn [snd fst insert_each]. unfold subchain_insert.
  rewrite digest_grown. cbn [mbind option_bind subchain_in app]. rewrite run_must.
  destruct b', b; reflexivity.
Qed.

Lemma add_managed hs bs fuel k p i t b :
  brisk -> NoDup (hs ++ bs) -> hs ++ bs ⊆ c -> at_ k p -> (i <= t)%nat -> (length c < fuel)%nat ->
  exists k' p' i' t' b',
    Manager_add fuel bs (t, managed hs p i b) = Ok tt (t', managed (hs ++ bs) p' i' (b || b')) /\
    at_ k' p' /\ (i' <= t')%nat /\ b' = stops && bool_decide (k' = length c) /\
    (forall h, (s :: c) !! S k' = Some h -> h ∉ hs ++ bs).
Proof.
  intros Hb Hn Hs Hp Hi Hf.
  destruct (extend_managed (hs ++ bs) fuel k p i t b Hb Hn Hs Hp Hi Hf) as (k' & p' & i' & t' & b' & HE & HR).
  exists k', p', i', t', b'. split; [|exact HR].
  unfold Manager_add. rewrite (run_bind _ _ _ _ _ (push_each_fresh bs hs t (managed hs p i b) Hn Hs eq_refl)).
  cbn [build_each]. change (set_pool (pool_of (hs ++ bs)) (managed hs p i b)) with (managed (hs ++ bs) p i b).
  rewrite (run_bind (mret tt) _ _ tt _ eq_refl), (run_bind _ _ _ _ _ HE).
  destruct b'; [|reflexivity]. now rewrite orb_true_r.
Qed.

Lemma add_all_managed batches hs fuel k p i t b :
  brisk -> NoDup (hs ++ concat batches) -> hs ++ concat batches ⊆ c -> at_ k p -> (i <= t)%nat ->
  (length c < fuel)%nat -> (b = true -> stops = true) -> (k = length c -> b = stops) \/ batches <> [] ->
  (batches <> [] \/ k = length c) -> c ⊆ hs ++ concat batches ->
  exists i' t', add_all fuel batches (t, managed hs p i b) =
    Ok tt (t', managed (hs ++ concat batches) tip i' stops) /\ (i' <= t')%nat.
Proof.
  intros Hb. revert hs k p i t b; induction batches as [|bs l IH]; intros hs k p i t b Hn Hs Hp Hi Hf Hbs Hk He Hall.
  - destruct He as [He|He]; [easy|]. destruct Hk as [Hk|Hk]; [|easy]. subst k. rewrite (Hk eq_refl).
    assert (p = tip) as -> by (unfold at_ in *; congruence). exists i, t. cbn [concat]. rewrite app_nil_r. now split.
  - cbn [concat] in *. rewrite app_assoc in *. cbn [add_all].
    destruct (add_managed hs bs fuel k p i t b Hb) as (k' & p' & i' & t' & b' & HE & Hp' & Hi' & Hb' & Hnext); auto.
    { now apply NoDup_app in Hn as [Hn _]. }
    { intros y Hy. apply Hs, elem_of_app. now left. }
    rewrite (run_bind _ _ _ _ _ HE).
    assert (Hend : l = [] -> k' = length c).
    { intros ->. cbn [concat] in *. rewrite app_nil_r in *. pose proof (at_length k' p' Hp') as HL.
      destruct (decide (k' = length c)) as [|Hne]; [assumption|exfalso].
      destruct (lookup_lt_is_Some_2 c k') as [h Hh]; [lia|].
      apply (Hnext h Hh), Hall. eapply list_elem_of_lookup_2, Hh. }
    assert (Hst : k' = length c -> b || b' = stops).
    { intros ->. rewrite bool_decide_eq_true_2, andb_true_r in Hb' by reflexivity. subst b'.
      destruct b, stops; try reflexivity. discriminate (Hbs eq_refl). }
    apply (IH (hs ++ bs) k' p' i' t' (b || b')); auto.
    + intros H. apply orb_true_iff in H as [H|H]; [auto|]. subst b'. now apply andb_true_iff in H as [? _].
    + destruct l; [right; now apply Hend|now left].
Qed.

(** Walking back from a header of the chain, once all of it is in the pool. *)
Lemma export_chain hs fuel k p :
  NoDup hs -> hs ⊆ c -> c ⊆ hs -> at_ (S k) p -> (S k < fuel)%nat ->
  export_from fuel (pool_of hs) (Some p) = Some (rev (take (S k) c)).
Proof.
  intros Hn Hs Hall. revert fuel p; induction k as [|k IH]; intros fuel p Hp Hf; (destruct fuel as [|fuel]; [lia|]).
  - cbn [export_from]. rewrite (linked_lookup s c 0 p s (proj1 Hc) eq_refl Hp).
    rewrite find_hash by (auto; now left). rewrite bool_decide_eq_false_2.
    + destruct fuel as [|fuel]; [lia|]. cbn. unfold at_ in Hp. cbn in Hp.
      destruct c; [discriminate|]. cbn in Hp. now injection Hp as ->.
    + intros H. apply Hs in H. destruct Hc as [_ Hd]. cbn in Hd. apply NoDup_cons in Hd as [Hd _].
      apply Hd. apply list_elem_of_fmap. now exists s.
  - cbn [export_from]. destruct (lookup_lt_is_Some_2 (s :: c) (S k)) as [q Hq].
    { apply at_length in Hp. cbn. lia. }
    rewrite (linked_lookup s c (S k) p q (proj1 Hc) Hq Hp).
    assert (Hqc : q ∈ c) by (eapply list_elem_of_lookup_2, Hq).
    rewrite find_hash by (auto; now right). rewrite bool_decide_eq_true_2 by now apply Hall.
    cbn [mbind option_bind]. rewrite (IH fuel q Hq ltac:(lia)). cbn [mbind option_bind]. f_equal.
    rewrite (take_S_r c (S k) p) by exact Hp. now rewrite rev_app_distr.
Qed.

End in_chain.
End chain.

(** ** What a synchronisation ends with *)

Section outcome.
Context {ssl : OpenSSL} {laws : OpenSSL_laws} {host : Host}.

Lemma last_at s c tip : last c = Some tip -> at_ s c (length c) tip.
Proof.
  intros H. apply last_Some in H as [l ->]. unfold at_. rewrite length_app, Nat.add_comm. cbn.
  now apply list_lookup_middle.
Qed.

Lemma perm_parts {A} (l c : list A) : Permutation l c -> NoDup c -> NoDup l /\ l ⊆ c /\ c ⊆ l.
Proof.
  intros H Hn. split; [now rewrite H|]. split; intros x; now rewrite H.
Qed.

(** C8: The headers that continue the start header, whatever order and batches they
    arrive in, are put together to exactly that chain: the manager keeps one subchain, which
    exports the headers from the last to the first; with the hash of the last header
    as the stop hash it ends [FINISHED] with that subchain stopped, without one it stays
    [PENDING]. Every reading of the clock falls within a subchain's lifetime. *)
Theorem header_sync_builds_chain (s tip : BlockHeader) (c : list BlockHeader)
    (batches : list (list BlockHeader)) (stops : bool) (fuel t : nat) :
  brisk -> chain_ok s c -> last c = Some tip -> Permutation (concat batches) c -> (length c < fuel)%nat ->
  exists m0 t0 m t' sub,
    VirtualHeaderSyncManager_new (Some s) (if stops then headerHash tip else None) t = Ok m0 t0 /\
    add_all fuel batches (t0, m0) = Ok tt (t', m) /\
    subchainVector m = [sub] /\
    exportChainVector fuel (_blockHeaderPool m) sub = Some (rev c) /\
    _status m = (if stops then H_FINISHED else H_PENDING) /\
    stopedHeaderSubchain m = (if stops then Some sub else None).
Proof.
  intros Hb Hc Hl Hp Hf. pose proof (last_at s c tip Hl) as Ht.
  destruct (perm_parts _ _ Hp (chain_NoDup s c Hc)) as (Hn & H1 & H2).
  assert (Hne : c <> []) by (intros ->; discriminate).
  destruct (add_all_managed s c Hc tip Ht stops batches [] fuel 0 s t (S t) false) as (i & t' & HE & _); auto.
  - reflexivity.
  - discriminate.
  - destruct batches; [|now right]. cbn in Hp. now apply Permutation_nil in Hp.
  - left. intros ->. cbn in Hp. now apply Permutation_nil in Hp.
  - exists (managed s tip stops [] s t false), (S t), (managed s tip stops (concat batches) tip i stops), t',
      (grown s tip stops tip i stops).
    split; [|split; [exact HE|]].
    + rewrite headerHash_some. unfold VirtualHeaderSyncManager_new.
      rewrite (run_bind (SubChain_new _ _) _ _ (grown s tip stops s t false) (S t)).
      * unfold subchain_insert. now rewrite digest_grown.
      * unfold grown, stop_hash. now destruct stops.
    + split; [reflexivity|]. split; [|split; [reflexivity|now destruct stops]].
      unfold exportChainVector. cbn [_blockHeaderPool managed grown _latestBlockHeader].
      destruct c as [|h c']; [easy|]. rewrite (export_chain s _ Hc tip Ht _ fuel (length c') tip); auto.
      now rewrite take_ge by reflexivity.
Qed.

(** ** The waiting loop *)

(** Code that keeps a manager finished, and does not throw. *)
Definition stays_finished {A} (c : prog (nat * VirtualHeaderSyncManager) A) : Prop :=
  forall x, is_finished x.2 = true ->
    match c x with Ok _ y => is_finished y.2 = true | Throw _ _ => False | Undef => True end.

Lemma stays_bind {A B} (c : prog _ A) (k : A -> prog _ B) :
  stays_finished c -> (forall a, stays_finished (k a)) -> stays_finished (c ≫= k).
Proof.
  intros Hc Hk x Hx. unfold mbind, prog_bind. specialize (Hc x Hx). destruct (c x) as [a y| |]; auto. now apply Hk.
Qed.

Lemma stays_ret {A} (a : A) : stays_finished (mret a).
Proof. intros x Hx. exact Hx. Qed.

Lemma stays_must {A} (o : option A) : stays_finished (must o).
Proof. intros x Hx. now destruct o. Qed.

Lemma stays_get : stays_finished get_state.
Proof. intros x Hx. exact Hx. Qed.

(** Code on one part of the state that does not throw. *)
Definition no_throw {S A} (c : prog S A) : Prop := forall x, match c x with Throw _ _ => False | _ => True end.

Lemma no_throw_bind {S A B} (c : prog S A) (k : A -> prog S B) :
  no_throw c -> (forall a, no_throw (k a)) -> no_throw (c ≫= k).
Proof. intros Hc Hk x. unfold mbind, prog_bind. specialize (Hc x). destruct (c x); auto. apply Hk. Qed.

Lemma no_throw_must {S A} (o : option A) : no_throw (S := S) (must o).
Proof. intros x. now destruct o. Qed.

Lemma no_throw_ret {S A} (a : A) : no_throw (S := S) (mret a).
Proof. now intros x. Qed.

Lemma stays_clock {A} (c : prog nat A) : no_throw c -> stays_finished (on_clock c).
Proof. intros H x Hx. unfold on_clock, zoom. specialize (H x.1). destruct (c x.1); auto. Qed.

Lemma stays_pool {A} (c : prog BlockHeaderPool A) : no_throw c -> stays_finished (on_pool c).
Proof. intros H x Hx. unfold on_pool, zoom. specialize (H (_blockHeaderPool x.2)). destruct (c _); auto. Qed.

Lemma stays_modify (f : VirtualHeaderSyncManager -> VirtualHeaderSyncManager) :
  (forall m, is_finished m = true -> is_finished (f m) = true) -> stays_finished (on_manager (modify f)).
Proof. intros H x Hx. cbn. now apply H. Qed.

Create HintDb finished.
#[local] Hint Resolve stays_ret stays_must stays_get stays_clock stays_pool stays_modify
  no_throw_must no_throw_ret : finished.
Ltac finished_run :=
  repeat (first [ solve [auto with finished] | apply stays_bind; [|intros ?] | apply no_throw_bind; [|intros ?] | progress cbn beta
                | match goal with
                  | |- stays_finished (if ?b then _ else _) => destruct b
                  | |- no_throw (if ?b then _ else _) => destruct b
                  | |- no_throw (match ?l with _ => _ end) => destruct l
                  end ]).

Lemma no_throw_time : no_throw current_time.
Proof. now intros x. Qed.
#[local] Hint Resolve no_throw_time : finished.

Lemma no_throw_active c : no_throw (isActive c).
Proof. unfold isActive. finished_run. Qed.
#[local] Hint Resolve no_throw_active : finished.

Lemma no_throw_extend fuel pool a c : no_throw (SubChain_extend fuel pool a c).
Proof.
  revert c; induction fuel as [|fuel IH]; intros c; [now intros x|]. cbn [SubChain_extend]. unfold syncUpdatedAt.
  finished_run.
Qed.
#[local] Hint Resolve no_throw_extend : finished.

Lemma no_throw_extend_each fuel pool a l : no_throw (extend_each fuel pool a l).
Proof. induction l as [|c l IH]; cbn [extend_each]; finished_run. Qed.
#[local] Hint Resolve no_throw_extend_each : finished.

Lemma no_throw_push h : no_throw (BlockHeaderPool_push h).
Proof. unfold BlockHeaderPool_push. destruct (prevBlockHash h); [|now intros x]. finished_run; now intros x. Qed.
#[local] Hint Resolve no_throw_push : finished.

Lemma stays_extend fuel b : stays_finished (Manager_extend fuel b).
Proof. unfold Manager_extend. finished_run. apply stays_modify. intros m Hm. now match goal with |- context [if ?b then _ else _] => destruct b end. Qed.
#[local] Hint Resolve stays_extend : finished.

Lemma stays_add fuel l : stays_finished (Manager_add fuel l).
Proof.
  unfold Manager_add. finished_run.
  - induction l as [|h l IH]; cbn [push_each]; finished_run.
  - induction a as [|h l' IH]; cbn [build_each]; finished_run.
Qed.
#[local] Hint Resolve stays_add : finished.

Lemma stays_add_all fuel l : stays_finished (add_all fuel l).
Proof. induction l as [|b l IH]; cbn [add_all]; finished_run. Qed.

(** A synchronisation that has succeeded is never reported: the waiting loop goes on as
    long as the manager is [FINISHED], whatever headers arrive meanwhile, so
    [start] never returns then; and whenever it does return, it returns [false]. *)
Lemma start_outcome (rounds fuel : nat) (arrived : list (list (list BlockHeader)))
    (x : nat * VirtualHeaderSyncManager) :
  (if is_finished x.2 then Manager_start rounds fuel arrived x = Undef
   else forall b y, Manager_start rounds fuel arrived x = Ok b y -> b = false).
Proof.
  assert (Hrun : forall rounds arrived x, if is_finished x.2 then Manager_start rounds fuel arrived x = Undef
    else forall b y, Manager_start rounds fuel arrived x = Ok b y -> b = false); [|apply Hrun].
  clear. intros rounds; induction rounds as [|rounds IH]; intros arrived x; cbn [Manager_start].
  { now destruct (is_finished x.2). }
  destruct (activeSubchainCount x) as [n y|e y|] eqn:Ey.
  - rewrite (run_bind _ _ _ _ _ Ey), run_get. assert (y.2 = x.2) as Exy.
    { revert Ey. unfold activeSubchainCount, on_clock, zoom. rewrite run_get.
      destruct (count_active _ _); try discriminate. now intros [= _ <-]. }
    rewrite Exy. destruct (is_finished x.2) eqn:Ef.
    + rewrite orb_true_r. unfold mbind, prog_bind.
      pose proof (stays_add_all fuel (default [] (head arrived)) y) as Hs. rewrite Exy in Hs. specialize (Hs Ef).
      destruct (add_all _ _ y) as [u z|e z|]; [|easy|reflexivity].
      specialize (IH (tail arrived) z). now rewrite Hs in IH.
    + rewrite orb_false_r. destruct (0 <? n).
      * intros b z. unfold mbind, prog_bind. destruct (add_all _ _ y) as [u w|e w|]; [|discriminate|discriminate].
        specialize (IH (tail arrived) w). destruct (is_finished w.2); [now rewrite IH|apply IH].
      * intros b z [= <- _]. reflexivity.
  - exfalso. revert Ey. unfold activeSubchainCount. rewrite run_get. unfold on_clock, zoom.
    assert (Hn : no_throw (count_active (_headerSubchainSet x.2))).
    { induction (_headerSubchainSet x.2) as [|c l IHl]; cbn [count_active]; finished_run. }
    specialize (Hn x.1). now destruct (count_active _ x.1).
  - unfold mbind, prog_bind. rewrite Ey. now destruct (is_finished x.2).
Qed.

Lemma count_active_run l t :
  exists n, count_active l t = Ok n (t + length l)%nat /\ 0 <= n /\
    ((forall i c, l !! i = Some c -> SUBCHAIN_LIFETIME <= (clock (t + i) - _updatedAt c) mod 2 ^ 32) -> n = 0).
Proof.
  revert t; induction l as [|c l IH]; intros t.
  - exists 0. split; [cbn; now rewrite Nat.add_0_r|]. split; [lia|reflexivity].
  - destruct (IH (S t)) as (n & HE & Hn & H0).
    exists ((if (clock t mod 2 ^ 32 - _updatedAt c) mod 2 ^ 32 <? SUBCHAIN_LIFETIME then 1 else 0) + n).
    split; [|split].
    + cbn [count_active].
      rewrite (run_bind (isActive c) _ _ ((clock t mod 2 ^ 32 - _updatedAt c) mod 2 ^ 32 <? SUBCHAIN_LIFETIME) (S t) eq_refl).
      rewrite (run_bind _ _ _ _ _ HE). cbn [length]. unfold mret, prog_ret. f_equal. lia.
    + destruct (_ <? _); lia.
    + intros H. pose proof (H 0%nat c eq_refl) as Hc0. rewrite Nat.add_0_r in Hc0.
      rewrite Zminus_mod_idemp_l, (proj2 (Z.ltb_ge _ _)) by exact Hc0. rewrite H0; [reflexivity|].
      intros i d Hd. replace (S t + i)%nat with (t + S i)%nat by lia. now apply H.
Qed.

(** Without new headers a synchronisation comes to an end: if in some round of the
    waiting loop every subchain is older than its lifetime (by the 32-bit difference the
    code takes), [start] returns [false] by then, and has changed nothing. *)
Theorem header_sync_gives_up (m : VirtualHeaderSyncManager) (t r fuel : nat) :
  is_finished m = false ->
  (forall i c, _headerSubchainSet m !! i = Some c ->
     SUBCHAIN_LIFETIME <= (clock (t + r * length (_headerSubchainSet m) + i) - _updatedAt c) mod 2 ^ 32) ->
  exists t', forall rounds, (r < rounds)%nat -> Manager_start rounds fuel [] (t, m) = Ok false (t', m).
Proof.
  intros Hm. revert t; induction r as [|r IH]; intros t H.
  - destruct (count_active_run (_headerSubchainSet m) t) as (n & HE & _ & H0).
    exists (t + length (_headerSubchainSet m))%nat. intros [|rounds] Hr; [lia|]. cbn [Manager_start].
    rewrite (run_bind activeSubchainCount _ _ n (t + length (_headerSubchainSet m), m)%nat).
    + rewrite run_get. cbn [snd]. rewrite H0, Hm; [reflexivity|]. intros i c Hi.
      specialize (H i c Hi). now rewrite Nat.mul_0_l, Nat.add_0_r in H.
    + unfold activeSubchainCount. rewrite run_get. unfold on_clock, zoom. cbn [fst snd]. now rewrite HE.
  - destruct (count_active_run (_headerSubchainSet m) t) as (n & HE & Hn & _).
    assert (HA : activeSubchainCount (t, m) = Ok n ((t + length (_headerSubchainSet m))%nat, m)).
    { unfold activeSubchainCount. rewrite run_get. unfold on_clock, zoom. cbn [fst snd]. now rewrite HE. }
    destruct (Z.eq_dec n 0) as [->|Hn0].
    + exists (t + length (_headerSubchainSet m))%nat. intros [|rounds] Hr; [lia|]. cbn [Manager_start].
      rewrite (run_bind _ _ _ _ _ HA), run_get. cbn [snd]. now rewrite Hm.
    + destruct (IH (t + length (_headerSubchainSet m))%nat) as [t' Ht'].
      { intros i c Hi. specialize (H i c Hi). replace (t + _ + r * _ + i)%nat with (t + S r * length (_headerSubchainSet m) + i)%nat by lia. exact H. }
      exists t'. intros [|rounds] Hr; [lia|]. cbn [Manager_start].
      rewrite (run_bind _ _ _ _ _ HA), run_get. cbn [snd]. rewrite (proj2 (Z.ltb_lt 0 n)) by lia. cbn [orb].
      change (head []) with (@None (list (list BlockHeader))). cbn [default add_all tail].
      rewrite (run_bind (mret tt) _ _ tt _ eq_refl). apply Ht'. lia.
Qed.

Lemma equal_range_app {A} key (l l' : list (list byte * A)) :
  equal_range key (l ++ l') = equal_range key l ++ equal_range key l'.
Proof. unfold equal_range. now rewrite List.filter_app, map_app. Qed.

(** The pool once another header [x] with a known predecessor [p] has come. *)
Definition forked_pool (hs : list BlockHeader) (x p : BlockHeader) : BlockHeaderPool :=
  mkPool (insert_unique (hash_of x) x (_pool_blockHsah (pool_of hs)))
    (_pool_prevBlockHash (pool_of hs) ++ [(hash_of p, x)]).

Lemma range_next s c hs i p :
  chain_ok s c -> NoDup hs -> hs ⊆ c -> at_ s c i p ->
  equal_range (hash_of p) (_pool_prevBlockHash (pool_of hs)) =
    match (s :: c) !! S i with Some h => if bool_decide (h ∈ hs) then [h] else [] | None => [] end.
Proof.
  intros Hc Hn Hs Hp. pose proof (find_next s c Hc hs i p Hn Hs Hp) as F. rewrite find_prev_range in F.
  congruence.
Qed.

Lemma push_fork s c hs x h j p :
  chain_ok s c -> NoDup hs -> hs ⊆ c -> h ∈ hs -> at_ s c j p -> at_ s c (S j) h -> prevBlockHash x = Some (hash_of p) ->
  BlockHeaderPool_push x (pool_of hs) = Ok (true, 2) (forked_pool hs x p).
Proof.
  intros Hc Hn Hs Hh Hp Hj Hx. unfold BlockHeaderPool_push. rewrite Hx. unfold PrevBlockHashAsKey.
  rewrite rd_hash, run_must, run_get, BlockHashAsKey_header_some, (range_next s c hs j p Hc Hn Hs Hp).
  unfold at_ in Hj. rewrite Hj, bool_decide_eq_true_2 by assumption. reflexivity.
Qed.

Lemma forked_no_next s c hs x p tip j :
  chain_ok s c -> NoDup hs -> hs ⊆ c -> at_ s c (length c) tip -> at_ s c j p -> (j < length c)%nat ->
  findByPrevBlockHash (forked_pool hs x p) (Some (hash_of tip)) = Some [].
Proof.
  intros Hc Hn Hs Ht Hp Hj. rewrite find_prev_range. cbn [forked_pool _pool_prevBlockHash].
  rewrite equal_range_app, (range_next s c hs _ tip Hc Hn Hs Ht), lookup_ge_None_2 by (cbn; lia).
  unfold equal_range. cbn [List.filter fst app]. replace (same_key (hash_of p) (hash_of tip)) with false; [reflexivity|].
  symmetry. apply not_true_is_false. intros E. apply same_key_spec in E; [|now rewrite !hash_of_length].
  pose proof (hash_lookup_inj _ _ _ _ _ _ Hc Hp Ht E). lia.
Qed.

(** The subchain that [build] makes of a header: its own hash is the stop hash. *)
Definition built (s x : BlockHeader) (k : nat) (b : bool) : VirtualHeaderSubChain := grown s x true x k b.

Lemma extend_built s x pool fuel k u b :
  brisk -> (k <= u)%nat -> SubChain_extend (S fuel) pool 0 (built s x k b) u = Ok (true, built s x k true) (S u).
Proof.
  intros Hb Hk. unfold built. cbn [SubChain_extend].
  rewrite (run_bind _ _ _ _ _ (grown_active s x true x k u b Hb Hk)). cbn [negb]. rewrite latest_grown, run_must.
  replace (reached_stop (hash_of x) (grown s x true x k b)) with (Some true); [reflexivity|].
  unfold reached_stop, grown, stop_hash, memeq. cbn [_stopHash]. rewrite !rd_hash. cbn [mbind option_bind].
  now rewrite memcmp_refl.
Qed.

(** Subchains with the same start and different digests are different elements of the set. *)
Lemma insert_built s tip x k b i c0 :
  EVP_SHA1 (hash_of s ++ hash_of tip) <> EVP_SHA1 (hash_of s ++ hash_of x) ->
  c0 = grown s tip false tip i false -> subchain_insert (built s x k b) [c0] = Some [c0; built s x k b].
Proof.
  intros Hd ->. unfold subchain_insert, built. rewrite digest_grown. cbn [mbind option_bind subchain_in].
  unfold SubChain_eqb. rewrite !digest_grown. cbn [mbind option_bind]. unfold memeq.
  assert (Hrd : forall y, rd (Z.of_nat (length (EVP_SHA1 y))) (Some (EVP_SHA1 y)) = Some (EVP_SHA1 y)) by (intros; apply rd_all).
  rewrite SHA1_length. assert (Hrd20 : forall y, rd (Z.of_nat 20) (Some (EVP_SHA1 y)) = Some (EVP_SHA1 y)).
  { intros y. rewrite <- (SHA1_length y) at 1. apply Hrd. }
  rewrite !Hrd20. cbn [mbind option_bind].
  destruct (memcmp _ _) eqn:E; [|reflexivity|reflexivity]. apply memcmp_eq in E; [contradiction|now rewrite !SHA1_length].
Qed.

Lemma insert_first s tip stops p i b : subchain_insert (grown s tip stops p i b) [] = Some [grown s tip stops p i b].
Proof. unfold subchain_insert. now rewrite digest_grown. Qed.

(** Building the subchain of a header that forks off. *)
Lemma build_fork s tip x m pool i t fuel :
  brisk -> EVP_SHA1 (hash_of s ++ hash_of tip) <> EVP_SHA1 (hash_of s ++ hash_of x) ->
  m = mkManager [grown s tip false tip i false] (Some s) None pool H_PENDING ->
  Manager_build (S fuel) x (t, m) =
    Ok tt (S (S t), set_subchains [grown s tip false tip i false; built s x t true] m).
Proof.
  intros Hb Hd ->. unfold Manager_build. rewrite headerHash_some, run_must, run_get.
  rewrite (run_bind (on_clock (SubChain_new _ _)) _ _ (grown s x true s t false)
    (S t, mkManager [grown s tip false tip i false] (Some s) None pool H_PENDING)) by reflexivity.
  rewrite (run_bind _ _ _ (true, built s x t true) (S (S t), mkManager [grown s tip false tip i false] (Some s) None pool H_PENDING)).
  - cbn [snd _headerSubchainSet]. rewrite (insert_built s tip x t true i _ Hd eq_refl). reflexivity.
  - unfold on_clock, zoom. cbn [fst snd _blockHeaderPool].
    change (SubChain_build x _) with (built s x t false). now rewrite extend_built by (assumption || lia).
Qed.

Lemma extend_fork s tip x m pool i k t fuel :
  brisk -> EVP_SHA1 (hash_of s ++ hash_of tip) <> EVP_SHA1 (hash_of s ++ hash_of x) ->
  findByPrevBlockHash pool (Some (hash_of tip)) = Some [] -> (i <= t)%nat -> (k <= t)%nat ->
  m = mkManager [grown s tip false tip i false; built s x k true] (Some s) None pool H_PENDING ->
  Manager_extend (S fuel) false (t, m) = Ok true (S (S t), set_status H_FINISHED m).
Proof.
  intros Hb Hd HP Hi Hk ->.
  assert (Htip : SubChain_extend (S fuel) pool 0 (grown s tip false tip i false) t = Ok (false, grown s tip false tip i false) (S t)).
  { cbn [SubChain_extend]. rewrite (run_bind _ _ _ _ _ (grown_active s tip false tip i t false Hb Hi)).
    cbn [negb]. rewrite latest_grown, run_must. change (reached_stop _ _) with (Some false). rewrite run_must, HP. reflexivity. }
  unfold Manager_extend. rewrite run_get. cbn [snd _blockHeaderPool _headerSubchainSet].
  rewrite (run_bind (on_clock _) _ _ (true, [grown s tip false tip i false; built s x k true])
    (S (S t), mkManager [grown s tip false tip i false; built s x k true] (Some s) None pool H_PENDING)).
  - cbn [snd fst insert_each]. rewrite insert_first. cbn [mbind option_bind].
    rewrite (insert_built s tip x k true i _ Hd eq_refl). reflexivity.
  - unfold on_clock, zoom. cbn [fst snd extend_each]. rewrite (run_bind _ _ _ _ _ Htip).
    rewrite (run_bind _ _ _ (true, [built s x k true]) (S (S t))); [reflexivity|].
    rewrite (run_bind _ _ _ (true, built s x k true) (S (S t))) by (apply extend_built; [exact Hb|lia]). reflexivity.
Qed.

(** A header whose predecessor another received header already has, be it a fork or the same
    header delivered twice, finishes a synchronisation that has no stop hash: the
    subchain built for it takes its own hash as the stop hash and counts as stopped at once. *)
Theorem fork_header_finishes (s tip x h : BlockHeader) (c hs : list BlockHeader) (i t fuel : nat) :
  brisk -> chain_ok s c -> last c = Some tip -> Permutation hs c -> (i <= t)%nat -> (0 < fuel)%nat ->
  h ∈ c -> prevBlockHash x = prevBlockHash h ->
  EVP_SHA1 (hash_of s ++ hash_of tip) <> EVP_SHA1 (hash_of s ++ hash_of x) ->
  exists t' m' sub,
    Manager_add fuel [x] (t, mkManager [grown s tip false tip i false] (Some s) None (pool_of hs) H_PENDING) = Ok tt (t', m') /\
    _status m' = H_FINISHED /\ m_stopHash m' = None /\
    stopedHeaderSubchain m' = Some sub /\ _latestBlockHeader sub = Some x.
Proof.
  intros Hb Hc Hl Hperm Hi Hf Hh Hx Hd. pose proof (last_at s c tip Hl) as Ht.
  destruct (perm_parts _ _ Hperm (chain_NoDup s c Hc)) as (Hn & H1 & H2).
  destruct (in_chain_at s c h Hh) as (j & p & Hp & Hj).
  rewrite (linked_lookup _ _ _ _ _ (proj1 Hc) Hp Hj) in Hx.
  pose proof (at_length s c _ _ Hj) as Hlt. destruct fuel as [|fuel]; [lia|].
  set (m1 := mkManager [grown s tip false tip i false] (Some s) None (forked_pool hs x p) H_PENDING).
  set (m2 := set_subchains [grown s tip false tip i false; built s x t true] m1).
  exists (S (S (S (S t)))), (set_status H_FINISHED m2), (built s x t true). split; [|now repeat split].
  unfold Manager_add. rewrite (run_bind (push_each [x]) _ _ [x] (t, m1)).
  - cbn [build_each]. rewrite (run_bind _ _ _ tt (S (S t), m2)).
    + rewrite (run_bind (Manager_extend (S fuel) false) _ _ true (S (S (S (S t))), set_status H_FINISHED m2)); [reflexivity|].
      eapply (extend_fork s tip x m2 _ i t); try eassumption; try lia; [|reflexivity].
      apply (forked_no_next s c hs x p tip j); assumption || lia.
    + now rewrite (run_bind _ _ _ _ _ (build_fork s tip x m1 _ i t fuel Hb Hd eq_refl)).
  - cbn [push_each]. rewrite (run_bind (on_pool (BlockHeaderPool_push x)) _ _ (true, 2) (t, m1)); [reflexivity|].
    unfold on_pool, zoom. cbn [fst snd _blockHeaderPool].
    now rewrite (push_fork s c hs x h j p Hc Hn H1 (H2 _ Hh) Hp Hj Hx).
Qed.
End outcome.

(** ** A concrete synchronisation *)

(** The hash of a header is its version and the start of its previous hash. *)
Definition chain_ssl : OpenSSL := {|
  PKEY := unit;
  EVP_SHA1 m := pad 20 (drop 32 m);
  EVP_SHA256 m := pad 32 m;
  i2d_PUBKEY _ := [];
  d2i_PUBKEY _ := Some tt;
  EVP_PKEY_sign _ _ := [];
  EVP_PKEY_verify _ _ _ := true;
  public_part k := k;
  has_private _ := true;
|}.

Lemma chain_ssl_laws : OpenSSL_laws (ssl := chain_ssl).
Proof. split; try reflexivity; try (intros; apply pad_length). now intros []. Qed.

Definition still_host : Host := {| clock _ := 100; rand_after _ := 0 |}.
Definition fast_host : Host := {| clock i := 10 * Z.of_nat i; rand_after _ := 0 |}.

Definition sample_header (v : Z) (prev : list byte) : BlockHeader :=
  mkHeader v prev (replicate 32 x07) 5 6 7.
Definition sample_s : BlockHeader := sample_header 1 (replicate 32 x00).
Definition next_header (v : Z) (h : BlockHeader) : BlockHeader := sample_header v (hash_of (ssl := chain_ssl) h).
Definition sample_1 : BlockHeader := next_header 2 sample_s.
Definition sample_2 : BlockHeader := next_header 3 sample_1.
Definition sample_3 : BlockHeader := next_header 4 sample_2.
Definition sample_fork : BlockHeader := next_header 9 sample_1.
Definition sample_chain : list BlockHeader := [sample_1; sample_2; sample_3].

Lemma sample_chain_ok : chain_ok (ssl := chain_ssl) sample_s sample_chain.
Proof. split; [now repeat split|]. apply (bool_decide_unpack _). vm_compute. exact I. Qed.

Lemma still_brisk : brisk (host := still_host).
Proof. intros i j _. unfold SUBCHAIN_LIFETIME. cbn. lia. Qed.

Lemma header_sync_builds_chain_witness :
  exists m0 t0 m t' sub,
    VirtualHeaderSyncManager_new (ssl := chain_ssl) (host := still_host) (Some sample_s)
      (headerHash (ssl := chain_ssl) sample_3) 0%nat = Ok m0 t0 /\
    add_all (ssl := chain_ssl) (host := still_host) 9 [[sample_3]; []; [sample_2; sample_1]] (t0, m0) = Ok tt (t', m) /\
    subchainVector m = [sub] /\
    exportChainVector 9 (_blockHeaderPool m) sub = Some (rev sample_chain) /\
    _status m = H_FINISHED /\ stopedHeaderSubchain m = Some sub.
Proof.
  apply (header_sync_builds_chain (ssl := chain_ssl) (laws := chain_ssl_laws) (host := still_host)
    sample_s sample_3 sample_chain [[sample_3]; []; [sample_2; sample_1]] true 9 0).
  - exact still_brisk.
  - exact sample_chain_ok.
  - reflexivity.
  - cbn [concat app]. symmetry. apply (Permutation_rev sample_chain).
  - cbn. lia.
Defined.

Lemma header_sync_gives_up_witness :
  exists t', forall rounds, (1 < rounds)%nat ->
    Manager_start (ssl := chain_ssl) (host := fast_host) rounds 3 []
      (1%nat, mkManager [mkSubChain (Some sample_s) (Some sample_s) 0 false None] (Some sample_s) None BlockHeaderPool_new H_PENDING) =
    Ok false (t', mkManager [mkSubChain (Some sample_s) (Some sample_s) 0 false None] (Some sample_s) None BlockHeaderPool_new H_PENDING).
Proof.
  apply (header_sync_gives_up (ssl := chain_ssl) (host := fast_host)
    (mkManager [mkSubChain (Some sample_s) (Some sample_s) 0 false None] (Some sample_s) None BlockHeaderPool_new H_PENDING) 1 1 3).
  - reflexivity.
  - intros i c. destruct i as [|i]; [|discriminate]. intros [= <-]. vm_compute. discriminate.
Defined.

Lemma fork_header_finishes_witness :
  exists t' m' sub,
    Manager_add (ssl := chain_ssl) (host := still_host) 1 [sample_fork]
      (3%nat, mkManager [grown (ssl := chain_ssl) (host := still_host) sample_s sample_3 false sample_3 2 false]
         (Some sample_s) None (pool_of (ssl := chain_ssl) sample_chain) H_PENDING) = Ok tt (t', m') /\
    _status m' = H_FINISHED /\ m_stopHash m' = None /\
    stopedHeaderSubchain m' = Some sub /\ _latestBlockHeader sub = Some sample_fork.
Proof.
  apply (fork_header_finishes (ssl := chain_ssl) (laws := chain_ssl_laws) (host := still_host)
    sample_s sample_3 sample_fork sample_2 sample_chain sample_chain 2 3 1).
  - exact still_brisk.
  - exact sample_chain_ok.
  - reflexivity.
  - reflexivity.
  - lia.
  - lia.
  - apply (bool_decide_unpack _). vm_compute. exact I.
  - reflexivity.
  - vm_compute. discriminate.
Defined.
