(* ===== verification/BlockSync.v ===== *)
(** Block synchronisation ([chain/chain_sync_manager/]): the filter of known blocks
    ([bd_filter.cpp], [BDBCB.cpp]), the window of blocks that are being downloaded, and the
    manager that fills it and stores what arrived ([virtual_block_sync_manager.cpp]). *)
From S2P Require Import Prelude Crypto Script TxFormat P2PKH BlockHeader Coinbase Block HeaderSync.
From Stdlib Require Import Lia.

(** ** The block storage, as the synchronisation uses it *)

(** The operations alone: nothing is assumed of how they behave. The storage of the node is
    [BlockFiles.local_files]. *)
Class BlockLocalStrage {ssl : OpenSSL} : Type := {
  storage : Type;
  readBlock : buffer -> prog storage (option Block);
  writeBlock : Block -> prog storage unit;
}.

Section BlockSync_code.
Context {ssl : OpenSSL}.

(** ** Entries of the filter *)

Definition BlockHashReceived : Z := 1.
Definition BlockHeaderReceived : Z := 2.
Definition BlockHeaderValidated : Z := 3.
Definition BlockBodyReceived : Z := 4.
Definition BlockBodyValidated : Z := 5.
Definition BlockStored : Z := 6.

(** A variant of two pointers; default-constructed it holds the null block pointer. *)
Inductive BDBCB_body : Type := Body_block (b : option Block) | Body_header (h : BlockHeader).

(** The height is not initialised unless the entry comes from a block, zero here. *)
Record BDBCB : Type := mkBDBCB {
  bd_body : BDBCB_body;
  bd_status : Z;
  bd_blockHash : buffer;
  bd_height : Z;
  _isClosed : bool;
}.

(** [Block::height] has no return statement: flowing off its end is undefined. *)
Definition Block_height (b : Block) : option Z := None.

Definition BDBCB_hash (fromBlockHash : buffer) : BDBCB :=
  mkBDBCB (Body_block None) BlockHashReceived fromBlockHash 0 false.
Definition BDBCB_header (fromBlockHeader : BlockHeader) : option BDBCB :=
  h ← headerHash fromBlockHeader;
  Some (mkBDBCB (Body_header fromBlockHeader) BlockHeaderReceived (Some h) 0 false).
Definition BDBCB_block (fromBlock : Block) : option BDBCB :=
  h ← Block_blockHash fromBlock;
  height ← Block_height fromBlock;
  Some (mkBDBCB (Body_block (Some fromBlock)) BlockBodyReceived (Some h) height false).

Definition set_bd_status (target : Z) (e : BDBCB) : BDBCB :=
  mkBDBCB (bd_body e) target (bd_blockHash e) (bd_height e) (_isClosed e).
Definition set_isClosed (b : bool) (e : BDBCB) : BDBCB :=
  mkBDBCB (bd_body e) (bd_status e) (bd_blockHash e) (bd_height e) b.

(** ** The filter *)

(** Entries are shared with the callers of [filter]; they are named by their keys here. *)
Record BDFilter : Type := mkFilter {
  _isClose : bool;
  _filter : list (list byte * BDBCB);
}.

Definition BDFilter_new : BDFilter := mkFilter false [].

Definition bd_find (key : list byte) (f : BDFilter) : option BDBCB := head (equal_range key (_filter f)).

(** The body the three overloads of [filter] share: [new] is the entry to insert. *)
Definition filter_key (key : list byte) (new : option BDBCB) (isReject : bool) : prog BDFilter (option (list byte)) :=
  f ← get_state;
  match bd_find key f with
  | Some _ => mret (Some key)
  | None =>
      if isReject then mret None
      else
        newValue ← must new;
        _ ← set_state (mkFilter (_isClose f) (_filter f ++ [(key, newValue)]));
        mret (Some key)
  end.

Definition filter_hash (target : buffer) (isReject : bool) : prog BDFilter (option (list byte)) :=
  f ← get_state;
  if _isClose f then mret None
  else key ← must (BlockHashAsKey target); filter_key key (Some (BDBCB_hash target)) isReject.

Definition filter_block (target : Block) (isReject : bool) : prog BDFilter (option (list byte)) :=
  f ← get_state;
  if _isClose f then mret None
  else
    targetHash ← must (Block_blockHash target);
    key ← must (BlockHashAsKey (Some targetHash));
    filter_key key (BDBCB_block target) isReject.

Definition filter_header (target : BlockHeader) (isReject : bool) : prog BDFilter (option (list byte)) :=
  f ← get_state;
  if _isClose f then mret None
  else
    targetHash ← must (headerHash target);
    key ← must (BlockHashAsKey (Some targetHash));
    filter_key key (BDBCB_header target) isReject.

(** Changing the entry with a key. *)
Definition bd_alter (g : BDBCB -> BDBCB) (key : list byte) (l : list (list byte * BDBCB)) : list (list byte * BDBCB) :=
  map (fun e => if same_key e.1 key then (e.1, g e.2) else e) l.

Fixpoint mask_open (targetVector : list BlockHeader) (l : list (list byte * BDBCB)) : option (list (list byte * BDBCB)) :=
  match targetVector with
  | [] => Some l
  | itr :: v => key ← BlockHashAsKey_header itr; mask_open v (bd_alter (set_isClosed false) key l)
  end.

Definition BDFilter_mask (targetVector : list BlockHeader) : prog BDFilter unit :=
  f ← get_state;
  l ← must (mask_open targetVector (map (fun e => (e.1, set_isClosed true e.2)) (_filter f)));
  set_state (mkFilter (_isClose f) l).

Definition BDFilter_update (blockHash : buffer) (state : Z) : prog BDFilter unit := mret tt.

(** ** Blocks of the virtual chain *)

Inductive VirtualBlock_body : Type := VBlock (b : Block) | VHeader (h : BlockHeader).

Record VirtualBlock : Type := mkVirtualBlock { v_body : VirtualBlock_body; v_status : Z }.

Definition RAW_BlockHeader : Z := 1.
Definition VirtualBlock_new (from : BlockHeader) : VirtualBlock := mkVirtualBlock (VHeader from) RAW_BlockHeader.
Definition VirtualBlock_blockHash (v : VirtualBlock) : option (list byte) :=
  match v_body v with VBlock b => Block_blockHash b | VHeader h => headerHash h end.
Definition VirtualBlock_block (v : VirtualBlock) : option Block :=
  match v_body v with VBlock b => Some b | VHeader _ => None end.
Definition VirtualBlock_set_block (from : Block) (isStoreToLocal : bool) (v : VirtualBlock) : VirtualBlock :=
  mkVirtualBlock (VBlock from) (v_status v).
Definition VirtualBlock_compare (targetBlockHash : buffer) (v : VirtualBlock) : option bool :=
  match v_body v with VBlock b => Block_compare targetBlockHash b | VHeader _ => Some false end.

(** ** The window *)

(** A segment: the block hash, whether the block was in the local storage, the block. *)
Notation segment := (list byte * (bool * option Block))%type.

Record UnChaindedWindow : Type := mkWindow { _windowSize : Z; _segmentVector : list segment }.

Definition DEFAULT_WINDOW_SIZE : Z := 50.

Fixpoint window_add (targetHash : list byte) (target : Block) (l : list segment) : option (list segment) :=
  match l with
  | [] => Some []
  | itr :: l' =>
      eq ← memeq 32 (Some itr.1) (Some targetHash);
      rest ← window_add targetHash target l';
      Some ((if eq : bool then (itr.1, (itr.2.1, Some target)) else itr) :: rest)
  end.

Definition Window_add (target : option Block) (w : UnChaindedWindow) : option UnChaindedWindow :=
  match target with
  | None => Some w
  | Some b => h ← Block_blockHash b; l ← window_add h b (_segmentVector w); Some (mkWindow (_windowSize w) l)
  end.

Definition Window_at (index : Z) (w : UnChaindedWindow) : bool * option Block :=
  match _segmentVector w !! Z.to_nat index with Some s => s.2 | None => (false, None) end.

Definition unDownloadedBlockHashVector (w : UnChaindedWindow) : list (list byte) :=
  map fst (List.filter (fun s : segment => match s.2.2 with None => true | Some _ => false end) (_segmentVector w)).

Definition isComplete (w : UnChaindedWindow) : bool :=
  forallb (fun s : segment => match s.2.2 with None => false | Some _ => true end) (_segmentVector w).

(** ** The manager *)

Context {st : BlockLocalStrage}.

(** The map [_chain] has the indexes from zero on; it is the list of its values here. *)
Record VirtualBlockSyncManager : Type := mkBlockSync {
  _chain : list VirtualBlock;
  _unChaindedWindow : UnChaindedWindow;
  _verifiedIndex : nat;
}.

Definition VirtualBlockSyncManager_new (virtualHeaderChainVector : list BlockHeader) : VirtualBlockSyncManager :=
  mkBlockSync (map VirtualBlock_new virtualHeaderChainVector) (mkWindow DEFAULT_WINDOW_SIZE []) 0.

Definition set_window (w : UnChaindedWindow) (m : VirtualBlockSyncManager) : VirtualBlockSyncManager :=
  mkBlockSync (_chain m) w (_verifiedIndex m).

(** A block arrives; its pointer is dereferenced before the window looks at it. *)
Definition BlockSync_add (target : Block) : prog (storage * VirtualBlockSyncManager) unit :=
  s ← get_state;
  w ← must (Window_add (Some target) (_unChaindedWindow s.2));
  set_state (s.1, set_window w s.2).

Definition on_storage {A} : prog storage A -> prog (storage * VirtualBlockSyncManager) A :=
  zoom fst (fun x s => (x, s.2)).

Fixpoint setup_segments (fromVBVector : list VirtualBlock) : prog storage (list segment) :=
  match fromVBVector with
  | [] => mret []
  | itr :: v =>
      blockHash ← must (VirtualBlock_blockHash itr);
      readedBlock ← readBlock (Some blockHash);
      rest ← setup_segments v;
      mret ((blockHash, (match readedBlock with None => false | Some _ => true end, readedBlock)) :: rest)
  end.

Definition setupWindow (fromVBVector : list VirtualBlock) : prog (storage * VirtualBlockSyncManager) unit :=
  l ← on_storage (setup_segments fromVBVector);
  s ← get_state;
  set_state (s.1, set_window (mkWindow (Z.of_nat (length fromVBVector) mod 2 ^ 16) l) s.2).

Definition ALLOWED_RETRANSMISSION_COUNT : nat := 4.

Fixpoint add_blocks (l : list Block) : prog (storage * VirtualBlockSyncManager) unit :=
  match l with
  | [] => mret tt
  | b :: l' => _ ← BlockSync_add b; add_blocks l'
  end.

(** The loop, with what other threads add during each sleep; it returns what
    arrives later. *)
Fixpoint download_loop (left : nat) (arrived : list (list Block))
  : prog (storage * VirtualBlockSyncManager) (list (list Block)) :=
  s ← get_state;
  match left with
  | O => mret arrived
  | S left' =>
      if isComplete (_unChaindedWindow s.2) then mret arrived
      else _ ← add_blocks (default [] (head arrived)); download_loop left' (tail arrived)
  end.

(** One more second of sleep follows the loop. *)
Definition downloadWindow (allowedRetransmissionCount : nat) (arrived : list (list Block))
  : prog (storage * VirtualBlockSyncManager) (bool * list (list Block)) :=
  rest ← download_loop allowedRetransmissionCount arrived;
  _ ← add_blocks (default [] (head rest));
  s ← get_state;
  mret (isComplete (_unChaindedWindow s.2), tail rest).

(** The blocks of the window that were not in the local storage are written. *)
Fixpoint store_from (n : nat) (i : Z) : prog (storage * VirtualBlockSyncManager) unit :=
  match n with
  | O => mret tt
  | S n' =>
      s ← get_state;
      let segment := Window_at i (_unChaindedWindow s.2) in
      _ ← (if segment.1 then mret tt
           else targetBlock ← must segment.2; on_storage (writeBlock targetBlock));
      store_from n' (i + 1)
  end.

(** [_verifiedIndex] is never raised, so that the first round takes the whole chain. *)
Fixpoint start_loop (rounds : nat) (vbIndex : nat) (arrived : list (list Block))
  : prog (storage * VirtualBlockSyncManager) bool :=
  match rounds with
  | O => undef
  | S rounds' =>
      s ← get_state;
      if (vbIndex <? length (_chain s.2))%nat then
        let windowTargetVBVector := drop (_verifiedIndex s.2) (_chain s.2) in
        let vbIndex := Nat.max (_verifiedIndex s.2) (length (_chain s.2)) in
        match windowTargetVBVector with
        | [] => mret true
        | _ =>
            _ ← setupWindow windowTargetVBVector;
            r ← downloadWindow ALLOWED_RETRANSMISSION_COUNT arrived;
            if r.1 : bool then
              s ← get_state;
              _ ← store_from (Z.to_nat (_windowSize (_unChaindedWindow s.2))) 0;
              start_loop rounds' vbIndex r.2
            else mret true
        end
      else mret true
  end.

(** A failed download sets a flag that nothing reads. *)
Definition BlockSync_start (rounds : nat) (arrived : list (list Block))
  : prog (storage * VirtualBlockSyncManager) bool := start_loop rounds 0 arrived.
End BlockSync_code.

(** ** The filter *)

Section filter_proofs.
Context {ssl : OpenSSL} {laws : OpenSSL_laws}.

Lemma same_key_eq a b : length a = length b -> same_key a b = bool_decide (a = b).
Proof.
  intros H. case_bool_decide as E.
  - now apply same_key_spec.
  - apply not_true_is_false. intros F. apply same_key_spec in F; auto.
Qed.

Lemma memeq_32 a b :
  length a = 32%nat -> length b = 32%nat -> memeq 32 (Some a) (Some b) = Some (bool_decide (a = b)).
Proof.
  intros Ha Hb. unfold memeq. rewrite !rd_32 by assumption. rewrite <- same_key_eq by congruence. reflexivity.
Qed.

Lemma mask_open_spec hs l :
  Forall (fun e : list byte * BDBCB => length e.1 = 32%nat) l ->
  mask_open hs l = Some (map (fun e => (e.1, if bool_decide (e.1 ∈ map hash_of hs) then set_isClosed false e.2 else e.2)) l).
Proof.
  revert l; induction hs as [|h hs IH]; intros l Hl; cbn [mask_open map].
  - f_equal. rewrite <- (map_id l) at 1. apply map_ext. intros [k e]. cbn [fst snd].
    rewrite bool_decide_eq_false_2 by (intros H; now apply elem_of_nil in H). reflexivity.
  - rewrite BlockHashAsKey_header_some. cbn [mbind option_bind]. rewrite IH.
    + f_equal. unfold bd_alter. rewrite map_map. apply map_ext_in. intros e He.
      rewrite Forall_forall in Hl. rewrite same_key_eq by (rewrite hash_of_length; apply Hl, list_elem_of_In, He).
      destruct (bool_decide (e.1 = hash_of h)) eqn:E1; cbn [fst snd].
      * apply bool_decide_eq_true in E1. rewrite (bool_decide_eq_true_2 (_ ∈ _ :: _)) by (rewrite E1; now left).
        now case_bool_decide.
      * apply bool_decide_eq_false in E1. f_equal. apply (f_equal (fun b : bool => if b then _ else _)).
        apply bool_decide_ext. rewrite elem_of_cons. tauto.
    + unfold bd_alter. apply Forall_map. eapply Forall_impl; [exact Hl|]. intros e He. cbn. now destruct (same_key _ _).
Qed.

(** Masking the filter with a chain of headers closes every entry but those of these
    headers, and changes nothing else of the entries. *)
Theorem mask_opens_exactly (hs : list BlockHeader) (f : BDFilter) :
  Forall (fun e : list byte * BDBCB => length e.1 = 32%nat) (_filter f) ->
  BDFilter_mask hs f =
    Ok tt (mkFilter (_isClose f)
      (map (fun e => (e.1, set_isClosed (negb (bool_decide (e.1 ∈ map hash_of hs))) e.2)) (_filter f))).
Proof.
  intros Hf. unfold BDFilter_mask. rewrite run_get, mask_open_spec.
  - rewrite run_must, map_map. unfold set_state. do 2 f_equal. apply map_ext. intros e. cbn [fst snd].
    now case_bool_decide.
  - apply Forall_map. exact Hf.
Qed.
End filter_proofs.

(** ** The window *)

Notation segment := (list byte * (bool * option Block))%type.

Section window_proofs.
Context {ssl : OpenSSL} {laws : OpenSSL_laws}.

Definition block_hash (b : Block) : list byte := hash_of (_header b).

Lemma blockHash_some b : Block_blockHash b = Some (block_hash b).
Proof. apply headerHash_some. Qed.

Definition segment_put (b : Block) (s : segment) : segment :=
  if bool_decide (s.1 = block_hash b) then (s.1, (s.2.1, Some b)) else s.
Definition window_put (l : list Block) (segs : list segment) : list segment :=
  fold_left (fun segs b => map (segment_put b) segs) l segs.
Definition segs_ok (segs : list segment) : Prop := Forall (fun s : segment => length s.1 = 32%nat) segs.

Lemma put_ok b segs : segs_ok segs -> segs_ok (map (segment_put b) segs).
Proof.
  intros H. apply Forall_map. eapply Forall_impl; [exact H|]. intros s Hs. cbn. unfold segment_put. now case_bool_decide.
Qed.

Lemma window_add_put b segs : segs_ok segs -> window_add (block_hash b) b segs = Some (map (segment_put b) segs).
Proof.
  induction segs as [|s segs IH]; intros H; [reflexivity|]. apply Forall_cons in H as [Hs H]. cbn [window_add map].
  rewrite memeq_32, IH by (exact Hs || exact H || apply hash_of_length). reflexivity.
Qed.

Context {st : BlockLocalStrage}.

Lemma add_blocks_put l x m w segs :
  segs_ok segs -> _unChaindedWindow m = mkWindow w segs ->
  add_blocks l (x, m) = Ok tt (x, set_window (mkWindow w (window_put l segs)) m).
Proof.
  revert m segs; induction l as [|b l IH]; intros m segs Hs Hm; cbn [add_blocks window_put fold_left].
  - unfold mret, prog_ret. do 2 f_equal. destruct m; cbn in *. now rewrite Hm.
  - rewrite (run_bind _ _ _ tt (x, set_window (mkWindow w (map (segment_put b) segs)) m)).
    + apply (IH (set_window _ m)); [now apply put_ok|reflexivity].
    + unfold BlockSync_add. rewrite run_get. cbn [snd]. rewrite Hm. unfold Window_add.
      rewrite blockHash_some. cbn [mbind option_bind _segmentVector _windowSize].
      rewrite window_add_put by exact Hs. reflexivity.
Qed.

End window_proofs.

(** ** A synchronisation *)

Section sync_reference.
Context {ssl : OpenSSL} {st : BlockLocalStrage}.

Definition is_some {A} (o : option A) : bool := match o with Some _ => true | None => false end.

(** A header of the chain with the block the storage has for it. *)
Notation known_block := (BlockHeader * option Block)%type.

(** Looking for the blocks of a chain, in its order. *)
Fixpoint read_chain (hs : list BlockHeader) : prog storage (list known_block) :=
  match hs with
  | [] => mret []
  | h :: hs' => o ← readBlock (Some (hash_of h)); rest ← read_chain hs'; mret ((h, o) :: rest)
  end.

(** The block of a header, of those that arrived: the last with its hash. *)
Definition latest (h : BlockHeader) (l : list Block) : option Block :=
  last (filter (fun b => block_hash b = hash_of h) l).

(** A block that arrived takes the place of the one in the storage. *)
Definition target_block (l : list Block) (k : known_block) : option Block :=
  match latest k.1 l with Some b => Some b | None => k.2 end.

Definition all_there (known : list known_block) (l : list Block) : bool :=
  forallb (fun k => is_some (target_block l k)) known.

(** All that arrives during the wait: [n] times at most a wait while a block is missing, and one more at the end. *)
Fixpoint waited (n : nat) (arrived : list (list Block)) (known : list known_block) (l : list Block) : list Block :=
  let l' := l ++ default [] (head arrived) in
  match n with
  | O => l'
  | S n' => if all_there known l then l' else waited n' (tail arrived) known l'
  end.

(** Writing the blocks that the storage did not have. *)
Fixpoint write_missing (l : list Block) (known : list known_block) : prog storage unit :=
  match known with
  | [] => mret tt
  | (h, Some _) :: known' => write_missing l known'
  | (h, None) :: known' => b ← must (latest h l); _ ← writeBlock b; write_missing l known'
  end.

(** What a synchronisation is to do with the storage. *)
Definition download_chain (hs : list BlockHeader) (arrived : list (list Block)) : prog storage bool :=
  known ← read_chain hs;
  let l := waited 4 arrived known [] in
  _ ← (if all_there known l then write_missing l (take (Z.to_nat (Z.of_nat (length known) mod 2 ^ 16)) known) else mret tt);
  mret true.

(** A result without the manager. *)
Definition storage_part {A} (r : result (storage * VirtualBlockSyncManager) A) : result storage A :=
  match r with Ok a s => Ok a s.1 | Throw e s => Throw e s.1 | Undef => Undef end.

(** A result beside a manager. *)
Definition beside {A} (m : VirtualBlockSyncManager) (r : result storage A) : result (storage * VirtualBlockSyncManager) A :=
  match r with Ok a x => Ok a (x, m) | Throw e x => Throw e (x, m) | Undef => Undef end.

(** The storages that reading blocks leads to. *)
Inductive reads_to : storage -> storage -> Prop :=
| reads_none x : reads_to x x
| reads_more h x o y z : readBlock h x = Ok o y -> reads_to y z -> reads_to x z.
End sync_reference.

Section sync_proofs.
Context {ssl : OpenSSL} {laws : OpenSSL_laws} {st : BlockLocalStrage}.
Notation known_block := (BlockHeader * option Block)%type.

Lemma reads_to_trans x y z : reads_to x y -> reads_to y z -> reads_to x z.
Proof. induction 1 as [|h x o y z' E _ IH]; [auto|]. intros H. exact (reads_more _ _ _ _ _ E (IH H)). Qed.

(** The segment of a header, after some blocks have arrived. *)
Definition seen (l : list Block) (k : known_block) : segment := (hash_of k.1, (is_some k.2, target_block l k)).

Lemma seen_ok l known : segs_ok (map (seen l) known).
Proof. apply Forall_map, Forall_forall. intros h _. apply hash_of_length. Qed.

Lemma latest_snoc h l b : latest h (l ++ [b]) = if decide (block_hash b = hash_of h) then Some b else latest h l.
Proof.
  unfold latest. rewrite filter_app. destruct (decide (block_hash b = hash_of h)) as [E|E].
  - rewrite filter_cons_True by exact E. apply last_snoc.
  - rewrite filter_cons_False by exact E. f_equal. apply app_nil_r.
Qed.

Lemma put_seen b l known : map (segment_put b) (map (seen l) known) = map (seen (l ++ [b])) known.
Proof.
  rewrite map_map. apply map_ext. intros [h o]. unfold segment_put, seen, target_block. cbn [fst snd]. rewrite latest_snoc.
  destruct (decide (block_hash b = hash_of h)) as [E|E]; [now rewrite bool_decide_eq_true_2 by auto|now rewrite bool_decide_eq_false_2 by auto].
Qed.

Lemma window_put_seen l' l known : window_put l' (map (seen l) known) = map (seen (l ++ l')) known.
Proof.
  revert l; induction l' as [|b l' IH]; intros l; [now rewrite app_nil_r|].
  change (window_put l' (map (segment_put b) (map (seen l) known)) = map (seen (l ++ b :: l')) known).
  now rewrite put_seen, IH, <- app_assoc.
Qed.

Lemma complete_seen w l known : isComplete (mkWindow w (map (seen l) known)) = all_there known l.
Proof.
  unfold isComplete, all_there. cbn [_segmentVector]. induction known as [|k known IH]; [reflexivity|]. cbn [map forallb].
  now rewrite IH.
Qed.

Lemma setup_segments_reads hs x :
  setup_segments (map VirtualBlock_new hs) x = (known ← read_chain hs; mret (map (seen []) known)) x.
Proof.
  revert x; induction hs as [|h hs IH]; intros x; [reflexivity|]. cbn [map setup_segments read_chain].
  unfold VirtualBlock_blockHash at 1. cbn [VirtualBlock_new v_body]. rewrite headerHash_some, run_must.
  unfold mbind, prog_bind in *. destruct (readBlock (Some (hash_of h)) x) as [o y| |]; [|reflexivity..].
  rewrite IH. now destruct (read_chain hs y).
Qed.

(** [setupWindow] on the chain of a new manager. *)
Lemma setupWindow_reads hs x :
  setupWindow (map VirtualBlock_new hs) (x, VirtualBlockSyncManager_new hs) =
  match read_chain hs x with
  | Ok known y => Ok tt (y, set_window (mkWindow (Z.of_nat (length hs) mod 2 ^ 16) (map (seen []) known)) (VirtualBlockSyncManager_new hs))
  | Throw e y => Throw e (y, VirtualBlockSyncManager_new hs)
  | Undef => Undef
  end.
Proof.
  pose proof (setup_segments_reads hs x) as Hs. unfold setupWindow, on_storage, zoom, mbind, prog_bind in *. cbn [fst snd]. rewrite Hs.
  destruct (read_chain hs x) as [known y| |]; [|reflexivity..]. cbn [get_state fst snd]. now rewrite length_map.
Qed.

Lemma read_chain_length hs x known y : read_chain hs x = Ok known y -> length known = length hs /\ reads_to x y.
Proof.
  revert x known; induction hs as [|h hs IH]; intros x known; cbn [read_chain]; [intros [= <- <-]; split; [reflexivity|constructor]|].
  unfold mbind, prog_bind. destruct (readBlock _ _) as [o z| |] eqn:E; [|discriminate..].
  destruct (read_chain hs z) as [rest z'| |] eqn:E2; [|discriminate..]. intros [= <- <-].
  destruct (IH _ _ E2) as [H1 H2]. split; [cbn; lia|exact (reads_more _ _ _ _ _ E H2)].
Qed.

Lemma add_blocks_seen bs x m w l known : _unChaindedWindow m = mkWindow w (map (seen l) known) ->
  add_blocks bs (x, m) = Ok tt (x, set_window (mkWindow w (map (seen (l ++ bs)) known)) m).
Proof. intros Hm. now rewrite (add_blocks_put bs x m w _ (seen_ok l known) Hm), window_put_seen. Qed.

(** The wait, from a window that has seen the blocks [l]. *)
Lemma downloadWindow_spec n : forall arrived x m w l known,
  _unChaindedWindow m = mkWindow w (map (seen l) known) ->
  exists rest, downloadWindow n arrived (x, m) =
    Ok (all_there known (waited n arrived known l), rest) (x, set_window (mkWindow w (map (seen (waited n arrived known l)) known)) m).
Proof.
  induction n as [|n IH]; intros arrived x m w l known Hm; unfold downloadWindow; cbn [download_loop waited].
  - rewrite (run_bind _ _ _ arrived (x, m) eq_refl), (run_bind _ _ _ _ _ (add_blocks_seen _ x m w l known Hm)), run_get.
    cbn [snd set_window _unChaindedWindow]. rewrite complete_seen. now exists (tail arrived).
  - assert (isComplete (_unChaindedWindow m) = all_there known l) as Hc by (rewrite Hm; apply complete_seen).
    destruct (all_there known l) eqn:E.
    + rewrite (run_bind _ _ _ arrived (x, m)) by (rewrite run_get; cbn [snd]; now rewrite Hc).
      rewrite (run_bind _ _ _ _ _ (add_blocks_seen _ x m w l known Hm)), run_get.
      cbn [snd set_window _unChaindedWindow]. rewrite complete_seen. now exists (tail arrived).
    + set (m1 := set_window (mkWindow w (map (seen (l ++ default [] (head arrived))) known)) m).
      destruct (IH (tail arrived) x m1 w (l ++ default [] (head arrived)) known eq_refl) as (rest & HE). exists rest.
      change (set_window (mkWindow w ?s) m) with (set_window (mkWindow w s) m1). rewrite <- HE. unfold downloadWindow.
      unfold mbind at 1 7, prog_bind at 1 7. unfold mbind at 1, prog_bind at 1. cbn [get_state snd]. rewrite Hc.
      now rewrite (run_bind _ _ _ _ _ (add_blocks_seen _ x m w l known Hm)).
Qed.

(** Storing the blocks of a window. *)
Lemma store_from_spec n l : forall known0 known x m w,
  _unChaindedWindow m = mkWindow w (map (seen l) (known0 ++ known)) -> (n <= length known)%nat ->
  store_from n (Z.of_nat (length known0)) (x, m) = beside m (write_missing l (take n known) x).
Proof.
  induction n as [|n IH]; intros known0 known x m w Hm Hn; [reflexivity|]. destruct known as [|[h o] known]; [cbn in Hn; lia|].
  cbn [store_from take write_missing]. rewrite run_get. cbn [snd].
  assert (Window_at (Z.of_nat (length known0)) (_unChaindedWindow m) = (is_some o, target_block l (h, o))) as ->.
  { unfold Window_at. rewrite Hm, Nat2Z.id. cbn [_segmentVector]. rewrite map_app. cbn [map].
    rewrite <- (length_map (seen l) known0). now rewrite list_lookup_middle. }
  assert (_unChaindedWindow m = mkWindow w (map (seen l) ((known0 ++ [(h, o)]) ++ known))) as Hm' by now rewrite <- app_assoc.
  assert (Z.of_nat (length known0) + 1 = Z.of_nat (length (known0 ++ [(h, o)]))) as Hnext by (rewrite length_app; cbn; lia).
  assert (n <= length known)%nat as Hn' by (cbn in Hn; lia).
  rewrite Hnext. cbn [fst snd]. destruct o as [b|]; cbn [is_some].
  - rewrite (run_bind _ _ _ tt (x, m) eq_refl). exact (IH _ _ _ _ _ Hm' Hn').
  - unfold target_block. cbn [fst snd]. destruct (latest h l) as [b|]; [|reflexivity].
    unfold mbind, prog_bind, must, mret, prog_ret, on_storage, zoom. cbn [fst snd]. destruct (writeBlock b x) as [[] y| |]; [|reflexivity..].
    exact (IH _ _ _ _ _ Hm' Hn').
Qed.

Lemma write_missing_none l known x : Forall (fun k : known_block => k.2 <> None) known -> write_missing l known x = Ok tt x.
Proof. induction 1 as [|[h [b|]] known H _ IH]; [reflexivity|exact IH|contradiction]. Qed.

Lemma start_download (hs : list BlockHeader) (arrived : list (list Block)) (x : storage) rounds :
  storage_part (BlockSync_start (S (S rounds)) arrived (x, VirtualBlockSyncManager_new hs)) = download_chain hs arrived x.
Proof.
  destruct (decide (hs = [])) as [->|Hne]; [reflexivity|].
  unfold BlockSync_start. cbn [start_loop]. rewrite run_get. cbn [snd].
  change (_chain (VirtualBlockSyncManager_new hs)) with (map VirtualBlock_new hs).
  change (_verifiedIndex (VirtualBlockSyncManager_new hs)) with 0%nat. rewrite !drop_0, length_map. cbn [Nat.max].
  destruct (Nat.ltb_spec 0 (length hs)) as [_|H]; [|destruct hs; [easy|cbn in H; lia]].
  destruct (map VirtualBlock_new hs) as [|v vs] eqn:Ev; [now destruct hs|]. rewrite <- Ev. clear v vs Ev.
  unfold download_chain. destruct (read_chain hs x) as [known y|e y|] eqn:Er.
  all: pose proof (setupWindow_reads hs x) as E1; rewrite Er in E1.
  2,3: unfold mbind, prog_bind; now rewrite E1, Er.
  destruct (read_chain_length _ _ _ _ Er) as [Hl _]. rewrite (run_bind _ _ _ _ _ Er), Hl.
  set (w := Z.of_nat (length hs) mod 2 ^ 16).
  assert (Z.to_nat w <= length known)%nat as Hw by (unfold w; pose proof (Z.mod_le (Z.of_nat (length hs)) (2 ^ 16)); lia).
  set (m := set_window (mkWindow w (map (seen []) known)) (VirtualBlockSyncManager_new hs)).
  destruct (downloadWindow_spec 4 arrived y m w [] known eq_refl) as (rest & E2). set (l := waited 4 arrived known []) in *.
  set (m1 := set_window (mkWindow w (map (seen l) known)) m) in *.
  rewrite (run_bind _ _ _ _ _ E1), (run_bind _ _ _ _ _ E2). cbn [fst snd]. destruct (all_there known l); [|reflexivity].
  rewrite run_get. cbn [snd]. change (_windowSize (_unChaindedWindow m1)) with w.
  pose proof (store_from_spec (Z.to_nat w) l [] known y m1 w eq_refl Hw) as E3. change (Z.of_nat (length (@nil known_block))) with 0 in E3.
  assert (forall z, start_loop (S rounds) (length hs) rest (z, m1) = Ok true (z, m1)) as E4.
  { intros z. cbn [start_loop]. rewrite run_get. cbn [snd]. change (_chain m1) with (map VirtualBlock_new hs).
    now rewrite length_map, Nat.ltb_irrefl. }
  unfold mbind, prog_bind. rewrite E3.
  destruct (write_missing l (take (Z.to_nat w) known) y) as [[] z| |]; [|reflexivity..]. cbn [beside]. exact (f_equal storage_part (E4 z)).
Qed.
(** C17: Synchronising the blocks of a chain of headers, with any storage, comes to this: the block of every
    header is read from the storage, in the order of the chain; then blocks are awaited, four times at most
    while one is missing and once more; if each header then has a block, those that the storage did not have are
    written, in the order of the chain and each as it arrived last, and else nothing is; [start] ends and returns true
    in both cases. Of a chain of 2^16 headers or more only the first are written, as many as its
    length modulo 2^16. Nothing is assumed of the storage: what throws or is undefined in one of its operations
    throws or is undefined here, at the same place. *)
Theorem block_sync_downloads_chain (hs : list BlockHeader) (arrived : list (list Block)) (x : storage) rounds :
  storage_part (BlockSync_start (S (S rounds)) arrived (x, VirtualBlockSyncManager_new hs)) = download_chain hs arrived x.
Proof. apply start_download. Qed.

Lemma start_inv {A} (r : result (storage * VirtualBlockSyncManager) A) a s : r = Ok a s -> storage_part r = Ok a s.1.
Proof. now intros ->. Qed.

Lemma waited_nothing n known : forall arrived l, Forall (fun bs : list Block => bs = []) arrived -> waited n arrived known l = l.
Proof.
  induction n as [|n IH]; intros arrived l Ha; cbn [waited].
  - destruct Ha as [|bs ? -> _]; apply app_nil_r.
  - assert (l ++ default [] (head arrived) = l) as -> by (destruct Ha as [|bs ? -> _]; apply app_nil_r).
    destruct (all_there known l); [reflexivity|]. apply IH. now destruct Ha.
Qed.

(** A download that fails is reported as a success, and nothing has been stored. *)
Theorem block_sync_failure_is_success (hs : list BlockHeader) (arrived : list (list Block)) (x y : storage) known rounds :
  read_chain hs x = Ok known y -> all_there known (waited 4 arrived known []) = false ->
  storage_part (BlockSync_start (S (S rounds)) arrived (x, VirtualBlockSyncManager_new hs)) = Ok true y.
Proof. intros Er Hc. rewrite start_download. unfold download_chain. rewrite (run_bind _ _ _ _ _ Er), Hc. reflexivity. Qed.

(** A synchronisation no block reaches only reads. *)
Lemma start_idle hs arrived x r s :
  Forall (fun bs : list Block => bs = []) arrived ->
  BlockSync_start 2 arrived (x, VirtualBlockSyncManager_new hs) = Ok r s -> r = true /\ reads_to x s.1.
Proof.
  intros Ha H%start_inv. rewrite start_download in H. unfold download_chain in H.
  destruct (read_chain hs x) as [known y| |] eqn:Er; [|unfold mbind, prog_bind in H; rewrite Er in H; discriminate..].
  destruct (read_chain_length _ _ _ _ Er) as [_ Hr]. rewrite (run_bind _ _ _ _ _ Er), (waited_nothing _ _ _ _ Ha) in H.
  destruct (all_there known []) eqn:Ec; [|injection H as <- <-; now split].
  rewrite (run_bind _ _ _ tt y) in H; [injection H as <- <-; now split|]. apply write_missing_none, Forall_take, Forall_forall.
  intros k Hk En. unfold all_there in Ec. rewrite forallb_forall in Ec. specialize (Ec k). rewrite <- list_elem_of_In in Ec.
  specialize (Ec Hk). unfold target_block in Ec. rewrite En in Ec. discriminate.
Qed.
End sync_proofs.

(** ** A storage in memory *)

Definition memory_storage {ssl : OpenSSL} : BlockLocalStrage := {|
  storage := list byte -> option Block;
  readBlock h x := match h with Some h => Ok (x h) x | None => Undef end;
  writeBlock b x :=
    match Block_blockHash b with
    | Some h => Ok tt (fun k => if decide (k = h) then Some b else x k)
    | None => Undef
    end;
|}.

Definition bare_block (h : BlockHeader) : Block (ssl := chain_ssl) := mkBlock h None [].
Definition local_only (h : BlockHeader) : storage (BlockLocalStrage := memory_storage (ssl := chain_ssl)) :=
  fun k => if decide (k = hash_of (ssl := chain_ssl) h) then Some (bare_block h) else None.

Lemma mask_opens_exactly_witness :
  BDFilter_mask (ssl := chain_ssl) [sample_1]
    (mkFilter false (map (fun h => (hash_of (ssl := chain_ssl) h, BDBCB_hash None)) [sample_1; sample_2])) =
  Ok tt (mkFilter false [(hash_of (ssl := chain_ssl) sample_1, set_isClosed false (BDBCB_hash None));
                         (hash_of (ssl := chain_ssl) sample_2, set_isClosed true (BDBCB_hash None))]).
Proof.
  refine (eq_trans (mask_opens_exactly (ssl := chain_ssl) (laws := chain_ssl_laws) [sample_1]
    (mkFilter false (map (fun h => (hash_of (ssl := chain_ssl) h, BDBCB_hash None)) [sample_1; sample_2])) _) _).
  - repeat constructor.
  - vm_compute. reflexivity.
Defined.

(** Two of three blocks arrive, the other is there. *)
Lemma block_sync_downloads_chain_witness :
  match storage_part (BlockSync_start (ssl := chain_ssl) (st := memory_storage) 2
      [[bare_block sample_3]; []; [bare_block sample_2]] (local_only sample_1, VirtualBlockSyncManager_new sample_chain)) with
  | Ok r x => r = true /\ map (fun h => x (hash_of (ssl := chain_ssl) h)) sample_chain = map (fun h => Some (bare_block h)) sample_chain
  | _ => False
  end.
Proof.
  rewrite (block_sync_downloads_chain (ssl := chain_ssl) (laws := chain_ssl_laws) (st := memory_storage) sample_chain
    [[bare_block sample_3]; []; [bare_block sample_2]] (local_only sample_1) 0).
  vm_compute. split; reflexivity.
Defined.
