(* ===== verification/ChainSync.v ===== *)
(** Synchronising a chain with the network: the iterator over stored blocks
    ([chain/block_chain_iterator/]) and the manager that joins filter, header and block
    synchronisation ([chain/chain_sync_manager/chain_sync_manager.cpp]). *)
From S2P Require Import Prelude Crypto Script TxFormat P2PKH BlockHeader Coinbase Block HeaderSync BlockSync.
From Stdlib Require Import Lia.

Section ChainSync_code.
Context {ssl : OpenSSL} {host : Host} {st : BlockLocalStrage}.

(** ** The iterator *)

(** [has_storage] says whether the storage pointer is set. *)
Record BlockChainIterator : Type := mkIterator {
  _body : option Block;
  has_storage : bool;
  cache_blockHash : buffer;
  cache_heigth : Z;
}.

Definition Iterator_null : BlockChainIterator := mkIterator None false None (-1).

(** Code on an iterator over a storage. *)
Definition read_storage {A} (c : prog storage A) : prog (storage * BlockChainIterator) A :=
  zoom (fun s : storage * BlockChainIterator => s.1) (fun (x : storage) s => (x, s.2)) c.
Definition set_body (b : option Block) (i : BlockChainIterator) : BlockChainIterator :=
  mkIterator b (has_storage i) (cache_blockHash i) (cache_heigth i).

Definition setupFromBlockHash (from : buffer) : prog (storage * BlockChainIterator) bool :=
  s ← get_state;
  if negb (has_storage s.2) then undef
  else
    thisBlock ← read_storage (readBlock from);
    match thisBlock with
    | None => mret false
    | Some b => s ← get_state; _ ← set_state (s.1, set_body (Some b) s.2); mret true
    end.

(** The cache, set by the constructors only. *)
Definition set_cache : prog (storage * BlockChainIterator) unit :=
  s ← get_state;
  match _body s.2 with
  | None => mret tt
  | Some b =>
      h ← must (Block_blockHash b);
      height ← must (Block_height b);
      set_state (s.1, mkIterator (Some b) (has_storage s.2) (Some h) height)
  end.

(** [present]: the storage pointer that is given is not null. *)
Definition BlockChainIterator_hash (present : bool) (blockHash : buffer) : prog storage BlockChainIterator := fun x =>
  match (if negb present then mret tt
         else match blockHash with
              | None => mret tt
              | Some _ =>
                  s ← get_state;
                  _ ← set_state (s.1, mkIterator None true None (-1));
                  _ ← setupFromBlockHash blockHash; set_cache
              end) (x, Iterator_null) with
  | Ok _ s => Ok s.2 s.1
  | Throw e s => Throw e s.1
  | Undef => Undef
  end.

(** This constructor does not keep the storage. *)
Definition BlockChainIterator_block (present : bool) (body : option Block) : prog storage BlockChainIterator := fun x =>
  match (if negb present then mret tt
         else _ ← set_state (x, set_body body Iterator_null); set_cache) (x, Iterator_null) with
  | Ok _ s => Ok s.2 s.1
  | Throw e s => Throw e s.1
  | Undef => Undef
  end.

Definition Iterator_decr : prog (storage * BlockChainIterator) unit :=
  s ← get_state;
  b ← must (_body s.2);
  _ ← setupFromBlockHash (prevBlockHash (_header b));
  mret tt.

Definition Iterator_prev (i : BlockChainIterator) : prog storage (option BlockChainIterator) :=
  b ← must (_body i);
  match prevBlockHash (_header b) with
  | None => mret None
  | Some prev => r ← BlockChainIterator_hash (has_storage i) (Some prev); mret (Some r)
  end.

Definition Iterator_header (i : BlockChainIterator) : option BlockHeader :=
  match _body i with None => None | Some b => Some (_header b) end.

Definition isHead (i : BlockChainIterator) : option bool := memeq 32 (cache_blockHash i) (Some (replicate 32 x00)).

Definition Iterator_eqb (a b : BlockChainIterator) : option bool :=
  x ← _body a; h ← Block_blockHash x; memeq 32 (Some h) (cache_blockHash b).

(** ** The manager *)

Inductive ChainSyncManagerState : Type :=
| CS_WORKING | CS_PENDING | CS_FINISHED
| HEADER_SYNC_MANAGER_WORKING | HEADER_SYNC_MANAGER_DONE | HEADER_SYNC_MANAGER_FAILED
| BLOCK_SYNC_MANAGER_WORKING | BLOCK_SYNC_MANAGER_FAILED | BLOCK_SYNC_MANAGER_DONE
| CS_TIMEOUT | CS_ERROR.

(** The fork point is the iterator the manager refers to; [ticks] counts the readings of
    the clock. *)
Record ChainSyncManager : Type := mkChainSync {
  _forkPoint : BlockChainIterator;
  cs_status : ChainSyncManagerState;
  cs_filter : BDFilter;
  _headerSyncManager : option VirtualHeaderSyncManager;
  _blockSyncManager : option VirtualBlockSyncManager;
  local_storage : storage;
  ticks : nat;
}.

Definition set_forkPoint (i : BlockChainIterator) (x : storage) (m : ChainSyncManager) : ChainSyncManager :=
  mkChainSync i (cs_status m) (cs_filter m) (_headerSyncManager m) (_blockSyncManager m) x (ticks m).
Definition set_cs_status (s : ChainSyncManagerState) (m : ChainSyncManager) : ChainSyncManager :=
  mkChainSync (_forkPoint m) s (cs_filter m) (_headerSyncManager m) (_blockSyncManager m) (local_storage m) (ticks m).
Definition set_cs_filter (f : BDFilter) (m : ChainSyncManager) : ChainSyncManager :=
  mkChainSync (_forkPoint m) (cs_status m) f (_headerSyncManager m) (_blockSyncManager m) (local_storage m) (ticks m).
Definition set_headerSync (t : nat) (h : VirtualHeaderSyncManager) (m : ChainSyncManager) : ChainSyncManager :=
  mkChainSync (_forkPoint m) (cs_status m) (cs_filter m) (Some h) (_blockSyncManager m) (local_storage m) t.
Definition set_blockSync (x : storage) (b : VirtualBlockSyncManager) (m : ChainSyncManager) : ChainSyncManager :=
  mkChainSync (_forkPoint m) (cs_status m) (cs_filter m) (_headerSyncManager m) (Some b) x (ticks m).

Definition on_filter {A} : prog BDFilter A -> prog ChainSyncManager A := zoom cs_filter set_cs_filter.
Definition on_forkPoint {A} : prog (storage * BlockChainIterator) A -> prog ChainSyncManager A :=
  zoom (fun m => (local_storage m, _forkPoint m)) (fun s => set_forkPoint s.2 s.1).
(** A null manager pointer is dereferenced. *)
Definition on_headerSync {A} (c : prog (nat * VirtualHeaderSyncManager) A) : prog ChainSyncManager A := fun m =>
  match _headerSyncManager m with
  | None => Undef
  | Some h => zoom (fun m => (ticks m, h)) (fun s => set_headerSync s.1 s.2) c m
  end.
Definition on_blockSync {A} (c : prog (storage * VirtualBlockSyncManager) A) : prog ChainSyncManager A := fun m =>
  match _blockSyncManager m with
  | None => Undef
  | Some b => zoom (fun m => (local_storage m, b)) (fun s => set_blockSync s.1 s.2) c m
  end.

(** The status is not initialised when the fork point has no block, zero here. *)
Definition ChainSyncManager_new (initialForkPoint : BlockChainIterator) (x : storage) (t : nat) : result ChainSyncManager unit :=
  (match _body initialForkPoint with
   | None => mret tt
   | Some b => _ ← on_filter (filter_block b false); modify (set_cs_status CS_PENDING)
   end) (mkChainSync initialForkPoint CS_WORKING BDFilter_new None None x t).

(** The headers the filter lets pass. *)
Fixpoint pass_headers (targetVector : list BlockHeader) : prog BDFilter (list BlockHeader) :=
  match targetVector with
  | [] => mret []
  | itr :: v =>
      filterCtx ← filter_header itr false;
      f ← get_state;
      match filterCtx with
      | None => pass_headers v
      | Some key =>
          e ← must (bd_find key f);
          if BlockHeaderReceived <? bd_status e then pass_headers v
          else
            _ ← set_state (mkFilter (_isClose f) (bd_alter (set_bd_status BlockHeaderReceived) key (_filter f)));
            rest ← pass_headers v;
            mret (itr :: rest)
      end
  end.

Definition header_working (m : ChainSyncManager) : bool :=
  match cs_status m with HEADER_SYNC_MANAGER_WORKING => true | _ => false end.
Definition block_working (m : ChainSyncManager) : bool :=
  match cs_status m with BLOCK_SYNC_MANAGER_WORKING => true | _ => false end.

Definition ChainSync_add_headers (fuel : nat) (targetVector : list BlockHeader) : prog ChainSyncManager unit :=
  m ← get_state;
  if negb (header_working m) then mret tt
  else
    passedHeaderVector ← on_filter (pass_headers targetVector);
    on_headerSync (Manager_add fuel passedHeaderVector).

(** What [add] lets through of a block that has arrived. *)
Definition pass_block (targetBlock : Block) : prog ChainSyncManager bool :=
  m ← get_state;
  if negb (block_working m) then mret false
  else
    filterCtx ← on_filter (filter_block targetBlock false);
    m ← get_state;
    match filterCtx with
    | None => mret false
    | Some key => e ← must (bd_find key (cs_filter m)); mret (negb (BlockBodyReceived <? bd_status e))
    end.

Definition ChainSync_add_block (targetBlock : Block) : prog ChainSyncManager unit :=
  pass ← pass_block targetBlock;
  if pass : bool then on_blockSync (BlockSync_add targetBlock) else mret tt.

(** What reaches the waiting managers of what other threads hand to [add]: headers and
    blocks by batches, one list for each sleep. *)
Fixpoint pass_rounds (rounds : list (list (list BlockHeader))) : prog BDFilter (list (list (list BlockHeader))) :=
  match rounds with
  | [] => mret []
  | r :: l =>
      let fix batches (bs : list (list BlockHeader)) : prog BDFilter (list (list BlockHeader)) :=
        match bs with
        | [] => mret []
        | b :: bs' => p ← pass_headers b; ps ← batches bs'; mret (p :: ps)
        end in
      p ← batches r; ps ← pass_rounds l; mret (p :: ps)
  end.

Fixpoint pass_blocks (bs : list Block) : prog ChainSyncManager (list Block) :=
  match bs with
  | [] => mret []
  | b :: bs' => pass ← pass_block b; rest ← pass_blocks bs'; mret (if pass : bool then b :: rest else rest)
  end.

Fixpoint pass_block_rounds (rounds : list (list Block)) : prog ChainSyncManager (list (list Block)) :=
  match rounds with
  | [] => mret []
  | r :: l => p ← pass_blocks r; ps ← pass_block_rounds l; mret (p :: ps)
  end.

(** A header synchronisation from the fork point. *)
Definition run_headerSync (rounds fuel : nat) (stopHash : buffer) (arrived : list (list (list BlockHeader)))
  : prog ChainSyncManager bool :=
  m ← get_state;
  _ ← (fun m => match VirtualHeaderSyncManager_new (Iterator_header (_forkPoint m)) stopHash (ticks m) with
                | Ok h t => Ok tt (set_headerSync t h m)
                | Throw e t => Throw e m
                | Undef => Undef
                end);
  _ ← modify (set_cs_status HEADER_SYNC_MANAGER_WORKING);
  passed ← on_filter (pass_rounds arrived);
  on_headerSync (Manager_start rounds fuel passed).

Definition run_blockSync (headers : list BlockHeader) (arrived : list (list Block)) : prog ChainSyncManager bool :=
  _ ← modify (fun m => set_blockSync (local_storage m) (VirtualBlockSyncManager_new headers) m);
  passed ← pass_block_rounds arrived;
  on_blockSync (BlockSync_start 2 passed).

Fixpoint longest (fuel : nat) (pool : BlockHeaderPool) (l : list VirtualHeaderSubChain) (acc : list BlockHeader)
  : option (list BlockHeader) :=
  match l with
  | [] => Some acc
  | itr :: l' =>
      headerChain ← exportChainVector fuel pool itr;
      longest fuel pool l' (if (length acc <? length headerChain)%nat then headerChain else acc)
  end.

(** The loop of [forward], with the tries that are left; [None]: the thread has returned. *)
Fixpoint forward_loop (tries rounds fuel : nat) (arrived : list (list (list (list BlockHeader))))
  : prog ChainSyncManager (option (list BlockHeader)) :=
  match tries with
  | O => mret (Some [])
  | S tries' =>
      m ← get_state;
      atHead ← must (isHead (_forkPoint m));
      if atHead : bool then _ ← modify (set_cs_status HEADER_SYNC_MANAGER_FAILED); mret None
      else
        _ ← run_headerSync rounds fuel None (default [] (head arrived));
        m ← get_state;
        h ← must (_headerSyncManager m);
        longestHeaderChain ← must (longest fuel (_blockHeaderPool h) (subchainVector h) []);
        if (1 <? length longestHeaderChain)%nat then mret (Some longestHeaderChain)
        else _ ← on_forkPoint Iterator_decr; forward_loop tries' rounds fuel (tail arrived)
  end.

Definition ALLOWED_FORKPOINT_DECREMENTS : nat := 4.

(** The thread of [forward]; too short a chain is a failure that is overwritten. *)
Definition forward (rounds fuel : nat) (arrived : list (list (list (list BlockHeader)))) (blocks : list (list Block))
  : prog ChainSyncManager unit :=
  r ← forward_loop ALLOWED_FORKPOINT_DECREMENTS rounds fuel arrived;
  match r with
  | None => mret tt
  | Some longestHeaderChain =>
      _ ← (if (length longestHeaderChain <=? 1)%nat then modify (set_cs_status HEADER_SYNC_MANAGER_FAILED) else mret tt);
      _ ← modify (set_cs_status HEADER_SYNC_MANAGER_DONE);
      blockSyncCompleteFlag ← run_blockSync longestHeaderChain blocks;
      modify (set_cs_status (if blockSyncCompleteFlag : bool then BLOCK_SYNC_MANAGER_DONE else BLOCK_SYNC_MANAGER_FAILED))
  end.

(** The loop of [backward] goes on while the last header synchronisation failed; [decrements]
    counts its rounds. [None]: the thread has returned. *)
Fixpoint backward_loop (tries decrements rounds fuel : nat) (stopHash : buffer) (arrived : list (list (list (list BlockHeader))))
  : prog ChainSyncManager (option bool) :=
  match tries with
  | O => undef
  | S tries' =>
      m ← get_state;
      atHead ← must (isHead (_forkPoint m));
      if atHead : bool then _ ← modify (set_cs_status HEADER_SYNC_MANAGER_FAILED); mret None
      else
        headerSyncCompleteFlag ← run_headerSync rounds fuel stopHash (default [] (head arrived));
        _ ← on_forkPoint Iterator_decr;
        if negb headerSyncCompleteFlag || (S decrements <? ALLOWED_FORKPOINT_DECREMENTS)%nat
        then backward_loop tries' (S decrements) rounds fuel stopHash (tail arrived)
        else mret (Some headerSyncCompleteFlag)
  end.

Definition backward (tries rounds fuel : nat) (objectiveHeader : BlockHeader)
    (arrived : list (list (list (list BlockHeader)))) (blocks : list (list Block)) : prog ChainSyncManager unit :=
  stopHash ← must (headerHash objectiveHeader);
  r ← backward_loop tries 0 rounds fuel (Some stopHash) arrived;
  match r with
  | None => mret tt
  | Some headerSyncCompleteFlag =>
      if negb headerSyncCompleteFlag then modify (set_cs_status HEADER_SYNC_MANAGER_FAILED)
      else
        _ ← modify (set_cs_status HEADER_SYNC_MANAGER_DONE);
        m ← get_state;
        h ← must (_headerSyncManager m);
        syncedHeaderSubchain ← must (stopedHeaderSubchain h);
        syncedHeaderVector ← must (exportChainVector fuel (_blockHeaderPool h) syncedHeaderSubchain);
        blockSyncCompleteFlag ← run_blockSync syncedHeaderVector blocks;
        modify (set_cs_status (if blockSyncCompleteFlag : bool then BLOCK_SYNC_MANAGER_DONE else BLOCK_SYNC_MANAGER_FAILED))
  end.
End ChainSync_code.

(** ** The filter on headers *)

Section headers.
Context {ssl : OpenSSL} {laws : OpenSSL_laws}.

Definition keys_ok (l : list (list byte * BDBCB)) : Prop := Forall (fun e : list byte * BDBCB => length e.1 = 32%nat) l.

(** The filter knows the block of a header already, beyond its header. *)
Definition blocked (f : BDFilter) (h : BlockHeader) : bool :=
  match bd_find (hash_of h) f with Some e => BlockHeaderReceived <? bd_status e | None => false end.

Lemma range_cons {A} k (x : list byte * A) r :
  length x.1 = 32%nat -> length k = 32%nat ->
  equal_range k (x :: r) = if bool_decide (x.1 = k) then x.2 :: equal_range k r else equal_range k r.
Proof.
  intros Hx Hk. unfold equal_range. cbn [List.filter]. rewrite same_key_eq by congruence. now case_bool_decide.
Qed.

Lemma alter_range g k k' l :
  keys_ok l -> length k = 32%nat -> length k' = 32%nat ->
  equal_range k' (bd_alter g k l) = if bool_decide (k' = k) then map g (equal_range k' l) else equal_range k' l.
Proof.
  intros Hl Hk Hk'. induction Hl as [|e l He Hl IH]; [cbn; now case_bool_decide|].
  unfold bd_alter. cbn [map]. fold (bd_alter g k l). rewrite same_key_eq by congruence.
  rewrite (range_cons k' e l He Hk').
  destruct (bool_decide (e.1 = k)) eqn:E; rewrite range_cons by assumption; cbn [fst snd]; rewrite IH;
    [apply bool_decide_eq_true in E|apply bool_decide_eq_false in E]; repeat case_bool_decide; try reflexivity; congruence.
Qed.

Lemma alter_keys g k l : keys_ok l -> keys_ok (bd_alter g k l).
Proof. intros H. apply Forall_map. eapply Forall_impl; [exact H|]. intros e He. cbn. now destruct (same_key e.1 k). Qed.

Lemma head_map {A B} (g : A -> B) l : head (map g l) = match head l with Some a => Some (g a) | None => None end.
Proof. now destruct l. Qed.

(** What the filter makes of one header. *)
Lemma pass_one h f :
  _isClose f = false -> keys_ok (_filter f) -> exists f' e,
    filter_header h false f = Ok (Some (hash_of h)) f' /\ _isClose f' = false /\ keys_ok (_filter f') /\
    bd_find (hash_of h) f' = Some e /\ (BlockHeaderReceived <? bd_status e) = blocked f h /\
    (forall k, length k = 32%nat -> k <> hash_of h -> bd_find k f' = bd_find k f).
Proof.
  intros Hc Hf. unfold filter_header. rewrite run_get, Hc, headerHash_some, run_must.
  unfold BlockHashAsKey. rewrite rd_hash, run_must. unfold filter_key. rewrite run_get. unfold blocked.
  destruct (bd_find (hash_of h) f) as [e|] eqn:E.
  - exists f, e. repeat split; auto.
  - unfold BDBCB_header. rewrite headerHash_some. cbn [mbind option_bind]. rewrite run_must.
    set (new := mkBDBCB _ _ _ _ _). exists (mkFilter false (_filter f ++ [(hash_of h, new)])), new.
    unfold bd_find in *. cbn [_filter]. split; [rewrite Hc; reflexivity|]. split; [reflexivity|]. split; [|split; [|split; [reflexivity|]]].
    + apply Forall_app. split; [exact Hf|]. constructor; [apply hash_of_length|constructor].
    + rewrite equal_range_app. destruct (equal_range (hash_of h) (_filter f)); [|discriminate].
      rewrite range_cons by apply hash_of_length. now rewrite bool_decide_eq_true_2.
    + intros k Hk Hne. rewrite equal_range_app, (range_cons k) by (assumption || apply hash_of_length).
      rewrite bool_decide_eq_false_2 by (cbn; congruence). now rewrite app_nil_r.
Qed.

(** The filter never holds a header back for having come before: of a batch it passes, in
    order and with repetitions, all headers but those whose block is known beyond its
    header, and afterwards it would pass the same ones again. *)
Theorem header_filter_passes (l : list BlockHeader) (f : BDFilter) :
  _isClose f = false -> keys_ok (_filter f) ->
  exists f', pass_headers l f = Ok (List.filter (fun h => negb (blocked f h)) l) f' /\
    _isClose f' = false /\ keys_ok (_filter f') /\ forall h, blocked f' h = blocked f h.
Proof.
  revert f; induction l as [|h l IH]; intros f Hc Hf; [now exists f|]. cbn [pass_headers List.filter].
  destruct (pass_one h f Hc Hf) as (f1 & e & HE & Hc1 & Hf1 & He & Hb & Hk).
  rewrite (run_bind _ _ _ _ _ HE), run_get, He, run_must, Hb.
  assert (Hsame1 : forall h', blocked f1 h' = blocked f h').
  { intros h'. unfold blocked. destruct (decide (hash_of h' = hash_of h)) as [->|Hne].
    - rewrite He. unfold blocked in Hb. exact Hb.
    - now rewrite Hk by (apply hash_of_length || exact Hne). }
  destruct (blocked f h) eqn:Ebl; cbn [negb].
  - destruct (IH f1 Hc1 Hf1) as (f' & HE' & H1 & H2 & H3). exists f'. split; [|repeat split; auto].
    + rewrite HE'. f_equal. apply List.filter_ext. intros h'. now rewrite Hsame1.
    + intros h'. now rewrite H3.
  - set (f2 := mkFilter _ _).
    assert (Hsame2 : forall h', blocked f2 h' = blocked f h').
    { intros h'. rewrite <- Hsame1. unfold blocked, bd_find, f2. cbn [_filter].
      rewrite alter_range by (assumption || apply hash_of_length).
      case_bool_decide as E; [|reflexivity]. rewrite head_map, E. fold (bd_find (hash_of h) f1). rewrite He.
      symmetry. exact Hb. }
    destruct (IH f2 Hc1 (alter_keys _ _ _ Hf1)) as (f' & HE' & H1 & H2 & H3). exists f'. split; [|repeat split; auto].
    + rewrite (run_bind (set_state f2) _ _ tt f2 eq_refl), (run_bind _ _ _ _ _ HE').
      unfold mret, prog_ret. do 2 f_equal. apply List.filter_ext. intros h'. now rewrite Hsame2.
    + intros h'. now rewrite H3.
Qed.
End headers.

(** ** The threads *)

Section threads.
Context {ssl : OpenSSL} {laws : OpenSSL_laws} {host : Host} {st : BlockLocalStrage}.

Lemma filter_stays {A} (c : prog BDFilter A) m a m' :
  on_filter c m = Ok a m' -> _forkPoint m' = _forkPoint m /\ local_storage m' = local_storage m /\ cs_status m' = cs_status m.
Proof. unfold on_filter, zoom. destruct (c (cs_filter m)); try discriminate. now intros [= _ <-]. Qed.

Lemma headerSync_stays {A} (c : prog (nat * VirtualHeaderSyncManager) A) m a m' :
  on_headerSync c m = Ok a m' ->
  _forkPoint m' = _forkPoint m /\ local_storage m' = local_storage m /\ cs_status m' = cs_status m.
Proof.
  unfold on_headerSync. destruct (_headerSyncManager m); [|discriminate]. unfold zoom.
  destruct (c _); try discriminate. now intros [= _ <-].
Qed.

(** A header synchronisation that returns has failed. *)
Lemma run_headerSync_fails rounds fuel stopHash arrived m b m' :
  run_headerSync rounds fuel stopHash arrived m = Ok b m' ->
  b = false /\ _forkPoint m' = _forkPoint m /\ local_storage m' = local_storage m.
Proof.
  unfold run_headerSync. rewrite run_get. unfold mbind at 1, prog_bind at 1.
  destruct (VirtualHeaderSyncManager_new _ _ _) as [h t| |]; try discriminate.
  rewrite (run_bind (modify _) _ _ tt (set_cs_status HEADER_SYNC_MANAGER_WORKING (set_headerSync t h m)) eq_refl).
  unfold mbind, prog_bind. destruct (on_filter _ _) as [passed m2| |] eqn:Ef; try discriminate.
  apply filter_stays in Ef as (E1 & E2 & _). intros E.
  pose proof (headerSync_stays _ _ _ _ E) as (E3 & E4 & _).
  change (_forkPoint m2 = _forkPoint m) in E1. change (local_storage m2 = local_storage m) in E2.
  split; [|split; congruence].
  unfold on_headerSync in E. destruct (_headerSyncManager m2) as [h2|]; [|discriminate].
  unfold zoom in E. destruct (Manager_start _ _ _ _) as [b2 y| |] eqn:Es; try discriminate. injection E as <- _.
  pose proof (start_outcome rounds fuel passed (ticks m2, h2)) as Ho.
  destruct (is_finished _); [rewrite Ho in Es; discriminate|]. exact (Ho _ _ Es).
Qed.

(** Stepping the fork point back leaves the cache of the iterator. *)
Lemma decr_cache m u m' :
  on_forkPoint Iterator_decr m = Ok u m' ->
  cache_blockHash (_forkPoint m') = cache_blockHash (_forkPoint m).
Proof.
  unfold on_forkPoint, zoom, Iterator_decr. rewrite run_get. cbn [snd].
  destruct (_body (_forkPoint m)) as [b|]; [rewrite run_must|discriminate].
  unfold mbind at 1, prog_bind at 1. unfold setupFromBlockHash. rewrite run_get. cbn [snd].
  destruct (has_storage _); cbn [negb]; [|discriminate].
  unfold mbind at 1, prog_bind at 1, read_storage, zoom. cbn [fst].
  destruct (readBlock _ _) as [[r|] x| |]; try discriminate; now intros [= _ <-].
Qed.

(** The loop of [backward] does not come to an end away from the head. *)
Lemma backward_loop_runs tries n rounds fuel stopHash arrived m r m' :
  isHead (_forkPoint m) <> Some true -> backward_loop tries n rounds fuel stopHash arrived m <> Ok r m'.
Proof.
  revert n arrived m; induction tries as [|tries IH]; intros n arrived m H E; [discriminate|].
  cbn [backward_loop] in E. rewrite run_get in E.
  destruct (isHead (_forkPoint m)) as [[]|] eqn:Eh; [easy| |discriminate]. rewrite run_must in E.
  unfold mbind at 1, prog_bind at 1 in E.
  destruct (run_headerSync _ _ _ _ m) as [b m2| |] eqn:E2; try discriminate.
  apply run_headerSync_fails in E2 as (-> & E3 & _). unfold mbind at 1, prog_bind at 1 in E.
  destruct (on_forkPoint _ m2) as [u m3| |] eqn:E4; try discriminate. apply decr_cache in E4. cbn [negb orb] in E.
  revert E. apply IH. unfold isHead in *. now rewrite E4, E3, Eh.
Qed.

(** C26: [backward] never synchronises: if the fork point is at the head of the chain it returns
    at once with a failure, and otherwise it does not return, whatever headers and blocks
    arrive, because the wait for headers never reports success and the fork point, stepping
    back, never gets to the head: the hash its test looks at is not updated. *)
Theorem backward_never_syncs (tries rounds fuel : nat) (objectiveHeader : BlockHeader)
    (arrived : list (list (list (list BlockHeader)))) (blocks : list (list Block)) (m : ChainSyncManager) :
  match isHead (_forkPoint m) with
  | Some true => backward (S tries) rounds fuel objectiveHeader arrived blocks m =
                   Ok tt (set_cs_status HEADER_SYNC_MANAGER_FAILED m)
  | _ => forall m', backward tries rounds fuel objectiveHeader arrived blocks m <> Ok tt m'
  end.
Proof.
  unfold backward. rewrite headerHash_some. rewrite ?run_must.
  destruct (isHead (_forkPoint m)) as [[]|] eqn:Eh.
  - cbn [backward_loop]. unfold mbind, prog_bind. cbn [get_state]. rewrite Eh. reflexivity.
  - intros m'. unfold mbind, prog_bind. destruct (backward_loop _ _ _ _ _ _ m) eqn:E2; try discriminate.
    exfalso. revert E2. apply backward_loop_runs. now rewrite Eh.
  - intros m'. unfold mbind, prog_bind. destruct (backward_loop _ _ _ _ _ _ m) eqn:E2; try discriminate.
    exfalso. revert E2. apply backward_loop_runs. now rewrite Eh.
Qed.

(** Blocks that arrive while the status is not [BLOCK_SYNC_MANAGER_WORKING] are dropped. *)
Lemma pass_rounds_none rounds m :
  block_working m = false -> pass_block_rounds rounds m = Ok (map (fun _ => []) rounds) m.
Proof.
  intros Hm. induction rounds as [|r l IH]; [reflexivity|]. cbn [pass_block_rounds map].
  assert (Hr : pass_blocks r m = Ok [] m).
  { clear IH. induction r as [|b r IH]; [reflexivity|]. cbn [pass_blocks].
    assert (Hb : pass_block b m = Ok false m) by (unfold pass_block; rewrite run_get, Hm; reflexivity).
    now rewrite (run_bind _ _ _ _ _ Hb), (run_bind _ _ _ _ _ IH). }
  now rewrite (run_bind _ _ _ _ _ Hr), (run_bind _ _ _ _ _ IH).
Qed.

Lemma run_blockSync_idle headers arrived m r m' :
  block_working m = false -> run_blockSync headers arrived m = Ok r m' ->
  reads_to (local_storage m) (local_storage m') /\ r = true.
Proof.
  intros Hm. unfold run_blockSync. set (m1 := set_blockSync (local_storage m) (VirtualBlockSyncManager_new headers) m).
  rewrite (run_bind (modify (fun m => set_blockSync (local_storage m) (VirtualBlockSyncManager_new headers) m)) _ m tt m1 eq_refl).
  rewrite (run_bind _ _ _ _ _ (pass_rounds_none arrived m1 Hm)). unfold on_blockSync, zoom. cbn [m1 set_blockSync _blockSyncManager local_storage].
  destruct (BlockSync_start _ _ _) as [r1 z| |] eqn:E; [|discriminate..]. intros [= <- <-].
  apply start_idle in E as [-> Hz]; [|apply Forall_map, Forall_forall; now intros]. now split.
Qed.

Lemma decr_reads m u m' :
  on_forkPoint Iterator_decr m = Ok u m' ->
  reads_to (local_storage m) (local_storage m') /\ isHead (_forkPoint m') = isHead (_forkPoint m).
Proof.
  intros E. split; [|unfold isHead; now rewrite (decr_cache m u m' E)]. revert E.
  unfold on_forkPoint, zoom, Iterator_decr. rewrite run_get. cbn [snd].
  destruct (_body (_forkPoint m)) as [b|]; [rewrite run_must|discriminate].
  unfold mbind at 1, prog_bind at 1. unfold setupFromBlockHash. rewrite run_get. cbn [snd].
  destruct (has_storage _); cbn [negb]; [|discriminate].
  unfold mbind at 1, prog_bind at 1, read_storage, zoom. cbn [fst].
  destruct (readBlock _ _) as [[r|] x| |] eqn:E; try discriminate; intros [= _ <-]; exact (reads_more _ _ _ _ _ E (reads_none _)).
Qed.

Lemma forward_loop_stays tries rounds fuel arrived m r m' :
  forward_loop tries rounds fuel arrived m = Ok r m' ->
  reads_to (local_storage m) (local_storage m') /\
  (r = None -> isHead (_forkPoint m) = Some true /\ cs_status m' = HEADER_SYNC_MANAGER_FAILED).
Proof.
  revert arrived m; induction tries as [|tries IH]; intros arrived m; cbn [forward_loop].
  { intros [= <- <-]. split; [constructor|discriminate]. }
  rewrite run_get. destruct (isHead (_forkPoint m)) as [[]|] eqn:Eh; [| |discriminate]; rewrite run_must.
  - intros [= <- <-]. split; [constructor|auto].
  - unfold mbind at 1, prog_bind at 1. destruct (run_headerSync _ _ _ _ m) as [b m1| |] eqn:E1; try discriminate.
    apply run_headerSync_fails in E1 as (_ & Ef & Es). rewrite run_get.
    destruct (_headerSyncManager m1) as [h|]; [rewrite run_must|discriminate].
    destruct (longest _ _ _ _) as [c|]; [rewrite run_must|discriminate].
    destruct (1 <? length c)%nat.
    + intros [= <- <-]. split; [rewrite Es; constructor|discriminate].
    + unfold mbind, prog_bind. destruct (on_forkPoint _ m1) as [u m2| |] eqn:E2; try discriminate.
      apply decr_reads in E2 as [E2 E3]. intros E. apply IH in E as [E4 E5]. split.
      * rewrite Es in E2. exact (reads_to_trans _ _ _ E2 E4).
      * intros Hr. destruct (E5 Hr) as [E6 _]. rewrite E3, Ef, Eh in E6. discriminate.
Qed.

(** [forward] stores no block, whatever headers and blocks arrive, it only reads from the storage: the status that lets
    blocks in is never set. All the same, if it returns it reports [BLOCK_SYNC_MANAGER_DONE], unless the
    fork point was at the head of the chain; a failed header synchronisation is not reported. *)
Theorem forward_stores_nothing (rounds fuel : nat) (arrived : list (list (list (list BlockHeader))))
    (blocks : list (list Block)) (m m' : ChainSyncManager) :
  forward rounds fuel arrived blocks m = Ok tt m' ->
  reads_to (local_storage m) (local_storage m') /\
  cs_status m' = (if decide (isHead (_forkPoint m) = Some true) then HEADER_SYNC_MANAGER_FAILED else BLOCK_SYNC_MANAGER_DONE).
Proof.
  unfold forward. unfold mbind at 1, prog_bind at 1.
  destruct (forward_loop _ _ _ _ m) as [r m1| |] eqn:E1; try discriminate.
  pose proof (forward_loop_stays _ _ _ _ _ _ _ E1) as [Hs Hr]. destruct r as [c|].
  - assert (Hh : isHead (_forkPoint m) <> Some true).
    { intros H. unfold ALLOWED_FORKPOINT_DECREMENTS in E1. cbn [forward_loop] in E1. rewrite run_get, H, run_must in E1. discriminate. }
    rewrite decide_False by exact Hh.
    set (m2 := if (length c <=? 1)%nat then set_cs_status HEADER_SYNC_MANAGER_FAILED m1 else m1).
    rewrite (run_bind _ _ _ tt m2) by (unfold m2; now destruct (length c <=? 1)%nat).
    rewrite (run_bind (modify _) _ _ tt (set_cs_status HEADER_SYNC_MANAGER_DONE m2) eq_refl).
    intros H. destruct (run_blockSync c blocks (set_cs_status HEADER_SYNC_MANAGER_DONE m2)) as [r m3| |] eqn:E; [|unfold mbind, prog_bind in H; rewrite E in H; discriminate..].
    destruct (run_blockSync_idle c blocks (set_cs_status HEADER_SYNC_MANAGER_DONE m2) _ _ eq_refl E) as [H3 ->].
    rewrite (run_bind _ _ _ _ _ E) in H. injection H as <-. split; [|reflexivity].
    apply (reads_to_trans _ _ _ Hs). replace (local_storage m1) with (local_storage m2); [exact H3|].
    unfold m2. now destruct (length c <=? 1)%nat.
  - destruct (Hr eq_refl) as [Hh Hst]. intros [= <-]. rewrite decide_True by exact Hh. split; [exact Hs|exact Hst].
Qed.
End threads.

(** ** Concrete runs *)

Definition returned {S A} (r : result S A) : bool := match r with Ok _ _ => true | _ => false end.

Lemma returned_inv {S A} (r : result S A) : returned r = true -> exists a s, r = Ok a s.
Proof. destruct r as [a s| |]; [now exists a, s|discriminate|discriminate]. Qed.

Definition sample_iterator : BlockChainIterator (ssl := chain_ssl) :=
  mkIterator (Some (bare_block sample_1)) true (Some (hash_of (ssl := chain_ssl) sample_1)) 1.
Definition sample_sync : ChainSyncManager (ssl := chain_ssl) (st := memory_storage) :=
  mkChainSync sample_iterator CS_PENDING BDFilter_new None None (local_only sample_1) 0.

Lemma header_filter_passes_witness :
  exists f', pass_headers (ssl := chain_ssl) [sample_1; sample_2; sample_1] BDFilter_new =
    Ok [sample_1; sample_2; sample_1] f' /\ blocked f' sample_1 = false.
Proof.
  destruct (header_filter_passes (ssl := chain_ssl) (laws := chain_ssl_laws) [sample_1; sample_2; sample_1] BDFilter_new
    eq_refl (List.Forall_nil _)) as (f' & HE & _ & _ & Hb).
  exists f'. split; [exact HE|]. now rewrite Hb.
Defined.

Lemma forward_stores_nothing_witness :
  exists m', forward (ssl := chain_ssl) (host := fast_host) 3 9 [] [[bare_block sample_2]] sample_sync = Ok tt m' /\
    reads_to (local_storage sample_sync) (local_storage m') /\
    cs_status m' = BLOCK_SYNC_MANAGER_DONE.
Proof.
  destruct (returned_inv (forward (ssl := chain_ssl) (host := fast_host) 3 9 [] [[bare_block sample_2]] sample_sync))
    as ([] & m' & E); [vm_compute; reflexivity|].
  exists m'. split; [exact E|].
  exact (forward_stores_nothing (ssl := chain_ssl) (laws := chain_ssl_laws) (host := fast_host)
    3 9 [] [[bare_block sample_2]] sample_sync m' E).
Defined.
