(* ===== verification/Ekp2pWire.v ===== *)
(** The datagrams of the peer-to-peer layer: node addresses ([ekp2p/kademlia/k_node.cpp]),
    message headers ([ekp2p/network/header/header.cpp]), messages
    ([ekp2p/network/message/message.cpp]), and the receiving side
    ([socket_manager.cpp], [receiver.cpp]). Multi-byte fields are kept as they lie in
    memory, in network order. *)
From S2P Require Import Prelude Crypto.
From Stdlib Require Import Lia.

Definition htons (z : Z) : Z := bswap 2 z.

(** ** Node addresses *)

Record KNodeAddr : Type := mkKNodeAddr { _IPv4Addr : Z; _Port : Z; _ID : list byte }.

(** The struct is packed: 4 + 2 + 20 bytes. *)
Definition KNodeAddr_exportRaw (a : KNodeAddr) : list byte :=
  le_encode 4 (_IPv4Addr a) ++ le_encode 2 (_Port a) ++ _ID a.

(** The inverse, for [memcpy( nodeAddr.get() , raw , sizeof(struct KNodeAddr) )]. *)
Definition KNodeAddr_of_bytes (raw : list byte) : KNodeAddr :=
  mkKNodeAddr (le_decode (take 4 raw)) (le_decode (take 2 (drop 4 raw))) (drop 6 raw).

Section KNodeAddr_code.
Context {ssl : OpenSSL}.

(** The node id is the SHA-1 of address and port. *)
Definition setNodeID (a : KNodeAddr) : option KNodeAddr :=
  let hashFrom := le_encode 4 (_IPv4Addr a) ++ le_encode 2 (_Port a) in
  md ← SHAHash (Some hashFrom) 6 sha1;
  i ← rd 20 (Some md);
  Some (mkKNodeAddr (_IPv4Addr a) (_Port a) i).

Definition KNodeAddr_make (s_addr sin_port : Z) : option KNodeAddr :=
  setNodeID (mkKNodeAddr s_addr sin_port (replicate 20 x00)).
End KNodeAddr_code.

(** ** Headers *)

(** [struct Meta]: the attribute on the member packs the member, not the struct, so a
    padding byte lies before [_relayKNodeAddrCount] and one at the end: 22 bytes. *)
Record Meta : Type := mkMeta {
  _token : list byte;
  _headerLength : Z;
  _payloadLength : Z;
  _rpcType : Z;
  _protocol : Z;
  m_version : Z;
  m_padding : Z;
  _relayKNodeAddrCount : Z;
  m_reserved : list byte;
}.

Definition META_SIZE : Z := 22.
Definition KNODEADDR_SIZE : Z := 26.

Definition Meta_bytes (m : Meta) : list byte :=
  _token m ++ le_encode 2 (_headerLength m) ++ le_encode 2 (_payloadLength m) ++
  le_encode 2 (_rpcType m) ++ le_encode 2 (_protocol m) ++ le_encode 1 (m_version m) ++
  le_encode 1 (m_padding m) ++ le_encode 2 (_relayKNodeAddrCount m) ++ m_reserved m.

Definition Meta_of_bytes (b : list byte) : Meta :=
  mkMeta (take 4 b) (le_decode (take 2 (drop 4 b))) (le_decode (take 2 (drop 6 b)))
    (le_decode (take 2 (drop 8 b))) (le_decode (take 2 (drop 10 b))) (le_decode (take 1 (drop 12 b)))
    (le_decode (take 1 (drop 13 b))) (le_decode (take 2 (drop 14 b))) (drop 16 b).

Record Header : Type := mkHeader {
  _meta : Meta;
  _sourceKNodeAddr : option KNodeAddr;
  _relayKNodeAddrVector : list KNodeAddr;
}.

Definition MIYA : list byte := [x4d; x49; x59; x41].

(** The default [KNodeAddr] is not initialised; zero here. *)
Definition Header_new : Header :=
  mkHeader (mkMeta MIYA 0 0 0 0 1 0 0 (replicate 6 x00)) (Some (mkKNodeAddr 0 0 (replicate 20 x00))) [].

Definition on_meta (f : Meta -> Meta) (h : Header) : Header :=
  mkHeader (f (_meta h)) (_sourceKNodeAddr h) (_relayKNodeAddrVector h).
Definition set_headerLength (z : Z) (m : Meta) : Meta :=
  mkMeta (_token m) z (_payloadLength m) (_rpcType m) (_protocol m) (m_version m) (m_padding m)
    (_relayKNodeAddrCount m) (m_reserved m).
Definition set_payloadLength (length : Z) (h : Header) : Header :=
  on_meta (fun m => mkMeta (_token m) (_headerLength m) (htons (length mod 2 ^ 16)) (_rpcType m) (_protocol m)
    (m_version m) (m_padding m) (_relayKNodeAddrCount m) (m_reserved m)) h.
Definition set_rpcType (type : Z) (h : Header) : Header :=
  on_meta (fun m => mkMeta (_token m) (_headerLength m) (_payloadLength m) (htons (type mod 2 ^ 16)) (_protocol m)
    (m_version m) (m_padding m) (_relayKNodeAddrCount m) (m_reserved m)) h.
Definition set_protocol (type : Z) (h : Header) : Header :=
  on_meta (fun m => mkMeta (_token m) (_headerLength m) (_payloadLength m) (_rpcType m) (htons (type mod 2 ^ 16))
    (m_version m) (m_padding m) (_relayKNodeAddrCount m) (m_reserved m)) h.
Definition set_sourceKNodeAddr (a : option KNodeAddr) (h : Header) : Header :=
  mkHeader (_meta h) a (_relayKNodeAddrVector h).
Definition add_relayKNodeAddrVector (l : list KNodeAddr) (h : Header) : Header :=
  mkHeader (_meta h) (_sourceKNodeAddr h) (_relayKNodeAddrVector h ++ l).

Definition meta_headerLength (m : Meta) : Z := htons (_headerLength m).
Definition meta_payloadLength (m : Meta) : Z := htons (_payloadLength m).
Definition headerLength (h : Header) : Z := meta_headerLength (_meta h).
Definition payloadLength (h : Header) : Z := meta_payloadLength (_meta h).
Definition protocol (h : Header) : Z := htons (_protocol (_meta h)).
Definition rpcType (h : Header) : Z := htons (_rpcType (_meta h)).

Definition validate (h : Header) : bool :=
  match memcmp (_token (_meta h)) MIYA with Eq => true | _ => false end.

(** [exportRaw] stores the length of what it writes in the header first. *)
Definition Header_exportRaw : prog Header (list byte) :=
  h ← get_state;
  let retLength := META_SIZE + KNODEADDR_SIZE + bytelen (_relayKNodeAddrVector h) * KNODEADDR_SIZE in
  _ ← set_state (on_meta (set_headerLength (htons (retLength mod 2 ^ 16))) h);
  h ← get_state;
  mret (Meta_bytes (_meta h) ++
        match _sourceKNodeAddr h with
        | None => replicate 26 x00
        | Some a => KNodeAddr_exportRaw a
        end ++
        concat (map KNodeAddr_exportRaw (_relayKNodeAddrVector h))).

(** The loop over the relay nodes. Every round reads 26 more bytes, so the fuel (the
    number of readable bytes) does not run out before the reads leave the buffer. *)
Fixpoint relay_loop (fuel : nat) (fromRaw : list byte) (currentPtr i count : Z) (acc : list KNodeAddr)
  : option (list KNodeAddr) :=
  if i <? count then
    match fuel with
    | O => None
    | S fuel' =>
        a ← sub fromRaw currentPtr KNODEADDR_SIZE;
        relay_loop fuel' fromRaw (currentPtr + KNODEADDR_SIZE) (i + 1) count (acc ++ [KNodeAddr_of_bytes a])
    end
  else Some acc.

(** The position is not advanced past the source address, and the count is computed on
    [size_t]. *)
Definition Header_importRawSequentially (fromRaw : list byte) : prog Header bool :=
  m ← must (sub fromRaw 0 META_SIZE);
  _ ← modify (on_meta (fun _ => Meta_of_bytes m));
  let currentPtr := META_SIZE in
  s ← must (sub fromRaw currentPtr KNODEADDR_SIZE);
  h ← get_state;
  _ ← (match _sourceKNodeAddr h with
       | None => undef
       | Some _ => set_state (set_sourceKNodeAddr (Some (KNodeAddr_of_bytes s)) h)
       end);
  h ← get_state;
  let relayKNodeAddrCount := ((headerLength h - META_SIZE - KNODEADDR_SIZE) mod 2 ^ 64) / KNODEADDR_SIZE in
  l ← must (relay_loop (length fromRaw) fromRaw currentPtr 0 relayKNodeAddrCount []);
  _ ← modify (add_relayKNodeAddrVector l);
  mret true.

(** ** Messages *)

Record EKP2PMessage : Type := mkMessage { _header : Header; _payload : buffer }.

Definition EKP2PMessage_new : EKP2PMessage := mkMessage Header_new None.

Definition set_payload (payload : buffer) (payloadLength : Z) (m : EKP2PMessage) : EKP2PMessage :=
  match payload with
  | Some _ =>
      if payloadLength =? 0 then mkMessage (set_payloadLength 0 (_header m)) None
      else mkMessage (set_payloadLength payloadLength (_header m)) payload
  | None => mkMessage (set_payloadLength 0 (_header m)) None
  end.
Definition set_payload_only (target : buffer) (m : EKP2PMessage) : EKP2PMessage := mkMessage (_header m) target.

Definition on_header {A} : prog Header A -> prog EKP2PMessage A :=
  zoom _header (fun h m => mkMessage h (_payload m)).

Definition EKP2PMessage_exportRaw : prog EKP2PMessage (list byte) :=
  exportedHeader ← on_header Header_exportRaw;
  m ← get_state;
  p ← must (rd (payloadLength (_header m)) (_payload m));
  mret (exportedHeader ++ p).

(** ** Receiving *)

(** [SocketManager::receive]: the datagram's own header says how large a buffer to
    allocate; [None] when that is too much. A datagram of fewer bytes leaves the rest of
    the buffer ([junk]) uninitialised. *)
Definition SocketManager_receive (datagram junk : list byte) : option (option (list byte * Z)) :=
  m ← sub datagram 0 META_SIZE;
  let meta := Meta_of_bytes m in
  let rawMSGLength := meta_headerLength meta + meta_payloadLength meta in
  if 65535 <=? rawMSGLength then Some None
  else
    Some (Some (take (Z.to_nat rawMSGLength) (datagram ++ junk), Z.min rawMSGLength (bytelen datagram))).

(** [parseRawEKP2PMessage]; [fromRawLength] is not looked at. *)
Definition parseRawEKP2PMessage (fromRaw : list byte) (fromRawLength : Z) : option (option EKP2PMessage) :=
  match Header_importRawSequentially fromRaw Header_new with
  | Ok _ h =>
      if validate h then
        payload ← sub fromRaw (headerLength h) (payloadLength h);
        Some (Some (mkMessage h (Some payload)))
      else Some None
  | _ => None
  end.

(** One round of the receiving thread up to the segment for the broker. *)
Definition receive_step (datagram junk : list byte) : option (option (Z * buffer * Z)) :=
  r ← SocketManager_receive datagram junk;
  match r with
  | None => Some None
  | Some (rawMessage, receivedLength) =>
      if receivedLength <=? 0 then Some None
      else
        m ← parseRawEKP2PMessage rawMessage receivedLength;
        match m with
        | None => Some None
        | Some message =>
            Some (Some (protocol (_header message), _payload message, payloadLength (_header message)))
        end
  end.

(** ** Round trips of the fixed-size parts *)

Lemma htons_inv z : 0 <= z < 2 ^ 16 -> htons (htons z) = z.
Proof. exact (bswap_small 2 z). Qed.

Lemma htons_range z : 0 <= htons z < 2 ^ 16.
Proof. exact (bswap_range 2 z). Qed.

Record addr_ok (a : KNodeAddr) : Prop := {
  ok_ipv4 : 0 <= _IPv4Addr a < 2 ^ 32;
  ok_port : 0 <= _Port a < 2 ^ 16;
  ok_id : length (_ID a) = 20%nat;
}.

Lemma KNodeAddr_length a : addr_ok a -> length (KNodeAddr_exportRaw a) = 26%nat.
Proof. intros [_ _ H]. unfold KNodeAddr_exportRaw. now rewrite !length_app, !le_encode_length, H. Qed.

Lemma take_app_eq {A} n (l k : list A) : length l = n -> take n (l ++ k) = l.
Proof. intros <-. apply take_app_length. Qed.
Lemma drop_app_eq {A} n (l k : list A) : length l = n -> drop n (l ++ k) = k.
Proof. intros <-. apply drop_app_length. Qed.

Lemma KNodeAddr_round_trip a : addr_ok a -> KNodeAddr_of_bytes (KNodeAddr_exportRaw a) = a.
Proof.
  intros [Hi Hp Hd]. destruct a as [i p d]; cbn in Hi, Hp, Hd. unfold KNodeAddr_of_bytes, KNodeAddr_exportRaw.
  cbn [_IPv4Addr _Port _ID]. rewrite take_app_eq, (drop_app_eq 4), take_app_eq by apply le_encode_length.
  rewrite app_assoc, (drop_app_eq 6) by (rewrite length_app, !le_encode_length; reflexivity).
  rewrite !le_decode_le by assumption. reflexivity.
Qed.

Record meta_ok (m : Meta) : Prop := {
  ok_token : length (_token m) = 4%nat;
  ok_hl : 0 <= _headerLength m < 2 ^ 16;
  ok_pl : 0 <= _payloadLength m < 2 ^ 16;
  ok_rpc : 0 <= _rpcType m < 2 ^ 16;
  ok_proto : 0 <= _protocol m < 2 ^ 16;
  ok_ver : 0 <= m_version m < 2 ^ 8;
  ok_pad : 0 <= m_padding m < 2 ^ 8;
  ok_count : 0 <= _relayKNodeAddrCount m < 2 ^ 16;
  ok_res : length (m_reserved m) = 6%nat;
}.

Lemma Meta_length m : meta_ok m -> length (Meta_bytes m) = 22%nat.
Proof. intros [Ht _ _ _ _ _ _ _ Hr]. unfold Meta_bytes. now rewrite !length_app, !le_encode_length, Ht, Hr. Qed.

Lemma drop_plus {A} n k (l r : list A) : length l = n -> drop (n + k) (l ++ r) = drop k r.
Proof. intros <-. now rewrite drop_app_add. Qed.

Lemma Meta_round_trip m : meta_ok m -> Meta_of_bytes (Meta_bytes m) = m.
Proof.
  intros [Ht Hh Hp Hr Hq Hv Hd Hc Hs]. destruct m as [t hl pl r q v d c s]; cbn in Ht, Hh, Hp, Hr, Hq, Hv, Hd, Hc, Hs.
  unfold Meta_of_bytes, Meta_bytes.
  cbn [_token _headerLength _payloadLength _rpcType _protocol m_version m_padding _relayKNodeAddrCount m_reserved].
  pose proof (le_encode_length 2) as L2. pose proof (le_encode_length 1) as L1.
  change 16%nat with (4 + (2 + (2 + (2 + (2 + (1 + (1 + (2 + 0))))))))%nat.
  change 14%nat with (4 + (2 + (2 + (2 + (2 + (1 + (1 + 0)))))))%nat.
  change 13%nat with (4 + (2 + (2 + (2 + (2 + (1 + 0))))))%nat.
  change 12%nat with (4 + (2 + (2 + (2 + (2 + 0)))))%nat.
  change 10%nat with (4 + (2 + (2 + (2 + 0))))%nat. change 8%nat with (4 + (2 + (2 + 0)))%nat.
  change 6%nat with (4 + (2 + 0))%nat.
  rewrite (take_app_eq 4) by exact Ht.
  assert (E4 : forall r' : list byte, drop 4 (t ++ r') = drop (4 + 0) (t ++ r')) by reflexivity. rewrite E4.
  repeat rewrite (drop_plus 4 _ t) by exact Ht.
  repeat first [rewrite (drop_plus 2) by apply L2 | rewrite (drop_plus 1) by apply L1].
  rewrite !drop_0. rewrite !(take_app_eq 2), !(take_app_eq 1) by (apply L2 || apply L1).
  rewrite !le_decode_le by assumption. reflexivity.
Qed.

(** ** Headers written and read *)

Record header_ok (h : Header) : Prop := {
  ok_meta : meta_ok (_meta h);
  ok_relays : Forall addr_ok (_relayKNodeAddrVector h);
}.

(** What is written: the length of the header is filled in. *)
Definition exported_length (h : Header) : Z := 48 + bytelen (_relayKNodeAddrVector h) * 26.
Definition exported_header (h : Header) : Header :=
  on_meta (set_headerLength (htons (exported_length h mod 2 ^ 16))) h.
Definition header_bytes (h : Header) (source : KNodeAddr) : list byte :=
  Meta_bytes (_meta (exported_header h)) ++ KNodeAddr_exportRaw source ++
  concat (map KNodeAddr_exportRaw (_relayKNodeAddrVector h)).

Lemma Header_export_spec h source :
  _sourceKNodeAddr h = Some source -> Header_exportRaw h = Ok (header_bytes h source) (exported_header h).
Proof.
  intros Hs. unfold Header_exportRaw. monad_step. cbn [on_meta _sourceKNodeAddr]. rewrite Hs.
  unfold header_bytes, exported_header, exported_length, META_SIZE, KNODEADDR_SIZE.
  cbn [on_meta _relayKNodeAddrVector]. reflexivity.
Qed.

Lemma exported_meta_ok h : meta_ok (_meta h) -> meta_ok (_meta (exported_header h)).
Proof. intros []. split; try assumption. apply htons_range. Qed.

Lemma addr_list_length l : Forall addr_ok l -> length (concat (map KNodeAddr_exportRaw l)) = (26 * length l)%nat.
Proof.
  induction 1 as [|a l Ha Hl IH]; [reflexivity|]. cbn [map concat length].
  rewrite length_app, KNodeAddr_length, IH by assumption. lia.
Qed.

Lemma header_bytes_length h source :
  header_ok h -> addr_ok source -> bytelen (header_bytes h source) = exported_length h.
Proof.
  intros [Hm Hr] Ha. unfold header_bytes.
  rewrite !length_app, Meta_length, KNodeAddr_length, addr_list_length by auto using exported_meta_ok.
  unfold exported_length. lia.
Qed.

Lemma relay_loop_reads l : forall fuel pre rest i acc,
  Forall addr_ok l -> (length l <= fuel)%nat ->
  relay_loop fuel (pre ++ concat (map KNodeAddr_exportRaw l) ++ rest) (bytelen pre) i (i + bytelen l) acc =
  Some (acc ++ l).
Proof.
  induction l as [|a l IH]; intros fuel pre rest i acc Hl Hf.
  - rewrite app_nil_r. destruct fuel; cbn [relay_loop length]; rewrite (proj2 (Z.ltb_ge _ _)) by lia; reflexivity.
  - apply Forall_cons in Hl as [Ha Hl]. destruct fuel as [|fuel]; [cbn [length] in Hf; lia|].
    cbn [relay_loop map concat length]. rewrite (proj2 (Z.ltb_lt _ _)) by lia.
    rewrite (sub_at _ pre (KNodeAddr_exportRaw a) (concat (map KNodeAddr_exportRaw l) ++ rest));
      [|now rewrite <- app_assoc|reflexivity|now rewrite KNodeAddr_length].
    cbn [mbind option_bind]. rewrite KNodeAddr_round_trip by assumption.
    replace (i + Z.of_nat (S (length l))) with (i + 1 + bytelen l) by lia.
    replace (bytelen pre + KNODEADDR_SIZE) with (bytelen (pre ++ KNodeAddr_exportRaw a))
      by (rewrite length_app, KNodeAddr_length by assumption; unfold KNODEADDR_SIZE; lia).
    replace (pre ++ (KNodeAddr_exportRaw a ++ concat (map KNodeAddr_exportRaw l)) ++ rest)
      with ((pre ++ KNodeAddr_exportRaw a) ++ concat (map KNodeAddr_exportRaw l) ++ rest)
      by now rewrite <- !app_assoc.
    rewrite IH by (assumption || (cbn [length] in Hf; lia)). now rewrite <- app_assoc.
Qed.

(** Every relay address that is read is one place too early. *)
Definition relays_read (source : KNodeAddr) (relays : list KNodeAddr) : list KNodeAddr :=
  take (length relays) (source :: relays).

Lemma Header_import_run h source rest :
  header_ok h -> addr_ok source -> exported_length h < 2 ^ 16 ->
  Header_importRawSequentially (header_bytes h source ++ rest) Header_new =
  Ok true (mkHeader (_meta (exported_header h)) (Some source) (relays_read source (_relayKNodeAddrVector h))).
Proof.
  intros Hok Ha Hlen. pose proof (header_bytes_length h source Hok Ha) as Hb. destruct Hok as [Hm Hr].
  set (M := Meta_bytes (_meta (exported_header h))). set (S' := KNodeAddr_exportRaw source).
  set (R := _relayKNodeAddrVector h) in *. set (C := concat (map KNodeAddr_exportRaw R)).
  assert (LM : length M = 22%nat) by (apply Meta_length, exported_meta_ok, Hm).
  assert (LS : length S' = 26%nat) by now apply KNodeAddr_length.
  assert (EM : Meta_of_bytes M = _meta (exported_header h)) by (apply Meta_round_trip, exported_meta_ok, Hm).
  assert (ES : KNodeAddr_of_bytes S' = source) by now apply KNodeAddr_round_trip.
  assert (Eraw : header_bytes h source ++ rest = M ++ S' ++ C ++ rest) by (unfold header_bytes, M, S', C; now rewrite <- !app_assoc).
  assert (Hl : bytelen (header_bytes h source ++ rest) = 48 + 26 * bytelen R + bytelen rest)
    by (rewrite length_app, Nat2Z.inj_add, Hb; unfold exported_length; fold R; lia).
  unfold Header_importRawSequentially. rewrite Eraw in *. unfold mbind, prog_bind.
  rewrite (sub_at _ [] M (S' ++ C ++ rest)) by (rewrite ?LM; reflexivity). monad_step.
  rewrite (sub_at _ M S' (C ++ rest)) by (rewrite ?LM, ?LS; reflexivity). monad_step.
  cbn [on_meta Header_new _sourceKNodeAddr set_sourceKNodeAddr _relayKNodeAddrVector _meta].
  rewrite EM, ES. unfold headerLength, meta_headerLength. cbn [_meta].
  unfold set_sourceKNodeAddr, exported_header, on_meta, set_headerLength. cbn [_headerLength _meta].
  rewrite (Z.mod_small (exported_length h)), htons_inv by (unfold exported_length in Hlen |- *; lia).
  assert (Ec : ((exported_length h - META_SIZE - KNODEADDR_SIZE) mod 2 ^ 64) / KNODEADDR_SIZE = bytelen (relays_read source R)).
  { unfold exported_length, META_SIZE, KNODEADDR_SIZE. fold R. unfold relays_read.
    rewrite length_take. cbn [length]. rewrite Nat.min_l by lia.
    unfold exported_length in Hlen. fold R in Hlen.
    rewrite Z.mod_small by lia. replace (48 + bytelen R * 26 - 22 - 26) with (bytelen R * 26) by lia.
    apply Z.div_mul. lia. }
  rewrite Ec. unfold relays_read in *.
  assert (Hdata : exists rest', S' ++ C ++ rest = concat (map KNodeAddr_exportRaw (take (length R) (source :: R))) ++ rest').
  { exists (concat (map KNodeAddr_exportRaw (drop (length R) (source :: R))) ++ rest).
    transitivity (concat (map KNodeAddr_exportRaw (source :: R)) ++ rest).
    - cbn [map concat]. now rewrite <- app_assoc.
    - rewrite <- (take_drop (length R) (source :: R)) at 1. rewrite map_app, concat_app. now rewrite <- app_assoc. }
  destruct Hdata as (rest' & ->). change META_SIZE with (Z.of_nat 22). rewrite <- LM.
  pose proof (relay_loop_reads (take (length R) (source :: R))
    (length (M ++ concat (map KNodeAddr_exportRaw (take (length R) (source :: R))) ++ rest')) M rest' 0 []) as Hrl.
  rewrite Z.add_0_l in Hrl. rewrite Hrl.
  - reflexivity.
  - apply Forall_take. now constructor.
  - assert (Ht : Forall addr_ok (take (length R) (source :: R))) by (apply Forall_take; now constructor).
    rewrite !length_app, (addr_list_length _ Ht). lia.
Qed.

(** a header written with its source address and relay addresses is read back with the
    same fields and the same source, but the list of relays is shifted by one: the
    source comes first and the last relay is lost, because the reader does not step
    over the source address. *)
Theorem Header_round_trip_shifts_relays h source rest :
  header_ok h -> addr_ok source -> exported_length h < 2 ^ 16 -> _sourceKNodeAddr h = Some source ->
  exists raw h',
    Header_exportRaw h = Ok raw h' /\ bytelen raw = exported_length h /\
    Header_importRawSequentially (raw ++ rest) Header_new =
    Ok true (mkHeader (_meta h') (Some source) (relays_read source (_relayKNodeAddrVector h))).
Proof.
  intros Hok Ha Hl Hs. exists (header_bytes h source), (exported_header h).
  split; [now apply Header_export_spec|]. split; [now apply header_bytes_length|]. now apply Header_import_run.
Qed.

(** ** Datagrams sent and received *)

Lemma EKP2PMessage_export_spec h source p :
  _sourceKNodeAddr h = Some source -> payloadLength h = bytelen p ->
  EKP2PMessage_exportRaw (mkMessage h (Some p)) = Ok (header_bytes h source ++ p) (mkMessage (exported_header h) (Some p)).
Proof.
  intros Hs Hp. unfold EKP2PMessage_exportRaw, mbind, prog_bind, on_header, zoom. cbn [_header].
  rewrite (Header_export_spec _ _ Hs). monad_step. cbn [_header _payload].
  change (payloadLength (exported_header h)) with (payloadLength h). rewrite Hp, rd_all. reflexivity.
Qed.

Lemma exported_headerLength h : exported_length h < 2 ^ 16 -> headerLength (exported_header h) = exported_length h.
Proof.
  intros H. unfold headerLength, meta_headerLength, exported_header, on_meta, set_headerLength. cbn [_meta _headerLength].
  unfold exported_length in *. rewrite Z.mod_small by lia. apply htons_inv. lia.
Qed.

Lemma set_payloadLength_ok h n :
  header_ok h -> 0 <= n < 2 ^ 16 -> header_ok (set_payloadLength n h) /\ payloadLength (set_payloadLength n h) = n.
Proof.
  intros [[] Hr] Hn. split; [split; [split; try assumption; apply htons_range|exact Hr]|].
  unfold payloadLength, meta_payloadLength, set_payloadLength, on_meta. cbn [_meta _payloadLength].
  rewrite Z.mod_small by lia. now apply htons_inv.
Qed.

(** The buffer the receiver allocates for a message is as large as the message. *)
Lemma SocketManager_receive_spec h source p junk :
  header_ok h -> addr_ok source -> payloadLength h = bytelen p -> exported_length h + bytelen p < 65535 ->
  SocketManager_receive (header_bytes h source ++ p) junk =
  Some (Some (header_bytes h source ++ p, exported_length h + bytelen p)).
Proof.
  intros Hok Ha Hpl Hlen. pose proof (header_bytes_length h source Hok Ha) as Hb. destruct Hok as [Hm Hr].
  pose proof (exported_meta_ok h Hm) as Hm'.
  unfold SocketManager_receive. rewrite (sub_at _ [] (Meta_bytes (_meta (exported_header h)))
    ((KNodeAddr_exportRaw source ++ concat (map KNodeAddr_exportRaw (_relayKNodeAddrVector h))) ++ p));
    [|unfold header_bytes; now rewrite <- !app_assoc|reflexivity|now rewrite Meta_length].
  cbn [mbind option_bind]. rewrite Meta_round_trip by exact Hm'.
  change (meta_headerLength (_meta (exported_header h))) with (headerLength (exported_header h)).
  change (meta_payloadLength (_meta (exported_header h))) with (payloadLength h).
  rewrite exported_headerLength, Hpl, (proj2 (Z.leb_gt _ _)) by lia.
  rewrite length_app, Nat2Z.inj_add, Hb, Z.min_id. rewrite take_app_eq by buffer_lia. reflexivity.
Qed.

(** C36: a message with a payload, whatever its relays, that fits a datagram is delivered: the
    bytes the sender writes make the receiver hand the same protocol number and the same
    payload to the broker. *)
Theorem datagram_delivered h source p junk :
  header_ok h -> addr_ok source -> _sourceKNodeAddr h = Some source -> _token (_meta h) = MIYA ->
  p <> [] -> exported_length h + bytelen p < 65535 ->
  let m := set_payload (Some p) (bytelen p) (mkMessage h None) in
  exists raw m', EKP2PMessage_exportRaw m = Ok raw m' /\
    receive_step raw junk = Some (Some (protocol h, Some p, bytelen p)).
Proof.
  intros Hok Ha Hs Ht Hp Hlen m.
  assert (Hpos : 0 < bytelen p) by (destruct p; [easy|buffer_lia]).
  assert (Hx : 48 <= exported_length h) by (unfold exported_length; lia).
  destruct (set_payloadLength_ok h (bytelen p) Hok) as [Hok1 Hpl]; [lia|].
  set (h1 := set_payloadLength (bytelen p) h) in *.
  assert (Em : m = mkMessage h1 (Some p)).
  { unfold m, set_payload. destruct (Z.eqb_spec (bytelen p) 0); [lia|reflexivity]. }
  change (exported_length h) with (exported_length h1) in Hlen, Hx.
  exists (header_bytes h1 source ++ p). eexists. split.
  { rewrite Em. now apply EKP2PMessage_export_spec. }
  unfold receive_step. rewrite SocketManager_receive_spec by assumption. cbn [mbind option_bind].
  rewrite (proj2 (Z.leb_gt _ _)) by lia.
  unfold parseRawEKP2PMessage. rewrite (Header_import_run h1 source p Hok1 Ha) by lia.
  unfold validate. cbn [_meta exported_header on_meta set_headerLength _token h1 set_payloadLength].
  rewrite Ht, memcmp_refl.
  match goal with |- context [sub _ (headerLength ?h2) (payloadLength ?h2)] =>
    change (headerLength h2) with (headerLength (exported_header h1));
    change (payloadLength h2) with (payloadLength h1) end.
  rewrite exported_headerLength, Hpl by lia. pose proof (header_bytes_length h1 source Hok1 Ha) as Hb.
  rewrite (sub_at _ (header_bytes h1 source) p []) by (rewrite ?app_nil_r; congruence || reflexivity).
  cbn [mbind option_bind _header _payload]. do 4 f_equal. exact Hpl.
Qed.

Lemma relay_loop_overrun fuel : forall raw pos i count acc,
  Z.of_nat fuel < count - i -> relay_loop fuel raw pos i count acc = None.
Proof.
  induction fuel as [|fuel IH]; intros raw pos i count acc H; cbn [relay_loop];
    rewrite (proj2 (Z.ltb_lt _ _)) by lia; [reflexivity|].
  destruct (sub raw pos KNODEADDR_SIZE) as [a|]; [|reflexivity]. apply IH. lia.
Qed.

Lemma sub_0_take raw n : (n <= length raw)%nat -> sub raw 0 (Z.of_nat n) = Some (take n raw).
Proof.
  intros H. apply (sub_at _ [] (take n raw) (drop n raw)); [cbn [app]; now rewrite take_drop|reflexivity|].
  rewrite length_take. lia.
Qed.

(** a datagram whose header claims less than the 48 bytes every header has (and anything
    at all in total) makes the receiver read outside its buffer: the number of relay
    addresses is computed on unsigned integers and wraps around, and the length of the
    datagram is never compared with the header. *)
Theorem short_header_undefined datagram junk :
  (22 <= length datagram)%nat ->
  let m := Meta_of_bytes (take 22 datagram) in
  meta_headerLength m < 48 -> 0 < meta_headerLength m + meta_payloadLength m < 65535 ->
  receive_step datagram junk = None.
Proof.
  intros Hd m Hh Hn. pose proof (htons_range (_headerLength m)) as H0. fold (meta_headerLength m) in H0.
  set (n := meta_headerLength m + meta_payloadLength m) in *.
  unfold receive_step, SocketManager_receive. change META_SIZE with (Z.of_nat 22) at 1.
  rewrite sub_0_take by assumption. cbn [mbind option_bind]. fold m n. rewrite (proj2 (Z.leb_gt _ _)) by lia.
  cbn [mbind option_bind]. rewrite (proj2 (Z.leb_gt _ _)) by lia. unfold parseRawEKP2PMessage, Header_importRawSequentially, mbind, prog_bind.
  set (raw := take (Z.to_nat n) (datagram ++ junk)).
  assert (Hraw : (length raw <= Z.to_nat n)%nat) by (unfold raw; rewrite length_take; lia).
  destruct (sub raw 0 META_SIZE) as [b|] eqn:Eb; [|reflexivity].
  assert (Hb : b = take 22 datagram).
  { unfold sub, rd, META_SIZE in Eb. rewrite (proj2 (Z.leb_le 0 (bytelen raw))) in Eb by lia.
    change (drop (Z.to_nat 0) raw) with raw in Eb. change (22 =? 0) with false in Eb. cbn [Z.leb andb] in Eb.
    destruct (Z.leb_spec 22 (bytelen raw)) as [Hle|]; [|discriminate]. injection Eb as <-.
    unfold raw in *. rewrite length_take in Hle. rewrite take_take, Nat.min_l by lia.
    change (Z.to_nat 22) with 22%nat. now rewrite take_app_le. }
  subst b. monad_step. cbn [on_meta Header_new _sourceKNodeAddr].
  destruct (sub raw META_SIZE KNODEADDR_SIZE) as [s|]; [|reflexivity]. monad_step.
  unfold headerLength at 1, set_sourceKNodeAddr, on_meta at 1 2 3, Header_new at 1 2 3. cbn [_sourceKNodeAddr _meta].
  assert (Hc : 65535 < ((meta_headerLength m - META_SIZE - KNODEADDR_SIZE) mod 2 ^ 64) / KNODEADDR_SIZE).
  { unfold META_SIZE, KNODEADDR_SIZE.
    replace (meta_headerLength m - 22 - 26) with (meta_headerLength m - 48 + 2 ^ 64 + (-1) * 2 ^ 64) by lia.
    rewrite Z_mod_plus_full, Z.mod_small by lia.
    apply Z.lt_le_trans with ((2 ^ 64 - 48) / 26); [reflexivity|]. apply Z.div_le_mono; lia. }
  fold m. rewrite relay_loop_overrun by lia. reflexivity.
Qed.

(** ** Concrete messages *)

Definition sample_source : KNodeAddr := mkKNodeAddr 0x0100007f 0x901f (replicate 20 x05).
Definition sample_relay : KNodeAddr := mkKNodeAddr 0x0200007f 0x901f (replicate 20 x06).
Definition sample_header : Header :=
  set_protocol 2 (add_relayKNodeAddrVector [sample_relay] (set_sourceKNodeAddr (Some sample_source) Header_new)).

Lemma sample_header_ok : header_ok sample_header.
Proof.
  split; [|repeat constructor]; try (vm_compute; reflexivity); try discriminate.
  split; try reflexivity; vm_compute; split; discriminate || reflexivity.
Qed.

Lemma sample_source_ok : addr_ok sample_source.
Proof. split; try reflexivity; vm_compute; split; discriminate || reflexivity. Qed.

Lemma Header_round_trip_shifts_relays_witness : exists raw h',
  Header_exportRaw sample_header = Ok raw h' /\ bytelen raw = exported_length sample_header /\
  Header_importRawSequentially (raw ++ [xff]) Header_new =
  Ok true (mkHeader (_meta h') (Some sample_source) [sample_source]).
Proof.
  apply (Header_round_trip_shifts_relays sample_header sample_source [xff] sample_header_ok sample_source_ok);
    [vm_compute|]; reflexivity.
Defined.

Lemma datagram_delivered_witness : exists raw m',
  EKP2PMessage_exportRaw (set_payload (Some [x61; x62]) 2 (mkMessage sample_header None)) = Ok raw m' /\
  receive_step raw [] = Some (Some (2, Some [x61; x62], 2)).
Proof.
  apply (datagram_delivered sample_header sample_source [x61; x62] [] sample_header_ok sample_source_ok);
    [reflexivity|reflexivity|discriminate|vm_compute; reflexivity].
Defined.

Lemma short_header_undefined_witness :
  receive_step (MIYA ++ [x00; x16; x00; x00] ++ replicate 14 x00) [] = None.
Proof.
  apply (short_header_undefined (MIYA ++ [x00; x16; x00; x00] ++ replicate 14 x00) []);
    [simpl; lia|vm_compute; reflexivity|vm_compute; split; reflexivity].
Defined.
