(* ===== verification/Kademlia.v ===== *)
(** The routing table of the peer-to-peer layer: buckets
    ([ekp2p/kademlia/k_routing_table/k_bucket.cpp]), the table
    ([k_routing_table.cpp]) and the queue of nodes waiting for an answer to a ping
    ([ekp2p/daemon/routing_table_manager/k_client_node_swap_wait_queue.cpp]). *)
From S2P Require Import Prelude Crypto Ekp2pWire.
From Stdlib Require Import Lia.

(** ** Buckets *)

(** A client node behind a [shared_ptr]: the object's identity and its address. *)
Record KClientNode : Type := mkNode { node_ref : nat; kNodeAddr : KNodeAddr }.
Definition node_ptr : Type := option KClientNode.

(** [==] on shared pointers. *)
Definition ptr_eqb (a b : node_ptr) : bool :=
  match a, b with
  | None, None => true
  | Some x, Some y => Nat.eqb (node_ref x) (node_ref y)
  | _, _ => false
  end.

Definition K_SIZE : Z := 8.

(** [_mtx] says whether the mutex is held; [_swapRequests] collects the calls of the
    callback [_notifyNodeSwap]. *)
Record KBucket : Type := mkBucket {
  _nodeVector : list node_ptr;
  _mtx : bool;
  _notifyNodeSwap : bool;
  _swapRequests : list (node_ptr * node_ptr);
}.

Definition KBucket_new : KBucket := mkBucket [] false false [].
Definition set_nodeVector (l : list node_ptr) (b : KBucket) : KBucket :=
  mkBucket l (_mtx b) (_notifyNodeSwap b) (_swapRequests b).
Definition set_mtx (held : bool) (b : KBucket) : KBucket :=
  mkBucket (_nodeVector b) held (_notifyNodeSwap b) (_swapRequests b).
Definition notifyNodeSwap (b : KBucket) : KBucket :=
  mkBucket (_nodeVector b) (_mtx b) true (_swapRequests b).

(** A [std::unique_lock] for the rest of a scope. Locking a [std::mutex] that the thread
    already holds is undefined (it blocks forever). *)
Definition with_lock {A} (c : prog KBucket A) : prog KBucket A := fun b =>
  if _mtx b then Undef
  else
    match c (set_mtx true b) with
    | Ok a b' => Ok a (set_mtx false b')
    | Throw e b' => Throw e (set_mtx false b')
    | Undef => Undef
    end.

(** Dereferencing a null pointer is undefined. *)
Definition nodeIDcmp (n1 n2 : node_ptr) : option comparison :=
  a ← n1; b ← n2; Some (memcmp (_ID (kNodeAddr a)) (_ID (kNodeAddr b))).

Fixpoint find_loop (target : node_ptr) (l : list node_ptr) : option node_ptr :=
  match l with
  | [] => Some None
  | i :: l' => c ← nodeIDcmp target i; match c with Eq => Some i | _ => find_loop target l' end
  end.

Definition find (target : node_ptr) : prog KBucket node_ptr :=
  with_lock (b ← get_state; must (find_loop target (_nodeVector b))).

(** [std::find]: the position of the first pointer equal to the target. *)
Fixpoint std_find (l : list node_ptr) (target : node_ptr) : option nat :=
  match l with
  | [] => None
  | x :: l' => if ptr_eqb x target then Some 0%nat else option_map S (std_find l' target)
  end.

Definition erase_at (i : nat) (l : list node_ptr) : list node_ptr := take i l ++ drop (S i) l.

Definition move_back (targetInBucket : node_ptr) : prog KBucket bool :=
  b ← get_state;
  match std_find (_nodeVector b) targetInBucket with
  | None => mret false
  | Some i =>
      temp ← must (_nodeVector b !! i);
      _ ← set_state (set_nodeVector (erase_at i (_nodeVector b) ++ [temp]) b);
      mret true
  end.

Definition isFull (b : KBucket) : bool := K_SIZE <=? bytelen (_nodeVector b).

(** An empty [std::function] throws when it is called. *)
Definition call_notifyNodeSwap (remaining candidate : node_ptr) : prog KBucket unit :=
  b ← get_state;
  if _notifyNodeSwap b
  then set_state (mkBucket (_nodeVector b) (_mtx b) true (_swapRequests b ++ [(remaining, candidate)]))
  else throw BadFunctionCall.

Definition front (b : KBucket) : prog KBucket node_ptr :=
  match _nodeVector b with [] => throw OutOfRange | x :: _ => mret x end.

(** The whole method, [find] under the lock it takes again, and a null pointer pushed
    for a new node. *)
Definition KBucket_autoAdd (target : node_ptr) : prog KBucket Z :=
  with_lock (
    targetInBucket ← find target;
    _ ← (match targetInBucket with
         | None =>
             b ← get_state;
             if isFull b then
               x ← front b;
               _ ← move_back x;
               b ← get_state;
               x ← front b;
               call_notifyNodeSwap x target
             else set_state (set_nodeVector (_nodeVector b ++ [targetInBucket]) b)
         | Some _ => _ ← move_back targetInBucket; mret ()
         end);
    mret (-1)).

Definition swapForce (swapFromInBucket swapTo : node_ptr) : prog KBucket unit :=
  with_lock (
    b ← get_state;
    match std_find (_nodeVector b) swapFromInBucket with
    | None => mret ()
    | Some i => set_state (set_nodeVector (take i (_nodeVector b) ++ swapTo :: drop (S i) (_nodeVector b)) b)
    end).

(** ** The table *)

Definition K_BUCKET_SIZE : nat := 160.

Record KRoutingTable : Type := mkTable { _hostNode : KNodeAddr; _bucketArray : list KBucket }.

Definition KRoutingTable_new (host : KNodeAddr) : KRoutingTable :=
  mkTable host (replicate K_BUCKET_SIZE KBucket_new).

Definition KRoutingTable_kBucket (branch : Z) (t : KRoutingTable) : option KBucket :=
  if 160 <=? branch then None else _bucketArray t !! Z.to_nat branch.

(** The number of bits in which the two ids differ; [None] when an id is shorter than the
    20 bytes that are read. *)
Definition calcBranch (target host : list byte) : option Z :=
  a ← rd 20 (Some target); b ← rd 20 (Some host);
  let nodeXORDistance := zip_with (fun x y => Z.lxor (u8 x) (u8 y)) a b in
  Some (foldl (fun branch i =>
    branch + Z.land (Z.shiftr (default 0 (nodeXORDistance !! (i / 8)%nat)) (Z.of_nat (i mod 8))) 1) 0 (seq 0 160)).

(** The node object made for the address is [fresh]; [at] throws when there is no bucket. *)
Definition KRoutingTable_autoAdd (fresh : nat) (target : KNodeAddr) : prog KRoutingTable Z := fun t =>
  match calcBranch (_ID target) (_ID (_hostNode t)) with
  | None => Undef
  | Some targetBranch =>
      match _bucketArray t !! Z.to_nat targetBranch with
      | None => Throw OutOfRange t
      | Some bucket =>
          let put b := mkTable (_hostNode t) (<[Z.to_nat targetBranch := b]> (_bucketArray t)) in
          match KBucket_autoAdd (Some (mkNode fresh target)) bucket with
          | Ok r b => Ok r (put b)
          | Throw e b => Throw e (put b)
          | Undef => Undef
          end
      end
  end.

Definition KRoutingTable_notifyNodeSwap (t : KRoutingTable) : KRoutingTable :=
  mkTable (_hostNode t) (map notifyNodeSwap (_bucketArray t)).

(** ** Nodes waiting for an answer *)

Definition DEFAULT_WAIT_PING_TIME : Z := 5.

(** Buckets are referred to by their place. *)
Record SwapWaitNodePair : Type := mkPair {
  _targetBucket : nat;
  _remainingNode : node_ptr;
  _candidateNode : node_ptr;
  _startTime : Z;
}.

Record WaitQueue : Type := mkQueue { _nodePairVector : list SwapWaitNodePair; q_buckets : list KBucket }.

Definition regist (now : Z) (targetBucket : nat) (remainingNode candidateNode : node_ptr) (q : WaitQueue) : WaitQueue :=
  mkQueue (_nodePairVector q ++ [mkPair targetBucket remainingNode candidateNode now]) (q_buckets q).

Fixpoint find_pair (target : node_ptr) (l : list SwapWaitNodePair) : option (option nat) :=
  match l with
  | [] => Some None
  | p :: l' =>
      c ← nodeIDcmp target (_remainingNode p);
      match c with Eq => Some (Some 0%nat) | _ => r ← find_pair target l'; Some (option_map S r) end
  end.

(** Erasing at the end iterator, when no pair is found, is undefined. *)
Definition unregist (target : node_ptr) : prog WaitQueue unit :=
  q ← get_state;
  r ← must (find_pair target (_nodePairVector q));
  i ← must r;
  set_state (mkQueue (take i (_nodePairVector q) ++ drop (S i) (_nodePairVector q)) (q_buckets q)).

(** One pass of the timer thread over the waiting pairs, [now] on the clock. *)
Fixpoint expire_loop (now : Z) (l : list SwapWaitNodePair) (bs : list KBucket) : option WaitQueue :=
  match l with
  | [] => Some (mkQueue [] bs)
  | itr :: l' =>
      if DEFAULT_WAIT_PING_TIME <=? now - _startTime itr then
        b ← bs !! _targetBucket itr;
        match swapForce (_remainingNode itr) (_candidateNode itr) b with
        | Ok _ b' => expire_loop now l' (<[_targetBucket itr := b']> bs)
        | _ => None
        end
      else Some (mkQueue l bs)
  end.

Definition expire (now : Z) : prog WaitQueue unit :=
  q ← get_state; r ← must (expire_loop now (_nodePairVector q) (q_buckets q)); set_state r.

(** ** Bucket operations *)

Lemma ptr_eqb_refl p : ptr_eqb p p = true.
Proof. destruct p as [n|]; [apply Nat.eqb_refl|reflexivity]. Qed.

Lemma std_find_some l target i :
  std_find l target = Some i ->
  exists l1 x l2, l = l1 ++ x :: l2 /\ length l1 = i /\ ptr_eqb x target = true /\
    Forall (fun y => ptr_eqb y target = false) l1.
Proof.
  revert i; induction l as [|x l IH]; intros i; cbn [std_find]; [discriminate|].
  destruct (ptr_eqb x target) eqn:E.
  - intros [= <-]. exists [], x, l. auto.
  - destruct (std_find l target) as [j|] eqn:Ej; [|discriminate]. intros [= <-].
    destruct (IH j eq_refl) as (l1 & y & l2 & -> & <- & Hy & Hl). exists (x :: l1), y, l2. auto.
Qed.

Lemma std_find_app l1 x l2 target :
  Forall (fun y => ptr_eqb y target = false) l1 -> ptr_eqb x target = true ->
  std_find (l1 ++ x :: l2) target = Some (length l1).
Proof.
  induction 1 as [|y l1 Hy Hl IH]; intros Hx; cbn [app std_find length]; [now rewrite Hx|].
  rewrite Hy, IH by assumption. reflexivity.
Qed.

Lemma std_find_none l target :
  Forall (fun y => ptr_eqb y target = false) l -> std_find l target = None.
Proof. induction 1 as [|y l Hy Hl IH]; cbn [std_find]; [reflexivity|]. now rewrite Hy, IH. Qed.

Lemma drop_cons_app {A} (l1 : list A) x l2 : drop (S (length l1)) (l1 ++ x :: l2) = l2.
Proof. induction l1 as [|y l1 IH]; [reflexivity|exact IH]. Qed.

(** Adding a node never returns: the method holds the bucket's mutex when it calls the
    search, which locks the same mutex again. *)
Lemma KBucket_autoAdd_self_deadlock target b : KBucket_autoAdd target b = Undef.
Proof.
  unfold KBucket_autoAdd, with_lock. destruct (_mtx b); [reflexivity|]. unfold mbind, prog_bind.
  unfold find, with_lock. reflexivity.
Qed.

(** a node that is in the bucket is moved to its end; the others keep their order. *)
Theorem move_back_to_end l1 x l2 target b :
  _nodeVector b = l1 ++ x :: l2 -> ptr_eqb x target = true ->
  Forall (fun y => ptr_eqb y target = false) l1 ->
  move_back target b = Ok true (set_nodeVector (l1 ++ l2 ++ [x]) b).
Proof.
  intros Hb Hx Hl. unfold move_back. monad_step. rewrite Hb, (std_find_app l1 x l2) by assumption.
  rewrite list_lookup_middle by reflexivity. unfold erase_at.
  rewrite take_app_length, drop_cons_app, <- app_assoc. reflexivity.
Qed.

Lemma swapForce_run l1 x l2 from to b :
  _mtx b = false -> _nodeVector b = l1 ++ x :: l2 -> ptr_eqb x from = true ->
  Forall (fun y => ptr_eqb y from = false) l1 ->
  swapForce from to b = Ok tt (set_nodeVector (l1 ++ to :: l2) b).
Proof.
  intros Hm Hb Hx Hl. unfold swapForce, with_lock. rewrite Hm. monad_step. cbn [set_mtx _nodeVector].
  rewrite Hb, (std_find_app l1 x l2) by assumption. rewrite take_app_length, drop_cons_app.
  unfold set_nodeVector, set_mtx. cbn. now rewrite <- Hm at 1.
Qed.

Lemma swapForce_absent from to b :
  _mtx b = false -> Forall (fun y => ptr_eqb y from = false) (_nodeVector b) -> swapForce from to b = Ok tt b.
Proof.
  intros Hm Hb. unfold swapForce, with_lock. rewrite Hm. monad_step. cbn [set_mtx _nodeVector].
  rewrite std_find_none by assumption. destruct b; cbn in *. now subst.
Qed.

(** a forced swap puts the candidate in the place of the node that did not answer, and
    changes nothing else; when that node is no longer in the bucket it does nothing.
    Either way the bucket keeps its size and releases its mutex. *)
Theorem swapForce_replaces from to b :
  _mtx b = false ->
  exists b', swapForce from to b = Ok tt b' /\ _mtx b' = false /\
    bytelen (_nodeVector b') = bytelen (_nodeVector b) /\
    match std_find (_nodeVector b) from with
    | Some i => _nodeVector b' = <[i := to]> (_nodeVector b)
    | None => b' = b
    end.
Proof.
  intros Hm. destruct (std_find (_nodeVector b) from) as [i|] eqn:E.
  - apply std_find_some in E as (l1 & x & l2 & Hb & <- & Hx & Hl).
    exists (set_nodeVector (l1 ++ to :: l2) b). rewrite (swapForce_run l1 x l2) by assumption.
    repeat split; [exact Hm|cbn; rewrite Hb, !length_app; reflexivity|cbn]. rewrite Hb.
    now rewrite <- (Nat.add_0_r (length l1)), insert_app_r.
  - exists b. rewrite swapForce_absent; [auto|exact Hm|].
    clear Hm. induction (_nodeVector b) as [|y l IH]; [constructor|]. cbn [std_find] in E.
    destruct (ptr_eqb y from) eqn:Ey; [discriminate|]. constructor; [exact Ey|]. apply IH.
    now destruct (std_find l from).
Qed.

(** ** The branch of a node *)

(** The bits set in a byte. *)
Definition popcount (x : Z) : Z :=
  foldl (fun n i => n + Z.land (Z.shiftr x (Z.of_nat i)) 1) 0 (seq 0 8).

(** The distance of two bytes, and of two ids. *)
Definition byte_distance (x y : byte) : Z := popcount (Z.lxor (u8 x) (u8 y)).
Fixpoint hamming (a b : list byte) : Z :=
  match a, b with
  | x :: a', y :: b' => byte_distance x y + hamming a' b'
  | _, _ => 0
  end.

Definition complement (x : byte) : byte := b8 (255 - u8 x).

Definition all_bytes : list byte := map (fun i => b8 (Z.of_nat i)) (seq 0 256).

Lemma all_bytes_in (P : byte -> bool) : forallb P all_bytes = true -> forall x, P x = true.
Proof.
  intros H x. rewrite forallb_forall in H. apply H. unfold all_bytes. apply in_map_iff.
  pose proof (u8_range x). exists (Z.to_nat (u8 x)). rewrite Z2Nat.id by lia. split; [apply b8_u8|].
  apply in_seq. lia.
Qed.

Lemma byte_distance_facts x y :
  (0 <=? byte_distance x y) && (byte_distance x y <=? 8) &&
  Bool.eqb (byte_distance x y =? 0) (Byte.eqb x y) &&
  Bool.eqb (byte_distance x y =? 8) (Byte.eqb x (complement y)) = true.
Proof.
  revert x y.
  assert (H : forallb (fun x => forallb (fun y =>
    (0 <=? byte_distance x y) && (byte_distance x y <=? 8) &&
    Bool.eqb (byte_distance x y =? 0) (Byte.eqb x y) &&
    Bool.eqb (byte_distance x y =? 8) (Byte.eqb x (complement y))) all_bytes) all_bytes = true)
    by (vm_compute; reflexivity).
  intros x y. pose proof (all_bytes_in _ H x) as Hx. exact (all_bytes_in _ Hx y).
Qed.

Lemma byte_distance_spec x y :
  0 <= byte_distance x y <= 8 /\ (byte_distance x y = 0 <-> x = y) /\
  (byte_distance x y = 8 <-> x = complement y).
Proof.
  pose proof (byte_distance_facts x y) as H.
  apply andb_prop in H as [H H8]. apply andb_prop in H as [H H0]. apply andb_prop in H as [Hl%Z.leb_le Hu%Z.leb_le].
  apply Bool.eqb_prop in H0, H8. split; [lia|].
  rewrite <- (Z.eqb_eq (byte_distance x y) 0), <- (Z.eqb_eq (byte_distance x y) 8), H0, H8.
  split; (split; [apply Byte.byte_dec_bl|apply Byte.byte_dec_lb]).
Qed.

Lemma foldl_shift (f : nat -> Z) l n : foldl (fun z i => z + f i) n l = n + foldl (fun z i => z + f i) 0 l.
Proof.
  revert n; induction l as [|i l IH]; intros n; cbn [foldl]; [lia|]. rewrite (IH (n + f i)), (IH (0 + f i)). lia.
Qed.

Lemma foldl_ext_in (f g : nat -> Z) l n :
  (forall i, In i l -> f i = g i) -> foldl (fun z i => z + f i) n l = foldl (fun z i => z + g i) n l.
Proof.
  revert n; induction l as [|i l IH]; intros n H; [reflexivity|]. cbn [foldl].
  rewrite (H i) by now left. apply IH. intros j Hj. apply H. now right.
Qed.

Definition bit_of (d : list Z) (i : nat) : Z :=
  Z.land (Z.shiftr (default 0 (d !! (i / 8)%nat)) (Z.of_nat (i mod 8))) 1.

Lemma bits_popcount d : forall k,
  foldl (fun z i => z + bit_of d i) 0 (seq (8 * k) (8 * (length d - k))) =
  foldr (fun x z => popcount x + z) 0 (drop k d).
Proof.
  intros k. remember (length d - k)%nat as m eqn:Em. revert k Em; induction m as [|m IH]; intros k Em.
  - rewrite drop_ge by lia. reflexivity.
  - replace (8 * S m)%nat with (8 + 8 * m)%nat by lia. rewrite seq_app, foldl_app.
    destruct (lookup_lt_is_Some_2 d k) as [x Hx]; [lia|].
    rewrite (drop_S d x k Hx). cbn [foldr]. rewrite foldl_shift.
    replace (8 * k + 8)%nat with (8 * S k)%nat by lia. rewrite IH by lia. f_equal.
    unfold popcount. rewrite <- (Nat.add_0_r (8 * k)) at 1.
    rewrite (foldl_ext_in _ (fun i => Z.land (Z.shiftr x (Z.of_nat (i - 8 * k))) 1)).
    + cbn [seq foldl]. repeat (rewrite ?Nat.add_succ_l, ?Nat.add_0_r). do 8 f_equal; repeat f_equal; lia.
    + intros i Hi. apply in_seq in Hi. unfold bit_of.
      replace (i / 8)%nat with k by (apply (Nat.div_unique i 8 k (i - 8 * k)); lia).
      rewrite Hx. cbn [default from_option id].
      rewrite (Nat.mod_eq i 8) by lia. replace (i / 8)%nat with k by (apply (Nat.div_unique i 8 k (i - 8 * k)); lia).
      reflexivity.
Qed.

Lemma calcBranch_hamming a b :
  length a = 20%nat -> length b = 20%nat -> calcBranch a b = Some (hamming a b).
Proof.
  intros Ha Hb. unfold calcBranch. change 20 with (Z.of_nat 20). rewrite <- Ha at 1. rewrite rd_all.
  cbn [mbind option_bind]. rewrite <- Hb at 1. rewrite rd_all. cbn [mbind option_bind]. f_equal.
  set (d := zip_with _ a b). pose proof (bits_popcount d 0) as H.
  assert (Hd : length d = 20%nat) by (unfold d; rewrite length_zip_with; lia).
  rewrite Hd in H. cbn [Nat.mul Nat.sub drop] in H. unfold bit_of in H. change (seq 0 160) with (seq 0 (8 * 20)).
  rewrite drop_0 in H. etransitivity; [exact H|]. unfold d. clear. revert b; induction a as [|x a IH]; intros [|y b]; try reflexivity.
  cbn [zip_with foldr hamming]. now rewrite IH.
Qed.

Lemma hamming_spec a : forall b, length a = length b ->
  0 <= hamming a b <= 8 * bytelen a /\ (hamming a b = 0 <-> a = b) /\
  (hamming a b = 8 * bytelen a <-> a = map complement b).
Proof.
  induction a as [|x a IH]; intros [|y b] Hl; cbn [length] in Hl; try lia; [easy|].
  injection Hl as Hl. destruct (IH b Hl) as (Hr & H0 & H8). destruct (byte_distance_spec x y) as (Br & B0 & B8).
  cbn [hamming length map]. split; [lia|]. split.
  - split; [|intros [= -> ->]; rewrite (proj2 B0), (proj2 H0) by reflexivity; lia].
    intros E. f_equal; [apply B0|apply H0]; lia.
  - split; [|intros [= -> ->]].
    + intros E. f_equal; [apply B8|apply H8]; lia.
    + rewrite (proj2 B8), (proj2 H8) by reflexivity. lia.
Qed.

(** the branch of a node is the number of bits in which its 20-byte id differs from the
    host's: between 0 and 160, 0 exactly for the same id and 160 exactly for the
    complement, for which the table has no bucket, so that adding such a node throws. *)
Theorem calcBranch_is_hamming_distance a b :
  length a = 20%nat -> length b = 20%nat ->
  exists n, calcBranch a b = Some n /\ n = hamming a b /\ 0 <= n <= 160 /\
    (n = 0 <-> a = b) /\ (n = 160 <-> a = map complement b).
Proof.
  intros Ha Hb. exists (hamming a b). destruct (hamming_spec a b) as (Hr & H0 & H8); [congruence|].
  rewrite Ha in Hr, H8. split; [now apply calcBranch_hamming|]. split; [reflexivity|]. split; [lia|]. now split.
Qed.

(** no node can be added to the table: the bucket the id belongs to deadlocks, and the
    one id that has no bucket, the complement of the host's, throws. *)
Theorem KRoutingTable_autoAdd_never_returns fresh target t :
  length (_ID target) = 20%nat -> length (_ID (_hostNode t)) = 20%nat ->
  length (_bucketArray t) = K_BUCKET_SIZE ->
  KRoutingTable_autoAdd fresh target t =
  if decide (_ID target = map complement (_ID (_hostNode t))) then Throw OutOfRange t else Undef.
Proof.
  intros Ha Hb Hn. unfold KRoutingTable_autoAdd. rewrite calcBranch_hamming by assumption.
  destruct (hamming_spec (_ID target) (_ID (_hostNode t))) as (Hr & _ & H8); [congruence|]. rewrite Ha in Hr, H8.
  destruct (decide _) as [E|E].
  - rewrite (proj2 H8 E). rewrite lookup_ge_None_2; [reflexivity|]. rewrite Hn. unfold K_BUCKET_SIZE. lia.
  - assert (hamming (_ID target) (_ID (_hostNode t)) <> 8 * Z.of_nat 20) by (intros E'; now apply E, H8).
    destruct (lookup_lt_is_Some_2 (_bucketArray t) (Z.to_nat (hamming (_ID target) (_ID (_hostNode t))))) as [bk Hbk];
      [rewrite Hn; unfold K_BUCKET_SIZE; lia|]. rewrite Hbk.
    now rewrite KBucket_autoAdd_self_deadlock.
Qed.

(** ** The queue as a state machine *)

(** The steps of the threads that share the queue, each under its mutex, with a clock that
    does not go back. A [pong] stands for [unregist]. *)
Inductive qstep : Z * WaitQueue -> Z * WaitQueue -> Prop :=
| step_regist now now' i r c q :
    now <= now' -> qstep (now, q) (now', regist now' i r c q)
| step_unregist now target q q' :
    unregist target q = Ok tt q' -> qstep (now, q) (now, q')
| step_expire now now' q q' :
    now <= now' -> expire now' q = Ok tt q' -> qstep (now, q) (now', q').

Inductive qreach (bs : list KBucket) (now0 : Z) : Z * WaitQueue -> Prop :=
| reach_start : qreach bs now0 (now0, mkQueue [] bs)
| reach_step s s' : qreach bs now0 s -> qstep s s' -> qreach bs now0 s'.

(** Waiting pairs are ordered by the time they started, none in the future. *)
Fixpoint sorted_until (now : Z) (l : list SwapWaitNodePair) : Prop :=
  match l with
  | [] => True
  | p :: l' => _startTime p <= now /\ Forall (fun p' => _startTime p <= _startTime p') l' /\ sorted_until now l'
  end.

Lemma sorted_until_Forall now l : sorted_until now l -> Forall (fun p => _startTime p <= now) l.
Proof. induction l as [|p l IH]; [constructor|]. intros (H & _ & Hl). constructor; auto. Qed.

Lemma sorted_until_later now now' l : now <= now' -> sorted_until now l -> sorted_until now' l.
Proof. intros Hn. induction l as [|p l IH]; [auto|]. intros (H & Hf & Hl). split; [lia|auto]. Qed.

Lemma sorted_until_snoc now now' l p :
  now <= now' -> _startTime p = now' -> sorted_until now l -> sorted_until now' (l ++ [p]).
Proof.
  intros Hn Hp. induction l as [|x l IH]; cbn [app sorted_until]; [intros _; split; [lia|auto]|].
  intros (H & Hf & Hl). split; [lia|]. split; [|now apply IH]. apply Forall_app_2; [exact Hf|].
  constructor; [lia|constructor].
Qed.

Lemma sorted_until_delete now l i : sorted_until now l -> sorted_until now (take i l ++ drop (S i) l).
Proof.
  revert i; induction l as [|p l IH]; intros [|i]; cbn [take drop app sorted_until]; try tauto.
  intros (H & Hf & Hl). split; [exact H|]. split; [|now apply IH].
  apply Forall_app. split; [now apply Forall_take|now apply Forall_drop].
Qed.

(** The pairs that have waited long enough. *)
Definition expired (now : Z) (p : SwapWaitNodePair) : Prop := DEFAULT_WAIT_PING_TIME <= now - _startTime p.
#[export] Instance expired_dec now p : Decision (expired now p) := Z_le_dec _ _.

Lemma expire_loop_split now l bs r :
  expire_loop now l bs = Some r ->
  exists l1, l = l1 ++ _nodePairVector r /\ Forall (expired now) l1 /\
    match _nodePairVector r with [] => True | p :: _ => ~ expired now p end.
Proof.
  revert bs; induction l as [|p l IH]; intros bs; cbn [expire_loop].
  - intros [= <-]. exists []. split; [reflexivity|]. split; [constructor|exact I].
  - destruct (Z.leb_spec DEFAULT_WAIT_PING_TIME (now - _startTime p)) as [Hp|Hp].
    + destruct (bs !! _targetBucket p) as [b|]; [|discriminate]. cbn [mbind option_bind].
      destruct (swapForce _ _ b) as [[] b'| |]; try discriminate. intros H.
      destruct (IH _ H) as (l1 & -> & Hl & Hr). exists (p :: l1). split; [reflexivity|]. split; [|exact Hr]. now constructor.
    + intros [= <-]. exists []. cbn. split; [reflexivity|]. split; [constructor|]. unfold expired. lia.
Qed.

Lemma sorted_until_app now l1 l2 : sorted_until now (l1 ++ l2) -> sorted_until now l2.
Proof. induction l1 as [|p l1 IH]; [auto|]. intros (_ & _ & H). auto. Qed.

Lemma qreach_sorted bs now0 s : qreach bs now0 s -> sorted_until s.1 (_nodePairVector s.2).
Proof.
  induction 1 as [|s s' _ IH Hstep]; [exact I|].
  destruct Hstep as [now now' i r c q Hn|now target q q' Hu|now now' q q' Hn He]; cbn [fst snd] in *.
  - now apply (sorted_until_snoc now).
  - revert Hu. unfold unregist. monad_step.
    destruct (find_pair target (_nodePairVector q)) as [[i|]|]; unfold undef; cbv beta iota; [|discriminate..].
    intros [= <-]. now apply sorted_until_delete.
  - revert He. unfold expire. monad_step. destruct (expire_loop _ _ _) as [r|] eqn:E; [|discriminate]. intros [= <-].
    apply expire_loop_split in E as (l1 & El & _). apply (sorted_until_later now); [lia|].
    rewrite El in IH. now apply sorted_until_app in IH.
Qed.

(** The queue refers to buckets that exist and whose mutex is free. *)
Definition queue_ok (q : WaitQueue) : Prop :=
  Forall (fun p => (_targetBucket p < length (q_buckets q))%nat) (_nodePairVector q) /\
  Forall (fun b => _mtx b = false) (q_buckets q).

Lemma swapForce_returns from to b :
  _mtx b = false -> exists b', swapForce from to b = Ok tt b' /\ _mtx b' = false.
Proof.
  intros Hm. destruct (std_find (_nodeVector b) from) as [i|] eqn:E.
  - apply std_find_some in E as (l1 & x & l2 & Hb & <- & Hx & Hl).
    exists (set_nodeVector (l1 ++ to :: l2) b). now rewrite (swapForce_run l1 x l2).
  - exists b. split; [|exact Hm]. unfold swapForce, with_lock. rewrite Hm. monad_step. cbn [set_mtx _nodeVector].
    rewrite E. destruct b; cbn in *. now subst.
Qed.

Lemma expire_loop_returns now l : forall bs,
  queue_ok (mkQueue l bs) -> exists r, expire_loop now l bs = Some r.
Proof.
  induction l as [|p l IH]; intros bs [Hi Hm]; cbn [expire_loop]; [now eexists|]. cbn in Hi, Hm.
  apply Forall_cons in Hi as [Hp Hi]. destruct (_ <=? _); [|now eexists].
  destruct (lookup_lt_is_Some_2 bs (_targetBucket p) Hp) as [b Hb]. rewrite Hb. cbn [mbind option_bind].
  pose proof (Forall_lookup_1 _ _ _ _ Hm Hb) as Hbm. cbv beta in Hbm.
  destruct (swapForce_returns (_remainingNode p) (_candidateNode p) b Hbm) as (b' & -> & Hm').
  apply IH. split; cbn; [now rewrite length_insert|]. now apply Forall_insert.
Qed.

(** C37: however registrations, answers and timer passes interleave, a pass of the timer over
    existing buckets returns, and takes out of the queue exactly the pairs that have
    waited five seconds or more, the others staying in order, although the loop stops at the
    first that has not. The clock does not go back, a pass reads it once, and no other thread
    holds the lock of a bucket for good. *)
Theorem expire_removes_exactly_the_expired bs now0 now now' q :
  qreach bs now0 (now, q) -> now <= now' -> queue_ok q ->
  exists q', expire now' q = Ok tt q' /\
    _nodePairVector q' = filter (fun p => ~ expired now' p) (_nodePairVector q).
Proof.
  intros Hr Hn Hq. apply qreach_sorted in Hr. cbn [fst snd] in Hr.
  destruct (expire_loop_returns now' (_nodePairVector q) (q_buckets q)) as [r E]; [exact Hq|].
  exists r. unfold expire. monad_step. rewrite E. split; [reflexivity|].
  apply expire_loop_split in E as (l1 & El & H1 & H2). rewrite El in Hr |- *. rewrite filter_app.
  assert (F1 : filter (fun p => ~ expired now' p) l1 = []).
  { clear -H1. induction H1 as [|p l Hp Hl IH]; [reflexivity|]. rewrite filter_cons_False by tauto. exact IH. }
  rewrite F1. cbn [app]. apply sorted_until_app in Hr. clear El F1 H1 l1.
  destruct (_nodePairVector r) as [|p l]; [reflexivity|]. destruct Hr as (_ & Hf & _).
  assert (Hall : Forall (fun p => ~ expired now' p) (p :: l)).
  { constructor; [exact H2|]. eapply Forall_impl; [exact Hf|]. unfold expired in *. cbn. intros; lia. }
  clear Hf H2. induction Hall as [|p' l' Hp Hl IH]; [reflexivity|]. rewrite filter_cons_True by exact Hp. now f_equal.
Qed.

Definition node_id (p : node_ptr) : list byte := match p with Some n => _ID (kNodeAddr n) | None => [] end.
Definition pair_ok (p : SwapWaitNodePair) : Prop := exists n, _remainingNode p = Some n /\ length (_ID (kNodeAddr n)) = 20%nat.

Lemma find_pair_spec n l :
  length (_ID (kNodeAddr n)) = 20%nat -> Forall pair_ok l ->
  (Forall (fun p => node_id (_remainingNode p) <> _ID (kNodeAddr n)) l /\ find_pair (Some n) l = Some None) \/
  exists l1 p l2, l = l1 ++ p :: l2 /\ find_pair (Some n) l = Some (Some (length l1)) /\
    node_id (_remainingNode p) = _ID (kNodeAddr n) /\
    Forall (fun p => node_id (_remainingNode p) <> _ID (kNodeAddr n)) l1.
Proof.
  intros Hn. induction 1 as [|p l (m & Hm & Hl) Hok IH]; [left; now split|]. cbn [find_pair].
  unfold nodeIDcmp. rewrite Hm. cbn [mbind option_bind]. unfold node_id at 1 3.
  pose proof (memcmp_eq (_ID (kNodeAddr n)) (_ID (kNodeAddr m)) ltac:(lia)) as He.
  destruct (decide (_ID (kNodeAddr m) = _ID (kNodeAddr n))) as [E|E].
  - right. exists [], p, l. rewrite (proj2 He) by congruence. rewrite Hm. auto.
  - assert (Hne : memcmp (_ID (kNodeAddr n)) (_ID (kNodeAddr m)) <> Eq) by (intros H; apply E; symmetry; now apply He).
    assert (Hskip : forall r, match memcmp (_ID (kNodeAddr n)) (_ID (kNodeAddr m)) with
      | Eq => Some (Some 0%nat) | _ => r end = r) by (intros r; now destruct (memcmp _ _)).
    rewrite Hskip. destruct IH as [[Hall ->]|(l1 & p' & l2 & -> & -> & Hp & Hf)].
    + left. split; [|reflexivity]. constructor; [now rewrite Hm|exact Hall].
    + right. exists (p :: l1), p', l2. repeat split; [exact Hp|]. constructor; [now rewrite Hm|exact Hf].
Qed.

(** an answer from a node takes its first waiting pair out of the queue; an answer from a
    node that nobody waits for, which any peer can send, erases the end iterator of the
    vector, which is undefined. *)
Theorem unregist_first_or_undefined n q :
  length (_ID (kNodeAddr n)) = 20%nat -> Forall pair_ok (_nodePairVector q) ->
  (Forall (fun p => node_id (_remainingNode p) <> _ID (kNodeAddr n)) (_nodePairVector q) /\
   unregist (Some n) q = Undef) \/
  exists l1 p l2, _nodePairVector q = l1 ++ p :: l2 /\ node_id (_remainingNode p) = _ID (kNodeAddr n) /\
    Forall (fun p => node_id (_remainingNode p) <> _ID (kNodeAddr n)) l1 /\
    unregist (Some n) q = Ok tt (mkQueue (l1 ++ l2) (q_buckets q)).
Proof.
  intros Hn Hok. unfold unregist. monad_step.
  destruct (find_pair_spec n _ Hn Hok) as [[Hall ->]|(l1 & p & l2 & El & -> & Hp & Hf)]; [now left|right].
  exists l1, p, l2. rewrite El, take_app_length. repeat split; try assumption. do 2 f_equal. f_equal.
  clear. induction l1 as [|x l1 IH]; [reflexivity|exact IH].
Qed.

(** ** Concrete nodes *)

Definition sample_node (i : nat) (b : byte) : KClientNode := mkNode i (mkKNodeAddr 0 0 (replicate 20 b)).
Definition sample_bucket : KBucket :=
  mkBucket [Some (sample_node 1 x01); Some (sample_node 2 x02)] false true [].

Lemma move_back_to_end_witness :
  move_back (Some (sample_node 1 x01)) sample_bucket =
  Ok true (set_nodeVector [Some (sample_node 2 x02); Some (sample_node 1 x01)] sample_bucket).
Proof. apply (move_back_to_end [] (Some (sample_node 1 x01)) [Some (sample_node 2 x02)]); [reflexivity|reflexivity|constructor]. Defined.

Lemma swapForce_replaces_witness : exists b',
  swapForce (Some (sample_node 2 x02)) (Some (sample_node 3 x03)) sample_bucket = Ok tt b' /\ _mtx b' = false /\
  bytelen (_nodeVector b') = 2 /\ _nodeVector b' = [Some (sample_node 1 x01); Some (sample_node 3 x03)].
Proof. apply (swapForce_replaces (Some (sample_node 2 x02)) (Some (sample_node 3 x03)) sample_bucket). reflexivity. Defined.

Lemma calcBranch_is_hamming_distance_witness : exists n,
  calcBranch (replicate 20 x0f) (replicate 20 x00) = Some n /\ n = hamming (replicate 20 x0f) (replicate 20 x00) /\
  0 <= n <= 160 /\ (n = 0 <-> replicate 20 x0f = replicate 20 x00) /\
  (n = 160 <-> replicate 20 x0f = map complement (replicate 20 x00)).
Proof. apply calcBranch_is_hamming_distance; reflexivity. Defined.

Lemma KRoutingTable_autoAdd_never_returns_witness :
  KRoutingTable_autoAdd 1 (mkKNodeAddr 0 0 (replicate 20 xff)) (KRoutingTable_new (mkKNodeAddr 0 0 (replicate 20 x00))) =
  Throw OutOfRange (KRoutingTable_new (mkKNodeAddr 0 0 (replicate 20 x00))).
Proof.
  etransitivity; [apply KRoutingTable_autoAdd_never_returns; reflexivity|]. now rewrite decide_True.
Defined.

Definition sample_queue : WaitQueue :=
  regist 7 0 (Some (sample_node 2 x02)) (Some (sample_node 4 x04))
    (regist 3 0 (Some (sample_node 1 x01)) (Some (sample_node 3 x03)) (mkQueue [] [sample_bucket])).

Lemma expire_removes_exactly_the_expired_witness : exists q',
  expire 9 sample_queue = Ok tt q' /\
  _nodePairVector q' = [mkPair 0 (Some (sample_node 2 x02)) (Some (sample_node 4 x04)) 7].
Proof.
  apply (expire_removes_exactly_the_expired [sample_bucket] 0 7 9 sample_queue).
  - apply reach_step with (3, regist 3 0 (Some (sample_node 1 x01)) (Some (sample_node 3 x03)) (mkQueue [] [sample_bucket])).
    + apply reach_step with (0, mkQueue [] [sample_bucket]); [constructor|]. constructor. lia.
    + constructor. lia.
  - lia.
  - split; repeat constructor.
Defined.

Lemma unregist_first_or_undefined_witness :
  (Forall (fun p => node_id (_remainingNode p) <> replicate 20 x09) (_nodePairVector sample_queue) /\
   unregist (Some (sample_node 9 x09)) sample_queue = Undef) \/
  exists l1 p l2, _nodePairVector sample_queue = l1 ++ p :: l2 /\ node_id (_remainingNode p) = replicate 20 x09 /\
    Forall (fun p => node_id (_remainingNode p) <> replicate 20 x09) l1 /\
    unregist (Some (sample_node 9 x09)) sample_queue = Ok tt (mkQueue (l1 ++ l2) [sample_bucket]).
Proof.
  apply (unregist_first_or_undefined (sample_node 9 x09) sample_queue); [reflexivity|].
  constructor; [eexists; now split|]. constructor; [eexists; now split|constructor].
Defined.
