(* ===== verification/StreamBuffer.v ===== *)
(** The bounded queues between the daemons' threads ([share/stream_buffer/]): the critical
    sections of [StreamBuffer::enqueue] and [StreamBuffer::dequeue] as functions, and the
    interleaving of any number of threads over them as a step relation. *)
From S2P Require Import Prelude.
From stdpp Require Import list sorting.
From Stdlib Require Import Lia Permutation.
#[local] Open Scope Z_scope.

Definition DEFAULT_STREAM_BUFFER_CAPACITY : Z := 20.

Section StreamBuffer_code.
(** Segments are moved, never looked at; null pointers are not passed on by
    [StreamBufferContainer::pushOne]. *)
Context {Seg : Type}.

(** What a call does when it has the mutex: finish, or wait on a condition variable,
    [wait_for] when [timed]. *)
Inductive push_outcome : Type :=
| Pushed (q : list Seg)
| Returned
| PushWaits (timed : bool).
Inductive pop_outcome : Type :=
| Popped (x : Seg) (q : list Seg)
| PoppedNull
| PopWaits (timed : bool).

Section capacity.
Context (_capacity : Z).

Definition has_room (q : list Seg) : bool := bytelen q <? _capacity.

(** [enqueue( target , timeout )] up to the first wait. *)
Definition enqueue_start (target : Seg) (timeout : Z) (q : list Seg) : push_outcome :=
  if (_capacity <=? bytelen q) && (0 <? timeout) then PushWaits true
  else if has_room q then Pushed (q ++ [target])
  else PushWaits false.

(** What it does when it is woken; [elapsed] when the time is up. *)
Definition enqueue_resume (target : Seg) (timed elapsed : bool) (q : list Seg) : push_outcome :=
  if timed then
    if has_room q then Returned
    else if elapsed then Pushed (q ++ [target])
    else PushWaits true
  else if has_room q then Pushed (q ++ [target])
  else PushWaits false.

(** [dequeue( timeout )] up to the first wait, and after it. *)
Definition dequeue_start (timeout : Z) (q : list Seg) : pop_outcome :=
  match q with
  | [] => PopWaits (0 <? timeout)
  | x :: q' => Popped x q'
  end.

Definition dequeue_resume (timed elapsed : bool) (q : list Seg) : pop_outcome :=
  match q with
  | [] => if timed && elapsed then PoppedNull else PopWaits timed
  | x :: q' => Popped x q'
  end.

(** ** Threads *)

Inductive pc : Type :=
| Idle
| PushWait (x : Seg) (timed : bool)
| PopWait (timed : bool).

(** The queue, what each thread waits for, and what happened so far: the segments that
    callers handed over, that were appended, that were dropped, and that were taken out. *)
Record sys : Type := mkSys {
  queue : list Seg;
  pcs : list pc;
  submitted : list Seg;
  pushed : list Seg;
  dropped : list Seg;
  popped : list Seg;
}.

Definition sys_start (threads : nat) : sys := mkSys [] (replicate threads Idle) [] [] [] [].

Definition after_push (i : nat) (x : Seg) (o : push_outcome) (s : sys) : sys :=
  match o with
  | Pushed q => mkSys q (<[i := Idle]> (pcs s)) (submitted s) (pushed s ++ [x]) (dropped s) (popped s)
  | Returned => mkSys (queue s) (<[i := Idle]> (pcs s)) (submitted s) (pushed s) (dropped s ++ [x]) (popped s)
  | PushWaits t => mkSys (queue s) (<[i := PushWait x t]> (pcs s)) (submitted s) (pushed s) (dropped s) (popped s)
  end.

Definition after_pop (i : nat) (o : pop_outcome) (s : sys) : sys :=
  match o with
  | Popped x q => mkSys q (<[i := Idle]> (pcs s)) (submitted s) (pushed s) (dropped s) (popped s ++ [x])
  | PoppedNull => mkSys (queue s) (<[i := Idle]> (pcs s)) (submitted s) (pushed s) (dropped s) (popped s)
  | PopWaits t => mkSys (queue s) (<[i := PopWait t]> (pcs s)) (submitted s) (pushed s) (dropped s) (popped s)
  end.

Definition submit (x : Seg) (s : sys) : sys :=
  mkSys (queue s) (pcs s) (submitted s ++ [x]) (pushed s) (dropped s) (popped s).

(** One thread runs one critical section. Wake-ups may be spurious. [timeouts] says whether
    callers pass timeouts to [enqueue]. *)
Inductive step (timeouts : bool) : sys -> sys -> Prop :=
| step_enqueue s i x timeout :
    pcs s !! i = Some Idle -> (timeouts = false -> timeout = 0) ->
    step timeouts s (after_push i x (enqueue_start x timeout (queue s)) (submit x s))
| step_push_resume s i x timed elapsed :
    pcs s !! i = Some (PushWait x timed) ->
    step timeouts s (after_push i x (enqueue_resume x timed elapsed (queue s)) s)
| step_dequeue s i timeout :
    pcs s !! i = Some Idle -> step timeouts s (after_pop i (dequeue_start timeout (queue s)) s)
| step_pop_resume s i timed elapsed :
    pcs s !! i = Some (PopWait timed) ->
    step timeouts s (after_pop i (dequeue_resume timed elapsed (queue s)) s).

Inductive reach (timeouts : bool) (n : nat) : sys -> Prop :=
| reach_start : reach timeouts n (sys_start n)
| reach_step s s' : reach timeouts n s -> step timeouts s s' -> reach timeouts n s'.

(** ** What the queue guarantees *)

(** The segments that blocked callers still hold. *)
Definition held (p : pc) : list Seg := match p with PushWait x _ => [x] | _ => [] end.
Definition waiting (s : sys) : list Seg := concat (map held (pcs s)).

Lemma waiting_insert (l : list pc) i p p' :
  l !! i = Some p -> held p ++ concat (map held (<[i := p']> l)) ≡ₚ held p' ++ concat (map held l).
Proof.
  revert i; induction l as [|y l IH]; intros [|i] H; cbn in H; try discriminate.
  - injection H as ->. cbn. rewrite !app_assoc. now rewrite (Permutation_app_comm (held p)).
  - cbn [list_insert insert map concat]. cbn. specialize (IH i H). change (list_insert i p' l) with (<[i := p']> l).
    rewrite !app_assoc, (Permutation_app_comm (held p)), (Permutation_app_comm (held p')), <- !app_assoc. now rewrite IH.
Qed.

Definition fifo (s : sys) : Prop := pushed s = popped s ++ queue s.
Definition accounted (s : sys) : Prop := submitted s ≡ₚ pushed s ++ dropped s ++ waiting s.

Lemma after_push_fifo i x o s :
  (forall q, o = Pushed q -> q = queue s ++ [x]) -> fifo s -> fifo (after_push i x o s).
Proof.
  unfold fifo. intros Ho H. destruct o; cbn; try exact H. rewrite (Ho _ eq_refl), H. now rewrite <- app_assoc.
Qed.

Lemma after_pop_fifo i o s :
  (forall x q, o = Popped x q -> queue s = x :: q) -> fifo s -> fifo (after_pop i o s).
Proof.
  unfold fifo. intros Ho H. destruct o; cbn; try exact H. rewrite H, (Ho _ _ eq_refl). now rewrite <- app_assoc.
Qed.

Lemma enqueue_start_pushes x t q q' : enqueue_start x t q = Pushed q' -> q' = q ++ [x].
Proof. unfold enqueue_start. destruct (_ && _); [discriminate|]. destruct (has_room q); [now intros [= <-]|discriminate]. Qed.

Lemma enqueue_resume_pushes x t e q q' : enqueue_resume x t e q = Pushed q' -> q' = q ++ [x].
Proof.
  unfold enqueue_resume. destruct t, (has_room q); try discriminate; try (now intros [= <-]).
  destruct e; [now intros [= <-]|discriminate].
Qed.

Lemma dequeue_start_pops t q x q' : dequeue_start t q = Popped x q' -> q = x :: q'.
Proof. destruct q; [discriminate|]. now intros [= <- <-]. Qed.

Lemma dequeue_resume_pops t e q x q' : dequeue_resume t e q = Popped x q' -> q = x :: q'.
Proof. destruct q; cbn; [destruct (t && e); discriminate|]. now intros [= <- <-]. Qed.

Lemma after_push_accounted i x o s p :
  pcs s !! i = Some p -> submitted s ≡ₚ pushed s ++ dropped s ++ x :: concat (map held (<[i := Idle]> (pcs s))) ->
  accounted (after_push i x o s).
Proof.
  unfold accounted, waiting. intros Hp H. destruct o; cbn.
  - rewrite H. rewrite <- app_assoc. cbn. apply Permutation_app_head. now rewrite Permutation_middle.
  - rewrite H. rewrite <- !app_assoc. reflexivity.
  - rewrite H. do 2 apply Permutation_app_head.
    pose proof (waiting_insert (<[i := Idle]> (pcs s)) i Idle (PushWait x timed)) as Hw. cbn [held app] in Hw.
    rewrite list_insert_insert_eq in Hw. symmetry. apply Hw.
    apply list_lookup_insert_eq. eapply lookup_lt_Some, Hp.
Qed.

Lemma after_pop_accounted i o s p :
  pcs s !! i = Some p -> held p = [] -> accounted s -> accounted (after_pop i o s).
Proof.
  unfold accounted, waiting. intros Hp Hh H.
  assert (Hw : forall p', held p' = [] -> concat (map held (<[i := p']> (pcs s))) ≡ₚ concat (map held (pcs s))).
  { intros p' Hp'. pose proof (waiting_insert (pcs s) i p p' Hp) as Hw. now rewrite Hh, Hp' in Hw. }
  destruct o; cbn; rewrite H; do 2 apply Permutation_app_head; symmetry; now apply Hw.
Qed.

Lemma step_fifo timeouts s s' : step timeouts s s' -> fifo s -> fifo s'.
Proof.
  intros [s0 i x timeout Hi Ht|s0 i x timed elapsed Hi|s0 i timeout Hi|s0 i timed elapsed Hi] H.
  - apply (after_push_fifo i x _ (submit x s0)); [|exact H]. intros q Hq. exact (enqueue_start_pushes _ _ _ _ Hq).
  - apply after_push_fifo; [|exact H]. intros q Hq. exact (enqueue_resume_pushes _ _ _ _ _ Hq).
  - apply after_pop_fifo; [|exact H]. intros x q Hq. exact (dequeue_start_pops _ _ _ _ Hq).
  - apply after_pop_fifo; [|exact H]. intros x q Hq. exact (dequeue_resume_pops _ _ _ _ _ Hq).
Qed.

Lemma step_accounted timeouts s s' : step timeouts s s' -> accounted s -> accounted s'.
Proof.
  intros [s0 i x timeout Hi Ht|s0 i x timed elapsed Hi|s0 i timeout Hi|s0 i timed elapsed Hi] H.
  - apply (after_push_accounted i x _ (submit x s0) Idle); [assumption|]. unfold accounted, waiting in H. cbn.
    pose proof (waiting_insert (pcs s0) i Idle Idle ltac:(assumption)) as Hw. cbn [held app] in Hw. rewrite Hw, H.
    rewrite <- Permutation_cons_append. now rewrite !app_assoc, <- Permutation_middle.
  - eapply after_push_accounted; [eassumption|]. unfold accounted, waiting in H. rewrite H.
    pose proof (waiting_insert (pcs s0) i (PushWait x timed) Idle ltac:(assumption)) as Hw. cbn [held app] in Hw.
    now rewrite <- Hw.
  - eapply after_pop_accounted; [eassumption|reflexivity|exact H].
  - eapply after_pop_accounted; [eassumption|reflexivity|exact H].
Qed.

(** C35: in every interleaving of any number of threads, with or without timeouts, segments
    come out in the order in which they were appended, none twice, and each segment a
    caller handed over has been appended, has been dropped, or is still held by a
    blocked caller. *)
Theorem stream_buffer_is_fifo timeouts n s :
  reach timeouts n s ->
  pushed s = popped s ++ queue s /\ submitted s ≡ₚ pushed s ++ dropped s ++ waiting s.
Proof.
  induction 1 as [|s s' _ [IH1 IH2] Hs].
  - split; [reflexivity|]. unfold waiting. cbn. clear. induction n as [|n IH]; [reflexivity|exact IH].
  - split; [exact (step_fifo _ _ _ Hs IH1)|exact (step_accounted _ _ _ Hs IH2)].
Qed.

(** Without timeouts nothing is dropped, nobody waits with a timeout, and there is room. *)
Definition untimed (p : pc) : Prop := match p with PushWait _ t => t = false | _ => True end.
Definition bounded (s : sys) : Prop :=
  bytelen (queue s) <= Z.max 0 _capacity /\ dropped s = [] /\ Forall untimed (pcs s).

Lemma step_bounded s s' : step false s s' -> bounded s -> bounded s'.
Proof.
  intros [s0 i x timeout Hi Ht|s0 i x timed elapsed Hi|s0 i timeout Hi|s0 i timed elapsed Hi] (Hq & Hd & Hp);
    unfold bounded.
  - rewrite (Ht eq_refl). unfold enqueue_start. rewrite andb_false_r. unfold has_room.
    destruct (Z.ltb_spec (bytelen (queue s0)) _capacity); cbn.
    + rewrite length_app. cbn [length]. repeat split; [lia|exact Hd|now apply Forall_insert].
    + repeat split; [lia|exact Hd|now apply Forall_insert].
  - pose proof (Forall_lookup_1 _ _ _ _ Hp Hi) as Hu. cbn in Hu. subst timed. unfold enqueue_resume, has_room.
    destruct (Z.ltb_spec (bytelen (queue s0)) _capacity); cbn.
    + rewrite length_app. cbn [length]. repeat split; [lia|exact Hd|now apply Forall_insert].
    + repeat split; [lia|exact Hd|now apply Forall_insert].
  - unfold dequeue_start. destruct (queue s0) as [|x q] eqn:E; cbn; rewrite ?E; cbn [length] in *;
      (repeat split; [lia|exact Hd|now apply Forall_insert]).
  - unfold dequeue_resume. destruct (queue s0) as [|x q] eqn:E.
    + destruct (timed && elapsed); cbn; rewrite E; cbn [length] in *; (repeat split; [lia|exact Hd|now apply Forall_insert]).
    + cbn. cbn [length] in *. repeat split; [lia|exact Hd|now apply Forall_insert].
Qed.

(** as long as callers pass no timeout to [enqueue], which is how the daemons call it, the
    queue never holds more than its capacity and no segment is dropped, in every
    interleaving. *)
Theorem stream_buffer_bounded n s :
  reach false n s -> bytelen (queue s) <= Z.max 0 _capacity /\ dropped s = [].
Proof.
  intros H. assert (Hb : bounded s); [|destruct Hb as (? & ? & _); now split].
  induction H as [|s s' _ IH Hs]; [|now apply (step_bounded s)].
  repeat split; [cbn; lia|]. apply Forall_replicate. exact I.
Qed.

(** a caller that waits for room with a timeout gets the opposite of what it asked for:
    when it is woken and there is room its segment is dropped, and when the time is up and
    there is still none the segment is appended beyond the capacity. *)
Theorem timed_enqueue_inverted s i x elapsed :
  pcs s !! i = Some (PushWait x true) ->
  let s' := after_push i x (enqueue_resume x true elapsed (queue s)) s in
  (bytelen (queue s) < _capacity -> queue s' = queue s /\ dropped s' = dropped s ++ [x] /\ pcs s' !! i = Some Idle) /\
  (_capacity <= bytelen (queue s) -> elapsed = true ->
   queue s' = queue s ++ [x] /\ _capacity < bytelen (queue s') /\ pcs s' !! i = Some Idle).
Proof.
  intros Hi. unfold enqueue_resume, has_room. split.
  - intros Hr. rewrite (proj2 (Z.ltb_lt _ _)) by exact Hr. cbn. repeat split.
    apply list_lookup_insert_eq. eapply lookup_lt_Some, Hi.
  - intros Hr ->. rewrite (proj2 (Z.ltb_ge _ _)) by exact Hr. cbn. rewrite length_app. cbn [length]. repeat split; [lia|].
    apply list_lookup_insert_eq. eapply lookup_lt_Some, Hi.
Qed.
End capacity.
End StreamBuffer_code.

(** ** A run: two threads, capacity one *)

Definition sample_s1 : sys := after_push 0 7%nat (enqueue_start 1 7%nat 0 []) (submit 7%nat (sys_start 2)).
Definition sample_s2 : sys := after_push 0 8%nat (enqueue_start 1 8%nat 0 (queue sample_s1)) (submit 8%nat sample_s1).
Definition sample_s3 : sys := after_pop 1 (dequeue_start 0 (queue sample_s2)) sample_s2.

Lemma sample_reach : reach 1 false 2 sample_s3.
Proof.
  apply reach_step with sample_s2; [|now apply step_dequeue].
  apply reach_step with sample_s1; [|now apply step_enqueue].
  apply reach_step with (sys_start 2); [apply reach_start|now apply step_enqueue].
Qed.

Lemma stream_buffer_is_fifo_witness :
  [7%nat] = [7%nat] ++ [] /\ [7%nat; 8%nat] ≡ₚ [7%nat] ++ [] ++ waiting sample_s3.
Proof. exact (stream_buffer_is_fifo 1 false 2 sample_s3 sample_reach). Defined.

Lemma stream_buffer_bounded_witness : bytelen (queue sample_s3) <= 1 /\ dropped sample_s3 = [].
Proof. exact (stream_buffer_bounded 1 2 sample_s3 sample_reach). Defined.

Definition sample_timed : sys :=
  after_push 1 9%nat (enqueue_start 1 9%nat 3 (queue sample_s1)) (submit 9%nat sample_s1).

Lemma timed_enqueue_inverted_witness :
  queue (after_push 1 9%nat (enqueue_resume 1 9%nat true true (queue sample_timed)) sample_timed) = [7%nat; 9%nat].
Proof. apply (timed_enqueue_inverted 1 sample_timed 1 9%nat true); [reflexivity|vm_compute; discriminate|reflexivity]. Defined.
