(* ===== verification/Database.v ===== *)
(** The database server of miya_db: the query parser ([query_parser.cpp]), the query
    context, the handler of [database_manager.cpp] over an interface of the storage engine,
    and its thread between the queues of requests and of responses. *)
From stdpp Require Import strings.
From S2P Require Import Prelude Bson OverlayPtr CacheTable Allocator Crypto MemoryManager ItemSet NodeStore ONode NodeOps.
From S2P Require Import BTree BTreeModel BTreeAdd BTreeIndex BTreeMap BTreeRemove ValueStore MMyISAM SafeONode SafeBTree SafeMode StreamBuffer.
From Stdlib Require Import Lia.
#[local] Open Scope Z_scope.

Definition QUERY_ADD : Z := 1.
Definition QUERY_SELECT : Z := 2.
Definition QUERY_EXISTS : Z := 3.
Definition QUERY_REMOVE : Z := 4.
Definition QUERY_MIGRATE_SAFE_MODE : Z := 10.
Definition QUERY_SAFE_MODE_COMMIT : Z := 11.
Definition QUERY_SAFE_MODE_ABORT : Z := 12.

(** The member names of queries and responses. *)
Definition k_QueryID : list byte := Eval vm_compute in key_of "QueryID".
Definition k_query : list byte := Eval vm_compute in key_of "query".
Definition k_key : list byte := Eval vm_compute in key_of "key".
Definition k_value : list byte := Eval vm_compute in key_of "value".
Definition k_registryIndex : list byte := Eval vm_compute in key_of "registryIndex".
Definition k_status : list byte := Eval vm_compute in key_of "status".

(** ** Parsing a query *)

(** A [QueryContext]: its type and id, and what the storage reads and writes. *)
Record Query : Type := mkParsed {
  qc_type : Z;
  qc_id : Z;
  qc_data : QueryContext;
}.

Definition set_qc_data (d : QueryContext) (q : Query) : Query := mkParsed (qc_type q) (qc_id q) d.

(** The members a query of each type needs; [None] where the parser gives up. The value of
    a query that has none is not read. *)
Definition parse_data (type : Z) (q : object) : option (Z * buffer * buffer * Z * object) :=
  let '(key, q1) := obj_at k_key q in
  let '(value, q2) := obj_at k_value q1 in
  if type =? QUERY_ADD then
    match key with
    | J_binary k _ => match value with J_binary v _ => Some (type, Some k, Some v, Z.of_nat (length v), q2) | _ => None end
    | _ => None
    end
  else if (type =? QUERY_SELECT) || (type =? QUERY_REMOVE) then
    match key with J_binary k _ => Some (type, Some k, None, 0, q1) | _ => None end
  else if (type =? QUERY_MIGRATE_SAFE_MODE) || (type =? QUERY_SAFE_MODE_COMMIT) || (type =? QUERY_SAFE_MODE_ABORT) then
    Some (type, None, None, 0, q)
  else Some (-1, None, None, 0, q).

(** [parseQuery]: the id is printed first, which throws when it holds a string that is no
    UTF-8, and adds a null [QueryID] when there is none, so that the test for the member
    never fails. *)
Definition parseQuery {St} (fromRaw : list byte) : prog St (option Query) :=
  serializedQuery ← load fromRaw;
  let '(QueryID, q) := obj_at k_QueryID serializedQuery in
  _ ← print QueryID;
  if negb (obj_contains k_query q) then mret None
  else if negb (obj_contains k_QueryID q) then mret None
  else
    type ← json_to_int true 32 (obj_at k_query q).1;
    id ← json_to_int false 32 QueryID;
    match parse_data type q with
    | None => mret None
    | Some (type, key, value, valueLength, q) =>
        registryIndex ← (if negb (obj_contains k_registryIndex q) then mret (-1)
                         else json_to_int true 16 (obj_at k_registryIndex q).1);
        mret (Some (mkParsed type id (mkQuery key value valueLength registryIndex)))
    end.

(** ** The storage engine as the server calls it *)

Class StrageEngine (DB : Type) : Type := {
  engine_add : QueryContext -> prog DB bool;
  engine_get : QueryContext -> prog DB (bool * QueryContext);
  engine_remove : QueryContext -> prog DB bool;
  engine_exists : QueryContext -> prog DB bool;
  engine_migrateToSafeMode : QueryContext -> prog DB bool;
  engine_safeCommitExit : QueryContext -> prog DB bool;
  engine_safeAbortExit : QueryContext -> prog DB bool;
}.

Definition b2z (b : bool) : Z := if b then 1 else 0.

(** A response with a status, and the response to a query that failed. *)
Definition response (id status : Z) : object := obj_set k_status (J_number status) (obj_set k_QueryID (J_number id) []).
Definition failureSB (id : Z) : object := response id (-1).

(** [SBSegment::body( body , length )] takes the length as an [unsigned short], and
    [bodyLength] gives it back: of the bytes put into a segment, the first ones can be read,
    as many as the lower 16 bits of their number say. *)
Definition segment_body (raw : list byte) : list byte := take (Z.to_nat (Z.of_nat (length raw) mod 2 ^ 16)) raw.

(** A response is written and put into the segment. *)
Definition respond {St} (m : object) : prog St (list byte) := raw ← dump m; mret (segment_body raw).

(** One round of the thread's loop after the request was taken: what can be read from the
    segment of the response. For a query that could not be parsed [failureSB] reads the id of a null pointer. *)
Definition handle {DB} (engine : StrageEngine DB) (body : list byte) : prog DB (list byte) :=
  qctx ← parseQuery body;
  match qctx with
  | None => undef
  | Some q =>
      let type := qc_type q in
      if type <? 0 then respond (failureSB (qc_id q))
      else if type =? QUERY_ADD then
        flag ← engine_add (qc_data q);
        if negb flag then respond (failureSB (qc_id q)) else respond (response (qc_id q) (b2z flag))
      else if type =? QUERY_SELECT then
        '(flag, d) ← engine_get (qc_data q);
        if negb flag then respond (failureSB (qc_id q))
        else
          value ← must (rd (q_valueLength d) (q_value d));
          respond (obj_set k_value (J_binary value None) (response (qc_id q) (b2z flag)))
      else if type =? QUERY_EXISTS then
        flag ← engine_exists (qc_data q);
        respond (obj_set k_value (J_number (b2z flag)) (response (qc_id q) (b2z flag)))
      else if type =? QUERY_REMOVE then
        flag ← engine_remove (qc_data q); respond (response (qc_id q) (b2z flag))
      else if type =? QUERY_MIGRATE_SAFE_MODE then
        flag ← engine_migrateToSafeMode (qc_data q); respond (response (qc_id q) (b2z flag))
      else if type =? QUERY_SAFE_MODE_COMMIT then
        flag ← engine_safeCommitExit (qc_data q); respond (response (qc_id q) (b2z flag))
      else if type =? QUERY_SAFE_MODE_ABORT then
        flag ← engine_safeAbortExit (qc_data q); respond (response (qc_id q) (b2z flag))
      else mret body
  end.

(** ** The server's thread *)

(** The storage, the two queues of segments (what can be read from each), and the number of
    requests served. *)
Record Server (DB : Type) : Type := mkServer {
  sv_db : DB;
  sv_incoming : list (list byte);
  sv_outgoing : list (list byte);
  sv_served : nat;
}.
Arguments mkServer {DB} _ _ _ _.
Arguments sv_db {DB} _.
Arguments sv_incoming {DB} _.
Arguments sv_outgoing {DB} _.
Arguments sv_served {DB} _.

Section thread.
Context {DB : Type}.
(** The engine at each request: its clock goes on. *)
Context (engine : nat -> StrageEngine DB).

(** A round of the loop, unless the thread waits for a request or for room; whether it ran. *)
Definition serve_one : prog (Server DB) bool := fun s =>
  match sv_incoming s with
  | request :: rest =>
      if has_room DEFAULT_STREAM_BUFFER_CAPACITY (sv_outgoing s) then
        match handle (engine (sv_served s)) request (sv_db s) with
        | Ok reply db => Ok true (mkServer db rest (sv_outgoing s ++ [reply]) (S (sv_served s)))
        | Throw e db => Throw e (mkServer db rest (sv_outgoing s) (sv_served s))
        | Undef => Undef
        end
      else Ok false s
  | [] => Ok false s
  end.

(** The thread runs for up to [n] rounds. *)
Fixpoint let_server (n : nat) : prog (Server DB) unit :=
  match n with
  | O => mret tt
  | S n' => ran ← serve_one; if ran : bool then let_server n' else mret tt
  end.
End thread.

(** ** [MMyISAM] as the engine *)

Section engine.
Context {D C : Type} {Dops : OverlayMemOps D} {Cops : OverlayMemOps C} {ssl : OpenSSL}.
Notation Mgr := (Manager D C).
Notation DB := (MMyISAM Mgr (SafeIndexManager Mgr)).

(** What the calls take from their surroundings: bounds of the descents, the time, the order
    of iterating the hash table, the files of safe mode, and what
    [migrateToSafeMode] leaves to its caller without a [return]. *)
Definition MMyISAM_engine (fuel : nat) (now : Z) (iteration : gmap optr MappingContext -> list (optr * MappingContext))
    (safeIndexFile safeValueFile : Mgr) (answer : option bool) : StrageEngine DB :=
  let ops := SafeIndexManager_ops fuel now in {|
  engine_add := MMyISAM_add (safe := ops) fuel now;
  engine_get := MMyISAM_get (safe := ops) fuel;
  engine_remove := MMyISAM_remove (safe := ops) fuel;
  engine_exists := MMyISAM_exists (safe := ops) fuel;
  engine_migrateToSafeMode := migrateToSafeMode safeIndexFile safeValueFile answer;
  engine_safeCommitExit := safeCommitExit fuel iteration now;
  engine_safeAbortExit := safeAbortExit;
|}.
End engine.

(** ** What a table engine promises to the server's clients *)

(** A value that fits the largest response with it, of 46 bytes and the value, whose length
    is cut to 16 bits. A value that arrived in a request does. *)
Definition value_fits (v : list byte) : Prop := Z.of_nat (length v) + 46 < 2 ^ 16.

(** [holds s n b kvs]: the table holds [kvs], newest first, whose values fit a response, and
    has room for [n] more entries and [b] more bytes of values with their headers. *)
Class TableLaws {DB : Type} (engine : nat -> StrageEngine DB)
    (holds : DB -> nat -> Z -> list (list byte * list byte) -> Prop) : Prop := {
  law_add t s n b kvs k v :
    holds s (S n) b kvs -> k ∉ map fst kvs -> length k = 20%nat -> 28 + Z.of_nat (length v) <= b -> value_fits v ->
    wp (engine_add (StrageEngine := engine t) (normal_query k v)) s (fun flag s' =>
      flag = true /\ holds s' n (b - (28 + Z.of_nat (length v))) ((k, v) :: kvs));
  law_get t s n b kvs k value len :
    holds s n b kvs -> (5 <= length k)%nat ->
    wp (engine_get (StrageEngine := engine t) (mkQuery (Some k) value len (-1))) s (fun r s' =>
      got kvs k r (mkQuery (Some k) value len (-1)) /\ holds s' n b kvs);
  law_small s n b kvs k v : holds s n b kvs -> (k, v) ∈ kvs -> value_fits v;
}.

Section table.
Context {D C : Type} `{memD : OverlayMem D} `{memC : OverlayMem C} {ssl : OpenSSL}.
Notation Mgr := (Manager D C).
Notation DB := (MMyISAM Mgr (SafeIndexManager Mgr)).

Context (fuel : nat) (now : nat -> Z) (iteration : gmap optr MappingContext -> list (optr * MappingContext)).
Context (safeIndexFile safeValueFile : nat -> Mgr) (answer : nat -> option bool).

Definition MMyISAM_engines (t : nat) : StrageEngine DB :=
  MMyISAM_engine fuel (now t) iteration (safeIndexFile t) (safeValueFile t) (answer t).

Definition MMyISAM_holds (s : DB) (n : nat) (b : Z) (kvs : list (list byte * list byte)) : Prop :=
  exists n1 n2 ht, database s n1 n2 ht kvs /\ (ht + n < fuel)%nat /\ n1 + b < 2 ^ 23 /\ room n2 (length kvs) n /\
    Forall (fun kv => value_fits kv.2) kvs.

#[export] Instance MMyISAM_table : TableLaws MMyISAM_engines MMyISAM_holds.
Proof.
  split.
  - intros t s n b kvs k v (n1 & n2 & ht & Hdb & Hf & Hb & Hr & Hl) Hk H20 Hv Hfit. cbn [engine_add MMyISAM_engines MMyISAM_engine].
    pose proof (database_height _ _ _ _ _ Hdb) as Hh. pose proof (room_one n2 ht _ n Hr Hh).
    wp_last (database_add fuel (now t) s n1 n2 ht kvs k v) giving r as (-> & n2' & ht' & Hdb' & Hn2 & Hht & _); [assumption..|lia|lia|assumption|].
    split; [reflexivity|]. exists (n1 + 28 + Z.of_nat (length v)), n2', ht'. split; [assumption|]. split; [lia|]. split; [lia|].
    split; [exact (room_step n2 n2' ht _ _ Hr Hh (proj2 Hn2))|now constructor].
  - intros t s n b kvs k value len (n1 & n2 & ht & Hdb & Hf & Hb & Hr & Hl) Hk. cbn [engine_get MMyISAM_engines MMyISAM_engine].
    wp_last (database_get_any fuel s n1 n2 ht kvs k value len) giving r as (Hg & Hdb'); [assumption..|lia|].
    split; [assumption|]. now exists n1, n2, ht.
  - intros s n b kvs k v (n1 & n2 & ht & _ & _ & _ & _ & Hl) Hin. rewrite Forall_forall in Hl. exact (Hl _ Hin).
Qed.
End table.
