(* ===== verification/DBClient.v ===== *)
(** The database client of the node ([share/miya_db_client/miya_db_sb_client.cpp]) and its
    conversation with the server's thread: requests and responses in two bounded queues,
    responses of other queries sent back to the end of the queue, and any interleaving with
    the server. *)
From stdpp Require Import strings.
From S2P Require Import Prelude Bson OverlayPtr CacheTable Allocator Crypto MemoryManager ItemSet NodeStore ONode NodeOps.
From S2P Require Import BTree BTreeModel BTreeAdd BTreeIndex BTreeMap BTreeRemove ValueStore MMyISAM SafeONode SafeBTree SafeMode.
From S2P Require Import StreamBuffer Database.
From Stdlib Require Import Lia.
#[local] Open Scope Z_scope.

Definition MIYA_DB_QUERY_ADD : Z := 1.
Definition MIYA_DB_QUERY_GET : Z := 2.
Definition MIYA_DB_QUERY_REMOVE : Z := 4.
Definition MIYA_DB_QUERY_SAFE_MODE : Z := 10.
Definition MIYA_DB_QUERY_COMMIT : Z := 11.
Definition MIYA_DB_QUERY_ABORT : Z := 12.
Definition MIYA_DB_STATUS_OK : Z := 1.

(** What an operation finds in its surroundings: the random query id, how many rounds the
    server's thread runs before each [popOne] of its loop and before the [pushOne] that
    sends a response back, and a bound of the loop. *)
Record Call : Type := mkCall {
  call_id : Z;
  call_sched : nat -> nat * nat;
  call_fuel : nat;
}.

Section client.
Context {DB : Type} (engine : nat -> StrageEngine DB).
Notation World := (Server DB).

Definition set_incoming (q : list (list byte)) (s : World) : World := mkServer (sv_db s) q (sv_outgoing s) (sv_served s).
Definition set_outgoing (q : list (list byte)) (s : World) : World := mkServer (sv_db s) (sv_incoming s) q (sv_served s).

(** [_pushSBContainer->pushOne] of a segment with this body: on a full queue it waits for the server to take a request;
    when the server in turn waits for room among the responses, for ever. *)
Definition push_request (body : list byte) : prog World unit :=
  s ← get_state;
  if has_room DEFAULT_STREAM_BUFFER_CAPACITY (sv_incoming s) then set_state (set_incoming (sv_incoming s ++ [segment_body body]) s)
  else
    ran ← serve_one engine;
    if ran : bool then modify (fun s => set_incoming (sv_incoming s ++ [segment_body body]) s) else undef.

(** [_popSBContainer->popOne]: on an empty queue it waits for the server's next response;
    without a request to be served, for ever. *)
Definition pop_response : prog World (list byte) :=
  s ← get_state;
  match sv_outgoing s with
  | x :: q => _ ← set_state (set_outgoing q s); mret x
  | [] =>
      ran ← serve_one engine;
      if ran : bool then
        s ← get_state;
        match sv_outgoing s with
        | x :: q => _ ← set_state (set_outgoing q s); mret x
        | [] => undef
        end
      else undef
  end.

(** [_popSBContainer->pushOne] of a segment that was taken, as it is: nobody else takes responses out of a full queue. *)
Definition push_back (body : list byte) : prog World unit :=
  s ← get_state;
  if has_room DEFAULT_STREAM_BUFFER_CAPACITY (sv_outgoing s) then set_state (set_outgoing (sv_outgoing s ++ [body]) s)
  else undef.

(** Whether a response carries the id of the query. *)
Definition is_response (id : Z) (responseJson : object) : bool :=
  obj_contains k_QueryID responseJson && json_eqb (obj_at k_QueryID responseJson).1 id.

(** The loop that waits for a response, from round [i] on; [stop] is what it does with a
    response, [None] when it sends it back, and asks for the id with [contains] first. *)
Fixpoint await {A} (stop : object -> option A) (sched : nat -> nat * nat) (fuel i : nat) : prog World A :=
  match fuel with
  | O => undef
  | S fuel' =>
      _ ← let_server engine (sched i).1;
      responseSB ← pop_response;
      responseJson ← load_contains responseSB;
      match stop responseJson with
      | Some a => mret a
      | None =>
          _ ← let_server engine (sched i).2;
          _ ← push_back responseSB;
          await stop sched fuel' (S i)
      end
  end.

(** [filterResponseSB], and the same loop in [get], [add] and [remove]. *)
Definition own_response (id : Z) (m : object) : option object := if is_response id m then Some m else None.
Definition filterResponseSB (c : Call) : prog World object :=
  await (own_response (call_id c)) (call_sched c) (call_fuel c) 0.

(** [generateQuerySB] and sending it. *)
Definition send (queryJson : object) : prog World unit := body ← dump queryJson; push_request body.

(** The queries of the operations. *)
Definition command_query (id query registryIndex : Z) : object :=
  obj_set k_registryIndex (J_number registryIndex) (obj_set k_query (J_number query) (obj_set k_QueryID (J_number id) [])).
Definition key_query (id query : Z) (key : list byte) (registryIndex : Z) : object :=
  obj_set k_registryIndex (J_number registryIndex)
    (obj_set k_key (J_binary key None) (obj_set k_query (J_number query) (obj_set k_QueryID (J_number id) []))).
Definition add_query (id : Z) (key value : list byte) (registryIndex : Z) : object :=
  obj_set k_registryIndex (J_number registryIndex) (obj_set k_value (J_binary value None)
    (obj_set k_key (J_binary key None) (obj_set k_query (J_number MIYA_DB_QUERY_ADD) (obj_set k_QueryID (J_number id) [])))).

(** Whether a response says that the query succeeded. *)
Definition status_ok (responseJson : object) : bool :=
  obj_contains k_status responseJson && json_eqb (obj_at k_status responseJson).1 MIYA_DB_STATUS_OK.

(** [get]: the bytes, or the null pointer; [connected] when the client was constructed with
    both queues. The pointer the caller passed is left alone when there is no status. *)
Definition client_get (connected : bool) (c : Call) (rawKey : buffer) (registryIndex : Z) (retRaw : buffer) : prog World (Z * buffer) :=
  if negb connected then mret (0, None)
  else
    key ← must (rd 20 rawKey);
    _ ← send (key_query (call_id c) MIYA_DB_QUERY_GET key registryIndex);
    responseJson ← filterResponseSB c;
    if negb (obj_contains k_status responseJson) then mret (0, retRaw)
    else if negb (status_ok responseJson) then mret (0, None)
    else
      value ← json_get_binary (obj_at k_value responseJson).1;
      mret (Z.of_nat (length value), Some value).

(** [add]. *)
Definition client_add (connected : bool) (c : Call) (rawKey rawValue : buffer) (rawValueLength registryIndex : Z) : prog World bool :=
  if negb connected then mret false
  else
    key ← must (rd 20 rawKey);
    value ← must (rd rawValueLength rawValue);
    _ ← send (add_query (call_id c) key value registryIndex);
    responseJson ← filterResponseSB c;
    mret (status_ok responseJson).

(** [remove]. *)
Definition client_remove (connected : bool) (c : Call) (rawKey : buffer) (registryIndex : Z) : prog World bool :=
  if negb connected then mret false
  else
    key ← must (rd 20 rawKey);
    _ ← send (key_query (call_id c) MIYA_DB_QUERY_REMOVE key registryIndex);
    responseJson ← filterResponseSB c;
    mret (status_ok responseJson).

(** [safeMode] and [commit]. *)
Definition client_command (query : Z) (connected : bool) (c : Call) (registryIndex : Z) : prog World bool :=
  if negb connected then mret false
  else
    _ ← send (command_query (call_id c) query registryIndex);
    responseJson ← filterResponseSB c;
    mret (status_ok responseJson).

Definition client_safeMode : bool -> Call -> Z -> prog World bool := client_command MIYA_DB_QUERY_SAFE_MODE.
Definition client_commit : bool -> Call -> Z -> prog World bool := client_command MIYA_DB_QUERY_COMMIT.

(** [abort] prints the response, and the status, which it adds as null when there is none. *)
Definition client_abort (connected : bool) (c : Call) (registryIndex : Z) : prog World bool :=
  if negb connected then mret false
  else
    _ ← send (command_query (call_id c) MIYA_DB_QUERY_ABORT registryIndex);
    responseJson ← filterResponseSB c;
    _ ← print (J_object responseJson);
    let '(status, responseJson) := obj_at k_status responseJson in
    _ ← print status;
    mret (status_ok responseJson).
End client.

(** ** A conversation: one request in flight *)

Section conversation.
Context {DB A : Type} (engine : nat -> StrageEngine DB) (stop : object -> option A).
Notation World := (Server DB).

(** A pending response of another query, and a schedule that lets the server run. *)
Definition foreign (x : list byte) : Prop := exists m, from_bson x = Parsed m /\ stop m = None.

Definition serves (sched : nat -> nat * nat) (i rounds : nat) : Prop :=
  exists j, (i <= j < i + rounds)%nat /\ (0 < (sched j).1 + (sched j).2)%nat.

Lemma has_room_lt (q : list (list byte)) : (length q < 20)%nat -> has_room DEFAULT_STREAM_BUFFER_CAPACITY q = true.
Proof. intros H. unfold has_room, DEFAULT_STREAM_BUFFER_CAPACITY. apply Z.ltb_lt. lia. Qed.

Lemma let_server_idle n db out k : let_server engine n (mkServer db [] out k) = Ok tt (mkServer db [] out k).
Proof. now destruct n. Qed.

Lemma load_ok {S} x m (s : S) : from_bson x = Parsed m -> load x s = Ok m s.
Proof. intros H. unfold load. now rewrite H. Qed.

Lemma load_contains_ok {S} x m (s : S) : from_bson x = Parsed m -> load_contains x s = Ok m s.
Proof. intros H. unfold load_contains. now rewrite H. Qed.

Lemma serve_request req db out k (R : list byte -> DB -> Prop) :
  (length out < 20)%nat -> wp (handle (engine k) req) db R ->
  exists reply db', serve_one engine (mkServer db [req] out k) = Ok true (mkServer db' [] (out ++ [reply]) (S k)) /\ R reply db'.
Proof.
  intros Hl H. destruct (wp_inv _ _ _ H) as (reply & db' & E & HR). exists reply, db'. split; [|exact HR].
  unfold serve_one. cbn [sv_incoming sv_outgoing sv_db sv_served]. now rewrite has_room_lt, E.
Qed.

Lemma let_server_request n req db out k (R : list byte -> DB -> Prop) :
  (0 < n)%nat -> (length out < 20)%nat -> wp (handle (engine k) req) db R ->
  exists reply db', let_server engine n (mkServer db [req] out k) = Ok tt (mkServer db' [] (out ++ [reply]) (S k)) /\ R reply db'.
Proof.
  intros Hn Hl H. destruct n as [|n]; [lia|]. cbn [let_server].
  destruct (serve_request req db out k R Hl H) as (reply & db' & E & HR). exists reply, db'. split; [|exact HR].
  rewrite (run_bind _ _ _ _ _ E). apply let_server_idle.
Qed.

(** The response is among the others: they are sent back to the end. *)
Lemma await_served sched db k reply m a o2 : from_bson reply = Parsed m -> stop m = Some a ->
  forall o1 fuel i, Forall foreign o1 -> (length o1 + length o2 < 20)%nat -> (length o1 < fuel)%nat ->
  await engine stop sched fuel i (mkServer db [] (o1 ++ reply :: o2) k) = Ok a (mkServer db [] (o2 ++ o1) k).
Proof.
  intros Hm Hid o1. revert o2. induction o1 as [|x o1 IH]; intros o2 [|fuel] i Ho Hl Hf; cbn [length] in *; try lia;
    cbn [await]; rewrite (run_bind (let_server engine (sched i).1) _ _ _ _ (let_server_idle _ _ _ _)).
  - unfold pop_response. rewrite run_bind with (a := reply) (s' := mkServer db [] o2 k) by reflexivity.
    rewrite (run_bind _ _ _ _ _ (load_contains_ok _ _ _ Hm)), Hid. now rewrite app_nil_r.
  - apply Forall_cons in Ho as [(mx & Hx & Hfx) Ho]. unfold pop_response.
    rewrite run_bind with (a := x) (s' := mkServer db [] (o1 ++ reply :: o2) k) by reflexivity.
    rewrite (run_bind _ _ _ _ _ (load_contains_ok _ _ _ Hx)), Hfx.
    rewrite (run_bind (let_server engine (sched i).2) _ _ _ _ (let_server_idle _ _ _ _)).
    rewrite run_bind with (a := tt) (s' := mkServer db [] (o1 ++ reply :: (o2 ++ [x])) k).
    + rewrite IH; [now rewrite <- app_assoc|assumption|rewrite length_app; cbn; lia|lia].
    + unfold push_back. rewrite run_get. cbn [sv_outgoing]. rewrite has_room_lt by (rewrite length_app; cbn; lia).
      unfold set_state, set_outgoing. cbn. now rewrite <- app_assoc.
Qed.

Context (req : list byte) (R : list byte -> DB -> Prop).
Hypothesis R_response : forall reply db, R reply db -> exists m a, from_bson reply = Parsed m /\ stop m = Some a.

(** What the loop leaves: the response is taken, all others are still there. *)
Definition conversed (out : list (list byte)) (a : A) (s : World) : Prop :=
  exists reply m, R reply (sv_db s) /\ from_bson reply = Parsed m /\ stop m = Some a /\ sv_incoming s = [] /\ sv_outgoing s ≡ₚ out.

(** The server runs before the first [popOne]. *)
Lemma await_served_first sched db k out fuel i :
  (forall t, wp (handle (engine t) req) db R) -> Forall foreign out -> (length out < 20)%nat -> (0 < (sched i).1)%nat ->
  (length out < S fuel)%nat -> wp (await engine stop sched (S fuel) i) (mkServer db [req] out k) (conversed out).
Proof.
  intros HR Ho Hl Hs Hf. destruct (let_server_request (sched i).1 req db out k R Hs Hl (HR k)) as (reply & db' & E & Hr).
  destruct (R_response _ _ Hr) as (m & a & Hm & Hid).
  pose proof (await_served sched db' (S k) reply m a [] Hm Hid out (S fuel) i Ho ltac:(cbn; lia) Hf) as H.
  cbn [await] in *. rewrite (run_bind (let_server engine (sched i).1) _ _ _ _ (let_server_idle _ _ _ _)) in H.
  apply (wp_intro _ _ a (mkServer db' [] out (S k))); [now rewrite (run_bind _ _ _ _ _ E)|now exists reply, m].
Qed.

(** There is no response: the client waits for the server. *)
Lemma await_blocked sched db k fuel i :
  (forall t, wp (handle (engine t) req) db R) -> (sched i).1 = 0%nat ->
  wp (await engine stop sched (S fuel) i) (mkServer db [req] [] k) (conversed []).
Proof.
  intros HR E1. destruct (serve_request req db [] k R ltac:(cbn; lia) (HR k)) as (reply & db' & E & Hr).
  destruct (R_response _ _ Hr) as (m & a & Hm & Hid).
  apply (wp_intro _ _ a (mkServer db' [] [] (S k))); [|now exists reply, m]. cbn [await]. rewrite E1. cbn [let_server].
  rewrite run_bind with (a := tt) (s' := mkServer db [req] [] k) by reflexivity. unfold pop_response.
  rewrite run_bind with (a := reply) (s' := mkServer db' [] [] (S k)).
  - rewrite (run_bind _ _ _ _ _ (load_contains_ok _ _ _ Hm)), Hid. reflexivity.
  - rewrite run_get. cbn [sv_outgoing]. now rewrite (run_bind _ _ _ _ _ E).
Qed.

(** The server runs between taking a response and sending it back. *)
Lemma await_served_between sched db k x out fuel i :
  (forall t, wp (handle (engine t) req) db R) -> Forall foreign (x :: out) -> (length (x :: out) < 20)%nat ->
  (sched i).1 = 0%nat -> (0 < (sched i).2)%nat -> (S (length out) < S fuel)%nat ->
  wp (await engine stop sched (S fuel) i) (mkServer db [req] (x :: out) k) (conversed (x :: out)).
Proof.
  intros HR Ho Hl E1 E2 Hf. apply Forall_cons in Ho as [(mx & Hx & Hfx) Ho]. cbn [length] in Hl.
  destruct (let_server_request (sched i).2 req db out k R E2 ltac:(lia) (HR k)) as (reply & db' & E & Hr).
  destruct (R_response _ _ Hr) as (m & a & Hm & Hid).
  apply (wp_intro _ _ a (mkServer db' [] (x :: out) (S k))); [|now exists reply, m].
  cbn [await]. rewrite E1. cbn [let_server].
  rewrite run_bind with (a := tt) (s' := mkServer db [req] (x :: out) k) by reflexivity. unfold pop_response.
  rewrite run_bind with (a := x) (s' := mkServer db [req] out k) by reflexivity.
  rewrite (run_bind _ _ _ _ _ (load_contains_ok _ _ _ Hx)), Hfx, (run_bind _ _ _ _ _ E).
  rewrite run_bind with (a := tt) (s' := mkServer db' [] (out ++ reply :: [x]) (S k)).
  - apply await_served with m; [assumption|assumption|assumption|cbn; lia|lia].
  - unfold push_back. rewrite run_get. cbn [sv_outgoing]. rewrite has_room_lt by (rewrite length_app; cbn; lia).
    unfold set_state, set_outgoing. cbn. now rewrite <- app_assoc.
Qed.

Lemma await_conversation sched db k : (forall t, wp (handle (engine t) req) db R) ->
  forall rounds out fuel i, Forall foreign out -> (length out < 20)%nat -> (out = [] \/ serves sched i rounds) ->
  (rounds + length out + 1 < fuel)%nat ->
  wp (await engine stop sched fuel i) (mkServer db [req] out k) (conversed out).
Proof.
  intros HR rounds. induction rounds as [|rounds IH]; intros out [|fuel] i Ho Hl Hs Hf; try lia;
    destruct (Nat.eq_dec (sched i).1 0%nat) as [E1|E1]; try solve [apply await_served_first; assumption || lia].
  - destruct Hs as [->|(j & Hj & _)]; [|lia]. apply await_blocked; assumption.
  - destruct out as [|x out]; [now apply await_blocked|]. destruct Hs as [|(j & Hj & Hsj)]; [discriminate|].
    destruct (Nat.eq_dec (sched i).2 0%nat) as [E2|E2]; [|apply await_served_between; cbn [length] in *; assumption || lia].
    apply Forall_cons in Ho as [(mx & Hx & Hfx) Ho]. cbn [await length] in *. rewrite E1, E2. cbn [let_server].
    unfold wp. rewrite run_bind with (a := tt) (s' := mkServer db [req] (x :: out) k) by reflexivity. unfold pop_response.
    rewrite run_bind with (a := x) (s' := mkServer db [req] out k) by reflexivity.
    rewrite (run_bind _ _ _ _ _ (load_contains_ok _ _ _ Hx)), Hfx.
    rewrite run_bind with (a := tt) (s' := mkServer db [req] out k) by reflexivity.
    rewrite run_bind with (a := tt) (s' := mkServer db [req] (out ++ [x]) k).
    + eapply wp_mono; [apply IH|].
      * apply Forall_app. split; [assumption|]. constructor; [now exists mx|constructor].
      * rewrite length_app. cbn. lia.
      * right. exists j. split; [|assumption]. assert (j <> i) by (intros ->; lia). lia.
      * rewrite length_app. cbn. lia.
      * intros a s (reply & m & H1 & H2 & H3 & H4 & H5). exists reply, m. do 4 (split; [assumption|]). rewrite H5. symmetry. apply Permutation_cons_append.
    + unfold push_back. rewrite run_get. cbn [sv_outgoing]. now rewrite has_room_lt by lia.
Qed.
End conversation.

(** ** The server's answers to the client's queries *)

Lemma add_query_members id k v r : add_query id k v r =
  [(k_QueryID, J_number id); (k_key, J_binary k None); (k_query, J_number 1); (k_registryIndex, J_number r); (k_value, J_binary v None)].
Proof. reflexivity. Qed.

Lemma key_query_members id q k r : key_query id q k r =
  [(k_QueryID, J_number id); (k_key, J_binary k None); (k_query, J_number q); (k_registryIndex, J_number r)].
Proof. reflexivity. Qed.

Lemma response_members id st : response id st = [(k_QueryID, J_number id); (k_status, J_number st)].
Proof. reflexivity. Qed.

Lemma value_response_members id st v :
  obj_set k_value v (response id st) = [(k_QueryID, J_number id); (k_status, J_number st); (k_value, v)].
Proof. reflexivity. Qed.

(** Ids and registry indexes have the ranges of their types, byte strings fit a document. *)
Definition id_ok (id : Z) : Prop := 0 <= id < 2 ^ 32.
Definition short_ok (r : Z) : Prop := - 2 ^ 15 <= r < 2 ^ 15.
Definition bytes_ok (l : list byte) : Prop := Z.of_nat (length l) < 2 ^ 31.

(** The value of an addition whose request, of up to 94 bytes and the value, has a length of 16 bits. *)
Definition request_value_ok (v : list byte) : Prop := Z.of_nat (length v) + 94 < 2 ^ 16.

Lemma request_value_fits v : request_value_ok v -> value_fits v.
Proof. unfold request_value_ok, value_fits. lia. Qed.

(** A document that a segment holds whole. *)
Definition fits (m : object) : Prop := json_wf (J_object m) = true /\ calc_bson_value_size (J_object m) < 2 ^ 16.

Ltac wf_members :=
  cbn [json_wf map fst snd forallb]; unfold id_ok, short_ok, bytes_ok, value_fits, request_value_ok in *;
  repeat match goal with
  | |- context [keys_sorted ?l] => change (keys_sorted l) with true
  | |- context [has_nul ?k] => change (has_nul k) with false
  | |- context [?a <=? ?b] => rewrite (proj2 (Z.leb_le a b)) by (cbn; lia)
  | |- context [?a <? ?b] => rewrite (proj2 (Z.ltb_lt a b)) by (cbn; lia)
  end; reflexivity.

(** A document of a few members: the names are known, the numbers take four or eight bytes. *)
Ltac fits_members :=
  split; [wf_members|]; cbn [calc_bson_value_size]; unfold calc_bson_entry_header_size, id_ok, short_ok, bytes_ok, value_fits, request_value_ok in *;
  repeat match goal with |- context [is_int32 ?z] => first [rewrite (proj2 (is_int32_range z)) by (cbn; lia)|destruct (is_int32 z)] end;
  repeat match goal with |- context [Z.of_nat (length ?k)] => first [is_var k; fail 1|let n := eval vm_compute in (Z.of_nat (length k)) in change (Z.of_nat (length k)) with n] end;
  lia.

Lemma add_query_fits id k v r : id_ok id -> length k = 20%nat -> request_value_ok v -> short_ok r -> fits (add_query id k v r).
Proof. intros Hid Hk Hv Hr. rewrite add_query_members. fits_members. Qed.

Lemma key_query_fits id q k r : id_ok id -> id_ok q -> length k = 20%nat -> short_ok r -> fits (key_query id q k r).
Proof. intros Hid Hq Hk Hr. rewrite key_query_members. fits_members. Qed.

Lemma response_fits id st : id_ok id -> short_ok st -> fits (response id st).
Proof. intros Hid Hst. rewrite response_members. fits_members. Qed.

Lemma value_response_fits id st v : id_ok id -> short_ok st -> value_fits v ->
  fits (obj_set k_value (J_binary v None) (response id st)).
Proof. intros Hid Hst Hv. rewrite value_response_members. fits_members. Qed.

Lemma segment_body_whole l : Z.of_nat (length l) < 2 ^ 16 -> segment_body l = l.
Proof. intros H. unfold segment_body. rewrite Z.mod_small by lia. rewrite Nat2Z.id. apply firstn_all. Qed.

Lemma dump_ok {S} m (s : S) : json_wf (J_object m) = true ->
  exists l, dump m s = Ok l s /\ from_bson l = Parsed (read_back_object m) /\ Z.of_nat (length l) = calc_bson_value_size (J_object m).
Proof.
  intros H. destruct (bson_reads_back m H) as (l & Hl & Hr). exists l. unfold dump. rewrite Hl. split; [reflexivity|]. split; [exact Hr|].
  unfold to_bson in Hl. destruct (bson_throws _); [discriminate|]. apply (inj Some) in Hl as <-. apply value_size.
Qed.

Lemma wp_dump {S} m (s : S) (Q : list byte -> S -> Prop) : fits m ->
  (forall l, from_bson l = Parsed (read_back_object m) -> segment_body l = l -> Q l s) -> wp (dump m) s Q.
Proof.
  intros [H Hs] HQ. destruct (dump_ok m s H) as (l & E & Hr & Hl). apply (wp_intro _ _ _ _ _ E).
  apply HQ; [exact Hr|]. apply segment_body_whole. lia.
Qed.

Lemma wp_respond {S} m (s : S) (Q : list byte -> S -> Prop) : fits m ->
  (forall l, from_bson l = Parsed (read_back_object m) -> Q l s) -> wp (respond m) s Q.
Proof.
  intros H HQ. unfold respond. apply wp_bind, wp_dump; [exact H|]. intros l Hr Hl. apply wp_ret. rewrite Hl. now apply HQ.
Qed.

Lemma number_int {S} signed w z (s : S) : wrap signed w z = z -> json_to_int signed w (J_number z) s = Ok z s.
Proof. intros H. cbn [json_to_int]. now rewrite H. Qed.

Lemma wrap_unsigned w z : 0 <= z < 2 ^ w -> wrap false w z = z.
Proof. intros H. cbn [wrap]. now apply Z.mod_small. Qed.

Lemma wrap_signed w z : 0 < w -> - 2 ^ (w - 1) <= z < 2 ^ (w - 1) -> wrap true w z = z.
Proof. intros Hw H. cbn [wrap]. now apply to_signed_small. Qed.

Lemma print_number {S} z (s : S) : print (J_number z) s = Ok tt s.
Proof. reflexivity. Qed.

(** The parser on a query whose members are there. *)
Definition registry_of (m : object) (r : Z) : Prop :=
  (obj_get k_registryIndex m = None /\ r = -1) \/ (obj_get k_registryIndex m = Some (J_number r) /\ short_ok r).

Lemma obj_at_some k v (m : object) : obj_get k m = Some v -> obj_at k m = (v, m).
Proof. intros H. unfold obj_at. now rewrite H. Qed.

Lemma parse_spec {S} t t' id m key value len r l (s : S) :
  from_bson l = Parsed m -> obj_get k_QueryID m = Some (J_number id) -> obj_get k_query m = Some (J_number t) ->
  id_ok id -> - 2 ^ 31 <= t < 2 ^ 31 -> parse_data t m = Some (t', key, value, len, m) -> registry_of m r ->
  parseQuery l s = Ok (Some (mkParsed t' id (mkQuery key value len r))) s.
Proof.
  intros Hl Hi Hq Hid Ht Hd Hr. unfold parseQuery. rewrite (run_bind _ _ _ _ _ (load_ok _ _ _ Hl)).
  rewrite (obj_at_some _ _ _ Hi), (run_bind _ _ _ _ _ (print_number id s)). unfold obj_contains at 1 2. rewrite Hq, Hi. cbn [negb].
  rewrite (obj_at_some _ _ _ Hq), (run_bind _ _ _ _ _ (number_int true 32 t s (wrap_signed 32 t ltac:(lia) Ht))).
  rewrite (run_bind _ _ _ _ _ (number_int false 32 id s (wrap_unsigned _ _ Hid))). rewrite Hd. unfold obj_contains.
  destruct Hr as [[Hr ->]|[Hr Hs]]; rewrite Hr; cbn [negb]; [reflexivity|]. rewrite (obj_at_some _ _ _ Hr).
  now rewrite (run_bind _ _ _ _ _ (number_int true 16 r s (wrap_signed 16 r ltac:(lia) Hs))).
Qed.

(** ** Queries in normal mode against a table *)

Section table.
Context {DB : Type} {engine : nat -> StrageEngine DB} {holds : DB -> nat -> Z -> list (list byte * list byte) -> Prop}.
Context {laws : TableLaws engine holds}.

(** What is known of the response to an addition and to a lookup. *)
Definition added (id : Z) (n : nat) (b : Z) (kvs : list (list byte * list byte)) (k v reply : list byte) (s : DB) : Prop :=
  from_bson reply = Parsed (response id 1) /\ holds s n (b - (28 + Z.of_nat (length v))) ((k, v) :: kvs).

Definition found (id : Z) (n : nat) (b : Z) (kvs : list (list byte * list byte)) (k reply : list byte) (s : DB) : Prop :=
  holds s n b kvs /\
  ((exists k' v, (k', v) ∈ kvs /\ take 5 k' = take 5 k /\ value_fits v /\
      from_bson reply = Parsed (obj_set k_value (J_binary v (Some 0)) (response id 1))) \/
   (Forall (fun kv => take 5 kv.1 <> take 5 k) kvs /\ from_bson reply = Parsed (response id (-1)))).

Lemma handle_add t s n b kvs id k v l m :
  holds s (S n) b kvs -> k ∉ map fst kvs -> length k = 20%nat -> 28 + Z.of_nat (length v) <= b -> value_fits v -> id_ok id ->
  from_bson l = Parsed m -> obj_get k_QueryID m = Some (J_number id) -> obj_get k_query m = Some (J_number QUERY_ADD) ->
  parse_data QUERY_ADD m = Some (QUERY_ADD, Some k, Some v, Z.of_nat (length v), m) -> registry_of m (-1) ->
  wp (handle (engine t) l) s (added id n b kvs k v).
Proof.
  intros Hh Hk H20 Hv Hfit Hid Hl Hi Hq Hd Hr. unfold handle. apply wp_bind.
  eapply wp_intro; [apply (parse_spec QUERY_ADD QUERY_ADD id m); [eassumption..|split; vm_compute; congruence|eassumption|eassumption]|].
  cbn [qc_type qc_id qc_data]. change (QUERY_ADD <? 0) with false. change (QUERY_ADD =? QUERY_ADD) with true. cbv iota.
  wp_seq (law_add (TableLaws := laws) t s n b kvs k v) giving flag as (-> & Hh'); [assumption..|]. cbn [negb b2z].
  apply wp_respond; [apply response_fits; [assumption|split; vm_compute; congruence]|]. intros reply Hreply. split; [exact Hreply|exact Hh'].
Qed.

Lemma handle_get t s n b kvs id k l m :
  holds s n b kvs -> (5 <= length k)%nat -> id_ok id ->
  from_bson l = Parsed m -> obj_get k_QueryID m = Some (J_number id) -> obj_get k_query m = Some (J_number QUERY_SELECT) ->
  parse_data QUERY_SELECT m = Some (QUERY_SELECT, Some k, None, 0, m) -> registry_of m (-1) ->
  wp (handle (engine t) l) s (found id n b kvs k).
Proof.
  intros Hh Hk Hid Hl Hi Hq Hd Hr. unfold handle. apply wp_bind.
  eapply wp_intro; [apply (parse_spec QUERY_SELECT QUERY_SELECT id m); [eassumption..|split; vm_compute; congruence|eassumption|eassumption]|].
  cbn [qc_type qc_id qc_data]. change (QUERY_SELECT <? 0) with false. change (QUERY_SELECT =? QUERY_ADD) with false.
  change (QUERY_SELECT =? QUERY_SELECT) with true. cbv iota.
  pose proof (fun k v => law_small (TableLaws := laws) s n b kvs k v Hh) as Hsmall.
  wp_seq (law_get (TableLaws := laws) t s n b kvs k None 0) giving r as (Hg & Hh'); [assumption..|].
  destruct Hg as [(k' & v & Hin & Et & ->)|[Hn ->]]; cbn [negb].
  - cbn [set_query_value q_value q_valueLength]. rewrite rd_all. apply wp_bind. eapply wp_must; [reflexivity|].
    apply wp_respond; [apply value_response_fits; [assumption|split; vm_compute; congruence|exact (Hsmall _ _ Hin)]|]. intros reply Hreply. split; [exact Hh'|]. left. exists k', v.
    split; [exact Hin|]. split; [exact Et|]. split; [exact (Hsmall _ _ Hin)|]. rewrite Hreply. reflexivity.
  - apply wp_respond; [apply response_fits; [assumption|split; vm_compute; congruence]|]. intros reply Hreply. split; [exact Hh'|]. now right.
Qed.

(** ** The client's operations in normal mode *)

Notation World := (Server DB).

(** No request is waiting, the responses [out] of other queries are. *)
Definition table_state (n : nat) (b : Z) (kvs : list (list byte * list byte)) (out : list (list byte)) (s : World) : Prop :=
  holds (sv_db s) n b kvs /\ sv_incoming s = [] /\ sv_outgoing s ≡ₚ out.

(** A call whose id no pending response has, during which the server's thread gets to run,
    with a bound that is enough. *)
Definition awaits {A} (stop : object -> option A) (c : Call) (out : list (list byte)) : Prop :=
  id_ok (call_id c) /\ Forall (foreign stop) out /\ (length out < 20)%nat /\
  exists rounds, (out = [] \/ serves (call_sched c) 0 rounds) /\ (rounds + length out + 1 < call_fuel c)%nat.

Definition call_ok (c : Call) : list (list byte) -> Prop := awaits (own_response (call_id c)) c.

Lemma awaits_perm {A} (stop : object -> option A) c out out' : out ≡ₚ out' -> awaits stop c out -> awaits stop c out'.
Proof.
  intros Hp (H1 & H2 & H3 & rounds & H4 & H5). split; [exact H1|]. split; [now rewrite <- Hp|].
  assert (length out' = length out) as El by now rewrite Hp. rewrite El. split; [exact H3|]. exists rounds. split; [|exact H5].
  destruct H4 as [->|H4]; [left; now destruct out'|now right].
Qed.

Lemma exchange {A} (stop : object -> option A) c m (R : list byte -> DB -> Prop) s out :
  fits m -> awaits stop c out -> sv_incoming s = [] -> sv_outgoing s ≡ₚ out ->
  (forall reply db, R reply db -> exists m a, from_bson reply = Parsed m /\ stop m = Some a) ->
  (forall l, from_bson l = Parsed (read_back_object m) -> forall t, wp (handle (engine t) l) (sv_db s) R) ->
  wp (send engine m) s (fun _ s' => wp (await engine stop (call_sched c) (call_fuel c) 0) s' (conversed stop R out)).
Proof.
  intros Hwf Hc Hin Hout Hid HR. unfold send. apply wp_bind. apply wp_dump; [exact Hwf|]. intros l Hl Hsl.
  unfold push_request. apply wp_bind, wp_get. rewrite Hin. change (has_room _ []) with true. cbv iota. apply wp_set.
  unfold set_incoming. rewrite Hsl. cbn [app]. symmetry in Hout. apply (awaits_perm _ _ _ _ Hout) in Hc. destruct Hc as (H1 & H2 & H3 & rounds & H4 & H5).
  eapply wp_mono; [now apply (await_conversation engine stop l R Hid) with rounds; [apply HR|..]|].
  intros x s' (reply & m' & Hr & Hx & Hs & Hi & Ho). exists reply, m'. rewrite Ho. now symmetry in Hout.
Qed.

Lemma own_response_id id (m : object) : obj_get k_QueryID m = Some (J_number id) -> own_response id m = Some m.
Proof. intros H. unfold own_response, is_response, obj_contains. rewrite H, (obj_at_some _ _ _ H). cbn. now rewrite Z.eqb_refl. Qed.

Lemma added_response id n b kvs k v reply db : added id n b kvs k v reply db ->
  exists m, from_bson reply = Parsed m /\ obj_get k_QueryID m = Some (J_number id).
Proof. intros [H _]. eexists. split; [exact H|reflexivity]. Qed.

Lemma found_response id n b kvs k reply db : found id n b kvs k reply db ->
  exists m, from_bson reply = Parsed m /\ obj_get k_QueryID m = Some (J_number id).
Proof. intros [_ [(k' & v & _ & _ & _ & H)|[_ H]]]; (eexists; split; [exact H|reflexivity]). Qed.

Lemma rd_20 k : length k = 20%nat -> rd 20 (Some k) = Some k.
Proof. intros H. change 20 with (Z.of_nat 20). rewrite <- H. apply rd_all. Qed.

Lemma client_add_spec c k v n b kvs out s :
  table_state (S n) b kvs out s -> call_ok c out -> k ∉ map fst kvs -> length k = 20%nat ->
  28 + Z.of_nat (length v) <= b -> request_value_ok v ->
  wp (client_add engine true c (Some k) (Some v) (Z.of_nat (length v)) (-1)) s (fun r s' =>
    r = true /\ table_state n (b - (28 + Z.of_nat (length v))) ((k, v) :: kvs) out s').
Proof.
  intros (Hh & Hi & Ho) Hc Hk H20 Hb Hv. pose proof Hc as (Hid & _). unfold client_add. cbn [negb]. rewrite rd_20 by assumption. rewrite rd_all.
  apply wp_bind. eapply wp_must; [reflexivity|]. apply wp_bind. eapply wp_must; [reflexivity|].
  wp_seq (exchange (own_response (call_id c)) c (add_query (call_id c) k v (-1)) (added (call_id c) n b kvs k v) s out) as Hs;
    [apply add_query_fits; [assumption|assumption|assumption|split; vm_compute; congruence]|assumption..| | |].
  - intros reply db Hr. destruct (added_response _ _ _ _ _ _ _ _ Hr) as (m & Hm & Hi'). exists m, m. split; [exact Hm|now apply own_response_id].
  - intros l Hl t. rewrite add_query_members in Hl.
    pose proof (request_value_fits _ Hv). eapply handle_add; [eassumption..|reflexivity|reflexivity|reflexivity|right; split; [reflexivity|split; vm_compute; congruence]].
  - apply wp_bind. eapply wp_mono; [exact Hs|]. intros m s2 (reply & m' & [Hr Hdb] & Hm & Hst & Hi' & Ho').
    apply wp_ret. rewrite Hr in Hm. apply (inj Parsed) in Hm. subst m'. rewrite own_response_id in Hst by reflexivity.
    apply (inj Some) in Hst. subst m. split; [reflexivity|]. now split.
Qed.

(** What a lookup answers: the value of a pair whose key starts with the same five bytes. *)
Definition answered (kvs : list (list byte * list byte)) (k : list byte) (r : Z * buffer) : Prop :=
  (exists k' v, (k', v) ∈ kvs /\ take 5 k' = take 5 k /\ r = (Z.of_nat (length v), Some v)) \/
  (Forall (fun kv => take 5 kv.1 <> take 5 k) kvs /\ r = (0, None)).

Lemma client_get_spec c k ret n b kvs out s :
  table_state n b kvs out s -> call_ok c out -> length k = 20%nat ->
  wp (client_get engine true c (Some k) (-1) ret) s (fun r s' => answered kvs k r /\ table_state n b kvs out s').
Proof.
  intros (Hh & Hi & Ho) Hc H20. pose proof Hc as (Hid & _). unfold client_get. cbn [negb]. rewrite rd_20 by assumption.
  apply wp_bind. eapply wp_must; [reflexivity|].
  wp_seq (exchange (own_response (call_id c)) c (key_query (call_id c) MIYA_DB_QUERY_GET k (-1)) (found (call_id c) n b kvs k) s out) as Hs;
    [apply key_query_fits; [assumption|split; vm_compute; congruence|assumption|split; vm_compute; congruence]|assumption..| | |].
  - intros reply db Hr. destruct (found_response _ _ _ _ _ _ _ Hr) as (m & Hm & Hi'). exists m, m. split; [exact Hm|now apply own_response_id].
  - intros l Hl t. rewrite key_query_members in Hl.
    eapply handle_get; [eassumption|lia|eassumption..|reflexivity|reflexivity|reflexivity|
      right; split; [reflexivity|split; vm_compute; congruence]].
  - apply wp_bind. eapply wp_mono; [exact Hs|]. intros m s2 (reply & m' & [Hdb Hr] & Hm & Hst & Hi' & Ho').
    destruct Hr as [(k' & v & Hin & Et & _ & Hr)|[Hn Hr]]; rewrite Hr in Hm; apply (inj Parsed) in Hm; subst m';
      rewrite own_response_id in Hst by reflexivity; apply (inj Some) in Hst; subst m.
    + rewrite value_response_members. apply wp_ret. split; [left; now exists k', v|now split].
    + rewrite response_members. apply wp_ret. split; [right; now split|now split].
Qed.

(** A sequence of additions, each with its surroundings; true when all answer true. *)
Fixpoint client_adds (ops : list (Call * (list byte * list byte))) : prog World bool :=
  match ops with
  | [] => mret true
  | (c, (k, v)) :: ops' =>
      r ← client_add engine true c (Some k) (Some v) (Z.of_nat (length v)) (-1);
      rs ← client_adds ops';
      mret (r && rs)
  end.

Lemma client_adds_spec out ops : forall n b old s,
  table_state (n + length ops) b old out s -> Forall (fun op => call_ok op.1 out) ops ->
  NoDup (map (fun op => op.2.1) ops ++ map fst old) -> Forall (fun op => length op.2.1 = 20%nat /\ request_value_ok op.2.2) ops ->
  values_size (map snd ops) <= b ->
  wp (client_adds ops) s (fun r s' => r = true /\ exists new, table_state n (b - values_size (map snd ops)) new out s' /\
    new ≡ₚ map snd ops ++ old).
Proof.
  induction ops as [|[c [k v]] ops IH]; intros n b old s Hs Hc Hnd H20 Hb; cbn [client_adds map snd fst length values_size app] in *.
  - apply wp_ret. split; [reflexivity|]. exists old. rewrite Nat.add_0_r in Hs. now rewrite Z.sub_0_r.
  - apply Forall_cons in Hc as [Hc Hcs]. apply Forall_cons in H20 as [[Hk Hv] H20]. apply NoDup_cons in Hnd as [Hnk Hnd]. cbn [fst snd] in *.
    pose proof (values_size_nonneg (map snd ops)). rewrite Nat.add_succ_r in Hs.
    wp_seq (client_add_spec c k v (n + length ops) b old out s) giving r as (-> & Hs');
      [exact Hs|exact Hc| |exact Hk|lia|exact Hv|]; [rewrite elem_of_app in Hnk; tauto|].
    wp_seq (IH n (b - (28 + Z.of_nat (length v))) ((k, v) :: old)) giving rs as (-> & new & Hn & Hp); [exact Hs'|exact Hcs| |exact H20|lia|].
    + cbn [map fst]. rewrite <- Permutation_middle. now apply NoDup_cons.
    + apply wp_ret. split; [reflexivity|]. exists new. split; [|rewrite Hp; symmetry; apply Permutation_middle].
      now replace (b - (28 + Z.of_nat (length v) + values_size (map snd ops)))
        with (b - (28 + Z.of_nat (length v)) - values_size (map snd ops)) by lia.
Qed.

(** C3: The database behind its server is a key-value table for the client, in every
    interleaving of the two threads: after any sequence of additions of pairs whose keys
    differ in their first five bytes, all of which answer true, [get] gives exactly the bytes
    that were added for every key and nothing for a key whose first five bytes were not
    added. Every call returns, whenever the server's thread gets to run, and leaves the
    pending responses of other queries in the queue. The values are at most 65441 bytes
    long, since the length of a request is cut to 16 bits, and the sequence has to fit the
    table: it has room for that many additions (a new table for 5817, as in the theorem on the
    table itself) and for the values with 28 bytes of header each. *)
Theorem service_refines_map ops out b s :
  table_state (length ops) b [] out s -> Forall (fun op => call_ok op.1 out) ops ->
  NoDup (map (fun op => take 5 op.2.1) ops) -> Forall (fun op => length op.2.1 = 20%nat /\ request_value_ok op.2.2) ops ->
  values_size (map snd ops) <= b ->
  wp (client_adds ops) s (fun r s' => r = true /\ sv_incoming s' = [] /\ sv_outgoing s' ≡ₚ out /\
    (forall k v, (k, v) ∈ map snd ops -> forall c ret, call_ok c out ->
       wp (client_get engine true c (Some k) (-1) ret) s' (fun r s2 =>
         r = (Z.of_nat (length v), Some v) /\ sv_incoming s2 = [] /\ sv_outgoing s2 ≡ₚ out)) /\
    (forall k, length k = 20%nat -> take 5 k ∉ map (fun op => take 5 op.2.1) ops -> forall c ret, call_ok c out ->
       wp (client_get engine true c (Some k) (-1) ret) s' (fun r s2 =>
         r = (0, None) /\ sv_incoming s2 = [] /\ sv_outgoing s2 ≡ₚ out))).
Proof.
  intros Hs Hc Hnd H20 Hb.
  wp_last (client_adds_spec out ops 0 b [] s) giving r as (-> & new & Hn & Hp); [exact Hs|exact Hc| |exact H20|exact Hb|].
  { cbn. rewrite app_nil_r. apply (NoDup_fmap_1 (take 5)). now rewrite <- list_fmap_compose. }
  rewrite app_nil_r in Hp. split; [reflexivity|]. pose proof Hn as (_ & Hi & Ho). split; [exact Hi|]. split; [exact Ho|].
  assert (Hnd' : NoDup (map (fun kv : list byte * list byte => take 5 kv.1) (map snd ops))) by now rewrite map_map.
  split.
  - intros k v Hk c ret Hc'. assert (length k = 20%nat) as Hk20.
    { apply list_elem_of_fmap in Hk as (op & E & Hop). rewrite Forall_forall in H20. pose proof (H20 _ Hop) as [H _].
      now rewrite <- E in H. }
    wp_last (client_get_spec c k ret) giving r as (Ha & _ & Hi' & Ho'); [exact Hn|exact Hc'|exact Hk20|]. split; [|now split].
    destruct Ha as [(k' & v' & Hin & Et & ->)|[Hno _]].
    + rewrite Hp in Hin. now injection (pair_unique _ k v k' v' Hnd' Hk Hin Et) as -> ->.
    + rewrite Forall_forall in Hno. rewrite <- Hp in Hk. now destruct (Hno _ Hk).
  - intros k Hk Hnin c ret Hc'.
    wp_last (client_get_spec c k ret) giving r as (Ha & _ & Hi' & Ho'); [exact Hn|exact Hc'|exact Hk|]. split; [|now split].
    destruct Ha as [(k' & v' & Hin & Et & ->)|[_ ->]]; [|reflexivity]. destruct Hnin. rewrite Hp in Hin. rewrite <- Et.
    apply list_elem_of_fmap in Hin as (op & E & Hop). apply list_elem_of_fmap. exists op. split; [now rewrite <- E|exact Hop].
Qed.
End table.

(** ** Requests that the server does not survive *)

(** Bytes that are no document make the parser throw, and so does every longer request, of
    which the segment keeps a part. *)
Lemma handle_no_document {DB} (engine : StrageEngine DB) body (s : DB) :
  (forall m, from_bson body <> Parsed m) -> handle engine body s = Throw JsonError s.
Proof. intros H. unfold handle, parseQuery, load, mbind, prog_bind. destruct (from_bson body) as [m| |]; [now destruct (H m)|reflexivity..]. Qed.

Lemma segment_body_cut l : 2 ^ 16 <= Z.of_nat (length l) -> exists rest, l = segment_body l ++ rest /\ rest <> [].
Proof.
  intros H. exists (drop (Z.to_nat (Z.of_nat (length l) mod 2 ^ 16)) l). split; [symmetry; apply take_drop|].
  intros E. apply (f_equal length) in E. rewrite length_drop in E. cbn [length] in E.
  pose proof (Z.mod_pos_bound (Z.of_nat (length l)) (2 ^ 16) ltac:(lia)). lia.
Qed.

Lemma long_document_cut m l m' : json_wf (J_object m) = true -> to_bson m = Some l -> 2 ^ 16 <= Z.of_nat (length l) ->
  from_bson (segment_body l) <> Parsed m'.
Proof.
  intros Hwf Hl Hlen. destruct (segment_body_cut l Hlen) as (rest & El & Hrest). rewrite El in Hl.
  destruct (from_bson_cut m _ _ Hwf Hl Hrest) as [-> | ->]; discriminate.
Qed.

(** C28: Whatever the storage engine and its state, these requests end the server's thread with an
    exception that nothing catches: bytes that are no BSON document; the segment of any request
    of 64 KiB or more, of which only a part is there because its length is cut to 16 bits; a request whose [QueryID] cannot be printed,
    since it holds a string that is no UTF-8; and a request with a number as its [query]
    and without a [QueryID], since the missing id was added as null when the query was
    printed. A request without a [query] whose [QueryID] can be printed makes the server read the id of a null
    pointer. And the query [EXISTS] with an id and without a registry index, although the server has a case
    for it, is answered as a failure without asking the engine. *)
Theorem server_bad_requests {DB} (engine : StrageEngine DB) body (s : DB) :
  ((forall m, from_bson body <> Parsed m) -> handle engine body s = Throw JsonError s) /\
  (forall m, json_wf (J_object m) = true -> to_bson m = Some body -> 2 ^ 16 <= Z.of_nat (length body) ->
    handle engine (segment_body body) s = Throw JsonError s) /\
  (forall m, from_bson body = Parsed m ->
    (printable (obj_at k_QueryID m).1 = false -> handle engine body s = Throw JsonError s) /\
    (obj_get k_query m = None -> printable (obj_at k_QueryID m).1 = true -> handle engine body s = Undef) /\
    (forall t, obj_get k_query m = Some (J_number t) -> obj_get k_QueryID m = None -> handle engine body s = Throw JsonError s) /\
    (forall id, obj_get k_query m = Some (J_number QUERY_EXISTS) -> obj_get k_QueryID m = Some (J_number id) -> id_ok id ->
       obj_get k_registryIndex m = None ->
       exists reply, handle engine body s = Ok reply s /\ from_bson reply = Parsed (response id (-1)))).
Proof.
  split; [apply handle_no_document|]. split; [|intros m Hm; split; [|split; [|split]]].
  - intros m Hwf Hl Hlen. apply handle_no_document. intros m'. now apply (long_document_cut m).
  - intros Hp. unfold handle, parseQuery. unfold mbind at 1, prog_bind at 1. rewrite (run_bind _ _ _ _ _ (load_ok _ _ _ Hm)).
    destruct (obj_at k_QueryID m) as [QueryID q]. cbn [fst] in Hp. unfold mbind, prog_bind, print. now rewrite Hp.
  - intros Hq Hp. unfold handle, parseQuery. unfold mbind at 1, prog_bind at 1. rewrite (run_bind _ _ _ _ _ (load_ok _ _ _ Hm)).
    unfold obj_at at 1. unfold obj_at in Hp. destruct (obj_get k_QueryID m) as [v|] eqn:E; cbn [fst] in Hp;
      unfold mbind, prog_bind, print; rewrite Hp; unfold obj_contains; [now rewrite Hq|].
    rewrite obj_get_set_other by discriminate. now rewrite Hq.
  - intros t Hq Hi. unfold handle, parseQuery. unfold mbind at 1, prog_bind at 1. rewrite (run_bind _ _ _ _ _ (load_ok _ _ _ Hm)).
    unfold obj_at at 1. rewrite Hi. rewrite (run_bind (print J_null) _ _ tt s eq_refl).
    unfold obj_contains. rewrite obj_get_set_other by discriminate. rewrite Hq, obj_get_set.
    cbn [negb]. unfold obj_at. rewrite obj_get_set_other by discriminate. rewrite Hq. reflexivity.
  - intros id Hq Hi Hid Hr. destruct (wp_inv _ _ _ (wp_respond (failureSB id) s (fun l s' => s' = s /\ from_bson l = Parsed (response id (-1)))
      (response_fits id (-1) Hid ltac:(split; vm_compute; congruence)) (fun l Hl => conj eq_refl Hl))) as (l & s' & El & -> & Hl).
    exists l. split; [|exact Hl].
    unfold handle. rewrite run_bind with (a := Some (mkParsed (-1) id (mkQuery None None 0 (-1)))) (s' := s); [exact El|].
    unfold parseQuery. rewrite (run_bind _ _ _ _ _ (load_ok _ _ _ Hm)). rewrite (obj_at_some _ _ _ Hi), (run_bind _ _ _ _ _ (print_number id s)).
    unfold obj_contains at 1 2.
    rewrite Hq, Hi. cbn [negb]. rewrite (obj_at_some _ _ _ Hq). rewrite (run_bind _ _ _ _ _ (number_int true 32 QUERY_EXISTS s eq_refl)).
    rewrite (run_bind _ _ _ _ _ (number_int false 32 id s (wrap_unsigned _ _ Hid))). unfold parse_data.
    destruct (obj_at k_key m) as [? q1], (obj_at k_value q1). cbn. unfold obj_contains. now rewrite Hr.
Qed.

(** ** The same on concrete files *)

Definition sample_engine (t : nat) : StrageEngine (MMyISAM (Manager FlatMem FlatMem) (SafeIndexManager (Manager FlatMem FlatMem))) :=
  MMyISAM_engines 5 (fun t => 1700000000 + Z.of_nat t) (fun m => map_to_list m)
    (fun _ => empty_manager) (fun _ => empty_manager) (fun _ => Some true) t.

(** A response of another query that is still in the queue. *)
Definition sample_pending : list byte := default [] (to_bson (response 99 1)).

(** The server's thread runs in the second round, while the client holds a response. *)
Definition sample_call (id : Z) : Call := mkCall id (fun i => if (i =? 1)%nat then (0, 1)%nat else (0, 0)%nat) 6.

Definition sample_ops : list (Call * (list byte * list byte)) :=
  [(sample_call 1, (sample_key 3, [x01; x02])); (sample_call 2, (sample_key 1, [])); (sample_call 3, (sample_key 7, [xff]))].

Lemma sample_call_ok id : id_ok id -> id <> 99 -> call_ok (sample_call id) [sample_pending].
Proof.
  intros Hid Hne. split; [exact Hid|]. split; [|split; [cbn; lia|]].
  - constructor; [|constructor]. exists (response 99 1). split; [vm_compute; reflexivity|].
    unfold own_response, is_response. change (obj_contains k_QueryID (response 99 1)) with true.
    change (obj_at k_QueryID (response 99 1)).1 with (J_number 99). cbn [andb json_eqb sample_call call_id].
    now rewrite (proj2 (Z.eqb_neq 99 id)) by lia.
  - exists 2%nat. split; [|cbn; lia]. right. exists 1%nat. cbn. lia.
Qed.

Lemma service_refines_map_witness : exists m db,
  manager_clear empty_manager = Ok tt m /\
  MMyISAM_new (S := SafeIndexManager (Manager FlatMem FlatMem)) 1700000000 m m = Ok db tt /\
  wp (client_adds (engine := sample_engine) sample_ops) (mkServer db [] [sample_pending] 0) (fun r s' =>
    r = true /\ sv_incoming s' = [] /\ sv_outgoing s' ≡ₚ [sample_pending] /\
    (forall k v, (k, v) ∈ map snd sample_ops -> forall c ret, call_ok c [sample_pending] ->
       wp (client_get sample_engine true c (Some k) (-1) ret) s' (fun r s2 =>
         r = (Z.of_nat (length v), Some v) /\ sv_incoming s2 = [] /\ sv_outgoing s2 ≡ₚ [sample_pending])) /\
    (forall k, length k = 20%nat -> take 5 k ∉ map (fun op => take 5 op.2.1) sample_ops -> forall c ret, call_ok c [sample_pending] ->
       wp (client_get sample_engine true c (Some k) (-1) ret) s' (fun r s2 =>
         r = (0, None) /\ sv_incoming s2 = [] /\ sv_outgoing s2 ≡ₚ [sample_pending]))).
Proof.
  destruct cleared_manager as (m & Em & Hm).
  destruct (database_new (S := SafeIndexManager (Manager FlatMem FlatMem)) 1700000000 m m (fm_view empty_file) (fm_view empty_file) Hm Hm empty_not_formatted)
    as (db & Es & Hdb & _).
  exists m, db. split; [exact Em|]. split; [exact Es|].
  apply (service_refines_map (engine := sample_engine) (holds := MMyISAM_holds 5)) with (b := 1000).
  - split; [|split; reflexivity]. exists 0, 203, 0%nat. split; [exact Hdb|]. split; [cbn; lia|]. split; [lia|]. split; [vm_compute; reflexivity|constructor].
  - do 3 (apply Forall_cons; split; [apply sample_call_ok; [split; vm_compute; congruence|discriminate]|]). apply Forall_nil_2.
  - apply (bool_decide_unpack _). vm_compute. exact I.
  - repeat constructor; vm_compute; reflexivity.
  - vm_compute. discriminate.
Defined.

(** A request whose id is the single byte ff. *)
Definition sample_bad_id : object := [(k_QueryID, J_string [xff])].
Definition sample_bad_request : list byte := default [] (to_bson sample_bad_id).

Lemma server_bad_requests_witness :
  let db := mkMMyISAM empty_manager empty_manager addrZero [] [] in
  handle (sample_engine 0) [x05; x00] db = Throw JsonError db /\ handle (sample_engine 0) sample_bad_request db = Throw JsonError db.
Proof.
  intros db. split.
  - apply (proj1 (server_bad_requests (sample_engine 0) [x05; x00] db)). intros m.
    assert (from_bson [x05; x00] = ParseError) as -> by (vm_compute; reflexivity). discriminate.
  - apply (proj1 (proj2 (proj2 (server_bad_requests (sample_engine 0) sample_bad_request db)) sample_bad_id ltac:(vm_compute; reflexivity))).
    vm_compute. reflexivity.
Defined.
