(* ===== verification/DBTypes.v ===== *)
(** The messages between the database's clients and its server as types: which requests the
    parser accepts, what responses look like, that the server's loop preserves both, and
    that the client's operations send nothing else. *)
From stdpp Require Import strings.
From S2P Require Import Prelude Bson MMyISAM StreamBuffer Database DBClient.
From Stdlib Require Import Lia.
#[local] Open Scope Z_scope.

(** ** Message types *)

Definition is_number (lo hi : Z) (j : option json) : bool :=
  match j with Some (J_number z) => (lo <=? z) && (z <? hi) | _ => false end.
Definition is_binary (j : option json) : bool := match j with Some (J_binary _ _) => true | _ => false end.

(** A request as the parser needs it, and a response as the clients read it. *)
Definition query_typed (m : object) : bool :=
  is_number 0 (2 ^ 32) (obj_get k_QueryID m) && is_number (- 2 ^ 31) (2 ^ 31) (obj_get k_query m) &&
  match obj_get k_query m with
  | Some (J_number t) =>
      if t =? QUERY_ADD then is_binary (obj_get k_key m) && is_binary (obj_get k_value m)
      else if (t =? QUERY_SELECT) || (t =? QUERY_REMOVE) then is_binary (obj_get k_key m)
      else true
  | _ => false
  end &&
  match obj_get k_registryIndex m with None => true | j => is_number (- 2 ^ 15) (2 ^ 15) j end.

Definition response_typed (m : object) : bool :=
  is_number 0 (2 ^ 32) (obj_get k_QueryID m) && is_number (-1) 2 (obj_get k_status m).

(** The bytes of a message of a type. *)
Definition carries (typed : object -> bool) (x : list byte) : Prop := exists m, from_bson x = Parsed m /\ typed m = true.

(** What the server needs of an engine: an invariant under which every call returns, and
    values that can be read and fit a response. *)
Class EngineInvariant {DB} (engine : nat -> StrageEngine DB) (inv : DB -> Prop) : Prop := {
  inv_add t q s : inv s -> wp (engine_add (StrageEngine := engine t) q) s (fun _ => inv);
  inv_get t q s : inv s -> wp (engine_get (StrageEngine := engine t) q) s (fun r s' => inv s' /\
    (r.1 = true -> exists v, rd (q_valueLength r.2) (q_value r.2) = Some v /\ value_fits v));
  inv_remove t q s : inv s -> wp (engine_remove (StrageEngine := engine t) q) s (fun _ => inv);
  inv_exists t q s : inv s -> wp (engine_exists (StrageEngine := engine t) q) s (fun _ => inv);
  inv_migrate t q s : inv s -> wp (engine_migrateToSafeMode (StrageEngine := engine t) q) s (fun _ => inv);
  inv_commit t q s : inv s -> wp (engine_safeCommitExit (StrageEngine := engine t) q) s (fun _ => inv);
  inv_abort t q s : inv s -> wp (engine_safeAbortExit (StrageEngine := engine t) q) s (fun _ => inv);
}.

Lemma is_number_spec lo hi j : is_number lo hi j = true -> exists z, j = Some (J_number z) /\ lo <= z < hi.
Proof.
  destruct j as [[]|]; try discriminate. cbn. intros H. apply andb_prop in H as [H1%Z.leb_le H2%Z.ltb_lt]. now exists z.
Qed.

Lemma is_binary_spec j : is_binary j = true -> exists l t, j = Some (J_binary l t).
Proof. destruct j as [[]|]; try discriminate. eauto. Qed.

(** A typed request is always parsed, to a type the server's loop knows. *)
Definition known_type (t : Z) : Prop := t = -1 \/ t = 1 \/ t = 2 \/ t = 4 \/ t = 10 \/ t = 11 \/ t = 12.

Lemma parse_typed {S} x (s : S) : carries query_typed x ->
  exists q, parseQuery x s = Ok (Some q) s /\ id_ok (qc_id q) /\ known_type (qc_type q).
Proof.
  intros (m & Hm & Ht). unfold query_typed in Ht. apply andb_prop in Ht as [Ht Hr]. apply andb_prop in Ht as [Ht Hd].
  apply andb_prop in Ht as [Hi Hq]. apply is_number_spec in Hi as (id & Hi & Hid). apply is_number_spec in Hq as (t & Hq & Htr).
  rewrite Hq in Hd. assert (exists r, registry_of m r) as [r Hreg].
  { destruct (obj_get k_registryIndex m) as [j|] eqn:E; [|exists (-1); now left].
    apply is_number_spec in Hr as (z & Hz & Hzr). injection Hz as ->. exists z. now right. }
  assert (exists t' key value len, parse_data t m = Some (t', key, value, len, m) /\ known_type t') as (t' & key & value & len & Hp & Hk).
  { unfold parse_data, known_type. destruct (Z.eqb_spec t QUERY_ADD) as [->|_].
    - apply andb_prop in Hd as [(k & tk & Hk)%is_binary_spec (v & tv & Hv)%is_binary_spec].
      rewrite (obj_at_some _ _ _ Hk), (obj_at_some _ _ _ Hv). do 4 eexists. split; [reflexivity|]. tauto.
    - destruct ((t =? QUERY_SELECT) || (t =? QUERY_REMOVE)) eqn:E.
      + apply is_binary_spec in Hd as (k & tk & Hk). rewrite (obj_at_some _ _ _ Hk). destruct (obj_at k_value m). do 4 eexists. split; [reflexivity|].
        apply orb_prop in E as [->%Z.eqb_eq| ->%Z.eqb_eq]; tauto.
      + destruct (obj_at k_key m) as [? q1], (obj_at k_value q1).
        destruct ((t =? QUERY_MIGRATE_SAFE_MODE) || (t =? QUERY_SAFE_MODE_COMMIT) || (t =? QUERY_SAFE_MODE_ABORT)) eqn:E2; do 4 eexists; (split; [reflexivity|]); [|tauto].
        apply orb_prop in E2 as [[->%Z.eqb_eq| ->%Z.eqb_eq]%orb_prop| ->%Z.eqb_eq]; tauto. }
  exists (mkParsed t' id (mkQuery key value len r)). split; [now apply (parse_spec t t' id m)|]. now split.
Qed.

Section typed.
Context {DB : Type} {engine : nat -> StrageEngine DB} {inv : DB -> Prop} {invariant : EngineInvariant engine inv}.

Lemma status_ok_b2z b : short_ok (b2z b).
Proof. destruct b; split; vm_compute; congruence. Qed.

Lemma response_carries id st l : id_ok id -> -1 <= st < 2 -> from_bson l = Parsed (read_back_object (response id st)) -> carries response_typed l.
Proof.
  intros Hid Hst Hl. eexists. split; [exact Hl|]. rewrite response_members. unfold response_typed.
  change (obj_get k_QueryID _) with (Some (J_number id)). change (obj_get k_status _) with (Some (J_number st)). cbn [is_number].
  unfold id_ok in Hid. now rewrite (proj2 (Z.leb_le _ _)), (proj2 (Z.ltb_lt _ _)), (proj2 (Z.leb_le _ _)), (proj2 (Z.ltb_lt _ _)) by lia.
Qed.

Lemma wp_response id st (s : DB) : id_ok id -> -1 <= st < 2 -> inv s ->
  wp (respond (response id st)) s (fun reply s' => carries response_typed reply /\ inv s').
Proof.
  intros Hid Hst Hs. apply wp_respond; [apply response_fits; [assumption|unfold short_ok; lia]|]. intros l Hl.
  split; [now apply (response_carries id st)|exact Hs].
Qed.

Lemma wp_value_response id st v (s : DB) : id_ok id -> -1 <= st < 2 -> inv s -> fits (obj_set k_value v (response id st)) ->
  wp (respond (obj_set k_value v (response id st))) s (fun reply s' => carries response_typed reply /\ inv s').
Proof.
  intros Hid Hst Hs Hwf. apply wp_respond; [exact Hwf|]. intros l Hl. split; [|exact Hs]. eexists. split; [exact Hl|].
  rewrite value_response_members. unfold response_typed.
  change (obj_get k_QueryID _) with (Some (J_number id)). change (obj_get k_status _) with (Some (J_number st)). cbn [is_number].
  unfold id_ok in Hid. now rewrite (proj2 (Z.leb_le _ _)), (proj2 (Z.ltb_lt _ _)), (proj2 (Z.leb_le _ _)), (proj2 (Z.ltb_lt _ _)) by lia.
Qed.

Lemma b2z_range b : -1 <= b2z b < 2.
Proof. destruct b; cbn; lia. Qed.

Lemma handle_typed t x s : carries query_typed x -> inv s ->
  wp (handle (engine t) x) s (fun reply s' => carries response_typed reply /\ inv s').
Proof.
  intros Hx Hs. destruct (parse_typed x s Hx) as ([ty id d] & Hq & Hid & Hty). unfold handle. apply wp_bind. eapply wp_intro; [exact Hq|].
  cbn [qc_type qc_id qc_data] in *. destruct Hty as [->|[->|[->|[->|[->|[->| ->]]]]]]; cbv zeta;
    cbn [Z.ltb Z.eqb Z.compare Pos.eqb QUERY_ADD QUERY_SELECT QUERY_EXISTS QUERY_REMOVE QUERY_MIGRATE_SAFE_MODE QUERY_SAFE_MODE_COMMIT QUERY_SAFE_MODE_ABORT].
  - apply wp_response; [assumption|lia|assumption].
  - wp_seq (inv_add (EngineInvariant := invariant) t d s Hs) giving flag as Hs'.
    destruct flag; cbn [negb]; (apply wp_response; [assumption|cbn; lia|assumption]).
  - wp_seq (inv_get (EngineInvariant := invariant) t d s Hs) giving r as (Hs' & Hv). destruct r as [[] d']; cbn [negb fst snd] in *.
    + destruct (Hv eq_refl) as (v & Hrd & Hok). apply wp_bind. eapply wp_must; [exact Hrd|].
      apply wp_value_response; [assumption|cbn; lia|exact Hs'|]. apply value_response_fits; [assumption|apply (status_ok_b2z true)|assumption].
    + apply wp_response; [assumption|lia|assumption].
  - wp_seq (inv_remove (EngineInvariant := invariant) t d s Hs) giving flag as Hs'. apply wp_response; [assumption|apply b2z_range|assumption].
  - wp_seq (inv_migrate (EngineInvariant := invariant) t d s Hs) giving flag as Hs'. apply wp_response; [assumption|apply b2z_range|assumption].
  - wp_seq (inv_commit (EngineInvariant := invariant) t d s Hs) giving flag as Hs'. apply wp_response; [assumption|apply b2z_range|assumption].
  - wp_seq (inv_abort (EngineInvariant := invariant) t d s Hs) giving flag as Hs'. apply wp_response; [assumption|apply b2z_range|assumption].
Qed.

(** Messages of the right types in both queues, over a storage in order. *)
Definition well_typed (s : Server DB) : Prop :=
  inv (sv_db s) /\ Forall (carries query_typed) (sv_incoming s) /\ Forall (carries response_typed) (sv_outgoing s).

Lemma serve_one_typed s : well_typed s -> wp (serve_one engine) s (fun _ => well_typed).
Proof.
  intros (Hs & Hin & Hout). destruct s as [db [|x rest] out k]; cbn [sv_db sv_incoming sv_outgoing] in *; [now split|].
  apply Forall_cons in Hin as [Hx Hin]. destruct (wp_inv _ _ _ (handle_typed k x db Hx Hs)) as (reply & db' & E & Hr & Hdb').
  unfold serve_one, wp. cbn [sv_db sv_incoming sv_outgoing sv_served]. destruct (has_room _ out).
  - rewrite E. split; [exact Hdb'|]. split; [exact Hin|]. apply Forall_app. split; [exact Hout|]. now constructor.
  - split; [exact Hs|]. split; [now constructor|exact Hout].
Qed.

End typed.

(** ** The client and the server speak the same types *)

Section typed_claim.
Context {DB : Type} {engine : nat -> StrageEngine DB} {inv : DB -> Prop} {invariant : EngineInvariant engine inv}.

Lemma send_typed m s : well_typed (inv := inv) s -> has_room DEFAULT_STREAM_BUFFER_CAPACITY (sv_incoming s) = true ->
  fits m -> query_typed (read_back_object m) = true ->
  wp (send engine m) s (fun _ => well_typed (inv := inv)).
Proof.
  intros (Hs & Hin & Hout) Hroom Hwf Ht. unfold send. apply wp_bind, wp_dump; [exact Hwf|]. intros l Hl Hsl.
  unfold push_request. apply wp_bind, wp_get. rewrite Hroom. apply wp_set. unfold set_incoming. rewrite Hsl. split; [exact Hs|]. split; [|exact Hout].
  apply Forall_app. split; [exact Hin|]. constructor; [now exists (read_back_object m)|constructor].
Qed.

Lemma let_server_typed n : forall s, well_typed (inv := inv) s -> wp (let_server engine n) s (fun _ => well_typed (inv := inv)).
Proof.
  induction n as [|n IH]; intros s Hs; [exact Hs|]. cbn [let_server].
  wp_seq (serve_one_typed (invariant := invariant) s Hs) giving ran as Hs'. destruct ran; [now apply IH|exact Hs'].
Qed.

(** What the client sends: keys of 20 bytes, and values with which the request fits a segment. *)
Definition client_query (m : object) : Prop := exists id r key value,
  id_ok id /\ short_ok r /\ length key = 20%nat /\ request_value_ok value /\
  (m = add_query id key value r \/ (exists q, (q = MIYA_DB_QUERY_GET \/ q = MIYA_DB_QUERY_REMOVE) /\ m = key_query id q key r) \/
   (exists q, (q = MIYA_DB_QUERY_SAFE_MODE \/ q = MIYA_DB_QUERY_COMMIT \/ q = MIYA_DB_QUERY_ABORT) /\ m = command_query id q r)).

Lemma is_number_intro lo hi z : lo <= z < hi -> is_number lo hi (Some (J_number z)) = true.
Proof. intros H. cbn. now rewrite (proj2 (Z.leb_le _ _)), (proj2 (Z.ltb_lt _ _)) by lia. Qed.

Lemma query_typed_intro (m : object) id t r :
  obj_get k_QueryID m = Some (J_number id) -> obj_get k_query m = Some (J_number t) -> id_ok id -> - 2 ^ 31 <= t < 2 ^ 31 ->
  (if t =? QUERY_ADD then is_binary (obj_get k_key m) && is_binary (obj_get k_value m)
   else if (t =? QUERY_SELECT) || (t =? QUERY_REMOVE) then is_binary (obj_get k_key m) else true) = true ->
  registry_of m r -> query_typed m = true.
Proof.
  intros Hi Hq Hid Ht Hd Hr. unfold query_typed. rewrite Hi, Hq, !is_number_intro by assumption. cbn [andb]. rewrite Hd. cbn [andb].
  destruct Hr as [[-> _]|[-> Hr]]; [reflexivity|]. now apply is_number_intro.
Qed.

Lemma client_query_typed m : client_query m -> fits m /\ query_typed (read_back_object m) = true.
Proof.
  intros (id & r & key & value & Hid & Hr & Hk & Hv & [->|[(q & Hq & ->)|(q & Hq & ->)]]).
  - split; [now apply add_query_fits|]. rewrite add_query_members.
    apply (query_typed_intro _ id 1 r); [reflexivity|reflexivity|exact Hid|lia|reflexivity|right; now split].
  - assert (id_ok q) by (destruct Hq as [->| ->]; split; vm_compute; congruence).
    split; [now apply key_query_fits|]. rewrite key_query_members.
    destruct Hq as [->| ->]; eapply (query_typed_intro _ id _ r);
      [reflexivity|reflexivity|exact Hid|split; vm_compute; congruence|reflexivity|right; now split|
       reflexivity|reflexivity|exact Hid|split; vm_compute; congruence|reflexivity|right; now split].
  - change (command_query id q r) with [(k_QueryID, J_number id); (k_query, J_number q); (k_registryIndex, J_number r)].
    assert (id_ok q) by (destruct Hq as [->|[->| ->]]; split; vm_compute; congruence).
    split; [fits_members|]. apply (query_typed_intro _ id q r); [reflexivity|reflexivity|exact Hid| | |right; now split];
      destruct Hq as [->|[->| ->]]; reflexivity || (split; vm_compute; congruence).
Qed.

End typed_claim.

(** An engine over a list of pairs, without safe mode. *)
Definition list_engine (t : nat) : StrageEngine (list (list byte * list byte)) := {|
  engine_add q := fun s =>
    match q_key q, q_value q with
    | Some k, Some v => if Z.of_nat (length v) + 46 <? 2 ^ 16 then Ok true ((k, v) :: s) else Ok false s
    | _, _ => Ok false s
    end;
  engine_get q := fun s =>
    match list_find (fun kv => Some kv.1 = q_key q) s with
    | Some (_, kv) => Ok (true, set_query_value (Some kv.2) (Z.of_nat (length kv.2)) q) s
    | None => Ok (false, q) s
    end;
  engine_remove q := fun s => Ok true (filter (fun kv => Some kv.1 <> q_key q) s);
  engine_exists q := mret false;
  engine_migrateToSafeMode q := mret false;
  engine_safeCommitExit q := mret false;
  engine_safeAbortExit q := mret false;
|}.

#[export] Instance list_engine_invariant : EngineInvariant list_engine (Forall (fun kv => value_fits kv.2)).
Proof.
  split; intros t q s Hs; try exact Hs; unfold wp; cbn [engine_add engine_get engine_remove list_engine].
  - destruct (q_key q) as [k|], (q_value q) as [v|]; try exact Hs. destruct (Z.ltb_spec (Z.of_nat (length v) + 46) (2 ^ 16)); [|exact Hs].
    now constructor.
  - destruct (list_find _ s) as [[i kv]|] eqn:E; [|split; [exact Hs|discriminate]]. split; [exact Hs|]. intros _. exists kv.2.
    cbn [snd set_query_value q_valueLength q_value]. split; [apply rd_all|].
    apply list_find_Some in E as (Hl & _ & _). exact (Forall_lookup_1 _ _ _ _ Hs Hl).
  - rewrite Forall_forall in *. intros x Hx. apply list_elem_of_filter in Hx as [_ Hx]. now apply Hs.
Qed.

