(* ===== verification/UTXOSet.v ===== *)
(** The chain state: unspent outputs ([chain/utxo_set/utxo.cpp]) and the set of them
    ([chain/utxo_set/utxo_set.cpp]), kept in the database behind its client. *)
From stdpp Require Import strings.
From S2P Require Import Prelude Bson OverlayPtr CacheTable Allocator Crypto MemoryManager ItemSet NodeStore ONode NodeOps.
From S2P Require Import BTree BTreeModel BTreeAdd BTreeIndex BTreeMap BTreeRemove ValueStore MMyISAM SafeONode SafeBTree SafeMode.
From S2P Require Import StreamBuffer Database DBClient Script TxFormat P2PKH.
From Stdlib Require Import Lia.
#[local] Open Scope Z_scope.

Definition k_TxID : list byte := Eval vm_compute in Bson.key_of "TxID".
Definition k_index : list byte := Eval vm_compute in Bson.key_of "index".
Definition k_amount : list byte := Eval vm_compute in Bson.key_of "amount".
Definition k_PkScript : list byte := Eval vm_compute in Bson.key_of "PkScript".

(** ** An unspent output *)

(** [chain::UTXO]; the script and the output are behind pointers. *)
Record UTXO : Type := mkUTXO {
  ux_txID : list byte;
  ux_outputIndex : Z;
  ux_amount : Z;
  ux_pkScript : option script;
  ux_txOut : option TxOut;
}.

(** [UTXO()], to be imported into: what its memory holds is given. *)
Definition UTXO_new (txID : list byte) (outputIndex amount : Z) : UTXO := mkUTXO txID outputIndex amount None None.

(** [UTXO( target , txID , index )]: the amount is not written, it is what the memory held. *)
Definition UTXO_of (amount : Z) (target : option TxOut) (txID : buffer) (index : Z) : option UTXO :=
  id ← rd 32 txID; Some (mkUTXO id index amount (Some []) target).

(** Running code on the output that [_txOut] points to. *)
Definition on_txOut {A} (c : prog TxOut A) : prog UTXO A := fun u =>
  match ux_txOut u with
  | None => Undef
  | Some t =>
      let put t := mkUTXO (ux_txID u) (ux_outputIndex u) (ux_amount u) (ux_pkScript u) (Some t) in
      match c t with
      | Ok a t' => Ok a (put t')
      | Throw e t' => Throw e (put t')
      | Undef => Undef
      end
  end.

Definition utxo_object (txID : list byte) (index amount : Z) (pkScript : list byte) : object :=
  obj_set k_PkScript (J_binary pkScript None) (obj_set k_amount (J_number amount)
    (obj_set k_index (J_number index) (obj_set k_TxID (J_binary txID None) []))).

(** [dumpToBson]: twenty bytes of the hash are printed on the way. *)
Definition UTXO_dumpToBson : prog UTXO (list byte) :=
  u ← get_state;
  txID ← must (rd 32 (Some (ux_txID u)));
  t ← must (ux_txOut u);
  _ ← must (rd 20 (_pubKeyHash t));
  pkScript ← on_txOut (on_pkScript (PkScript_exportRawWithP2PKHPkScript (_pubKeyHash t)));
  dump (utxo_object txID (ux_outputIndex u) (ux_amount u) pkScript).

(** [exportRaw]: what is written for the id is the pointer, whose bytes are given. *)
Definition UTXO_exportRaw (pointer : list byte) : prog UTXO (Z * buffer) :=
  u ← get_state;
  match ux_txOut u with
  | None => mret (0, None)
  | Some t =>
      s ← must (ux_pkScript u);
      '(pkScript, s') ← (fun u => match PkScript_exportRawWithP2PKHPkScript (_pubKeyHash t) s with
        | Ok r s' => Ok (r, s') u | Throw e _ => Throw e u | Undef => Undef end);
      _ ← modify (fun u => mkUTXO (ux_txID u) (ux_outputIndex u) (ux_amount u) (Some s') (ux_txOut u));
      let raw := take 16 pointer ++ le_encode 4 (ux_outputIndex u) ++ le_encode 8 (ux_amount u) ++ pkScript in
      mret (Z.of_nat (length raw), Some raw)
  end.

Definition UTXO_amount (u : UTXO) : Z := bswap64 (ux_amount u).

(** The conversion to [uint64_t], the number type of the library itself: no booleans. *)
Definition json_to_u64 {St} (j : json) : prog St Z :=
  match j with J_boolean _ => throw JsonError | _ => json_to_int false 64 j end.

(** [importFromJson]. *)
Definition UTXO_importFromJson (fromJson : object) : prog UTXO bool :=
  match obj_get k_TxID fromJson with
  | Some (J_binary txID _) =>
      _ ← modify (fun u => mkUTXO txID (ux_outputIndex u) (ux_amount u) (ux_pkScript u) (ux_txOut u));
      match obj_get k_index fromJson with
      | None => mret false
      | Some index =>
          index ← json_to_int false 32 index;
          _ ← modify (fun u => mkUTXO (ux_txID u) index (ux_amount u) (ux_pkScript u) (ux_txOut u));
          match obj_get k_amount fromJson with
          | None => mret false
          | Some amount =>
              amount ← json_to_u64 amount;
              _ ← modify (fun u => mkUTXO (ux_txID u) (ux_outputIndex u) amount (ux_pkScript u) (ux_txOut u));
              match obj_get k_PkScript fromJson with
              | Some (J_binary raw _) =>
                  r ← must (Script_importRaw raw (Z.of_nat (length raw)) []);
                  _ ← modify (fun u => mkUTXO (ux_txID u) (ux_outputIndex u) (ux_amount u) (Some r.1) (ux_txOut u));
                  mret true
              | _ => mret false
              end
          end
      end
  | _ => mret false
  end.

(** [importFromBson]. *)
Definition UTXO_importFromBson (fromBson : json) : prog UTXO bool :=
  raw ← json_get_binary fromBson; valueJson ← load_contains raw; UTXO_importFromJson valueJson.

(** ** The set *)

Section LightUTXOSet.
Context {ssl : OpenSSL} {DB : Type} (engine : nat -> StrageEngine DB).
Notation World := (Server DB).

(** [toVirtual], [virtualCommit] and [virtualAbort], with the default registry index. *)
Definition toVirtual (connected : bool) (c : Call) : prog World unit := _ ← client_safeMode engine connected c 0; mret tt.
Definition virtualCommit (connected : bool) (c : Call) : prog World unit := _ ← client_commit engine connected c 0; mret tt.
Definition virtualAbort (connected : bool) (c : Call) : prog World unit := _ ← client_abort engine connected c 0; mret tt.

Definition generateUTxOKey (txID : buffer) (index : Z) : option (list byte) :=
  id ← rd 32 txID; SHAHash (Some (id ++ le_encode 4 index)) 36 sha1.

Definition utxo_query (id query : Z) (key : list byte) : object :=
  obj_set k_key (J_binary key None) (obj_set k_query (J_number query) (obj_set k_QueryID (J_number id) [])).

(** What [get] does with a response: one without an id, or a discarded one, ends the call,
    one of another query is sent back. *)
Definition utxo_response (id : Z) (m : object) : option (option object) :=
  if negb (obj_contains k_QueryID m) then Some None
  else if is_response id m then Some (Some m)
  else None.

(** [get( txID , index )]; both queues are used without a check. [fresh] is the memory of
    the new [UTXO]. *)
Definition LightUTXOSet_get (connected : bool) (c : Call) (fresh : UTXO) (txID : buffer) (index : Z) : prog World (option UTXO) :=
  rawKey ← must (generateUTxOKey txID index);
  key ← must (rd 20 (Some rawKey));
  if negb connected then undef
  else
    _ ← send engine (utxo_query (call_id c) MIYA_DB_QUERY_GET key);
    response ← await engine (utxo_response (call_id c)) (call_sched c) (call_fuel c) 0;
    match response with
    | None => mret None
    | Some responseJson =>
        if negb (obj_contains k_status responseJson) then mret None
        else if negb (json_eqb (obj_at k_status responseJson).1 0) then mret None
        else
          value ← json_get_binary (obj_at k_value responseJson).1;
          valueJson ← load_contains value;
          '(ok, u) ← with_local (fun _ => fresh) (fun _ s => s) (UTXO_importFromJson valueJson);
          mret (if ok : bool then Some u else None)
    end.

(** [get( prevOut )]. *)
Definition LightUTXOSet_get_prev (connected : bool) (c : Call) (fresh : UTXO) (prevOut : prev_out) : prog World (option UTXO) :=
  LightUTXOSet_get connected c fresh (Some (_txID prevOut)) (prev_out_index prevOut).

(** [add( targetTxOut , txID , index )], with what is left of the new [UTXO], which shares
    the output with the caller. *)
Definition LightUTXOSet_add_out (connected : bool) (c : Call) (amount : Z) (targetTxOut : option TxOut) (txID : buffer) (index : Z)
  : prog World (bool * UTXO) :=
  valueUTXO ← must (UTXO_of amount targetTxOut txID index);
  '(dumpedUTXO, valueUTXO) ← with_local (fun _ => valueUTXO) (fun _ s => s) UTXO_dumpToBson;
  key ← must (generateUTxOKey txID index);
  if negb connected then undef
  else
    _ ← send engine (obj_set k_value (J_binary dumpedUTXO None) (utxo_query (call_id c) MIYA_DB_QUERY_ADD key));
    responseJson ← filterResponseSB engine c;
    if negb (obj_contains k_status responseJson) then mret (false, valueUTXO)
    else mret (json_eqb (obj_at k_status responseJson).1 0, valueUTXO).

(** [add( target )], through the client. *)
Definition LightUTXOSet_add (connected : bool) (c : Call) (target : UTXO) : prog World (bool * UTXO) :=
  rawKey ← must (generateUTxOKey (Some (ux_txID target)) (ux_outputIndex target mod 2 ^ 32));
  '(rawUTxO, target) ← with_local (fun _ => target) (fun _ s => s) UTXO_dumpToBson;
  r ← client_add engine connected c (Some rawKey) (Some rawUTxO) (Z.of_nat (length rawUTxO)) (-1);
  mret (r, target).

(** [add( targetCoinbase )]. *)
Definition LightUTXOSet_add_coinbase : prog World bool := mret false.

(** [remove]. *)
Definition LightUTXOSet_remove (connected : bool) (c : Call) (txID : buffer) (index : Z) : prog World bool :=
  rawKey ← must (generateUTxOKey txID index); client_remove engine connected c (Some rawKey) (-1).
End LightUTXOSet.

(** ** What is written and read back *)

Lemma utxo_object_members txID index amount pkScript : utxo_object txID index amount pkScript =
  [(k_PkScript, J_binary pkScript None); (k_TxID, J_binary txID None); (k_amount, J_number amount); (k_index, J_number index)].
Proof. reflexivity. Qed.

Lemma utxo_query_members id q k : utxo_query id q k =
  [(k_QueryID, J_number id); (k_key, J_binary k None); (k_query, J_number q)].
Proof. reflexivity. Qed.

Lemma utxo_add_members id q k v : obj_set k_value (J_binary v None) (utxo_query id q k) =
  [(k_QueryID, J_number id); (k_key, J_binary k None); (k_query, J_number q); (k_value, J_binary v None)].
Proof. reflexivity. Qed.

Lemma utxo_object_wf txID index amount pkScript :
  bytes_ok txID -> bytes_ok pkScript -> 0 <= index < 2 ^ 32 -> 0 <= amount < 2 ^ 63 ->
  json_wf (J_object (utxo_object txID index amount pkScript)) = true.
Proof. intros. rewrite utxo_object_members. wf_members. Qed.

Lemma utxo_query_fits id q k : id_ok id -> id_ok q -> length k = 20%nat -> fits (utxo_query id q k).
Proof. intros Hid Hq Hk. rewrite utxo_query_members. fits_members. Qed.

Lemma utxo_add_fits id q k v : id_ok id -> id_ok q -> length k = 20%nat -> request_value_ok v ->
  fits (obj_set k_value (J_binary v None) (utxo_query id q k)).
Proof. intros Hid Hq Hk Hv. rewrite utxo_add_members. fits_members. Qed.

(** The locking script of a hash, as it is written. *)
Definition p2pkh_bytes (h : list byte) : list byte := [x76; xa9; x14] ++ h ++ [x88; xac].

Lemma p2pkh_bytes_length h : length h = 20%nat -> length (p2pkh_bytes h) = 25%nat.
Proof. intros H. unfold p2pkh_bytes. rewrite !length_app, H. reflexivity. Qed.

Lemma utxo_object_size txID index amount h l :
  length txID = 32%nat -> length h = 20%nat -> to_bson (utxo_object txID index amount (p2pkh_bytes h)) = Some l ->
  Z.of_nat (length l) <= 119.
Proof.
  intros Ht Hh H. unfold to_bson in H. destruct (bson_throws _); [discriminate|]. apply (inj Some) in H. rewrite <- H, value_size.
  rewrite utxo_object_members. cbn [calc_bson_value_size]. unfold calc_bson_entry_header_size. rewrite Ht, (p2pkh_bytes_length h Hh).
  change (length k_PkScript) with 8%nat. change (length k_TxID) with 4%nat. change (length k_amount) with 6%nat.
  change (length k_index) with 5%nat. destruct (is_int32 amount), (is_int32 index); lia.
Qed.

(** What [dumpToBson] makes of a new entry, and what is left of the output. *)
Definition txout_locked (t : TxOut) (h : list byte) : TxOut := mkTxOut (_value t) (_pkScriptBytes t) (p2pkh_script h) (_pubKeyHash t).

Lemma dump_utxo amount t h txID index :
  length txID = 32%nat -> _pubKeyHash t = Some h -> length h = 20%nat -> 0 <= index < 2 ^ 32 -> 0 <= amount < 2 ^ 63 ->
  exists l, to_bson (utxo_object txID index amount (p2pkh_bytes h)) = Some l /\
    UTXO_dumpToBson (mkUTXO txID index amount (Some []) (Some t)) =
      Ok l (mkUTXO txID index amount (Some []) (Some (txout_locked t h))).
Proof.
  intros Ht Hp Hh Hi Ha.
  assert (json_wf (J_object (utxo_object txID index amount (p2pkh_bytes h))) = true) as Hwf
    by (apply utxo_object_wf; try assumption; unfold bytes_ok; rewrite ?Ht, ?p2pkh_bytes_length by assumption; lia).
  destruct (bson_reads_back _ Hwf) as (l & Hl & _). exists l. split; [exact Hl|].
  unfold UTXO_dumpToBson. rewrite run_get. cbn [ux_txID ux_txOut ux_outputIndex ux_amount].
  rewrite (rd_32 _ Ht), !run_must. rewrite Hp, (rd_20 _ Hh), run_must.
  rewrite run_bind with (a := p2pkh_bytes h) (s' := mkUTXO txID index amount (Some []) (Some (txout_locked t h))).
  - unfold dump. now rewrite Hl.
  - unfold on_txOut. cbn [ux_txOut ux_txID ux_outputIndex ux_amount ux_pkScript]. unfold on_pkScript, zoom. now rewrite PkScript_export_spec.
Qed.

Lemma import_utxo txID index amount h t1 t2 (fresh : UTXO) :
  length h = 20%nat -> 0 <= index < 2 ^ 32 -> 0 <= amount < 2 ^ 63 ->
  UTXO_importFromJson [(k_PkScript, J_binary (p2pkh_bytes h) t1); (k_TxID, J_binary txID t2); (k_amount, J_number amount);
    (k_index, J_number index)] fresh = Ok true (mkUTXO txID index amount (Some (p2pkh_script h)) (ux_txOut fresh)).
Proof.
  intros Hh Hi Ha. unfold UTXO_importFromJson.
  change (obj_get k_TxID _) with (Some (J_binary txID t2)). cbv iota. change (obj_get k_index _) with (Some (J_number index)). cbv iota.
  change (obj_get k_amount _) with (Some (J_number amount)). cbv iota. change (obj_get k_PkScript _) with (Some (J_binary (p2pkh_bytes h) t1)). cbv iota.
  rewrite run_bind with (a := tt) (s' := mkUTXO txID (ux_outputIndex fresh) (ux_amount fresh) (ux_pkScript fresh) (ux_txOut fresh)) by reflexivity.
  rewrite (run_bind _ _ _ _ _ (number_int false 32 index _ (wrap_unsigned 32 index Hi))).
  rewrite run_bind with (a := tt) (s' := mkUTXO txID index (ux_amount fresh) (ux_pkScript fresh) (ux_txOut fresh)) by reflexivity.
  assert (wrap false 64 amount = amount) as Hw by (apply wrap_unsigned; lia).
  rewrite run_bind with (a := amount) (s' := mkUTXO txID index (ux_amount fresh) (ux_pkScript fresh) (ux_txOut fresh))
    by (cbn [json_to_u64]; now apply number_int).
  rewrite run_bind with (a := tt) (s' := mkUTXO txID index amount (ux_pkScript fresh) (ux_txOut fresh)) by reflexivity.
  rewrite p2pkh_bytes_length by assumption. change (Z.of_nat 25) with 25.
  pose proof (p2pkh_script_import h [] Hh) as E. rewrite app_nil_r in E. fold (p2pkh_bytes h) in E. now rewrite E.
Qed.

(** An entry that [dumpToBson] wrote is read back, its output excepted. *)
Lemma import_dumped txID index amount h l t fresh :
  length txID = 32%nat -> length h = 20%nat -> 0 <= index < 2 ^ 32 -> 0 <= amount < 2 ^ 63 ->
  to_bson (utxo_object txID index amount (p2pkh_bytes h)) = Some l ->
  UTXO_importFromBson (J_binary l t) fresh = Ok true (mkUTXO txID index amount (Some (p2pkh_script h)) (ux_txOut fresh)).
Proof.
  intros Ht Hh Hi Ha Hl. unfold UTXO_importFromBson.
  assert (json_wf (J_object (utxo_object txID index amount (p2pkh_bytes h))) = true) as Hwf
    by (apply utxo_object_wf; try assumption; unfold bytes_ok; rewrite ?Ht, ?p2pkh_bytes_length by assumption; lia).
  destruct (bson_reads_back _ Hwf) as (l' & Hl' & Hr). rewrite Hl in Hl'. apply (inj Some) in Hl'. subst l'.
  rewrite (run_bind _ _ _ l fresh) by reflexivity. rewrite (run_bind _ _ _ _ _ (load_contains_ok _ _ _ Hr)).
  rewrite utxo_object_members. now apply import_utxo.
Qed.

(** ** The set against a table *)

Section set_of_outputs.
Context {ssl : OpenSSL} {ssl_laws : OpenSSL_laws}.
Context {DB : Type} {engine : nat -> StrageEngine DB} {holds : DB -> nat -> Z -> list (list byte * list byte) -> Prop}.
Context {laws : TableLaws engine holds}.

Definition utxo_key (txID : list byte) (index : Z) : list byte := EVP_SHA1 (txID ++ le_encode 4 index).

Lemma utxo_key_spec txID index : length txID = 32%nat -> generateUTxOKey (Some txID) index = Some (utxo_key txID index).
Proof.
  intros H. unfold generateUTxOKey. rewrite (rd_32 _ H). cbn [mbind option_bind]. unfold SHAHash.
  change 36 with (Z.of_nat 36). replace 36%nat with (length (txID ++ le_encode 4 index)); [now rewrite rd_all|].
  now rewrite length_app, le_encode_length, H.
Qed.

Lemma utxo_key_length txID index : length (utxo_key txID index) = 20%nat.
Proof. apply SHA1_length. Qed.

Lemma utxo_response_id id (m : object) : obj_get k_QueryID m = Some (J_number id) -> utxo_response id m = Some (Some m).
Proof.
  intros H. unfold utxo_response, is_response, obj_contains. rewrite H, (obj_at_some _ _ _ H). cbn. now rewrite Z.eqb_refl.
Qed.

(** [get] finds nothing: the database's status of success is not the one it looks for. *)
Lemma LightUTXOSet_get_none c fresh txID index n b kvs out (s : Server DB) :
  table_state (holds := holds) n b kvs out s -> awaits (utxo_response (call_id c)) c out -> length txID = 32%nat ->
  wp (LightUTXOSet_get engine true c fresh (Some txID) index) s (fun r s' => r = None /\ table_state (holds := holds) n b kvs out s').
Proof.
  intros (Hh & Hi & Ho) Hc Ht. pose proof Hc as (Hid & _). pose proof (utxo_key_length txID index) as Hk. unfold LightUTXOSet_get.
  rewrite (utxo_key_spec _ _ Ht). apply wp_bind. eapply wp_must; [reflexivity|]. apply wp_bind.
  eapply wp_must; [apply rd_20, Hk|]. cbn [negb].
  wp_seq (exchange (engine := engine) (utxo_response (call_id c)) c (utxo_query (call_id c) MIYA_DB_QUERY_GET (utxo_key txID index))
    (found (holds := holds) (call_id c) n b kvs (utxo_key txID index)) s out) as Hs;
    [apply utxo_query_fits; [assumption|split; vm_compute; congruence|assumption]|assumption..| | |].
  - intros reply db Hr. destruct (found_response _ _ _ _ _ _ _ Hr) as (m & Hm & Hi'). exists m, (Some m). split; [exact Hm|now apply utxo_response_id].
  - intros l Hl t. rewrite utxo_query_members in Hl.
    eapply (handle_get (laws := laws)); [eassumption|lia|eassumption..|reflexivity|reflexivity|reflexivity|left; split; reflexivity].
  - apply wp_bind. eapply wp_mono; [exact Hs|]. intros r s2 (reply & m & [Hdb Hr] & Hm & Hst & Hi' & Ho').
    destruct Hr as [(k' & v & Hin & Et & _ & Hr)|[Hn Hr]]; rewrite Hr in Hm; apply (inj Parsed) in Hm; subst m;
      rewrite utxo_response_id in Hst by reflexivity; apply (inj Some) in Hst; subst r; split; [reflexivity|now split|reflexivity|now split].
Qed.

(** Adding an output reports a failure, for the same reason, but stores it. *)
Lemma LightUTXOSet_add_stores c amount t h txID index n b kvs out (s : Server DB) :
  table_state (holds := holds) (S n) b kvs out s -> call_ok c out -> length txID = 32%nat -> 0 <= index < 2 ^ 32 -> 0 <= amount < 2 ^ 63 ->
  _pubKeyHash t = Some h -> length h = 20%nat -> utxo_key txID index ∉ map fst kvs -> 28 + 119 <= b ->
  exists l, to_bson (utxo_object txID index amount (p2pkh_bytes h)) = Some l /\
  wp (LightUTXOSet_add_out engine true c amount (Some t) (Some txID) index) s (fun r s' =>
    r = (false, mkUTXO txID index amount (Some []) (Some (txout_locked t h))) /\
    table_state (holds := holds) n (b - (28 + Z.of_nat (length l))) ((utxo_key txID index, l) :: kvs) out s').
Proof.
  intros (Hh & Hi & Ho) Hc Ht Hix Ha Hp Hh20 Hk Hb. pose proof Hc as (Hid & _). pose proof (utxo_key_length txID index) as Hk20.
  destruct (dump_utxo amount t h txID index Ht Hp Hh20 Hix Ha) as (l & Hl & Hd). exists l. split; [exact Hl|].
  pose proof (utxo_object_size _ _ _ _ _ Ht Hh20 Hl) as Hsize.
  assert (request_value_ok l) as Hrv by (unfold request_value_ok; lia). pose proof (request_value_fits l Hrv). unfold LightUTXOSet_add_out. apply wp_bind.
  eapply wp_must; [unfold UTXO_of; rewrite (rd_32 _ Ht); reflexivity|]. apply wp_bind. eapply wp_intro; [unfold with_local; rewrite Hd; reflexivity|].
  rewrite (utxo_key_spec _ _ Ht). apply wp_bind. eapply wp_must; [reflexivity|]. cbn [negb].
  wp_seq (exchange (engine := engine) (own_response (call_id c)) c
    (obj_set k_value (J_binary l None) (utxo_query (call_id c) MIYA_DB_QUERY_ADD (utxo_key txID index)))
    (added (holds := holds) (call_id c) n b kvs (utxo_key txID index) l) s out) as Hs;
    [apply utxo_add_fits; [assumption|split; vm_compute; congruence|assumption|assumption]|assumption..| | |].
  - intros reply db Hr. destruct (added_response _ _ _ _ _ _ _ _ Hr) as (m & Hm & Hi'). exists m, m. split; [exact Hm|now apply own_response_id].
  - intros x Hx tm. rewrite utxo_add_members in Hx.
    eapply (handle_add (laws := laws)); [eassumption|assumption|assumption|lia|assumption|eassumption..|reflexivity|reflexivity|reflexivity|left; split; reflexivity].
  - apply wp_bind. eapply wp_mono; [exact Hs|]. intros r s2 (reply & m & [Hr Hdb] & Hm & Hst & Hi' & Ho').
    rewrite Hr in Hm. apply (inj Parsed) in Hm. subst m. rewrite own_response_id in Hst by reflexivity. apply (inj Some) in Hst. subst r.
    split; [reflexivity|]. now split.
Qed.

(** An amount of 2^63 or more cannot be written. *)
Lemma LightUTXOSet_add_throws connected c amount t h txID index (s : Server DB) :
  length txID = 32%nat -> 2 ^ 63 <= amount -> _pubKeyHash t = Some h -> length h = 20%nat ->
  LightUTXOSet_add_out engine connected c amount (Some t) (Some txID) index s = Throw JsonError s.
Proof.
  intros Ht Ha Hp Hh. unfold LightUTXOSet_add_out, UTXO_of. rewrite (rd_32 _ Ht). cbn [mbind option_bind]. rewrite run_must.
  unfold with_local, UTXO_dumpToBson. unfold mbind at 1, prog_bind at 1. rewrite run_get. cbn [ux_txID ux_txOut ux_outputIndex ux_amount].
  rewrite (rd_32 _ Ht), !run_must. rewrite Hp, (rd_20 _ Hh), run_must.
  rewrite run_bind with (a := p2pkh_bytes h) (s' := mkUTXO txID index amount (Some []) (Some (txout_locked t h)));
    [|unfold on_txOut; cbn [ux_txOut ux_txID ux_outputIndex ux_amount ux_pkScript]; unfold on_pkScript, zoom; now rewrite PkScript_export_spec].
  unfold dump, to_bson. rewrite utxo_object_members. cbn [bson_throws]. rewrite (proj2 (Z.leb_le _ _) Ha).
  change (has_nul k_PkScript) with false. change (has_nul k_TxID) with false. change (has_nul k_amount) with false. reflexivity.
Qed.

(** C14: The set of unspent outputs forgets nothing but finds nothing. Adding an output puts
    it into the database under the SHA-1 of its transaction id and index, and asking the
    database for that key gives bytes that are read back as the id, the index and the locking
    script of the output; the amount is whatever the memory of the entry held, not the value
    of the output. Yet [add] answers false, and [get] then answers that there is no such
    output, for this one as for any other, since both take the status 0 for success
    and the database says 1. Both return in every interleaving with the server. This is so
    when the memory held less than 2^63, the database has room for one more entry and its
    value, and the first five bytes of the key and of those in the database are all
    different. When the memory held 2^63 or more, [add] throws and stores nothing. *)
Theorem utxo_stored_but_never_found c amount t h txID index n b kvs out (s : Server DB) :
  table_state (holds := holds) (S n) b kvs out s -> call_ok c out -> length txID = 32%nat -> 0 <= index < 2 ^ 32 -> 0 <= amount < 2 ^ 64 ->
  _pubKeyHash t = Some h -> length h = 20%nat -> NoDup (take 5 (utxo_key txID index) :: map (fun kv => take 5 kv.1) kvs) -> 28 + 119 <= b ->
  (amount < 2 ^ 63 -> wp (LightUTXOSet_add_out engine true c amount (Some t) (Some txID) index) s (fun r s1 =>
    r.1 = false /\ ux_txOut r.2 = Some (txout_locked t h) /\ exists dumped,
    (forall c2 ret, call_ok c2 out ->
       wp (client_get engine true c2 (Some (utxo_key txID index)) (-1) ret) s1 (fun r _ => r = (Z.of_nat (length dumped), Some dumped))) /\
    (forall fresh, wp (UTXO_importFromBson (J_binary dumped None)) fresh (fun ok u =>
       ok = true /\ u = mkUTXO txID index amount (Some (p2pkh_script h)) (ux_txOut fresh))) /\
    (forall c2 fresh txID' index', awaits (utxo_response (call_id c2)) c2 out -> length txID' = 32%nat ->
       wp (LightUTXOSet_get engine true c2 fresh (Some txID') index') s1 (fun r s2 => r = None /\ sv_outgoing s2 ≡ₚ out)))) /\
  (2 ^ 63 <= amount -> LightUTXOSet_add_out engine true c amount (Some t) (Some txID) index s = Throw JsonError s).
Proof.
  intros Hs Hc Ht Hix Ha64 Hp Hh20 Hnd Hb. split; [|intros Ha; now apply LightUTXOSet_add_throws with h].
  intros Ha63. assert (0 <= amount < 2 ^ 63) as Ha by lia. assert (utxo_key txID index ∉ map fst kvs) as Hk.
  { apply NoDup_cons in Hnd as [Hn _]. intros Hin. apply Hn. apply (list_elem_of_fmap_2 (take 5)) in Hin.
    rewrite <- list_fmap_compose in Hin. exact Hin. }
  destruct (LightUTXOSet_add_stores c amount t h txID index n b kvs out s Hs Hc Ht Hix Ha Hp Hh20 Hk Hb) as (l & Hl & Hadd).
  eapply wp_mono; [exact Hadd|]. intros r s1 [-> Hs1]. split; [reflexivity|]. split; [reflexivity|]. exists l. split; [|split].
  - intros c2 ret Hc2. wp_last (client_get_spec (laws := laws) c2 (utxo_key txID index) ret) giving r as (Hans & _);
      [exact Hs1|exact Hc2|apply utxo_key_length|].
    destruct Hans as [(k' & v & Hin & Et & ->)|[Hno _]].
    + now injection (pair_unique ((utxo_key txID index, l) :: kvs) (utxo_key txID index) l k' v Hnd (list_elem_of_here _ _) Hin Et) as -> ->.
    + apply Forall_cons in Hno as [Hno _]. now destruct Hno.
  - intros fresh. eapply wp_intro; [now apply (import_dumped txID index amount h)|now split].
  - intros c2 fresh txID' index' Hc2 Ht'.
    eapply wp_mono; [now apply (LightUTXOSet_get_none c2 fresh txID' index' n _ _ out s1 Hs1)|]. intros r2 s2 (-> & _ & _ & Ho2). now split.
Qed.
End set_of_outputs.

(** With such a set no transaction is valid, whatever its inputs. *)
Lemma no_transaction_verifies {ssl : OpenSSL} p : P2PKH_verify (fun _ _ => None) p = Ok false p.
Proof. unfold P2PKH_verify. rewrite run_get. destruct (_ins p) as [|i l] eqn:E; [reflexivity|]. cbn [length verify_from]. now rewrite run_get, E. Qed.

(** ** The same on concrete files *)

Definition sample_txid : list byte := [x61; x62; x63; x64; x65] ++ replicate 27 x00.
Definition sample_output : TxOut := TxOut_init 5 (Some (replicate 20 x01)) TxOut_new.

Lemma utxo_stored_but_never_found_witness : exists m db,
  manager_clear empty_manager = Ok tt m /\
  MMyISAM_new (S := SafeIndexManager (Manager FlatMem FlatMem)) 1700000000 m m = Ok db tt /\
  wp (LightUTXOSet_add_out sample_engine true (sample_call 1) 77 (Some sample_output) (Some sample_txid) 0)
    (mkServer db [] [sample_pending] 0) (fun r s1 =>
    r.1 = false /\ ux_txOut r.2 = Some (txout_locked sample_output (replicate 20 x01)) /\ exists dumped,
    (forall c2 ret, call_ok c2 [sample_pending] ->
       wp (client_get sample_engine true c2 (Some (utxo_key sample_txid 0)) (-1) ret) s1 (fun r _ => r = (Z.of_nat (length dumped), Some dumped))) /\
    (forall fresh, wp (UTXO_importFromBson (J_binary dumped None)) fresh (fun ok u =>
       ok = true /\ u = mkUTXO sample_txid 0 77 (Some (p2pkh_script (replicate 20 x01))) (ux_txOut fresh))) /\
    (forall c2 fresh txID' index', awaits (utxo_response (call_id c2)) c2 [sample_pending] -> length txID' = 32%nat ->
       wp (LightUTXOSet_get sample_engine true c2 fresh (Some txID') index') s1 (fun r s2 => r = None /\ sv_outgoing s2 ≡ₚ [sample_pending]))) /\
  LightUTXOSet_add_out sample_engine true (sample_call 1) (2 ^ 63) (Some sample_output) (Some sample_txid) 0 (mkServer db [] [sample_pending] 0) =
    Throw JsonError (mkServer db [] [sample_pending] 0).
Proof.
  destruct cleared_manager as (m & Em & Hm).
  destruct (database_new (S := SafeIndexManager (Manager FlatMem FlatMem)) 1700000000 m m (fm_view empty_file) (fm_view empty_file) Hm Hm empty_not_formatted)
    as (db & Es & Hdb & _).
  exists m, db. split; [exact Em|]. split; [exact Es|].
  assert (table_state (holds := MMyISAM_holds 5) 1 1000 [] [sample_pending] (mkServer db [] [sample_pending] 0)) as Hts.
  { split; [|split; reflexivity]. exists 0, 203, 0%nat. split; [exact Hdb|]. split; [cbn; lia|]. split; [lia|]. split; [vm_compute; reflexivity|constructor]. }
  pose proof (fun amount Ha => utxo_stored_but_never_found (engine := sample_engine) (sample_call 1) amount sample_output (replicate 20 x01)
    sample_txid 0 0 1000 [] [sample_pending] _ Hts (sample_call_ok 1 ltac:(split; vm_compute; congruence) ltac:(discriminate))
    eq_refl ltac:(lia) Ha eq_refl eq_refl (NoDup_singleton _) ltac:(lia)) as H.
  split; [exact (proj1 (H 77 ltac:(lia)) ltac:(lia))|exact (proj2 (H (2 ^ 63) ltac:(lia)) ltac:(lia))].
Defined.
