(* ===== verification/LocalFiles.v ===== *)
(** The local files of blocks and undo data ([chain/miya_coin/]): a data file with its meta
    block ([local_file_controller.cpp]), the containers in which a block and the outputs it
    creates are written ([block_container.cpp], [undo_container.cpp]), and the entries of the
    index. *)
From stdpp Require Import strings.
From S2P Require Import Prelude Bson Crypto Script TxFormat P2PKH BlockHeader Coinbase Block MMyISAM SafeMode DBClient UTXOSet.
From Stdlib Require Import Lia.
#[local] Open Scope Z_scope.

(** ** A data file *)

Definition DEFAULT_BLK_REV_MAX_BYTES : Z := 128 * 1024 * 1024.
Definition BLK_REV_META_BLOCK_SIZE : Z := 100.

(** [ftruncate]. *)
Definition resize (n : Z) (f : list byte) : list byte := take (Z.to_nat n) (f ++ replicate (Z.to_nat n - length f) x00).

(** The meta block is mapped: [actualDataSize] is the first field of it, on the host's byte
    order. The time stamp is never written. *)
Definition actualDataSize : prog (list byte) Z :=
  f ← get_state; l ← must (rd 4 (Some f)); mret (le_decode l).
Definition set_actualDataSize (target : Z) : prog (list byte) unit :=
  f ← get_state;
  if Z.of_nat (length f) <? 4 then undef else set_state (le_encode 4 target ++ drop 4 f).

(** The constructor, on a file that is opened, and created if need be. *)
Definition LocalFileController_open : prog (list byte) unit :=
  f ← get_state;
  if Z.of_nat (length f) <? BLK_REV_META_BLOCK_SIZE then
    _ ← set_state (resize BLK_REV_META_BLOCK_SIZE f); set_actualDataSize BLK_REV_META_BLOCK_SIZE
  else mret tt.

(** [write]: the place of the data, or -1 when the file would be too long. *)
Definition LocalFileController_write (data : buffer) (dataLength : Z) : prog (list byte) Z :=
  dataEnd ← actualDataSize;
  if DEFAULT_BLK_REV_MAX_BYTES <=? dataEnd + dataLength then mret (-1)
  else
    _ ← modify (resize (dataEnd + dataLength));
    d ← must (rd dataLength data);
    _ ← modify (fun f => take (Z.to_nat dataEnd) f ++ d ++ drop (Z.to_nat (dataEnd + dataLength)) f);
    _ ← set_actualDataSize (dataEnd + dataLength);
    mret dataEnd.

(** [read], with the system's page size: whole pages are mapped, with zeros after the end of
    the file; beyond the last of them is no memory. A size that comes from an unsigned
    difference below zero cannot be allocated. *)
Definition LocalFileController_read (page size offset : Z) : prog (list byte) (list byte) :=
  if 2 ^ 63 <=? size then throw BadAlloc
  else if size =? 0 then mret []
  else
    f ← get_state;
    must (sub (resize ((Z.of_nat (length f) + page - 1) / page * page) f) offset size).

(** ** A block in its container *)

(** The first twelve bytes of both containers; the third field counts transactions or outputs. *)
Record ContainerMeta : Type := mkContainerMeta { _magicBytes : list byte; _size : Z; _count : Z }.

Definition meta_bytes (m : ContainerMeta) : list byte := _magicBytes m ++ le_encode 4 (_size m) ++ le_encode 4 (_count m).
Definition meta_of (fromRaw : list byte) : option ContainerMeta :=
  l ← rd 12 (Some fromRaw); Some (mkContainerMeta (take 4 l) (le_decode (take 4 (drop 4 l))) (le_decode (drop 8 l))).

(** What is read of a container after its meta block, a difference of unsigned numbers. *)
Definition body_size (m : ContainerMeta) : Z := (_size m - 12) mod 2 ^ 64.

Section containers.
Context {ssl : OpenSSL}.

Record BlockContainer : Type := mkBlockContainer { bc_meta : ContainerMeta; bc_block : option Block }.

Definition set_bc_block (b : Block) (c : BlockContainer) : BlockContainer := mkBlockContainer (bc_meta c) (Some b).
Definition set_bc_meta (m : ContainerMeta) (c : BlockContainer) : BlockContainer := mkBlockContainer m (bc_block c).

(** Running code on the block behind the pointer. *)
Definition on_block {A} (c : prog Block A) : prog BlockContainer A := fun s =>
  match bc_block s with None => Undef | Some b => zoom (fun _ => b) set_bc_block c s end.

(** The constructors; the meta block is not initialised. *)
Definition BlockContainer_new (meta : ContainerMeta) (now : Z) : BlockContainer := mkBlockContainer meta (Some (Block_new now)).
Definition BlockContainer_of (meta : ContainerMeta) (block : option Block) : BlockContainer := mkBlockContainer meta block.

Definition BlockContainer_importMetaSequentially (fromRaw : list byte) : prog BlockContainer unit :=
  m ← must (meta_of fromRaw); modify (set_bc_meta m).

(** Code on the coinbase behind the block's pointer. *)
Definition with_coinbase {A} (c : prog coinbase A) : prog Block A := fun b =>
  match _coinbase b with None => Undef | Some _ => on_coinbase c b end.

(** [importBlockSequentially]. *)
Definition BlockContainer_importBlockSequentially (fromRaw : list byte) : prog BlockContainer unit :=
  let after pos := sub fromRaw pos (Z.of_nat (length fromRaw) - pos) in
  currentPtr ← on_block (on_header (BlockHeader_importRawSequentially fromRaw));
  raw ← must (after currentPtr);
  '(n, readedCoinbase) ← with_local (fun _ => coinbase_new) (fun _ s => s) (coinbase_importRawSequentially raw);
  _ ← on_block (modify (Block_set_coinbase (Some readedCoinbase)));
  c ← get_state;
  on_block (on_txVector (fun l =>
    match repeat_new (Z.to_nat (_count (bc_meta c))) P2PKH_new
            (fun pos => raw ← must (after pos); P2PKH_importRawSequentially raw) (currentPtr + n) with
    | Ok _ txs => Ok tt (l ++ txs)
    | Throw e txs => Throw e (l ++ txs)
    | Undef => Undef
    end)).

(** [exportRawFormated]. *)
Definition BlockContainer_exportRawFormated : prog BlockContainer (Z * buffer) :=
  c ← get_state;
  match bc_block c with
  | None => mret (0, None)
  | Some b =>
      let rawBlockHeader := Block_exportHeader b in
      rawCoinbase ← on_block (with_coinbase coinbase_exportRaw);
      rawTxVector ← on_block (on_txVector (each (fun _ => P2PKH_exportRaw)));
      let raw := rawBlockHeader ++ rawCoinbase ++ concat rawTxVector in
      let retLength := 12 + Z.of_nat (length raw) in
      _ ← modify (fun c => set_bc_meta (mkContainerMeta (_magicBytes (bc_meta c)) (retLength mod 2 ^ 32)
                                          (Z.of_nat (length rawTxVector) mod 2 ^ 32)) c);
      c ← get_state;
      mret (retLength, Some (meta_bytes (bc_meta c) ++ raw))
  end.

(** ** The outputs of a block in their container *)

Record UndoContainer : Type := mkUndoContainer { uc_meta : ContainerMeta; _utxoVector : list UTXO }.

(** New entries for outputs, each with the id of its transaction; [i] is how many there are
    already, [memory] what the memory of each holds. *)
Fixpoint undo_entries (memory : nat -> Z) (i : nat) (l : list (list byte * TxOut)) : option (list UTXO) :=
  match l with
  | [] => Some []
  | (txID, o) :: l' =>
      u ← UTXO_of (memory (S i)) (Some o) (Some txID) (Z.of_nat i mod 2 ^ 32);
      us ← undo_entries memory (S i) l';
      Some (u :: us)
  end.

Definition tx_outputs (ids : list (list byte)) (txs : list P2PKH) : list (list byte * TxOut) :=
  concat (zip_with (fun id p => map (fun o => (id, o)) (_outs p)) ids txs).

(** [UndoContainer( blockFrom )]; the counter of outputs is not reset between transactions. *)
Definition UndoContainer_of (meta : ContainerMeta) (memory : nat -> Z) : prog Block UndoContainer :=
  coinbaseTxID ← with_coinbase coinbase_calcTxID;
  b ← get_state;
  c ← must (_coinbase b);
  coinbaseUTXO ← must (UTXO_of (memory 0%nat) (Some (cb_tx_out c)) (Some coinbaseTxID) 0);
  ids ← on_txVector (each (fun _ => calcTxID));
  b ← get_state;
  us ← must (undo_entries memory 0 (tx_outputs ids (_txVector b)));
  let v := coinbaseUTXO :: us in
  mret (mkUndoContainer (mkContainerMeta (_magicBytes meta) (_size meta) (Z.of_nat (length v) mod 2 ^ 32)) v).

Definition UndoContainer_importMetaSequentially (fromRaw : list byte) : prog UndoContainer unit :=
  m ← must (meta_of fromRaw); modify (fun c => mkUndoContainer m (_utxoVector c)).

Definition k_dumpedUTXOs : list byte := Eval vm_compute in Bson.key_of "dumpedUTXOs".

(** The loop of [importUndoFromRaw]; [fresh] is the memory of each new entry. *)
Fixpoint import_entries (fresh : nat -> UTXO) (i : nat) (l : list json) : prog UndoContainer unit :=
  match l with
  | [] => mret tt
  | itr :: l' =>
      if negb (json_is_binary itr) then import_entries fresh i l'
      else
        '(ok, u) ← with_local (fun _ => fresh i) (fun _ s => s) (UTXO_importFromBson itr);
        _ ← (if ok : bool then modify (fun c => mkUndoContainer (uc_meta c) (_utxoVector c ++ [u])) else mret tt);
        import_entries fresh (S i) l'
  end.

(** [importUndoFromRaw]. *)
Definition UndoContainer_importUndoFromRaw (fresh : nat -> UTXO) (fromRaw : list byte) : prog UndoContainer unit :=
  dumpedUTXOBatch ← load fromRaw;
  _ ← import_entries fresh 0 (json_items (obj_at k_dumpedUTXOs dumpedUTXOBatch).1);
  modify (fun c => mkUndoContainer (mkContainerMeta (_magicBytes (uc_meta c)) (_size (uc_meta c))
                                      (Z.of_nat (length (_utxoVector c)) mod 2 ^ 32)) (_utxoVector c)).

(** [exportRawFormated]; without an entry the document is still null, which cannot be written. *)
Definition UndoContainer_exportRawFormated : prog UndoContainer (Z * buffer) :=
  dumped ← zoom _utxoVector (fun l c => mkUndoContainer (uc_meta c) l) (each (fun _ => UTXO_dumpToBson));
  dumpedUTXOBatchVector ←
    match dumped with
    | [] => throw JsonError
    | _ => dump (obj_set k_dumpedUTXOs (J_array (map (fun d => J_binary d None) dumped)) [])
    end;
  let retRawLength := 12 + Z.of_nat (length dumpedUTXOBatchVector) in
  _ ← modify (fun c => mkUndoContainer (mkContainerMeta (_magicBytes (uc_meta c)) (retRawLength mod 2 ^ 32) (_count (uc_meta c)))
                         (_utxoVector c));
  c ← get_state;
  mret (retRawLength, Some (meta_bytes (uc_meta c) ++ dumpedUTXOBatchVector)).

(** The entries share their outputs with the block: what happened to them has happened there. *)
Fixpoint share_outs (us : list UTXO) (txs : list P2PKH) : list P2PKH :=
  match txs with
  | [] => []
  | p :: txs' =>
      let n := length (_outs p) in
      mkP2PKH (_version p) (_ins p) (zip_with (fun u o => default o (ux_txOut u)) (take n us) (_outs p)) ::
      share_outs (drop n us) txs'
  end.

Definition share (us : list UTXO) (b : Block) : Block :=
  match us, _coinbase b with
  | u :: us', Some c =>
      mkBlock (_header b) (Some (mkCoinbase (cb_version c) (cb_tx_in c) (default (cb_tx_out c) (ux_txOut u)) (_pubkeyHash c)))
        (share_outs us' (_txVector b))
  | _, _ => b
  end.
End containers.

(** ** The entries of the index *)

Record BlockIndex : Type := mkBlockIndex {
  fileIndex : Z;
  padding : list byte;
  blockOffset : Z;
  reversalOffset : Z;
  timestamp : Z;
  reserved : list byte;
}.

Definition BlockIndex_new : BlockIndex := mkBlockIndex 0 [x00; x00] 0 0 0 (replicate 20 x00).

Definition BlockIndex_exportRaw (i : BlockIndex) : list byte :=
  le_encode 2 (fileIndex i) ++ padding i ++ le_encode 4 (blockOffset i) ++ le_encode 4 (reversalOffset i) ++
  le_encode 4 (timestamp i) ++ reserved i.

(** The memory of an entry from the first 36 bytes. *)
Definition BlockIndex_of (raw : list byte) : option BlockIndex :=
  l ← rd 36 (Some raw);
  Some (mkBlockIndex (le_decode (take 2 l)) (take 2 (drop 2 l)) (le_decode (take 4 (drop 4 l))) (le_decode (take 4 (drop 8 l)))
          (le_decode (take 4 (drop 12 l))) (drop 16 l)).

(** [importRaw]. *)
Definition BlockIndex_importRaw (fromRaw : buffer) (fromRawLength : Z) : prog BlockIndex unit :=
  match fromRaw with
  | None => mret tt
  | Some raw =>
      if fromRawLength <? 36 then mret tt
      else i ← must (BlockIndex_of raw); set_state i
  end.

(** ** Data in a file *)

(** A file whose meta block says where its data ends. *)
Definition file_ok (f : list byte) : Prop :=
  100 <= Z.of_nat (length f) < DEFAULT_BLK_REV_MAX_BYTES /\ take 4 f = le_encode 4 (Z.of_nat (length f)).

(** What lies at a place after the meta block. *)
Definition at_offset (f : list byte) (off : Z) (d : list byte) : Prop :=
  100 <= off /\ exists pre post, f = pre ++ d ++ post /\ off = Z.of_nat (length pre).

Lemma file_ok_short f : file_ok f -> Z.of_nat (length f) < DEFAULT_BLK_REV_MAX_BYTES.
Proof. intros [H _]. lia. Qed.

Lemma resize_ge n f : Z.of_nat (length f) <= n -> resize n f = f ++ replicate (Z.to_nat n - length f) x00.
Proof. intros H. unfold resize. rewrite take_ge; [reflexivity|]. rewrite length_app, length_replicate. lia. Qed.

Lemma actualDataSize_ok f : file_ok f -> actualDataSize f = Ok (Z.of_nat (length f)) f.
Proof.
  intros [Hl Hm]. unfold DEFAULT_BLK_REV_MAX_BYTES in Hl. unfold actualDataSize. rewrite run_get.
  assert (rd 4 (Some f) = Some (le_encode 4 (Z.of_nat (length f)))) as ->.
  { unfold rd. cbn [Z.eqb]. rewrite (proj2 (Z.leb_le 4 _)) by lia. change (Z.to_nat 4) with 4%nat. now rewrite Hm. }
  rewrite run_must, le_decode_le by (change (256 ^ Z.of_nat 4) with (2 ^ 32); lia). reflexivity.
Qed.

Lemma LocalFileController_open_long f : 100 <= Z.of_nat (length f) -> LocalFileController_open f = Ok tt f.
Proof.
  intros H. unfold LocalFileController_open, BLK_REV_META_BLOCK_SIZE. rewrite run_get. now rewrite (proj2 (Z.ltb_ge _ _)) by lia.
Qed.

Lemma LocalFileController_open_ok f : file_ok f -> LocalFileController_open f = Ok tt f.
Proof. intros [Hl _]. apply LocalFileController_open_long. lia. Qed.

Lemma LocalFileController_open_new : exists f, LocalFileController_open [] = Ok tt f /\ file_ok f /\ length f = 100%nat.
Proof. eexists. split; [vm_compute; reflexivity|]. split; [split; [vm_compute; split; congruence|reflexivity]|reflexivity]. Qed.

(** What [write] makes of a file. *)
Definition file_append (d f : list byte) : list byte := le_encode 4 (Z.of_nat (length f + length d)) ++ drop 4 f ++ d.

Lemma LocalFileController_write_ok f d :
  file_ok f -> Z.of_nat (length f) + Z.of_nat (length d) < DEFAULT_BLK_REV_MAX_BYTES ->
  LocalFileController_write (Some d) (Z.of_nat (length d)) f = Ok (Z.of_nat (length f)) (file_append d f).
Proof.
  intros Hf Hd. pose proof Hf as [Hl _]. unfold LocalFileController_write. rewrite (run_bind _ _ _ _ _ (actualDataSize_ok f Hf)).
  rewrite (proj2 (Z.leb_gt _ _)) by lia.
  erewrite run_bind by reflexivity. rewrite rd_all, run_must. erewrite run_bind by reflexivity.
  rewrite resize_ge by lia. rewrite <- Nat2Z.inj_add, !Nat2Z.id, take_app_length, drop_ge, app_nil_r
    by (rewrite length_app, length_replicate; lia).
  unfold set_actualDataSize. erewrite run_bind; [reflexivity|]. rewrite run_get.
  rewrite (proj2 (Z.ltb_ge _ _)) by (rewrite length_app; lia). unfold set_state, file_append. rewrite drop_app_le by lia. reflexivity.
Qed.

Lemma LocalFileController_write_full f d n : actualDataSize f = Ok n f -> DEFAULT_BLK_REV_MAX_BYTES <= n + Z.of_nat (length d) ->
  LocalFileController_write (Some d) (Z.of_nat (length d)) f = Ok (-1) f.
Proof.
  intros Hf Hd. unfold LocalFileController_write. rewrite (run_bind _ _ _ _ _ Hf).
  now rewrite (proj2 (Z.leb_le _ _)) by lia.
Qed.

Lemma file_append_length f d : file_ok f -> length (file_append d f) = (length f + length d)%nat.
Proof. intros [Hl _]. unfold file_append. rewrite !length_app, le_encode_length, length_drop. lia. Qed.

Lemma file_append_ok f d :
  file_ok f -> Z.of_nat (length f) + Z.of_nat (length d) < DEFAULT_BLK_REV_MAX_BYTES -> file_ok (file_append d f).
Proof.
  intros Hf Hd. unfold file_ok at 1. rewrite file_append_length by assumption. split; [destruct Hf; lia|].
  unfold file_append. now rewrite take_app_length' by now rewrite le_encode_length.
Qed.

Lemma file_append_new f d : file_ok f -> at_offset (file_append d f) (Z.of_nat (length f)) d.
Proof.
  intros [Hl _]. split; [lia|]. exists (le_encode 4 (Z.of_nat (length f + length d)) ++ drop 4 f), [].
  rewrite app_nil_r. split; [unfold file_append; now rewrite app_assoc|]. rewrite length_app, le_encode_length, length_drop. lia.
Qed.

Lemma file_append_old f d off x : at_offset f off x -> at_offset (file_append d f) off x.
Proof.
  intros [Ho (pre & post & -> & ->)]. split; [exact Ho|].
  eexists (le_encode 4 _ ++ drop 4 pre), (post ++ d). split.
  - unfold file_append. rewrite drop_app_le by lia. rewrite <- !app_assoc. reflexivity.
  - rewrite length_app, le_encode_length, length_drop. lia.
Qed.

Lemma LocalFileController_read_ok page f off d n :
  0 < page -> at_offset f off d -> n = Z.of_nat (length d) -> n < 2 ^ 63 ->
  LocalFileController_read page n off f = Ok d f.
Proof.
  intros Hp [Ho (pre & post & -> & ->)] -> Hd. unfold LocalFileController_read. rewrite (proj2 (Z.leb_gt _ _)) by lia.
  destruct (Z.eqb_spec (Z.of_nat (length d)) 0) as [E|E]; [destruct d; [reflexivity|discriminate]|]. rewrite run_get.
  set (f := pre ++ d ++ post). assert (Z.of_nat (length f) <= (Z.of_nat (length f) + page - 1) / page * page) as Hr.
  { pose proof (Z.div_mod (Z.of_nat (length f) + page - 1) page ltac:(lia)).
    pose proof (Z.mod_pos_bound (Z.of_nat (length f) + page - 1) page Hp). nia. }
  rewrite resize_ge by exact Hr. unfold f at 1. rewrite <- !app_assoc, sub_app. reflexivity.
Qed.

(** Two pieces that were written as one. *)
Lemma at_offset_split f off d1 d2 : at_offset f off (d1 ++ d2) ->
  at_offset f off d1 /\ at_offset f (off + Z.of_nat (length d1)) d2.
Proof.
  intros [Ho (pre & post & -> & ->)]. split.
  - split; [exact Ho|]. exists pre, (d2 ++ post). now rewrite <- !app_assoc.
  - split; [lia|]. exists (pre ++ d1), post. rewrite <- !app_assoc, length_app. split; [reflexivity|lia].
Qed.

Lemma meta_bytes_length m : length (_magicBytes m) = 4%nat -> length (meta_bytes m) = 12%nat.
Proof. intros H. unfold meta_bytes. rewrite !length_app, !le_encode_length, H. reflexivity. Qed.

Lemma meta_of_bytes m : length (_magicBytes m) = 4%nat -> 0 <= _size m < 2 ^ 32 -> 0 <= _count m < 2 ^ 32 ->
  meta_of (meta_bytes m) = Some m.
Proof.
  intros Hm Hs Hc. unfold meta_of. pose proof (meta_bytes_length m Hm) as Hl.
  change 12 with (Z.of_nat 12). rewrite <- Hl, rd_all. cbn [mbind option_bind]. destruct m as [g z c]. unfold meta_bytes. cbn [_magicBytes _size _count] in *.
  rewrite (take_app_length' g), (drop_app_length' g) by now rewrite Hm.
  rewrite (take_app_length' (le_encode 4 z)) by now rewrite le_encode_length.
  rewrite app_assoc, (drop_app_length' (g ++ le_encode 4 z)) by (rewrite length_app, le_encode_length, Hm; reflexivity).
  now rewrite !le_decode_le by (change (256 ^ Z.of_nat 4) with (2 ^ 32); lia).
Qed.

(** ** Blocks that can be written and read *)

Section stored_blocks.
Context {ssl : OpenSSL} {ssl_laws : OpenSSL_laws}.

(** A signed transaction, with what is left of it when it has been written and what is read. *)
Record tx_stored (p : P2PKH) : Prop := {
  ts_version : 0 <= _version p < 2 ^ 32;
  ts_in_count : Z.of_nat (length (_ins p)) < 2 ^ 32;
  ts_out_count : Z.of_nat (length (_outs p)) < 2 ^ 32;
  ts_ins : Forall signed_in (_ins p);
  ts_outs : Forall out_ok (_outs p);
  ts_values : Forall (fun o => 0 <= _value o < 2 ^ 64) (_outs p);
}.

Definition tx_after (p : P2PKH) : P2PKH := mkP2PKH (_version p) (map in_after (_ins p)) (map out_after (_outs p)).
Definition tx_read (p : P2PKH) : P2PKH := mkP2PKH (_version p) (map in_read (_ins p)) (map out_after (_outs p)).

Lemma in_after_signed t : signed_in t -> signed_in (in_after t) /\ in_bytes (in_after t) = in_bytes t.
Proof.
  intros (k & sig & H). pose proof (signed_in_eqs _ _ _ H) as (E & -> & _).
  assert (signed_input (exported t k sig) k sig) as H'.
  { destruct H as [H1 H2 H3 H4 H5 H6 H7 H8 H9 H10]. destruct t as [p n x q tk], x as [sg sl sn pk s]. cbn in *. now constructor. }
  split; [now exists k, sig|]. destruct (signed_in_eqs _ _ _ H') as (-> & _). rewrite E. now destruct t.
Qed.

Lemma out_after_ok o : out_ok o -> out_ok (out_after o).
Proof. intros (h & H). now exists h. Qed.

Lemma out_after_after o : out_after (out_after o) = out_after o.
Proof. reflexivity. Qed.

Lemma tx_after_stored p : tx_stored p -> tx_stored (tx_after p).
Proof.
  intros [H1 H2 H3 H4 H5 H6]. split; cbn [_version _ins _outs tx_after]; rewrite ?length_map; try assumption; apply Forall_fmap.
  - eapply Forall_impl; [exact H4|]. intros t Ht. now apply in_after_signed.
  - eapply Forall_impl; [exact H5|]. exact out_after_ok.
  - exact H6.
Qed.

Lemma tx_after_bytes p : tx_stored p -> tx_bytes (tx_after p) = tx_bytes p.
Proof.
  intros H. unfold tx_bytes, tx_after. cbn [_version _ins _outs]. rewrite !map_map. f_equal.
  apply map_ext_Forall. eapply Forall_impl; [exact (ts_ins _ H)|]. intros t Ht. now apply in_after_signed.
Qed.

Lemma tx_export_stored p : tx_stored p -> P2PKH_exportRaw p = Ok (tx_bytes p) (tx_after p).
Proof. intros []. now apply P2PKH_export_spec. Qed.

Lemma calcTxID_stored p : tx_stored p -> calcTxID p = Ok (EVP_SHA256 (tx_bytes p)) (tx_after p).
Proof. intros H. unfold calcTxID. rewrite (run_bind _ _ _ _ _ (tx_export_stored p H)), SHAHash_all. reflexivity. Qed.

Lemma tx_import_stored p rest : tx_stored p ->
  P2PKH_importRawSequentially (tx_bytes p ++ rest) P2PKH_new = Ok (Z.of_nat (length (tx_bytes p))) (tx_read p).
Proof. intros []. now apply P2PKH_import_spec. Qed.

(** What signing leaves can be written. *)
Lemma signed_tx_stored p p1 : signature_sizes -> signable p -> P2PKH_sign p = Ok true p1 -> tx_stored p1.
Proof.
  intros Hsz H E1. destruct (P2PKH_sign_spec p (signable_ok p H)) as (p' & E & Hok & Ev & Ei & Eo).
  rewrite E in E1. injection E1 as <-. split.
  - rewrite Ev. apply (sg_version _ H).
  - rewrite Ei, length_imap. apply (sg_in_count _ H).
  - rewrite <- (length_map out_core), Eo, length_map. apply (sg_out_count _ H).
  - rewrite Ei, Forall_lookup. intros i t. rewrite list_lookup_imap. intros (t0 & Ht0 & ->)%fmap_Some.
    apply signed_signed_in; [assumption|]. pose proof (sg_ins _ H) as Hs. rewrite Forall_lookup in Hs. exact (Hs i t0 Ht0).
  - apply Hok.
  - eapply out_core_ok; [exact Eo|apply Hok|apply (sg_values _ H)].
Qed.

Lemma each_stored {A} (c : prog P2PKH A) (f : P2PKH -> A) l :
  (forall p, tx_stored p -> c p = Ok (f p) (tx_after p)) -> Forall tx_stored l ->
  each (fun _ => c) l = Ok (map f l) (map tx_after l).
Proof.
  intros Hc Hl. rewrite (each_ok _ (fun _ => f) (fun _ => tx_after)), !imap_const; [reflexivity|].
  intros j p Hp. apply Hc. rewrite Forall_lookup in Hl. exact (Hl _ _ Hp).
Qed.

(** A block whose parts can be written and read. [raw] is the script of the coinbase, [h] the
    hash it pays to. *)
Record block_stored (b : Block) (c : coinbase) (raw h : list byte) : Prop := {
  bs_header : header_ok (_header b);
  bs_coinbase : _coinbase b = Some c;
  bs_coinbase_ok : coinbase_ok c raw h;
  bs_script : script_ok (cb_script (cb_tx_in c));
  bs_version : 0 <= cb_version c < 2 ^ 32;
  bs_value : 0 <= _value (cb_tx_out c) < 2 ^ 64;
  bs_txs : Forall tx_stored (_txVector b);
}.

Definition cb_bytes (c : coinbase) (raw h : list byte) : list byte := coinbase_bytes (cb_version c) raw (_value (cb_tx_out c)) h.
Definition cb_read (c : coinbase) (raw h : list byte) : coinbase :=
  mkCoinbase (cb_version c) (mkCoinbaseIn null_prev_out (bswap32 (Z.of_nat (length raw))) (cb_script (cb_tx_in c)) 0)
    (mkTxOut (_value (cb_tx_out c)) (bswap64 25) (p2pkh_script h) (Some h)) None.

Definition block_bytes (b : Block) (c : coinbase) (raw h : list byte) : list byte :=
  Block_exportHeader b ++ cb_bytes c raw h ++ concat (map tx_bytes (_txVector b)).
Definition block_after (b : Block) (c : coinbase) (raw h : list byte) : Block :=
  mkBlock (_header b) (Some (coinbase_after c raw h)) (map tx_after (_txVector b)).
(** What is read: a coinbase without a hash to pay to, transactions that are not marked as signed. *)
Definition block_read (b : Block) (c : coinbase) (raw h : list byte) : Block :=
  mkBlock (_header b) (Some (cb_read c raw h)) (map tx_read (_txVector b)).

Lemma block_after_stored b c raw h : block_stored b c raw h ->
  block_stored (block_after b c raw h) (coinbase_after c raw h) raw h /\
  block_bytes (block_after b c raw h) (coinbase_after c raw h) raw h = block_bytes b c raw h.
Proof.
  intros [H1 H2 H3 H4 H5 H6 H7]. split.
  - split; try assumption; try reflexivity; [now apply coinbase_after_ok|].
    cbn [block_after _txVector]. apply Forall_fmap. eapply Forall_impl; [exact H7|]. exact tx_after_stored.
  - unfold block_bytes, block_after, Block_exportHeader, cb_bytes. cbn [_header _txVector coinbase_after cb_version cb_tx_out _value].
    rewrite map_map. do 2 f_equal. f_equal. apply map_ext_Forall. eapply Forall_impl; [exact H7|]. exact tx_after_bytes.
Qed.

Definition container_meta (magic : list byte) (b : Block) (c : coinbase) (raw h : list byte) : ContainerMeta :=
  mkContainerMeta magic (12 + Z.of_nat (length (block_bytes b c raw h))) (Z.of_nat (length (_txVector b))).

Definition container_bytes (magic : list byte) (b : Block) (c : coinbase) (raw h : list byte) : list byte :=
  meta_bytes (container_meta magic b c raw h) ++ block_bytes b c raw h.

Lemma tx_bytes_length p : (4 <= length (tx_bytes p))%nat.
Proof. unfold tx_bytes, layout. rewrite length_app, le_encode_length. lia. Qed.

Lemma block_bytes_count b c raw h : (length (_txVector b) <= length (block_bytes b c raw h))%nat.
Proof.
  unfold block_bytes. rewrite !length_app. enough (length (_txVector b) <= length (concat (map tx_bytes (_txVector b))))%nat by lia.
  induction (_txVector b) as [|p l IH]; [reflexivity|]. cbn [map concat length]. rewrite length_app. pose proof (tx_bytes_length p). lia.
Qed.

Lemma BlockContainer_export_spec m b c raw h :
  block_stored b c raw h -> 12 + Z.of_nat (length (block_bytes b c raw h)) < 2 ^ 32 -> length (_magicBytes m) = 4%nat ->
  BlockContainer_exportRawFormated (BlockContainer_of m (Some b)) =
  Ok (Z.of_nat (length (container_bytes (_magicBytes m) b c raw h)), Some (container_bytes (_magicBytes m) b c raw h))
     (mkBlockContainer (container_meta (_magicBytes m) b c raw h) (Some (block_after b c raw h))).
Proof.
  intros H Hl Hm. pose proof H as [H1 H2 H3 H4 H5 H6 H7]. pose proof (block_bytes_count b c raw h) as Hn.
  unfold BlockContainer_exportRawFormated. rewrite run_get. cbn [BlockContainer_of bc_block].
  rewrite (run_bind _ _ _ (cb_bytes c raw h) (mkBlockContainer m (Some (Block_set_coinbase (Some (coinbase_after c raw h)) b)))).
  2:{ unfold on_block, zoom, with_coinbase, on_coinbase, zoom. cbn [BlockContainer_of bc_block]. rewrite H2. cbv beta. change (default coinbase_new (Some c)) with c.
      now rewrite (coinbase_export_spec _ _ _ H3). }
  rewrite (run_bind _ _ _ (map tx_bytes (_txVector b)) (mkBlockContainer m (Some (block_after b c raw h)))).
  2:{ unfold on_block, zoom, on_txVector, zoom. cbn [bc_block _txVector Block_set_coinbase].
      now rewrite (each_stored _ tx_bytes _ tx_export_stored H7). }
  unfold modify. erewrite run_bind by reflexivity. rewrite run_get. unfold set_bc_meta, bc_meta.
  rewrite length_map. fold (block_bytes b c raw h).
  assert (length (container_bytes (_magicBytes m) b c raw h) = 12 + length (block_bytes b c raw h))%nat as ->
    by (unfold container_bytes; now rewrite length_app, meta_bytes_length).
  unfold container_bytes, container_meta, block_bytes in *. rewrite !Z.mod_small by lia.
  unfold mret, prog_ret. repeat f_equal. lia.
Qed.

Lemma txs_import_stored (raw : list byte) l : forall pre post pos, Forall tx_stored l ->
  raw = pre ++ concat (map tx_bytes l) ++ post -> pos = Z.of_nat (length pre) ->
  exists n, repeat_new (length l) P2PKH_new
    (fun pos => x ← must (sub raw pos (Z.of_nat (length raw) - pos)); P2PKH_importRawSequentially x) pos = Ok n (map tx_read l).
Proof.
  intros pre post pos Hl -> ->. eexists. apply (repeat_new_ok P2PKH_new _ (fun p => Z.of_nat (length (tx_bytes p))) tx_read).
  intros l1 p l2 ->. rewrite <- concat_size.
  rewrite (sub_rest _ (pre ++ concat (map tx_bytes l1)) (tx_bytes p ++ concat (map tx_bytes l2) ++ post)), run_must;
    [|rewrite concat_split, <- !app_assoc; reflexivity|rewrite length_app; lia].
  apply tx_import_stored. rewrite Forall_forall in Hl. apply Hl. set_solver.
Qed.

Lemma BlockContainer_import_spec m b0 b c raw h :
  block_stored b c raw h -> _count m = Z.of_nat (length (_txVector b)) -> _txVector b0 = [] ->
  BlockContainer_importBlockSequentially (block_bytes b c raw h) (mkBlockContainer m (Some b0)) =
  Ok tt (mkBlockContainer m (Some (block_read b c raw h))).
Proof.
  intros H Hm Hb. pose proof H as [H1 H2 H3 H4 H5 H6 H7]. unfold BlockContainer_importBlockSequentially.
  set (raw0 := block_bytes b c raw h). set (T := concat (map tx_bytes (_txVector b))).
  destruct (BlockHeader_round_trip (_header b) (cb_bytes c raw h ++ T) (_header b0) H1) as [L80 E80].
  rewrite (run_bind _ _ _ 80 (mkBlockContainer m (Some (Block_set_header (_header b) b0)))).
  2:{ unfold on_block, zoom, on_header, zoom. cbn [bc_block]. unfold raw0, block_bytes, Block_exportHeader. fold T. now rewrite E80. }
  rewrite (sub_rest raw0 (Block_exportHeader b) (cb_bytes c raw h ++ T)), run_must by (try reflexivity; unfold Block_exportHeader; now rewrite L80).
  rewrite (run_bind _ _ _ (Z.of_nat (length (cb_bytes c raw h)), cb_read c raw h) (mkBlockContainer m (Some (Block_set_header (_header b) b0)))).
  2:{ unfold with_local, cb_bytes. destruct H3 as [K1 K2 K3 K4 K5 K6]. now rewrite (coinbase_import_spec _ (cb_script (cb_tx_in c)) raw). }
  rewrite (run_bind _ _ _ tt (mkBlockContainer m (Some (Block_set_coinbase (Some (cb_read c raw h)) (Block_set_header (_header b) b0))))) by reflexivity.
  rewrite run_get. cbn [bc_meta]. rewrite Hm, Nat2Z.id.
  destruct (txs_import_stored raw0 (_txVector b) (Block_exportHeader b ++ cb_bytes c raw h) [] (80 + Z.of_nat (length (cb_bytes c raw h))) H7)
    as (n & En); [unfold raw0, block_bytes; now rewrite app_nil_r, <- app_assoc|rewrite length_app; unfold Block_exportHeader; rewrite L80; lia|].
  unfold on_block, zoom, on_txVector, zoom, set_bc_meta, set_bc_block, bc_meta. cbn [bc_block _txVector Block_set_coinbase Block_set_header].
  rewrite En, Hb. reflexivity.
Qed.

(** The entries a block leaves, with what the memory of each held as its amount. Their indices
    run on over the transactions. *)
Definition undo_entry (txID : list byte) (i amount : Z) (o : TxOut) : UTXO := mkUTXO txID i amount (Some []) (Some o).

Definition tx_ids (b : Block) : list (list byte) := map (fun p => EVP_SHA256 (tx_bytes p)) (_txVector b).

Definition block_entries (memory : nat -> Z) (b : Block) (c : coinbase) (raw h : list byte) : list UTXO :=
  undo_entry (EVP_SHA256 (cb_bytes c raw h)) 0 (memory 0%nat) (cb_tx_out (coinbase_after c raw h)) ::
  imap (fun i x => undo_entry x.1 (Z.of_nat i mod 2 ^ 32) (memory (S i)) x.2) (tx_outputs (tx_ids b) (map tx_after (_txVector b))).

Lemma undo_entries_spec memory l : forall i, Forall (fun x : list byte * TxOut => length x.1 = 32%nat) l ->
  undo_entries memory i l =
  Some (imap (fun j x => undo_entry x.1 (Z.of_nat (i + j) mod 2 ^ 32) (memory (S (i + j))) x.2) l).
Proof.
  induction l as [|[id o] l IH]; intros i Hl; [reflexivity|]. apply Forall_cons in Hl as [H1 Hl]. cbn [fst] in H1.
  cbn [undo_entries imap fst snd]. unfold UTXO_of. rewrite (rd_32 _ H1). cbn [mbind option_bind]. rewrite IH by assumption.
  cbn [mbind option_bind]. rewrite Nat.add_0_r. do 2 f_equal. apply imap_ext. intros j x _. cbn. now rewrite Nat.add_succ_r.
Qed.

Lemma tx_outputs_cons id p ids txs : tx_outputs (id :: ids) (p :: txs) = map (fun o => (id, o)) (_outs p) ++ tx_outputs ids txs.
Proof. reflexivity. Qed.

(** Every output with the id of its transaction. *)
Lemma tx_outputs_Forall (P : list byte * TxOut -> Prop) txs :
  (forall p o, p ∈ txs -> o ∈ _outs p -> P (EVP_SHA256 (tx_bytes p), out_after o)) ->
  Forall P (tx_outputs (map (fun p => EVP_SHA256 (tx_bytes p)) txs) (map tx_after txs)).
Proof.
  induction txs as [|p txs IH]; intros H; [constructor|]. cbn [map]. rewrite tx_outputs_cons. apply Forall_app. split.
  - cbn [tx_after _outs]. rewrite map_map. apply Forall_fmap. apply Forall_forall. intros o Ho. apply H; [now left|exact Ho].
  - apply IH. intros q o Hq. apply H. now right.
Qed.

Lemma UndoContainer_of_spec meta memory b c raw h : block_stored b c raw h ->
  UndoContainer_of meta memory b =
  Ok (mkUndoContainer (mkContainerMeta (_magicBytes meta) (_size meta) (Z.of_nat (length (block_entries memory b c raw h)) mod 2 ^ 32))
        (block_entries memory b c raw h)) (block_after b c raw h).
Proof.
  intros [H1 H2 H3 H4 H5 H6 H7]. unfold UndoContainer_of.
  rewrite (run_bind _ _ _ (EVP_SHA256 (cb_bytes c raw h)) (Block_set_coinbase (Some (coinbase_after c raw h)) b)).
  2:{ unfold with_coinbase, on_coinbase, zoom. rewrite H2. change (default coinbase_new (Some c)) with c.
      now rewrite (calcTxID_coinbase_ok _ _ _ H3). }
  rewrite run_get. cbn [Block_set_coinbase _coinbase]. rewrite run_must. unfold UTXO_of at 1.
  rewrite (rd_32 _ (SHA256_length _)). cbn [mbind option_bind]. rewrite run_must.
  rewrite (run_bind _ _ _ (tx_ids b) (block_after b c raw h)).
  2:{ unfold on_txVector, zoom. cbn [_txVector Block_set_coinbase]. now rewrite (each_stored _ (fun p => EVP_SHA256 (tx_bytes p)) _ calcTxID_stored H7). }
  rewrite run_get. cbn [_txVector block_after]. rewrite undo_entries_spec, run_must; [reflexivity|].
  apply tx_outputs_Forall. intros p o _ _. apply SHA256_length.
Qed.

(** An entry that is ready to be written. *)
Definition entry_hash (u : UTXO) : list byte := bytes_of (ux_txOut u ≫= _pubKeyHash).
Definition entry_object (u : UTXO) : object := utxo_object (ux_txID u) (ux_outputIndex u) (ux_amount u) (p2pkh_bytes (entry_hash u)).
Definition entry_bytes (u : UTXO) : list byte := write_bson_value (J_object (entry_object u)).

Record entry_ok (u : UTXO) : Prop := {
  eo_id : length (ux_txID u) = 32%nat;
  eo_index : 0 <= ux_outputIndex u < 2 ^ 32;
  eo_amount : 0 <= ux_amount u < 2 ^ 63;
  eo_script : ux_pkScript u = Some [];
  eo_out : exists t h, ux_txOut u = Some t /\ _pubKeyHash t = Some h /\ length h = 20%nat /\ _pkScript t = p2pkh_script h;
}.

Lemma entry_dump u : entry_ok u -> to_bson (entry_object u) = Some (entry_bytes u) /\
  UTXO_dumpToBson u = Ok (entry_bytes u) u /\ Z.of_nat (length (entry_bytes u)) <= 119 /\ length (entry_hash u) = 20%nat.
Proof.
  intros [H1 H2 H3 H4 (t & h & H5 & H6 & H7 & H8)]. destruct u as [id i a s o]. cbn in H1, H2, H3, H4, H5. subst s o.
  destruct (dump_utxo a t h id i H1 H6 H7 H2 H3) as (l & Hl & Hd).
  assert (entry_hash (mkUTXO id i a (Some []) (Some t)) = h) as Eh by (unfold entry_hash; cbn; now rewrite H6).
  assert (entry_bytes (mkUTXO id i a (Some []) (Some t)) = l) as El.
  { unfold entry_bytes, entry_object. rewrite Eh. cbn [ux_txID ux_outputIndex ux_amount]. unfold to_bson in Hl.
    destruct (bson_throws _); [discriminate|]. now apply (inj Some) in Hl. }
  rewrite El, Eh. unfold entry_object. rewrite Eh. split; [exact Hl|]. split; [rewrite Hd|split; [now apply (utxo_object_size id i a h)|exact H7]].
  unfold txout_locked. rewrite <- H8. now destruct t.
Qed.

Lemma block_entries_ok memory b c raw h : block_stored b c raw h -> (forall i, 0 <= memory i < 2 ^ 63) ->
  Forall entry_ok (block_entries memory b c raw h).
Proof.
  intros [H1 H2 H3 H4 H5 H6 H7] Hm. unfold block_entries. constructor.
  - split; cbn; try apply SHA256_length; try apply Hm; try lia; try reflexivity.
    do 2 eexists. split; [reflexivity|]. split; [reflexivity|]. split; [exact (ok_hash_length _ _ _ H3)|reflexivity].
  - apply Forall_lookup. intros i u. rewrite list_lookup_imap. intros (x & Hx & ->)%fmap_Some.
    assert (Forall (fun x : list byte * TxOut => length x.1 = 32%nat /\ exists o, out_ok o /\ x.2 = out_after o)
      (tx_outputs (tx_ids b) (map tx_after (_txVector b)))) as Hall.
    { apply tx_outputs_Forall. intros p o Hp Ho. split; [apply SHA256_length|]. exists o. split; [|reflexivity].
      rewrite Forall_forall in H7. specialize (H7 p Hp). pose proof (ts_outs _ H7) as Hos. rewrite Forall_forall in Hos. now apply Hos. }
    rewrite Forall_lookup in Hall. destruct (Hall _ _ Hx) as (Hid & o & (hh & Ho & Hl) & Eo).
    split; cbn; [exact Hid|apply Z.mod_pos_bound; lia|apply Hm|reflexivity|].
    exists x.2, hh. rewrite Eo. unfold out_after. cbn. rewrite Ho. cbn. auto.
Qed.

(** The document of the entries, its container, and what is read of them. *)
Definition undo_doc (us : list UTXO) : object :=
  obj_set k_dumpedUTXOs (J_array (map (fun u => J_binary (entry_bytes u) None) us)) [].
Definition undo_body (us : list UTXO) : list byte := write_bson_value (J_object (undo_doc us)).
Definition undo_meta (magic : list byte) (us : list UTXO) : ContainerMeta :=
  mkContainerMeta magic (12 + Z.of_nat (length (undo_body us))) (Z.of_nat (length us) mod 2 ^ 32).
Definition undo_bytes (magic : list byte) (us : list UTXO) : list byte := meta_bytes (undo_meta magic us) ++ undo_body us.

Definition entry_read (u fresh : UTXO) : UTXO :=
  mkUTXO (ux_txID u) (ux_outputIndex u) (ux_amount u) (Some (p2pkh_script (entry_hash u))) (ux_txOut fresh).

Lemma undo_doc_wf us : Forall entry_ok us -> json_wf (J_object (undo_doc us)) = true.
Proof.
  intros H. change (undo_doc us) with [(k_dumpedUTXOs, J_array (map (fun u => J_binary (entry_bytes u) None) us))].
  cbn [json_wf map fst snd forallb]. change (keys_sorted [k_dumpedUTXOs]) with true. change (has_nul k_dumpedUTXOs) with false.
  cbn [negb andb]. rewrite andb_true_r. induction H as [|u us Hu _ IH]; [reflexivity|]. cbn [map forallb json_wf].
  destruct (entry_dump u Hu) as (_ & _ & Hl & _). rewrite (proj2 (Z.ltb_lt _ _)) by lia. exact IH.
Qed.

Lemma undo_doc_bytes us : Forall entry_ok us ->
  to_bson (undo_doc us) = Some (undo_body us) /\ from_bson (undo_body us) = Parsed (read_back_object (undo_doc us)).
Proof.
  intros H. pose proof (undo_doc_wf us H) as Hwf. destruct (bson_reads_back _ Hwf) as (l & Hl & Hr).
  assert (undo_body us = l) as ->; [|now split].
  unfold to_bson in Hl. rewrite wf_not_throws in Hl by assumption. now apply (inj Some) in Hl.
Qed.

Lemma UndoContainer_export_spec m us : Forall entry_ok us -> us <> [] -> 12 + Z.of_nat (length (undo_body us)) < 2 ^ 32 ->
  length (_magicBytes m) = 4%nat -> _count m = Z.of_nat (length us) mod 2 ^ 32 ->
  UndoContainer_exportRawFormated (mkUndoContainer m us) =
  Ok (Z.of_nat (length (undo_bytes (_magicBytes m) us)), Some (undo_bytes (_magicBytes m) us)) (mkUndoContainer (undo_meta (_magicBytes m) us) us).
Proof.
  intros H Hne Hl Hm Hc. unfold UndoContainer_exportRawFormated.
  rewrite (run_bind _ _ _ (map entry_bytes us) (mkUndoContainer m us)).
  2:{ unfold zoom. cbn [_utxoVector uc_meta]. rewrite (each_ok _ (fun _ => entry_bytes) (fun _ => id)).
      - rewrite !imap_const. change (map id us) with (id <$> us). now rewrite list_fmap_id.
      - intros j u Hu. rewrite Forall_lookup in H. now apply entry_dump, (H j). }
  assert (match map entry_bytes us with [] => throw JsonError | _ =>
      dump (obj_set k_dumpedUTXOs (J_array (map (fun d => J_binary d None) (map entry_bytes us))) []) end (mkUndoContainer m us) =
    Ok (undo_body us) (mkUndoContainer m us)) as E.
  { destruct us as [|u us']; [congruence|]. cbv iota. rewrite map_map. unfold dump. fold (undo_doc (u :: us')).
    now rewrite (proj1 (undo_doc_bytes _ H)). }
  rewrite (run_bind _ _ _ _ _ E).
  rewrite (run_bind _ _ _ tt (mkUndoContainer (undo_meta (_magicBytes m) us) us)).
  2:{ unfold modify. cbn [uc_meta _utxoVector]. rewrite Z.mod_small, Hc by lia. reflexivity. }
  rewrite run_get. unfold mret, prog_ret. cbn [uc_meta]. fold (undo_bytes (_magicBytes m) us). do 2 f_equal.
  unfold undo_bytes. rewrite length_app, meta_bytes_length by exact Hm. lia.
Qed.

Lemma import_entries_spec fresh m us : forall i us0, Forall entry_ok us ->
  import_entries fresh i (map (fun u => J_binary (entry_bytes u) (Some 0)) us) (mkUndoContainer m us0) =
  Ok tt (mkUndoContainer m (us0 ++ imap (fun j u => entry_read u (fresh (i + j)%nat)) us)).
Proof.
  induction us as [|u us IH]; intros i us0 H; [cbn; now rewrite app_nil_r|]. apply Forall_cons in H as [Hu H].
  cbn [map import_entries json_is_binary negb imap]. destruct (entry_dump u Hu) as (Hb & _ & _ & H20). pose proof Hu as [H1 H2 H3 _ _].
  rewrite (run_bind _ _ _ (true, entry_read u (fresh i)) (mkUndoContainer m us0)).
  2:{ unfold with_local. now rewrite (import_dumped (ux_txID u) (ux_outputIndex u) (ux_amount u) (entry_hash u)). }
  rewrite (run_bind _ _ _ tt (mkUndoContainer m (us0 ++ [entry_read u (fresh i)]))) by reflexivity.
  rewrite IH by assumption. rewrite <- app_assoc, Nat.add_0_r. cbn [app]. do 4 f_equal.
  apply imap_ext. intros j x _. cbn. now rewrite Nat.add_succ_r.
Qed.

Lemma UndoContainer_import_spec fresh m us : Forall entry_ok us ->
  UndoContainer_importUndoFromRaw fresh (undo_body us) (mkUndoContainer m []) =
  Ok tt (mkUndoContainer (mkContainerMeta (_magicBytes m) (_size m) (Z.of_nat (length us) mod 2 ^ 32))
           (imap (fun i u => entry_read u (fresh i)) us)).
Proof.
  intros H. unfold UndoContainer_importUndoFromRaw. destruct (undo_doc_bytes us H) as [_ Hr].
  rewrite (run_bind _ _ _ _ _ (load_ok _ _ _ Hr)).
  assert (json_items (obj_at k_dumpedUTXOs (read_back_object (undo_doc us))).1 = map (fun u => J_binary (entry_bytes u) (Some 0)) us) as ->.
  { change (undo_doc us) with [(k_dumpedUTXOs, J_array (map (fun u => J_binary (entry_bytes u) None) us))].
    unfold read_back_object. cbn [map fst snd read_back]. rewrite map_map. unfold obj_at.
    change (obj_get k_dumpedUTXOs [(k_dumpedUTXOs, ?x)]) with (Some x). reflexivity. }
  rewrite (run_bind _ _ _ _ _ (import_entries_spec fresh m us 0 [] H)). unfold modify. cbn [uc_meta _utxoVector app Nat.add].
  now rewrite length_imap.
Qed.

Lemma share_zip (f g : nat -> Z) id l : zip_with (fun u o => default o (ux_txOut u))
  (imap (fun j x => undo_entry x.1 (f j) (g j) x.2) (map (fun o => (id, o)) l)) l = l.
Proof. revert f g; induction l as [|o l IH]; intros f g; [reflexivity|]. cbn. f_equal. apply (IH (fun j => f (S j)) (fun j => g (S j))). Qed.

(** Writing the entries leaves the outputs they share with the block as they were. *)
Lemma share_outs_after memory txs : forall i,
  share_outs (imap (fun j x => undo_entry x.1 (Z.of_nat (i + j) mod 2 ^ 32) (memory (S (i + j))) x.2)
    (tx_outputs (map (fun p => EVP_SHA256 (tx_bytes p)) txs) (map tx_after txs))) (map tx_after txs) = map tx_after txs.
Proof.
  induction txs as [|p txs IH]; intros i; [reflexivity|]. cbn [map share_outs]. rewrite tx_outputs_cons, imap_app.
  rewrite take_app_length', drop_app_length' by now rewrite length_imap, length_map. rewrite length_map. f_equal.
  - destruct p as [v ii os]. unfold tx_after. cbn [_version _ins _outs]. f_equal.
    apply (share_zip (fun j => Z.of_nat (i + j) mod 2 ^ 32) (fun j => memory (S (i + j)))).
  - etransitivity; [|apply (IH (i + length (_outs p))%nat)]. f_equal. apply imap_ext. intros j x _. cbn.
    unfold tx_after. cbn [_outs]. rewrite length_map. now rewrite <- Nat.add_assoc.
Qed.

Lemma share_block_after memory b c raw h :
  share (block_entries memory b c raw h) (block_after b c raw h) = block_after b c raw h.
Proof. unfold share, block_entries, block_after. cbn [_coinbase]. f_equal. apply (share_outs_after memory (_txVector b) 0). Qed.

(** Writing a block does not change the entries it leaves. *)
Lemma tx_outputs_after txs : Forall tx_stored txs ->
  tx_outputs (map (fun p => EVP_SHA256 (tx_bytes p)) (map tx_after txs)) (map tx_after (map tx_after txs)) =
  tx_outputs (map (fun p => EVP_SHA256 (tx_bytes p)) txs) (map tx_after txs).
Proof.
  induction 1 as [|p txs Hp _ IH]; [reflexivity|]. cbn [map]. rewrite !tx_outputs_cons, IH, tx_after_bytes by assumption. f_equal.
  cbn [tx_after _outs]. rewrite !map_map. reflexivity.
Qed.

Lemma block_entries_after memory b c raw h : block_stored b c raw h ->
  block_entries memory (block_after b c raw h) (coinbase_after c raw h) raw h = block_entries memory b c raw h.
Proof.
  intros H. unfold block_entries, tx_ids. cbn [_txVector block_after]. rewrite (tx_outputs_after _ (bs_txs _ _ _ _ H)). reflexivity.
Qed.
End stored_blocks.

(** ** Entries of the index are written and read back *)

Lemma BlockIndex_round_trip i :
  0 <= fileIndex i < 2 ^ 16 -> length (padding i) = 2%nat -> 0 <= blockOffset i < 2 ^ 32 -> 0 <= reversalOffset i < 2 ^ 32 ->
  0 <= timestamp i < 2 ^ 32 -> length (reserved i) = 20%nat ->
  length (BlockIndex_exportRaw i) = 36%nat /\ BlockIndex_of (BlockIndex_exportRaw i) = Some i.
Proof.
  intros H1 H2 H3 H4 H5 H6. destruct i as [f p bo ro ts r]. cbn [fileIndex padding blockOffset reversalOffset timestamp reserved] in *.
  assert (length (BlockIndex_exportRaw (mkBlockIndex f p bo ro ts r)) = 36%nat) as Hl
    by (unfold BlockIndex_exportRaw; cbn [fileIndex padding blockOffset reversalOffset timestamp reserved];
        rewrite !length_app, !le_encode_length, H2, H6; reflexivity).
  split; [exact Hl|]. unfold BlockIndex_of. change 36 with (Z.of_nat 36). rewrite <- Hl, rd_all. cbn [mbind option_bind].
  unfold BlockIndex_exportRaw. cbn [fileIndex padding blockOffset reversalOffset timestamp reserved].
  do 2 (destruct p as [|? p]; [discriminate|]). destruct p; [|discriminate].
  cbn [le_encode app take drop]. do 2 f_equal; try (now apply (le_decode_le 4)); now apply (le_decode_le 2).
Qed.
