(* ===== verification/BlockFiles.v ===== *)
(** The local storage of blocks ([chain/miya_coin/local_strage_manager.cpp]): the files of
    blocks and of undo data behind cached managers, and the index of them in the database. *)
From stdpp Require Import strings pretty.
From S2P Require Import Prelude Bson OverlayPtr CacheTable Allocator Crypto MemoryManager ItemSet NodeStore ONode NodeOps.
From S2P Require Import BTree BTreeModel BTreeAdd BTreeIndex BTreeMap BTreeRemove ValueStore MMyISAM SafeONode SafeBTree SafeMode.
From S2P Require Import Script TxFormat P2PKH BlockHeader Coinbase Block HeaderSync BlockSync StreamBuffer Database DBClient UTXOSet LocalFiles.
From Stdlib Require Import Lia.
#[local] Open Scope Z_scope.

(** ** The directory *)

(** The files of [../chain/miya_coin/blocks/]. *)
Notation Disk := (gmap string (list byte)).

Definition blk_file (i : Z) : string := "blk" +:+ pretty (Z.to_N i) +:+ ".dat".
Definition rev_file (i : Z) : string := "rev" +:+ pretty (Z.to_N i) +:+ ".dat".

(** A manager: its file ([None] for the empty path, which opens nothing), and whether the
    range in its [_mapping] can be memory that is in use when the manager is destroyed. *)
Record manager : Type := mkManager { mg_file : option string; mg_inUse : bool }.

(** [write] and [read] map [n] bytes into [_mapping] and release them, but leave the range in
    there: memory that others can get from now on, unless nothing was mapped. *)
Definition remapped (n : Z) (m : manager) : manager := mkManager (mg_file m) (negb (n =? 0)).

(** The destructor releases the range in [_mapping], whoever has it now. *)
Definition LocalFileController_delete {St} (m : manager) : prog St unit := if mg_inUse m then undef else mret tt.

(** Constructing the manager of a file. *)
Definition open_file (name : string) : prog Disk unit := fun d =>
  zoom (fun d : Disk => default [] (d !! name)) (fun f d => <[name := f]> d) LocalFileController_open d.

(** Running code on the file of a manager. *)
Definition on_manager {A} (m : manager) (c : prog (list byte) A) : prog Disk A := fun d =>
  match mg_file m with
  | None => Undef
  | Some name =>
      match d !! name with
      | None => Undef
      | Some f => zoom (fun _ => f) (fun f d => <[name := f]> d) c d
      end
  end.

(** The number in a name that matches [blk(\d+)\.dat]. *)
Definition blk_number (name : string) : option Z :=
  let l := String.list_byte_of_string name in
  let digits := take (length l - 7) (drop 3 l) in
  if bool_decide (l = [x62; x6c; x6b] ++ digits ++ [x2e; x64; x61; x74]) && negb (bool_decide (digits = [])) &&
     forallb (fun b => (48 <=? u8 b) && (u8 b <=? 57)) digits
  then Some (foldl (fun z b => z * 10 + (u8 b - 48)) 0 digits) else None.

(** What an operation finds in its surroundings: those of its query, the clock in seconds and
    what the memory of new objects holds; [at_garbage i] says whether the [_mapping] of the
    [i]-th manager it makes, whose size no constructor sets, names memory in use. *)
Record Surroundings : Type := mkSurroundings {
  at_call : Call;
  at_time : Z;
  at_meta : ContainerMeta;
  at_amount : nat -> nat -> Z;
  at_entry : nat -> UTXO;
  at_garbage : nat -> bool;
}.

Section storage_code.
Context {ssl : OpenSSL} {DB : Type} (engine : nat -> StrageEngine DB) (page : Z) (connected : bool).

(** [BlockLocalStrage], with the database behind its client, the directory, and how many
    operations have been called. *)
Record Strage : Type := mkStrage {
  ls_index : Server DB;
  ls_disk : Disk;
  _blkFileManager : manager;
  _revFileManager : manager;
  _lastIndex : Z;
  ls_calls : nat;
}.

Definition on_index {A} : prog (Server DB) A -> prog Strage A := zoom ls_index (fun x s =>
  mkStrage x (ls_disk s) (_blkFileManager s) (_revFileManager s) (_lastIndex s) (ls_calls s)).
Definition on_disk {A} : prog Disk A -> prog Strage A := zoom ls_disk (fun d s =>
  mkStrage (ls_index s) d (_blkFileManager s) (_revFileManager s) (_lastIndex s) (ls_calls s)).
Definition set_blk (m : manager) (s : Strage) : Strage :=
  mkStrage (ls_index s) (ls_disk s) m (_revFileManager s) (_lastIndex s) (ls_calls s).
Definition set_rev (m : manager) (s : Strage) : Strage :=
  mkStrage (ls_index s) (ls_disk s) (_blkFileManager s) m (_lastIndex s) (ls_calls s).
Definition set_lastIndex (i : Z) (s : Strage) : Strage :=
  mkStrage (ls_index s) (ls_disk s) (_blkFileManager s) (_revFileManager s) i (ls_calls s).
Definition count_call (s : Strage) : Strage :=
  mkStrage (ls_index s) (ls_disk s) (_blkFileManager s) (_revFileManager s) (_lastIndex s) (S (ls_calls s)).

(** The constructor: the last of the files of blocks, which have to be numbered from 0 on.
    The match refers to a string that is gone when its number is taken; it is read as it was.
    The managers of the empty path hold [garbage]; [calls] counts the operations before. *)
Definition BlockLocalStrage_new (garbage : nat -> bool) (index : Server DB) (calls : nat) (d : Disk) : result Disk Strage :=
  let numbers := omap blk_number (map fst (map_to_list d)) in
  let indexSet : gset Z := list_to_set numbers in
  let lastIndex := foldr Z.max 0 numbers in
  if 2 ^ 31 <=? lastIndex then Throw OutOfRange d
  else if lastIndex =? (Z.of_nat (size indexSet) - 1) mod 2 ^ 32 then Ok (mkStrage index d (mkManager None (garbage 0%nat)) (mkManager None (garbage 1%nat)) lastIndex calls) d
  else Throw AssertionFailure d.

(** Making the manager of a file and putting it in the place of the one there was, which is
    destroyed after the new one is there. *)
Definition open_blk (garbage : bool) (name : string) : prog Strage unit :=
  _ ← on_disk (open_file name);
  s ← get_state;
  _ ← LocalFileController_delete (_blkFileManager s);
  modify (set_blk (mkManager (Some name) garbage)).
Definition open_rev (garbage : bool) (name : string) : prog Strage unit :=
  _ ← on_disk (open_file name);
  s ← get_state;
  _ ← LocalFileController_delete (_revFileManager s);
  modify (set_rev (mkManager (Some name) garbage)).

(** [LocalFileController::write] and [read] through a manager, which maps from the start of a
    page on; a write that has no room maps nothing. *)
Definition write_blk (data : buffer) (dataLength : Z) : prog Strage Z :=
  s ← get_state;
  offset ← on_disk (on_manager (_blkFileManager s) (LocalFileController_write data dataLength));
  _ ← (if offset =? -1 then mret tt else modify (set_blk (remapped (offset mod page + dataLength) (_blkFileManager s))));
  mret offset.
Definition write_rev (data : buffer) (dataLength : Z) : prog Strage Z :=
  s ← get_state;
  offset ← on_disk (on_manager (_revFileManager s) (LocalFileController_write data dataLength));
  _ ← (if offset =? -1 then mret tt else modify (set_rev (remapped (offset mod page + dataLength) (_revFileManager s))));
  mret offset.
Definition read_blk (size offset : Z) : prog Strage (list byte) :=
  s ← get_state;
  raw ← on_disk (on_manager (_blkFileManager s) (LocalFileController_read page size offset));
  _ ← modify (set_blk (remapped (offset mod page + size) (_blkFileManager s)));
  mret raw.
Definition read_rev (size offset : Z) : prog Strage (list byte) :=
  s ← get_state;
  raw ← on_disk (on_manager (_revFileManager s) (LocalFileController_read page size offset));
  _ ← modify (set_rev (remapped (offset mod page + size) (_revFileManager s)));
  mret raw.

(** [BlkFileManager::write] and [RevFileManager::write], with what is left of the container
    and of the block. *)
Definition BlkFileManager_write (container : BlockContainer) : prog Strage (Z * BlockContainer) :=
  '(raw, container) ← with_local (fun _ => container) (fun _ s => s) BlockContainer_exportRawFormated;
  offset ← write_blk raw.2 raw.1;
  mret (offset, container).

Definition RevFileManager_write (meta : ContainerMeta) (memory : nat -> Z) (targetBlock : Block) : prog Strage (Z * Block) :=
  '(undoContainer, b) ← with_local (fun _ => targetBlock) (fun _ s => s) (UndoContainer_of meta memory);
  '(raw, undoContainer) ← with_local (fun _ => undoContainer) (fun _ s => s) UndoContainer_exportRawFormated;
  offset ← write_rev raw.2 raw.1;
  mret (offset, share (_utxoVector undoContainer) b).

(** [BlkFileManager::read] and [RevFileManager::read]. *)
Definition BlkFileManager_read (meta : ContainerMeta) (now : Z) (offset : Z) : prog Strage BlockContainer :=
  rawMeta ← read_blk 12 offset;
  '(_, container) ← with_local (fun _ => BlockContainer_new meta now) (fun _ s => s) (BlockContainer_importMetaSequentially rawMeta);
  raw ← read_blk (body_size (bc_meta container)) (offset + 12);
  '(_, container) ← with_local (fun _ => container) (fun _ s => s) (BlockContainer_importBlockSequentially raw);
  mret container.

Definition RevFileManager_read (meta : ContainerMeta) (fresh : nat -> UTXO) (offset : Z) : prog Strage UndoContainer :=
  rawMeta ← read_rev 12 offset;
  '(_, container) ← with_local (fun _ => mkUndoContainer meta []) (fun _ s => s) (UndoContainer_importMetaSequentially rawMeta);
  raw ← read_rev (body_size (uc_meta container)) (offset + 12);
  '(_, container) ← with_local (fun _ => container) (fun _ s => s) (UndoContainer_importUndoFromRaw fresh raw);
  mret container.

Context (surroundings : nat -> Surroundings).

(** The surroundings of the next operation. *)
Definition next_call : prog Strage Surroundings := s ← get_state; _ ← set_state (count_call s); mret (surroundings (ls_calls s)).

(** One attempt to write; [k] counts the undo containers that are made. *)
Definition write_both (e : Surroundings) (k : nat) (container : BlockContainer) : prog Strage (Z * Z * BlockContainer) :=
  '(blkOffset, container) ← BlkFileManager_write container;
  b ← must (bc_block container);
  '(revOffset, b) ← RevFileManager_write (at_meta e) (at_amount e k) b;
  mret (blkOffset, revOffset, set_bc_block b container).

Definition index_entry (blkOffset revOffset now : Z) : BlockIndex :=
  mkBlockIndex 0 [x00; x00] (blkOffset mod 2 ^ 32) (revOffset mod 2 ^ 32) (now mod 2 ^ 32) (replicate 20 x00).

(** The end of [writeBlock]: the entry of the index, and the entries that are returned. *)
Definition register_block (e : Surroundings) (r : Z * Z * BlockContainer) : prog Strage (list UTXO * Block) :=
  targetBlock ← must (bc_block r.2);
  blockHash ← must (Block_blockHash targetBlock);
  let rawBlockIndex := BlockIndex_exportRaw (index_entry r.1.1 r.1.2 (at_time e)) in
  _ ← on_index (client_add engine connected (at_call e) (Some blockHash) (Some rawBlockIndex) (Z.of_nat (length rawBlockIndex)) (-1));
  '(writedUndoContainer, b) ← with_local (fun _ => targetBlock) (fun _ s => s) (UndoContainer_of (at_meta e) (at_amount e 2));
  mret (_utxoVector writedUndoContainer, b).

(** [writeBlock], with what is left of the block. *)
Definition Strage_writeBlock (targetBlock : Block) : prog Strage (list UTXO * Block) :=
  e ← next_call;
  let container := BlockContainer_of (at_meta e) (Some targetBlock) in
  s ← get_state;
  _ ← (if bool_decide (mg_file (_blkFileManager s) = Some (blk_file (_lastIndex s))) then mret tt
       else _ ← open_blk (at_garbage e 0) (blk_file (_lastIndex s)); open_rev (at_garbage e 1) (rev_file (_lastIndex s)));
  r ← write_both e 0 container;
  r ← (if (r.1.1 =? -1) || (r.1.2 =? -1) then
         _ ← modify (set_lastIndex ((_lastIndex s + 1) mod 2 ^ 32));
         s ← get_state;
         _ ← open_blk (at_garbage e 2) (blk_file (_lastIndex s));
         _ ← open_rev (at_garbage e 3) (rev_file (_lastIndex s));
         write_both e 1 r.2
       else mret r);
  register_block e r.

(** The entry of the index for a block; absent when there is none. *)
Definition find_index (e : Surroundings) (blockHash : buffer) : prog Strage (option BlockIndex) :=
  query ← on_index (client_get engine connected (at_call e) blockHash (-1) None);
  match query.2 with
  | None => mret None
  | Some raw => if query.1 <=? 0 then mret None else i ← must (BlockIndex_of raw); mret (Some i)
  end.

(** [readBlock]. *)
Definition Strage_readBlock (blockHash : buffer) : prog Strage (option Block) :=
  e ← next_call;
  found ← find_index e blockHash;
  match found with
  | None => mret None
  | Some i =>
      s ← get_state;
      _ ← (if bool_decide (mg_file (_blkFileManager s) = Some (blk_file (fileIndex i))) then mret tt
           else _ ← open_blk (at_garbage e 0) (blk_file (fileIndex i)); open_rev (at_garbage e 1) (rev_file (fileIndex i)));
      container ← BlkFileManager_read (at_meta e) (at_time e) (blockOffset i);
      mret (bc_block container)
  end.

(** [read_block]. *)
Definition Strage_read_block (bh : list byte) : prog Strage (option Block) := mret None.

(** [readUndo]. *)
Definition Strage_readUndo (blockHash : buffer) : prog Strage (list UTXO) :=
  e ← next_call;
  found ← find_index e blockHash;
  match found with
  | None => mret []
  | Some i =>
      s ← get_state;
      _ ← (if bool_decide (mg_file (_revFileManager s) = Some (rev_file (fileIndex i))) then mret tt
           else open_rev (at_garbage e 0) (rev_file (fileIndex i)));
      container ← RevFileManager_read (at_meta e) (at_entry e) (reversalOffset i);
      mret (_utxoVector container)
  end.

(** [releaseBlock]: what was written stays in the files. *)
Definition Strage_releaseBlock (blockHash : buffer) : prog Strage (list UTXO) :=
  utxoVector ← Strage_readUndo blockHash;
  e ← next_call;
  _ ← on_index (client_remove engine connected (at_call e) blockHash (-1));
  mret utxoVector.

(** The storage as the synchronisation uses it. *)
Definition local_files : BlockLocalStrage := {|
  storage := Strage;
  readBlock := Strage_readBlock;
  writeBlock := fun b => _ ← Strage_writeBlock b; mret tt;
|}.
End storage_code.

(** ** The directory and the managers *)

(** Every file of blocks is the first. *)
Definition only_first (d : Disk) : Prop :=
  is_Some (d !! blk_file 0) /\ forall name f, d !! name = Some f -> blk_number name = None \/ blk_number name = Some 0.

(** The file [f] as its manager has it, or as it will be when it is opened. *)
Definition view (m : option string) (d : Disk) (name : string) (f : list byte) : Prop :=
  file_ok f /\ (d !! name = Some f \/ (m <> Some name /\ LocalFileController_open (default [] (d !! name)) = Ok tt f)).

Lemma blk_rev_differ : blk_file 0 <> rev_file 0.
Proof. now vm_compute. Qed.

Lemma only_first_insert d name f : only_first d -> blk_number name = None \/ blk_number name = Some 0 -> only_first (<[name := f]> d).
Proof.
  intros [H1 H2] Hn. split; [destruct (decide (name = blk_file 0)) as [->|]; [rewrite lookup_insert_eq; eauto|now rewrite lookup_insert_ne]|].
  intros name' f'. destruct (decide (name = name')) as [->|]; [auto|]. rewrite lookup_insert_ne by assumption. apply H2.
Qed.

Lemma view_open m d name f : view m d name f -> LocalFileController_open (default [] (d !! name)) = Ok tt f.
Proof. intros [Hf H]. destruct H as [->|[_ ->]]; [|reflexivity]. now apply LocalFileController_open_ok. Qed.

Lemma view_restart m d name f : view m d name f -> view None d name f.
Proof. intros H. split; [apply H|]. right. split; [discriminate|]. exact (view_open _ _ _ _ H). Qed.

Section storage.
Context {ssl : OpenSSL} {ssl_laws : OpenSSL_laws}.
Context {DB : Type} {engine : nat -> StrageEngine DB} {holds : DB -> nat -> Z -> list (list byte * list byte) -> Prop}.
Context {laws : TableLaws engine holds}.
Context (page : Z) (page_pos : 0 < page) (surroundings : nat -> Surroundings).
Notation Strage := (Strage (DB := DB)).

Lemma BlockLocalStrage_opens garbage (index : Server DB) calls d : only_first d ->
  BlockLocalStrage_new garbage index calls d = Ok (mkStrage index d (mkManager None (garbage 0%nat)) (mkManager None (garbage 1%nat)) 0 calls) d.
Proof.
  intros [[f Hf] H]. unfold BlockLocalStrage_new. set (l := omap blk_number (map fst (map_to_list d))).
  assert (Forall (fun z => z = 0) l) as Hl.
  { apply Forall_forall. intros z Hz. apply list_elem_of_omap in Hz as (name & Hn & Hz).
    apply list_elem_of_fmap in Hn as ([k x] & -> & Hk). apply elem_of_map_to_list in Hk. destruct (H _ _ Hk); cbn in Hz; congruence. }
  assert (0 ∈ l) as H0.
  { apply list_elem_of_omap. exists (blk_file 0). split; [|reflexivity]. apply list_elem_of_fmap. exists (blk_file 0, f).
    split; [reflexivity|]. now apply elem_of_map_to_list. }
  assert (foldr Z.max 0 l = 0) as -> by (clear H0; induction Hl as [|z l' -> _ IH]; cbn; lia).
  assert ((list_to_set l : gset Z) = {[0]}) as ->.
  { apply set_eq. intros z. rewrite elem_of_list_to_set, elem_of_singleton. split; [|now intros ->]. intros Hz. rewrite Forall_forall in Hl. now apply Hl. }
  rewrite size_singleton. reflexivity.
Qed.

Definition set_disk (d : Disk) (s : Strage) : Strage :=
  mkStrage (ls_index s) d (_blkFileManager s) (_revFileManager s) (_lastIndex s) (ls_calls s).

Lemma run_manager {A} m name f f' (c : prog (list byte) A) a (s : Strage) : mg_file m = Some name -> ls_disk s !! name = Some f -> c f = Ok a f' ->
  on_disk (on_manager m c) s = Ok a (set_disk (<[name := f']> (ls_disk s)) s).
Proof. intros Hm Hf Hc. unfold on_disk, zoom, on_manager. rewrite Hm, Hf. unfold zoom. now rewrite Hc. Qed.

Lemma read_manager {A} m name f (c : prog (list byte) A) a (s : Strage) : mg_file m = Some name -> ls_disk s !! name = Some f -> c f = Ok a f ->
  on_disk (on_manager m c) s = Ok a s.
Proof. intros Hm Hf Hc. rewrite (run_manager m name f f c a s Hm Hf Hc). rewrite insert_id by exact Hf. now destruct s. Qed.

Lemma run_open_file (s : Strage) name f : LocalFileController_open (default [] (ls_disk s !! name)) = Ok tt f ->
  on_disk (open_file name) s = Ok tt (set_disk (<[name := f]> (ls_disk s)) s).
Proof. intros H. unfold on_disk, open_file, zoom. now rewrite H. Qed.

Lemma run_open_blk (s : Strage) g name f : LocalFileController_open (default [] (ls_disk s !! name)) = Ok tt f ->
  open_blk g name s = if mg_inUse (_blkFileManager s) then Undef
    else Ok tt (set_blk (mkManager (Some name) g) (set_disk (<[name := f]> (ls_disk s)) s)).
Proof.
  intros H. unfold open_blk. rewrite (run_bind _ _ _ _ _ (run_open_file s name f H)), run_get.
  unfold LocalFileController_delete. change (_blkFileManager (set_disk _ s)) with (_blkFileManager s).
  now destruct (mg_inUse (_blkFileManager s)).
Qed.

Lemma run_open_rev (s : Strage) g name f : LocalFileController_open (default [] (ls_disk s !! name)) = Ok tt f ->
  open_rev g name s = if mg_inUse (_revFileManager s) then Undef
    else Ok tt (set_rev (mkManager (Some name) g) (set_disk (<[name := f]> (ls_disk s)) s)).
Proof.
  intros H. unfold open_rev. rewrite (run_bind _ _ _ _ _ (run_open_file s name f H)), run_get.
  unfold LocalFileController_delete. change (_revFileManager (set_disk _ s)) with (_revFileManager s).
  now destruct (mg_inUse (_revFileManager s)).
Qed.

Ltac storage_fields := cbn [ls_disk ls_index ls_calls _blkFileManager _revFileManager _lastIndex set_rev set_blk set_disk mg_file mg_inUse remapped].

(** How far the node has got since it was started: both managers are those of the empty path;
    that of the entries was made, to read, and used; both are there. *)
Inductive stage : Type := Started | Entries_read | Both_there.

Definition at_stage (g : stage) (s : Strage) : Prop :=
  match g with
  | Started => _blkFileManager s = mkManager None false /\ _revFileManager s = mkManager None false
  | Entries_read => _blkFileManager s = mkManager None false /\ _revFileManager s = mkManager (Some (rev_file 0)) true
  | Both_there => mg_file (_blkFileManager s) = Some (blk_file 0) /\ mg_file (_revFileManager s) = Some (rev_file 0)
  end.

(** A storage in its first files, whose contents are [f1] and [f2]. *)
Record in_first_files (g : stage) (s : Strage) (f1 f2 : list byte) : Prop := {
  ff_only : only_first (ls_disk s);
  ff_blk : view (mg_file (_blkFileManager s)) (ls_disk s) (blk_file 0) f1;
  ff_rev : view (mg_file (_revFileManager s)) (ls_disk s) (rev_file 0) f2;
  ff_stage : at_stage g s;
  ff_last : _lastIndex s = 0;
}.

(** The managers of both files are there. *)
Definition both_open (s : Strage) (f1 f2 : list byte) : Prop :=
  only_first (ls_disk s) /\ ls_disk s !! blk_file 0 = Some f1 /\ ls_disk s !! rev_file 0 = Some f2 /\
  mg_file (_blkFileManager s) = Some (blk_file 0) /\ mg_file (_revFileManager s) = Some (rev_file 0) /\ _lastIndex s = 0.

Lemma both_open_first s f1 f2 : both_open s f1 f2 -> file_ok f1 -> file_ok f2 -> in_first_files Both_there s f1 f2.
Proof. intros (H1 & H2 & H3 & H4 & H5 & H6) Hf1 Hf2. split; try assumption; try (split; [assumption|now left]). now split. Qed.

Lemma rev_file_number : blk_number (rev_file 0) = None.
Proof. reflexivity. Qed.

(** Before a block is written or read. *)
Definition prepare_both (e : Surroundings) (s : Strage) : prog Strage unit :=
  if bool_decide (mg_file (_blkFileManager s) = Some (blk_file 0)) then mret tt
  else _ ← open_blk (at_garbage e 0) (blk_file 0); open_rev (at_garbage e 1) (rev_file 0).

Lemma prepare_both_ok e g (s : Strage) f1 f2 : in_first_files g s f1 f2 -> g <> Entries_read -> exists s',
  prepare_both e s s = Ok tt s' /\ both_open s' f1 f2 /\ ls_index s' = ls_index s /\ ls_calls s' = ls_calls s.
Proof.
  intros [H1 H2 H3 H4 H6] Hg. unfold prepare_both. destruct g; [|contradiction|].
  - destruct H4 as [E1 E2]. rewrite E1. rewrite bool_decide_eq_false_2 by discriminate.
    set (s1 := set_blk (mkManager (Some (blk_file 0)) (at_garbage e 0)) (set_disk (<[blk_file 0 := f1]> (ls_disk s)) s)).
    assert (view (mg_file (_revFileManager s1)) (ls_disk s1) (rev_file 0) f2) as Hv.
    { destruct H3 as [Hf H3]. split; [exact Hf|]. unfold s1. storage_fields. rewrite lookup_insert_ne by exact blk_rev_differ. exact H3. }
    assert (open_blk (at_garbage e 0) (blk_file 0) s = Ok tt s1) as E3 by (rewrite (run_open_blk s _ _ f1 (view_open _ _ _ _ H2)), E1; reflexivity).
    assert (open_rev (at_garbage e 1) (rev_file 0) s1 = Ok tt (set_rev (mkManager (Some (rev_file 0)) (at_garbage e 1))
      (set_disk (<[rev_file 0 := f2]> (ls_disk s1)) s1))) as E4.
    { rewrite (run_open_rev s1 _ _ f2 (view_open _ _ _ _ Hv)). unfold s1 at 1. storage_fields. now rewrite E2. }
    eexists. split; [rewrite (run_bind _ _ _ _ _ E3); exact E4|].
    split; [|now split]. unfold both_open, s1. storage_fields. split; [apply only_first_insert; [apply only_first_insert; [exact H1|now right]|now left]|].
    rewrite lookup_insert_ne by (apply not_eq_sym, blk_rev_differ). rewrite !lookup_insert_eq. now repeat split.
  - destruct H4 as [E1 E2]. rewrite bool_decide_eq_true_2 by exact E1. exists s. split; [reflexivity|].
    destruct H2 as [_ [H2|[H2 _]]]; [|contradiction]. destruct H3 as [_ [H3|[H3 _]]]; [|contradiction]. split; [|now split]. unfold both_open. auto 10.
Qed.

(** A manager of the entries that was used is destroyed here. *)
Lemma prepare_both_undef e (s : Strage) f1 f2 : in_first_files Entries_read s f1 f2 -> prepare_both e s s = Undef.
Proof.
  intros [H1 H2 H3 [E1 E2] H6]. unfold prepare_both. rewrite E1, bool_decide_eq_false_2 by discriminate.
  set (s1 := set_blk (mkManager (Some (blk_file 0)) (at_garbage e 0)) (set_disk (<[blk_file 0 := f1]> (ls_disk s)) s)).
  assert (open_blk (at_garbage e 0) (blk_file 0) s = Ok tt s1) as E3 by (rewrite (run_open_blk s _ _ f1 (view_open _ _ _ _ H2)), E1; reflexivity).
  rewrite (run_bind _ _ _ _ _ E3). rewrite E2 in H3. destruct H3 as [Hf [H3|[H3 _]]]; [|contradiction].
  rewrite (run_open_rev s1 _ _ f2); unfold s1; storage_fields; [now rewrite E2|].
  rewrite lookup_insert_ne by exact blk_rev_differ. rewrite H3. now apply LocalFileController_open_ok.
Qed.

(** Before entries are read, and after. *)
Definition prepare_rev (e : Surroundings) (s : Strage) : prog Strage unit :=
  if bool_decide (mg_file (_revFileManager s) = Some (rev_file 0)) then mret tt else open_rev (at_garbage e 0) (rev_file 0).

Definition entries_read (g : stage) : stage := match g with Started => Entries_read | _ => g end.

Lemma prepare_rev_ok e g (s : Strage) f1 f2 : in_first_files g s f1 f2 -> exists s',
  prepare_rev e s s = Ok tt s' /\ ls_disk s' !! rev_file 0 = Some f2 /\ mg_file (_revFileManager s') = Some (rev_file 0) /\
  ls_index s' = ls_index s /\ ls_calls s' = ls_calls s /\
  forall n, n <> 0 -> in_first_files (entries_read g) (set_rev (remapped n (_revFileManager s')) s') f1 f2.
Proof.
  intros [H1 H2 H3 H4 H6]. unfold prepare_rev. assert (g = Started \/ g <> Started) as [->|Hg] by (destruct g; auto; right; discriminate).
  - destruct H4 as [E1 E2]. rewrite E2, bool_decide_eq_false_2 by discriminate.
    set (s1 := set_rev (mkManager (Some (rev_file 0)) (at_garbage e 0)) (set_disk (<[rev_file 0 := f2]> (ls_disk s)) s)).
    assert (open_rev (at_garbage e 0) (rev_file 0) s = Ok tt s1) as E3 by (rewrite (run_open_rev s _ _ f2 (view_open _ _ _ _ H3)), E2; reflexivity).
    exists s1. split; [exact E3|]. unfold s1. storage_fields. rewrite lookup_insert_eq. do 4 (split; [reflexivity|]). intros n Hn.
    split; storage_fields.
    + apply only_first_insert; [exact H1|now left].
    + destruct H2 as [Hf H2]. split; [exact Hf|]. rewrite lookup_insert_ne by (apply not_eq_sym, blk_rev_differ). exact H2.
    + split; [apply H3|]. left. apply lookup_insert_eq.
    + split; storage_fields; [exact E1|]. unfold remapped. now rewrite (proj2 (Z.eqb_neq _ _) Hn).
    + exact H6.
  - assert (mg_file (_revFileManager s) = Some (rev_file 0)) as E by (destruct g; [contradiction|destruct H4 as [_ E]; now rewrite E|apply H4]).
    rewrite bool_decide_eq_true_2 by exact E. exists s. split; [reflexivity|].
    pose proof H3 as [_ [H3'|[H3' _]]]; [|contradiction]. split; [exact H3'|]. split; [exact E|]. do 2 (split; [reflexivity|]). intros n Hn.
    split; storage_fields; try assumption. destruct g; [contradiction|..]; cbn [entries_read at_stage] in *; storage_fields.
    + destruct H4 as [E1 E2]. split; [exact E1|]. rewrite E2. unfold remapped. now rewrite (proj2 (Z.eqb_neq _ _) Hn).
    + exact H4.
Qed.

(** ** Writing and reading in the first files *)

(** A block with the parts of its coinbase that are written. *)
Record put : Type := mkPut { p_block : Block; p_coinbase : coinbase; p_script : list byte; p_hash : list byte }.

Definition put_ok (p : put) : Prop := block_stored (p_block p) (p_coinbase p) (p_script p) (p_hash p).
Definition p_id (p : put) : list byte := block_hash (p_block p).
Definition p_bytes (magic : list byte) (p : put) : list byte :=
  container_bytes magic (p_block p) (p_coinbase p) (p_script p) (p_hash p).
Definition p_entries (memory : nat -> Z) (p : put) : list UTXO :=
  block_entries memory (p_block p) (p_coinbase p) (p_script p) (p_hash p).
Definition p_read (p : put) : Block := block_read (p_block p) (p_coinbase p) (p_script p) (p_hash p).
Definition p_after (p : put) : put :=
  mkPut (block_after (p_block p) (p_coinbase p) (p_script p) (p_hash p)) (coinbase_after (p_coinbase p) (p_script p) (p_hash p))
    (p_script p) (p_hash p).

Lemma p_after_ok p : put_ok p -> put_ok (p_after p).
Proof. intros H. apply (block_after_stored _ _ _ _ H). Qed.

Lemma p_after_entries memory p : put_ok p -> p_entries memory (p_after p) = p_entries memory p.
Proof. apply block_entries_after. Qed.

(** What the files of a block are given: the container, and that of its entries. *)
Definition blk_data (e : Surroundings) (p : put) : list byte := p_bytes (_magicBytes (at_meta e)) p.
Definition rev_data_of (k : nat) (e : Surroundings) (p : put) : list byte :=
  undo_bytes (_magicBytes (at_meta e)) (p_entries (at_amount e k) p).
Notation rev_data := (rev_data_of 0).

Record surroundings_ok (out : list (list byte)) (e : Surroundings) : Prop := {
  so_call : call_ok (at_call e) out;
  so_magic : length (_magicBytes (at_meta e)) = 4%nat;
  so_amount : forall k i, 0 <= at_amount e k i < 2 ^ 63;
  so_garbage : forall i, at_garbage e i = false;
}.

Lemma blk_data_length e p : length (_magicBytes (at_meta e)) = 4%nat ->
  Z.of_nat (length (blk_data e p)) = 12 + Z.of_nat (length (block_bytes (p_block p) (p_coinbase p) (p_script p) (p_hash p))).
Proof. intros H. unfold blk_data, p_bytes, container_bytes. rewrite length_app, meta_bytes_length by exact H. lia. Qed.

Lemma rev_data_length k e p : length (_magicBytes (at_meta e)) = 4%nat ->
  Z.of_nat (length (rev_data_of k e p)) = 12 + Z.of_nat (length (undo_body (p_entries (at_amount e k) p))).
Proof. intros H. unfold rev_data_of, undo_bytes. rewrite length_app, meta_bytes_length by exact H. lia. Qed.

(** Writing a container; its meta block keeps the magic bytes. *)
Lemma BlkFileManager_write_ok (s : Strage) out e p name f : put_ok p -> surroundings_ok out e ->
  mg_file (_blkFileManager s) = Some name -> ls_disk s !! name = Some f ->
  file_ok f -> Z.of_nat (length f) + Z.of_nat (length (blk_data e p)) < DEFAULT_BLK_REV_MAX_BYTES ->
  exists m n, BlkFileManager_write page (BlockContainer_of (at_meta e) (Some (p_block p))) s =
    Ok (Z.of_nat (length f), mkBlockContainer m (Some (p_block (p_after p))))
       (set_blk (remapped n (_blkFileManager s)) (set_disk (<[name := file_append (blk_data e p) f]> (ls_disk s)) s)).
Proof.
  intros Hp [Hc Hm Ha Hg] Hn Hd Hf Hl. pose proof (blk_data_length e p Hm) as Hlen. pose proof Hf as [Hf1 _]. unfold DEFAULT_BLK_REV_MAX_BYTES in *.
  do 2 eexists. unfold BlkFileManager_write. erewrite run_bind.
  2:{ unfold with_local. rewrite (BlockContainer_export_spec _ _ _ _ _ Hp) by (exact Hm || lia). reflexivity. }
  cbv beta iota. cbn [fst snd]. fold (p_bytes (_magicBytes (at_meta e)) p). fold (blk_data e p). unfold write_blk.
  erewrite run_bind; [reflexivity|]. rewrite run_get.
  rewrite (run_bind _ _ _ _ _ (run_manager _ name f _ _ _ s Hn Hd (LocalFileController_write_ok f (blk_data e p) Hf Hl))).
  rewrite (proj2 (Z.eqb_neq _ (-1))) by lia. reflexivity.
Qed.

Lemma RevFileManager_write_ok (s : Strage) out e k p name f : put_ok p -> surroundings_ok out e ->
  mg_file (_revFileManager s) = Some name -> ls_disk s !! name = Some f ->
  file_ok f -> Z.of_nat (length f) + Z.of_nat (length (rev_data_of k e p)) < DEFAULT_BLK_REV_MAX_BYTES ->
  exists n, RevFileManager_write page (at_meta e) (at_amount e k) (p_block p) s =
    Ok (Z.of_nat (length f), p_block (p_after p))
       (set_rev (remapped n (_revFileManager s)) (set_disk (<[name := file_append (rev_data_of k e p) f]> (ls_disk s)) s)).
Proof.
  intros Hp [Hc Hm Ha Hg] Hn Hd Hf Hl. pose proof (rev_data_length k e p Hm) as Hlen. pose proof Hf as [Hf1 _]. unfold DEFAULT_BLK_REV_MAX_BYTES in *.
  eexists. unfold RevFileManager_write. erewrite run_bind by (unfold with_local; rewrite (UndoContainer_of_spec _ _ _ _ _ _ Hp); reflexivity).
  cbv beta iota. fold (p_entries (at_amount e k) p).
  erewrite run_bind.
  2:{ unfold with_local. rewrite UndoContainer_export_spec; [reflexivity|now apply block_entries_ok|discriminate|lia|exact Hm|reflexivity]. }
  cbv beta iota. cbn [_magicBytes fst snd]. fold (rev_data_of k e p). unfold write_rev.
  erewrite run_bind.
  2:{ rewrite run_get. rewrite (run_bind _ _ _ _ _ (run_manager _ name f _ _ _ s Hn Hd (LocalFileController_write_ok f (rev_data_of k e p) Hf Hl))).
      rewrite (proj2 (Z.eqb_neq _ (-1))) by lia. reflexivity. }
  cbn [_utxoVector]. unfold p_entries. now rewrite share_block_after.
Qed.

Lemma write_both_ok (s : Strage) out e p f1 f2 : put_ok p -> surroundings_ok out e -> both_open s f1 f2 -> file_ok f1 -> file_ok f2 ->
  Z.of_nat (length f1) + Z.of_nat (length (blk_data e p)) < DEFAULT_BLK_REV_MAX_BYTES ->
  Z.of_nat (length f2) + Z.of_nat (length (rev_data e p)) < DEFAULT_BLK_REV_MAX_BYTES ->
  exists m s', write_both page e 0 (BlockContainer_of (at_meta e) (Some (p_block p))) s =
    Ok (Z.of_nat (length f1), Z.of_nat (length f2), mkBlockContainer m (Some (p_block (p_after (p_after p))))) s' /\
    both_open s' (file_append (blk_data e p) f1) (file_append (rev_data e p) f2) /\ ls_index s' = ls_index s /\ ls_calls s' = ls_calls s.
Proof.
  intros Hp He (H1 & H2 & H3 & H4 & H5 & H6) Hf1 Hf2 Hl1 Hl2.
  destruct (BlkFileManager_write_ok s out e p _ f1 Hp He H4 H2 Hf1 Hl1) as (m & n1 & E1).
  assert (rev_data e (p_after p) = rev_data e p) as Er by (unfold rev_data_of; now rewrite p_after_entries).
  match type of E1 with _ = Ok _ ?x => set (s1 := x) in * end.
  assert (ls_disk s1 !! rev_file 0 = Some f2) as Hd1 by (unfold s1; storage_fields; now rewrite lookup_insert_ne by exact blk_rev_differ).
  destruct (RevFileManager_write_ok s1 out e 0 (p_after p) _ f2 (p_after_ok p Hp) He H5 Hd1 Hf2 ltac:(now rewrite Er)) as (n2 & E2).
  rewrite Er in E2. exists m. eexists. split; [unfold write_both; rewrite (run_bind _ _ _ _ _ E1); cbv beta iota; cbn [bc_block];
    rewrite run_must, (run_bind _ _ _ _ _ E2); reflexivity|]. split; [|now split]. unfold both_open, s1. storage_fields.
  split; [repeat apply only_first_insert; [exact H1|now right|now left]|].
  rewrite lookup_insert_ne by (apply not_eq_sym, blk_rev_differ). rewrite !lookup_insert_eq. auto 10.
Qed.

(** ** The storage as a log of blocks *)

(** [run_bind] under [wp]. *)
Lemma wp_run_bind {S A B} (c : prog S A) (k : A -> prog S B) s a s' (Q : B -> S -> Prop) :
  c s = Ok a s' -> wp (c ≫= k) s Q = wp (k a) s' Q.
Proof. intros H. unfold wp. now rewrite (run_bind _ _ _ _ _ H). Qed.

Lemma wp_index {A} (c : prog (Server DB) A) (s : Strage) Q :
  wp c (ls_index s) (fun a x => Q a (mkStrage x (ls_disk s) (_blkFileManager s) (_revFileManager s) (_lastIndex s) (ls_calls s))) ->
  wp (on_index c) s Q.
Proof. intros H. unfold on_index. apply wp_zoom, H. Qed.

(** The client looks at twenty bytes of a hash. *)
Definition index_key (id : list byte) : list byte := take 20 id.

Lemma rd_20_hash id : length id = 32%nat -> rd 20 (Some id) = rd 20 (Some (index_key id)).
Proof.
  intros H. rewrite (rd_20 (index_key id)) by (unfold index_key; rewrite length_take; lia). unfold rd. cbn [Z.eqb].
  now rewrite (proj2 (Z.leb_le 20 _)) by lia.
Qed.

Lemma client_get_hash c id r ret (s : Server DB) : length id = 32%nat ->
  client_get engine true c (Some id) r ret s = client_get engine true c (Some (index_key id)) r ret s.
Proof. intros H. unfold client_get. now rewrite rd_20_hash. Qed.

Lemma client_add_hash c id v n r (s : Server DB) : length id = 32%nat ->
  client_add engine true c (Some id) v n r s = client_add engine true c (Some (index_key id)) v n r s.
Proof. intros H. unfold client_add. now rewrite rd_20_hash. Qed.

Lemma index_entry_round_trip off1 off2 t : 0 <= off1 < 2 ^ 32 -> 0 <= off2 < 2 ^ 32 ->
  length (BlockIndex_exportRaw (index_entry off1 off2 t)) = 36%nat /\
  BlockIndex_of (BlockIndex_exportRaw (index_entry off1 off2 t)) = Some (mkBlockIndex 0 [x00; x00] off1 off2 (t mod 2 ^ 32) (replicate 20 x00)).
Proof.
  intros H1 H2. unfold index_entry. rewrite !(Z.mod_small off1), !(Z.mod_small off2) by lia.
  apply BlockIndex_round_trip; cbn [fileIndex padding blockOffset reversalOffset timestamp reserved]; try lia; try reflexivity.
  apply Z.mod_pos_bound. lia.
Qed.

(** A block that was written in the surroundings [e], and where it lies. *)
Definition lies (f1 f2 : list byte) (kvs : list (list byte * list byte)) (x : put * Surroundings) : Prop :=
  put_ok x.1 /\ (length (_magicBytes (at_meta x.2)) = 4%nat /\ (forall i, 0 <= at_amount x.2 0 i < 2 ^ 63)) /\
  exists off1 off2, at_offset f1 off1 (blk_data x.2 x.1) /\ at_offset f2 off2 (rev_data x.2 x.1) /\
    (index_key (p_id x.1), BlockIndex_exportRaw (index_entry off1 off2 (at_time x.2))) ∈ kvs.

Record holds_blocks (g : stage) (log : list (put * Surroundings)) (n : nat) (b : Z) (out : list (list byte)) (s : Strage) (f1 f2 : list byte) : Prop := {
  hb_table : exists kvs, table_state (holds := holds) n b kvs out (ls_index s) /\
    map fst kvs = map (fun x => index_key (p_id x.1)) log /\ Forall (lies f1 f2 kvs) log;
  hb_files : in_first_files g s f1 f2;
  hb_prefix : NoDup (map (fun x => take 5 (p_id x.1)) log);
}.

Lemma at_offset_bound f off d : Z.of_nat (length f) < DEFAULT_BLK_REV_MAX_BYTES -> at_offset f off d ->
  0 <= off < 2 ^ 32 /\ off + Z.of_nat (length d) < 2 ^ 32.
Proof.
  unfold DEFAULT_BLK_REV_MAX_BYTES. intros Hf [Ho (pre & post & -> & ->)]. rewrite !length_app in Hf. lia.
Qed.

Lemma p_id_length p : length (p_id p) = 32%nat.
Proof. apply hash_of_length. Qed.

Lemma take_key id : take 5 (index_key id) = take 5 id.
Proof. unfold index_key. now rewrite take_take. Qed.

Lemma set_index_files x g (s : Strage) f1 f2 : in_first_files g s f1 f2 ->
  in_first_files g (mkStrage x (ls_disk s) (_blkFileManager s) (_revFileManager s) (_lastIndex s) (ls_calls s)) f1 f2.
Proof. intros []. now split. Qed.

Lemma log_prefix_unique log (x y : put * Surroundings) : NoDup (map (fun x => take 5 (p_id x.1)) log) ->
  x ∈ log -> y ∈ log -> take 5 (p_id x.1) = take 5 (p_id y.1) -> x = y.
Proof.
  intros Hnd (i & Hi)%list_elem_of_lookup (j & Hj)%list_elem_of_lookup E.
  assert (i = j) as <-; [|congruence]. apply (NoDup_lookup _ i j (take 5 (p_id x.1)) Hnd); rewrite list_lookup_fmap.
  - now rewrite Hi.
  - rewrite Hj. cbn. now rewrite E.
Qed.

(** The entry of a block that was written, and of a hash of none. *)
Lemma find_index_spec g log n b out s f1 f2 e id : holds_blocks g log n b out s f1 f2 -> call_ok (at_call e) out -> length id = 32%nat ->
  wp (find_index engine true e (Some id)) s (fun r s' =>
    ((exists x off1 off2 t, x ∈ log /\ take 5 (p_id x.1) = take 5 id /\ r = Some (mkBlockIndex 0 [x00; x00] off1 off2 t (replicate 20 x00)) /\
        at_offset f1 off1 (blk_data x.2 x.1) /\ at_offset f2 off2 (rev_data x.2 x.1)) \/
     (Forall (fun x => take 5 (p_id x.1) <> take 5 id) log /\ r = None)) /\
    holds_blocks g log n b out s' f1 f2 /\ ls_calls s' = ls_calls s).
Proof.
  intros [(kvs & Ht & Hk & Hl) Hf Hnd] Hc Hid. unfold find_index. apply wp_bind, wp_index.
  unfold wp at 1. rewrite client_get_hash by exact Hid. fold (wp (client_get engine true (at_call e) (Some (index_key id)) (-1) None) (ls_index s)).
  wp_last (client_get_spec (laws := laws) (at_call e) (index_key id) None) giving r as (Hans & Ht');
    [exact Ht|exact Hc|unfold index_key; rewrite length_take; lia|].
  assert (forall x, table_state (holds := holds) n b kvs out x -> holds_blocks g log n b out
    (mkStrage x (ls_disk s) (_blkFileManager s) (_revFileManager s) (_lastIndex s) (ls_calls s)) f1 f2) as Hb.
  { intros x Hx. split; [now exists kvs|now apply set_index_files|exact Hnd]. }
  destruct Hans as [(k' & v & Hin & E & ->)|[Hno ->]]; cbn [fst snd].
  - assert (k' ∈ map fst kvs) as Hk'. { apply list_elem_of_fmap. now exists (k', v). }
    rewrite Hk in Hk'. apply list_elem_of_fmap in Hk' as (x & -> & Hx). rewrite !take_key in E.
    pose proof Hl as Hl'. rewrite Forall_forall in Hl'. destruct (Hl' x Hx) as (Hp & _ & off1 & off2 & Ho1 & Ho2 & Hkv).
    assert (v = BlockIndex_exportRaw (index_entry off1 off2 (at_time x.2))) as ->.
    { assert (NoDup (map (fun kv : list byte * list byte => take 5 kv.1) kvs)) as Hn.
      { assert (map (fun kv : list byte * list byte => take 5 kv.1) kvs = map (fun x => take 5 (p_id x.1)) log) as ->; [|exact Hnd].
        transitivity (map (take 5) (map fst kvs)); [now rewrite map_map|]. rewrite Hk, map_map. apply map_ext. intros y. apply take_key. }
      now injection (pair_unique kvs _ _ _ _ Hn Hkv Hin eq_refl) as ->. }
    destruct (at_offset_bound _ _ _ (file_ok_short _ (proj1 (ff_blk _ _ _ _ Hf))) Ho1) as [Hb1 _].
    destruct (at_offset_bound _ _ _ (file_ok_short _ (proj1 (ff_rev _ _ _ _ Hf))) Ho2) as [Hb2 _].
    destruct (index_entry_round_trip off1 off2 (at_time x.2) Hb1 Hb2) as [E36 Ei]. rewrite E36. cbn [Z.leb Z.of_nat Z.compare Pos.of_succ_nat].
    apply wp_bind. eapply wp_must; [exact Ei|]. apply wp_ret. split; [left|now split; [apply Hb|]].
    now exists x, off1, off2, (at_time x.2 mod 2 ^ 32).
  - apply wp_ret. split; [right; split; [|reflexivity]|now split; [apply Hb|]].
    apply Forall_forall. intros x Hx E. assert (index_key (p_id x.1) ∈ map fst kvs) as Hin by (rewrite Hk; apply list_elem_of_fmap; now exists x).
    apply list_elem_of_fmap in Hin as (kv & Ekv & Hin). rewrite Forall_forall in Hno. apply (Hno kv Hin).
    rewrite <- Ekv, !take_key. exact E.
Qed.

Lemma read_blk_ok (s : Strage) name f size off d : mg_file (_blkFileManager s) = Some name -> ls_disk s !! name = Some f ->
  LocalFileController_read page size off f = Ok d f ->
  read_blk page size off s = Ok d (set_blk (remapped (off mod page + size) (_blkFileManager s)) s).
Proof. intros Hn Hd H. unfold read_blk. rewrite run_get, (run_bind _ _ _ _ _ (read_manager _ name f _ d s Hn Hd H)). reflexivity. Qed.

Lemma read_rev_ok (s : Strage) name f size off d : mg_file (_revFileManager s) = Some name -> ls_disk s !! name = Some f ->
  LocalFileController_read page size off f = Ok d f ->
  read_rev page size off s = Ok d (set_rev (remapped (off mod page + size) (_revFileManager s)) s).
Proof. intros Hn Hd H. unfold read_rev. rewrite run_get, (run_bind _ _ _ _ _ (read_manager _ name f _ d s Hn Hd H)). reflexivity. Qed.

Lemma BlkFileManager_read_ok (s : Strage) name f e p meta now off : put_ok p -> length (_magicBytes (at_meta e)) = 4%nat ->
  mg_file (_blkFileManager s) = Some name -> ls_disk s !! name = Some f -> Z.of_nat (length f) < DEFAULT_BLK_REV_MAX_BYTES -> at_offset f off (blk_data e p) ->
  exists m n, BlkFileManager_read page meta now off s = Ok (mkBlockContainer m (Some (p_read p))) (set_blk (remapped n (_blkFileManager s)) s).
Proof.
  intros Hp Hm Hn Hd Hf Ho. pose proof (blk_data_length e p Hm) as Hl. destruct (at_offset_bound _ _ _ Hf Ho) as [Hb1 Hb2].
  set (M := container_meta (_magicBytes (at_meta e)) (p_block p) (p_coinbase p) (p_script p) (p_hash p)).
  set (B := block_bytes (p_block p) (p_coinbase p) (p_script p) (p_hash p)) in *.
  pose proof (block_bytes_count (p_block p) (p_coinbase p) (p_script p) (p_hash p)) as Hcnt. fold B in Hcnt.
  assert (length (_magicBytes M) = 4%nat) as HM by exact Hm.
  destruct (at_offset_split f off (meta_bytes M) B Ho) as [Ho1 Ho2]. rewrite meta_bytes_length in Ho2 by exact HM. change (Z.of_nat 12) with 12 in Ho2.
  assert (body_size M = Z.of_nat (length B)) as HB by (unfold body_size, M, container_meta; cbn [_size]; fold B; rewrite Z.mod_small; lia).
  exists M. eexists. unfold BlkFileManager_read.
  rewrite (run_bind _ _ _ _ _ (read_blk_ok s name f 12 off _ Hn Hd (LocalFileController_read_ok page f off (meta_bytes M) 12 page_pos Ho1
    ltac:(now rewrite meta_bytes_length) ltac:(lia)))).
  set (s1 := set_blk _ s). rewrite (run_bind _ _ _ (tt, mkBlockContainer M (Some (Block_new now))) s1).
  2:{ unfold with_local, BlockContainer_importMetaSequentially. rewrite meta_of_bytes by (exact HM || (unfold M, container_meta; cbn [_size _count]; fold B; lia)). reflexivity. }
  cbv beta iota. cbn [bc_meta]. rewrite HB.
  rewrite (run_bind _ _ _ _ _ (read_blk_ok s1 name f _ (off + 12) _ Hn Hd (LocalFileController_read_ok page f (off + 12) B _ page_pos Ho2 eq_refl ltac:(lia)))).
  erewrite run_bind by (unfold with_local; rewrite (BlockContainer_import_spec M _ _ _ _ _ Hp); reflexivity).
  reflexivity.
Qed.

Lemma RevFileManager_read_ok (s : Strage) name f e p meta fresh off : put_ok p -> length (_magicBytes (at_meta e)) = 4%nat ->
  (forall i, 0 <= at_amount e 0 i < 2 ^ 63) ->
  mg_file (_revFileManager s) = Some name -> ls_disk s !! name = Some f -> file_ok f -> at_offset f off (rev_data e p) ->
  exists m n, n <> 0 /\ RevFileManager_read page meta fresh off s =
    Ok (mkUndoContainer m (imap (fun i u => entry_read u (fresh i)) (p_entries (at_amount e 0) p))) (set_rev (remapped n (_revFileManager s)) s).
Proof.
  intros Hp Hm Ha Hn Hd Hf Ho. pose proof (rev_data_length 0 e p Hm) as Hl. destruct (at_offset_bound _ _ _ (file_ok_short _ Hf) Ho) as [Hb1 Hb2].
  set (us := p_entries (at_amount e 0) p) in *. set (M := undo_meta (_magicBytes (at_meta e)) us).
  assert (length (_magicBytes M) = 4%nat) as HM by exact Hm.
  assert (Forall entry_ok us) as Hok by now apply block_entries_ok.
  destruct (at_offset_split f off (meta_bytes M) (undo_body us) Ho) as [Ho1 Ho2]. rewrite meta_bytes_length in Ho2 by exact HM.
  change (Z.of_nat 12) with 12 in Ho2.
  assert (body_size M = Z.of_nat (length (undo_body us))) as HB by (unfold body_size, M, undo_meta; cbn [_size]; rewrite Z.mod_small; lia).
  assert (length (undo_body us) <> 0%nat) as Hbody by (unfold undo_body; rewrite write_object, length_app, le_encode_length; lia).
  exists (undo_meta (_magicBytes (at_meta e)) us). eexists. split; [|unfold RevFileManager_read].
  2:{ rewrite (run_bind _ _ _ _ _ (read_rev_ok s name f 12 off _ Hn Hd (LocalFileController_read_ok page f off (meta_bytes M) 12 page_pos Ho1
        ltac:(now rewrite meta_bytes_length) ltac:(lia)))).
      set (s1 := set_rev _ s). rewrite (run_bind _ _ _ (tt, mkUndoContainer M []) s1).
      2:{ unfold with_local, UndoContainer_importMetaSequentially. rewrite meta_of_bytes; [reflexivity|exact HM|unfold M, undo_meta; cbn [_size]; lia|].
          apply Z.mod_pos_bound. lia. }
      cbv beta iota. cbn [uc_meta]. rewrite HB.
      rewrite (run_bind _ _ _ _ _ (read_rev_ok s1 name f _ (off + 12) _ Hn Hd (LocalFileController_read_ok page f (off + 12) (undo_body us) _ page_pos Ho2 eq_refl ltac:(lia)))).
      erewrite run_bind by (unfold with_local; rewrite (UndoContainer_import_spec _ _ _ Hok); reflexivity). reflexivity. }
  pose proof (Z.mod_pos_bound (off + 12) page page_pos). lia.
Qed.

(** ** Operations on the log *)

(** The block with an id, of those that were written. *)
Definition log_find (id : list byte) (log : list (put * Surroundings)) : option (put * Surroundings) :=
  head (filter (fun x => p_id x.1 = id) log).

Lemma log_find_none id log : Forall (fun x : put * Surroundings => p_id x.1 <> id) log -> log_find id log = None.
Proof. intros H. unfold log_find. induction H as [|x log Hx _ IH]; [reflexivity|]. now rewrite filter_cons_False. Qed.

Lemma log_find_some id log x : NoDup (map (fun x => take 5 (p_id x.1)) log) -> x ∈ log -> p_id x.1 = id -> log_find id log = Some x.
Proof.
  intros Hnd Hx <-. unfold log_find. destruct (filter (fun y => p_id y.1 = p_id x.1) log) as [|y l] eqn:E.
  - assert (x ∈ filter (fun y => p_id y.1 = p_id x.1) log) as Hin by now apply list_elem_of_filter. rewrite E in Hin. now apply elem_of_nil in Hin.
  - assert (y ∈ filter (fun y => p_id y.1 = p_id x.1) log) as Hin by (rewrite E; left). apply list_elem_of_filter in Hin as [Ey Hy].
    cbn. f_equal. apply (log_prefix_unique log); [exact Hnd|exact Hy|exact Hx|now rewrite Ey].
Qed.

(** No written block's id starts like [id] unless it is [id]. *)
Definition distinguished (log : list (put * Surroundings)) (id : list byte) : Prop :=
  length id = 32%nat /\ Forall (fun x => take 5 (p_id x.1) = take 5 id -> p_id x.1 = id) log.

Lemma count_call_holds g log n b out s f1 f2 : holds_blocks g log n b out s f1 f2 -> holds_blocks g log n b out (count_call s) f1 f2.
Proof. intros [H1 [] H3]. now split. Qed.

(** [Undef] under [bind], after code that returns. *)
Lemma run_bind_undef {S A B} (c : prog S A) (k : A -> prog S B) s : c s = Undef -> (c ≫= k) s = Undef.
Proof. intros H. unfold mbind, prog_bind. now rewrite H. Qed.

(** The managers after an operation; [None] when it destroys a manager that was used. *)
Definition stage_opened (g : stage) : option stage := match g with Entries_read => None | _ => Some Both_there end.
Definition stage_read (g : stage) (found : bool) : option stage := if found then stage_opened g else Some g.

(** What running an operation comes to, with its stage after it. *)
Definition comes_to {A} (g : option stage) (c : prog Strage A) (s : Strage) (Q : stage -> A -> Strage -> Prop) : Prop :=
  match g with Some g' => wp c s (Q g') | None => c s = Undef end.

Lemma comes_to_after {A B} g (c : prog Strage A) (k : A -> prog Strage B) s a s' Q :
  c s = Ok a s' -> comes_to g (k a) s' Q -> comes_to g (c ≫= k) s Q.
Proof. intros E H. unfold comes_to in *. destruct g; [now rewrite (wp_run_bind _ _ _ _ _ _ E)|now rewrite (run_bind _ _ _ _ _ E)]. Qed.

Lemma comes_to_wp {A B} g (c : prog Strage A) (k : A -> prog Strage B) s R Q :
  wp c s R -> (forall a s', R a s' -> comes_to g (k a) s' Q) -> comes_to g (c ≫= k) s Q.
Proof. intros H Hk. destruct (wp_inv _ _ _ H) as (a & s' & E & HR). apply (comes_to_after _ _ _ _ _ _ _ E). now apply Hk. Qed.

Lemma readBlock_spec g log n b out s f1 f2 id :
  holds_blocks g log n b out s f1 f2 -> surroundings_ok out (surroundings (ls_calls s)) -> distinguished log id ->
  comes_to (stage_read g (bool_decide (is_Some (log_find id log)))) (Strage_readBlock engine page true surroundings (Some id)) s (fun g' r s' =>
    r = (fun x => p_read x.1) <$> log_find id log /\ holds_blocks g' log n b out s' f1 f2 /\ ls_calls s' = S (ls_calls s)).
Proof.
  intros Hh He [Hid Hdis]. set (e := surroundings (ls_calls s)) in *. unfold Strage_readBlock.
  apply (comes_to_after _ (next_call surroundings) _ s e (count_call s) _ eq_refl).
  pose proof (hb_prefix _ _ _ _ _ _ _ _ Hh) as Hnd.
  eapply comes_to_wp; [apply (find_index_spec g log n b out (count_call s) f1 f2 e id);
    [now apply count_call_holds|exact (so_call _ _ He)|exact Hid]|]. intros r s' (Hr & Hh' & Hc).
  destruct Hr as [(x & off1 & off2 & t & Hx & E & -> & Ho1 & Ho2)|[Hno ->]].
  - rewrite Forall_forall in Hdis. pose proof (Hdis x Hx E) as Ex. rewrite (log_find_some id log x Hnd Hx Ex), bool_decide_eq_true_2 by eauto.
    destruct Hh' as [(kvs & Ht & Hk & Hl) Hf Hnd']. cbn [fileIndex blockOffset stage_read].
    apply (comes_to_after _ get_state _ s' s' s' _ eq_refl). fold (prepare_both e s').
    assert (g = Entries_read \/ g <> Entries_read) as [->|Hg] by (destruct g; auto; right; discriminate).
    { exact (run_bind_undef _ _ _ (prepare_both_undef e s' f1 f2 Hf)). }
    assert (stage_opened g = Some Both_there) as -> by now destruct g.
    destruct (prepare_both_ok e g s' f1 f2 Hf Hg) as (s1 & E1 & Hb & Ei & Ec). apply (comes_to_after _ _ _ _ _ _ _ E1).
    pose proof Hl as Hl'. rewrite Forall_forall in Hl'. destruct (Hl' x Hx) as (Hp & (Hm & Ha) & _). pose proof Hb as (H1 & H2 & H3 & H4 & H5 & H6).
    destruct (BlkFileManager_read_ok s1 _ f1 x.2 x.1 (at_meta e) (at_time e) off1 Hp Hm H4 H2 (file_ok_short _ (proj1 (ff_blk _ _ _ _ Hf))) Ho1) as (m & k & E2).
    apply (comes_to_after _ _ _ _ _ _ _ E2). apply wp_ret. split; [reflexivity|]. split; [|storage_fields; rewrite Ec; exact Hc].
    split; [exists kvs; storage_fields; now rewrite Ei|apply both_open_first; [unfold both_open; storage_fields; auto 10|apply Hf..]|exact Hnd].
  - rewrite log_find_none by (eapply Forall_impl; [exact Hno|]; intros x Hx Ex; apply Hx; now rewrite Ex).
    rewrite bool_decide_eq_false_2 by (intros [? ?]; discriminate). apply wp_ret. split; [reflexivity|]. now split.
Qed.

Lemma readUndo_spec g log n b out s f1 f2 id :
  holds_blocks g log n b out s f1 f2 -> surroundings_ok out (surroundings (ls_calls s)) -> distinguished log id ->
  wp (Strage_readUndo engine page true surroundings (Some id)) s (fun r s' =>
    r = match log_find id log with
        | None => []
        | Some x => imap (fun i u => entry_read u (at_entry (surroundings (ls_calls s)) i)) (p_entries (at_amount x.2 0) x.1)
        end /\ holds_blocks (if bool_decide (is_Some (log_find id log)) then entries_read g else g) log n b out s' f1 f2 /\
    ls_calls s' = S (ls_calls s)).
Proof.
  intros Hh He [Hid Hdis]. set (e := surroundings (ls_calls s)) in *. unfold Strage_readUndo.
  rewrite (wp_run_bind (next_call surroundings) _ s e (count_call s)) by reflexivity.
  pose proof (hb_prefix _ _ _ _ _ _ _ _ Hh) as Hnd.
  wp_seq (find_index_spec g log n b out (count_call s) f1 f2 e id) giving r as (Hr & Hh' & Hc);
    [now apply count_call_holds|exact (so_call _ _ He)|exact Hid|].
  destruct Hr as [(x & off1 & off2 & t & Hx & E & -> & Ho1 & Ho2)|[Hno ->]].
  - rewrite Forall_forall in Hdis. pose proof (Hdis x Hx E) as Ex. rewrite (log_find_some id log x Hnd Hx Ex), bool_decide_eq_true_2 by eauto.
    destruct Hh' as [(kvs & Ht & Hk & Hl) Hf Hnd']. cbn [fileIndex reversalOffset].
    apply wp_bind, wp_get. fold (prepare_rev e s'). destruct (prepare_rev_ok e g s' f1 f2 Hf) as (s1 & E1 & H2 & H3 & Ei & Ec & Hf1). rewrite (wp_run_bind _ _ _ _ _ _ E1).
    pose proof Hl as Hl'. rewrite Forall_forall in Hl'. destruct (Hl' x Hx) as (Hp & (Hm & Ha) & _).
    destruct (RevFileManager_read_ok s1 _ f2 x.2 x.1 (at_meta e) (at_entry e) off2 Hp Hm Ha H3 H2 (proj1 (ff_rev _ _ _ _ Hf)) Ho2) as (m & k & Hk0 & E2).
    rewrite (wp_run_bind _ _ _ _ _ _ E2). apply wp_ret. split; [reflexivity|]. split; [|storage_fields; rewrite Ec; exact Hc].
    split; [exists kvs; storage_fields; now rewrite Ei|exact (Hf1 k Hk0)|exact Hnd].
  - rewrite log_find_none by (eapply Forall_impl; [exact Hno|]; intros x Hx Ex; apply Hx; now rewrite Ex).
    rewrite bool_decide_eq_false_2 by (intros [? ?]; discriminate). apply wp_ret. split; [reflexivity|]. now split.
Qed.

(** Registering a block that lies at two places. *)
Lemma register_spec n b kvs out (s : Strage) e m p off1 off2 :
  table_state (holds := holds) (S n) b kvs out (ls_index s) -> surroundings_ok out e -> put_ok p ->
  take 5 (p_id p) ∉ map (fun kv => take 5 kv.1) kvs -> 64 <= b -> 0 <= off1 < 2 ^ 32 -> 0 <= off2 < 2 ^ 32 ->
  wp (register_block engine true e (off1, off2, mkBlockContainer m (Some (p_block p)))) s (fun r s' =>
    r.1 = p_entries (at_amount e 2) p /\ exists x,
    s' = mkStrage x (ls_disk s) (_blkFileManager s) (_revFileManager s) (_lastIndex s) (ls_calls s) /\
    table_state (holds := holds) n (b - 64) ((index_key (p_id p), BlockIndex_exportRaw (index_entry off1 off2 (at_time e))) :: kvs) out x).
Proof.
  intros Ht He Hp Hnew Hb Ho1 Ho2. unfold register_block. cbn [fst snd bc_block].
  apply wp_bind. eapply wp_must; [reflexivity|]. apply wp_bind. eapply wp_must; [apply blockHash_some|].
  change (block_hash (p_block p)) with (p_id p). cbv zeta.
  destruct (index_entry_round_trip _ _ (at_time e) Ho1 Ho2) as [E36 _].
  set (idx := BlockIndex_exportRaw (index_entry off1 off2 (at_time e))) in *.
  apply wp_bind, wp_index. unfold wp at 1. rewrite client_add_hash by apply p_id_length.
  fold (wp (client_add engine true (at_call e) (Some (index_key (p_id p))) (Some idx) (Z.of_nat (length idx)) (-1)) (ls_index s)).
  wp_last (client_add_spec (laws := laws) (at_call e) (index_key (p_id p)) idx n b kvs out) giving r as (_ & Ht');
    [exact Ht|exact (so_call _ _ He)| |unfold index_key; rewrite length_take, p_id_length; reflexivity|rewrite E36; lia|unfold request_value_ok; rewrite E36; lia|].
  { intros Hin. apply Hnew. apply list_elem_of_fmap in Hin as (kv & Ekv & Hin). apply list_elem_of_fmap. exists kv.
    split; [|exact Hin]. rewrite <- Ekv. symmetry. apply take_key. }
  rewrite E36 in Ht'. change (28 + Z.of_nat 36) with 64 in Ht'.
  erewrite wp_run_bind by (unfold with_local; rewrite (UndoContainer_of_spec _ _ _ _ _ _ Hp); reflexivity).
  cbv beta iota. apply wp_ret. split; [reflexivity|]. now exists s'.
Qed.

Lemma lies_append f1 f2 kvs x d1 d2 kv : lies f1 f2 kvs x -> lies (file_append d1 f1) (file_append d2 f2) (kv :: kvs) x.
Proof.
  intros (H1 & H2 & off1 & off2 & H3 & H4 & H5). split; [exact H1|]. split; [exact H2|]. exists off1, off2.
  split; [now apply file_append_old|]. split; [now apply file_append_old|now right].
Qed.

(** There is room for a block in both files. *)
Definition room_for (e : Surroundings) (p : put) (f1 f2 : list byte) : Prop :=
  Z.of_nat (length f1) + Z.of_nat (length (blk_data e p)) < DEFAULT_BLK_REV_MAX_BYTES /\
  Z.of_nat (length f2) + Z.of_nat (length (rev_data e p)) < DEFAULT_BLK_REV_MAX_BYTES.

Lemma writeBlock_spec g log n b out s f1 f2 p :
  let e := surroundings (ls_calls s) in
  holds_blocks g log (S n) b out s f1 f2 -> surroundings_ok out e -> put_ok p ->
  take 5 (p_id p) ∉ map (fun x => take 5 (p_id x.1)) log -> 64 <= b -> room_for e p f1 f2 ->
  comes_to (stage_opened g) (Strage_writeBlock engine page true surroundings (p_block p)) s (fun g' r s' =>
    r.1 = p_entries (at_amount e 2) p /\
    holds_blocks g' ((p, e) :: log) n (b - 64) out s' (file_append (blk_data e p) f1) (file_append (rev_data e p) f2) /\
    ls_calls s' = S (ls_calls s)).
Proof.
  intros e Hh He Hp Hnew Hb [Hr1 Hr2]. unfold Strage_writeBlock.
  apply (comes_to_after _ (next_call surroundings) _ s e (count_call s) _ eq_refl). cbv zeta.
  apply (comes_to_after _ get_state _ (count_call s) (count_call s) (count_call s) _ eq_refl).
  destruct (count_call_holds _ _ _ _ _ _ _ _ Hh) as [(kvs & Ht & Hk & Hl) Hf Hnd].
  pose proof (proj1 (ff_blk _ _ _ _ Hf)) as Hf1. pose proof (proj1 (ff_rev _ _ _ _ Hf)) as Hf2.
  rewrite (ff_last _ _ _ _ Hf). fold (prepare_both e (count_call s)).
  assert (g = Entries_read \/ g <> Entries_read) as [->|Hg] by (destruct g; auto; right; discriminate).
  { exact (run_bind_undef _ _ _ (prepare_both_undef e _ f1 f2 Hf)). }
  assert (stage_opened g = Some Both_there) as -> by now destruct g.
  destruct (prepare_both_ok e g _ _ _ Hf Hg) as (s1 & E1 & Hb1 & Ei1 & Ec1). apply (comes_to_after _ _ _ _ _ _ _ E1).
  destruct (write_both_ok s1 out e p f1 f2 Hp He Hb1 Hf1 Hf2 Hr1 Hr2) as (m & s2 & E2 & Hb2 & Ei2 & Ec2). apply (comes_to_after _ _ _ _ _ _ _ E2).
  cbn [fst snd comes_to]. rewrite !(proj2 (Z.eqb_neq _ (-1))) by lia. cbn [orb]. apply wp_bind, wp_ret.
  assert (0 <= Z.of_nat (length f1) < 2 ^ 32 /\ 0 <= Z.of_nat (length f2) < 2 ^ 32) as [Ho1 Ho2]
    by (unfold DEFAULT_BLK_REV_MAX_BYTES in *; lia).
  wp_last (register_spec n b kvs out s2 e m (p_after (p_after p))) giving r as (-> & x & -> & Ht');
    [rewrite Ei2, Ei1; exact Ht|exact He|now repeat apply p_after_ok| |exact Hb|exact Ho1|exact Ho2|].
  { change (p_id (p_after (p_after p))) with (p_id p). intros Hin. apply Hnew.
    assert (map (fun kv : list byte * list byte => take 5 kv.1) kvs = map (fun x => take 5 (p_id x.1)) log) as <-; [|exact Hin].
    transitivity (map (take 5) (map fst kvs)); [now rewrite map_map|]. rewrite Hk, map_map. apply map_ext. intros y. apply take_key. }
  rewrite !p_after_entries by (repeat apply p_after_ok; exact Hp). split; [reflexivity|].
  split; [|storage_fields; now rewrite Ec2, Ec1]. split.
  - eexists. split; [exact Ht'|]. split; [cbn [map fst]; now rewrite Hk|]. constructor.
    + split; [exact Hp|]. split; [split; [apply He|apply (so_amount _ _ He)]|]. exists (Z.of_nat (length f1)), (Z.of_nat (length f2)).
      split; [now apply file_append_new|]. split; [now apply file_append_new|left].
    + eapply Forall_impl; [exact Hl|]. intros y. apply lies_append.
  - apply set_index_files, both_open_first; [exact Hb2|now apply file_append_ok..].
  - cbn [map]. constructor; assumption.
Qed.

(** ** Sequences of operations *)

(** Writing a block, reading one back, reading the entries it left, starting the node again:
    the process ends, without destructors, and constructs the storage anew. *)
Inductive operation : Type := Write (p : put) | Read (id : list byte) | Undo (id : list byte) | Restart.
Inductive answer : Type := A_entries (us : list UTXO) | A_block (b : option Block) | A_restarted.

Definition perform (o : operation) : prog Strage answer :=
  match o with
  | Write p => r ← Strage_writeBlock engine page true surroundings (p_block p); mret (A_entries r.1)
  | Read id => r ← Strage_readBlock engine page true surroundings (Some id); mret (A_block r)
  | Undo id => r ← Strage_readUndo engine page true surroundings (Some id); mret (A_entries r)
  | Restart =>
      s ← get_state;
      match BlockLocalStrage_new (at_garbage (surroundings (ls_calls s))) (ls_index s) (S (ls_calls s)) (ls_disk s) with
      | Ok s' _ => _ ← set_state s'; mret A_restarted
      | Throw e _ => throw e
      | Undef => undef
      end
  end.

Fixpoint perform_all (ops : list operation) : prog Strage (list answer) :=
  match ops with
  | [] => mret []
  | o :: ops' => a ← perform o; rest ← perform_all ops'; mret (a :: rest)
  end.

(** What an ideal storage answers: the blocks written so far, each with its surroundings. *)
Definition log_after (t : nat) (log : list (put * Surroundings)) (o : operation) : list (put * Surroundings) :=
  match o with Write p => (p, surroundings t) :: log | _ => log end.

Definition expected (t : nat) (log : list (put * Surroundings)) (o : operation) : answer :=
  match o with
  | Write p => A_entries (p_entries (at_amount (surroundings t) 2) p)
  | Read id => A_block ((fun x => p_read x.1) <$> log_find id log)
  | Undo id => A_entries (match log_find id log with
      | None => []
      | Some x => imap (fun i u => entry_read u (at_entry (surroundings t) i)) (p_entries (at_amount x.2 0) x.1)
      end)
  | Restart => A_restarted
  end.

Fixpoint expected_all (t : nat) (log : list (put * Surroundings)) (ops : list operation) : list answer :=
  match ops with
  | [] => []
  | o :: ops' => expected t log o :: expected_all (S t) (log_after t log o) ops'
  end.

(** The stage after an operation. *)
Definition stage_after (g : stage) (log : list (put * Surroundings)) (o : operation) : option stage :=
  match o with
  | Write _ => stage_opened g
  | Read id => stage_read g (bool_decide (is_Some (log_find id log)))
  | Undo id => Some (if bool_decide (is_Some (log_find id log)) then entries_read g else g)
  | Restart => Some Started
  end.

(** No operation destroys a manager that was used: between two starts of the node, a block is
    written or read before the first entries are, unless only entries are read. *)
Fixpoint keeps_managers (t : nat) (g : stage) (log : list (put * Surroundings)) (ops : list operation) : bool :=
  match ops with
  | [] => true
  | o :: ops' => match stage_after g log o with Some g' => keeps_managers (S t) g' (log_after t log o) ops' | None => false end
  end.

Definition written (ops : list operation) : list put := omap (fun o => match o with Write p => Some p | _ => None end) ops.
Definition asked (ops : list operation) : list (list byte) :=
  omap (fun o => match o with Read id | Undo id => Some id | _ => None end) ops.

(** How long the files get. *)
Fixpoint blk_total (t : nat) (ops : list operation) : Z :=
  match ops with
  | [] => 0
  | o :: ops' => (match o with Write p => Z.of_nat (length (blk_data (surroundings t) p)) | _ => 0 end) + blk_total (S t) ops'
  end.
Fixpoint rev_total (t : nat) (ops : list operation) : Z :=
  match ops with
  | [] => 0
  | o :: ops' => (match o with Write p => Z.of_nat (length (rev_data (surroundings t) p)) | _ => 0 end) + rev_total (S t) ops'
  end.

Lemma totals_nonneg ops : forall t, 0 <= blk_total t ops /\ 0 <= rev_total t ops.
Proof. induction ops as [|o ops IH]; intros t; cbn [blk_total rev_total]; [lia|]. destruct (IH (S t)). destruct o; lia. Qed.

(** An id of 32 bytes that the blocks do not come near to, unless one of them has it. *)
Definition told_apart (ps : list put) (id : list byte) : Prop :=
  length id = 32%nat /\ forall p, p ∈ ps -> take 5 (p_id p) = take 5 id -> p_id p = id.

(** What is asked of the rest of a sequence. *)
Record fits (log : list (put * Surroundings)) (ops : list operation) (t : nat) (b : Z) (f1 f2 : list byte) : Prop := {
  fit_ok : Forall put_ok (written ops);
  fit_new : NoDup (map (fun p => take 5 (p_id p)) (written ops) ++ map (fun x => take 5 (p_id x.1)) log);
  fit_asked : Forall (told_apart (written ops ++ map fst log)) (asked ops);
  fit_budget : 64 * Z.of_nat (length (written ops)) <= b;
  fit_blk : Z.of_nat (length f1) + blk_total t ops < DEFAULT_BLK_REV_MAX_BYTES;
  fit_rev : Z.of_nat (length f2) + rev_total t ops < DEFAULT_BLK_REV_MAX_BYTES;
}.

Lemma fits_asked log ops t b f1 f2 o id : asked (o :: ops) = id :: asked ops -> written (o :: ops) = written ops ->
  fits log (o :: ops) t b f1 f2 -> blk_total t (o :: ops) = blk_total (S t) ops -> rev_total t (o :: ops) = rev_total (S t) ops ->
  distinguished log id /\ fits log ops (S t) b f1 f2.
Proof.
  intros Ea Ew [H1 H2 H3 H4 H5 H6] Eb Er. rewrite Ew in H1, H2, H3, H4. rewrite Ea in H3. rewrite Eb in H5. rewrite Er in H6.
  apply Forall_cons in H3 as [[H3 H3'] Hrest]. split; [|now split]. split; [exact H3|]. apply Forall_forall. intros x Hx. apply H3'.
  apply elem_of_app. right. apply list_elem_of_fmap. now exists x.
Qed.

Lemma fits_write log p ops t b f1 f2 : fits log (Write p :: ops) t b f1 f2 -> length (_magicBytes (at_meta (surroundings t))) = 4%nat ->
  file_ok f1 -> file_ok f2 ->
  put_ok p /\ take 5 (p_id p) ∉ map (fun x => take 5 (p_id x.1)) log /\ 64 <= b /\ room_for (surroundings t) p f1 f2 /\
  fits ((p, surroundings t) :: log) ops (S t) (b - 64) (file_append (blk_data (surroundings t) p) f1) (file_append (rev_data (surroundings t) p) f2).
Proof.
  intros [H1 H2 H3 H4 H5 H6] Hm Hf1 Hf2. change (written (Write p :: ops)) with (p :: written ops) in *. change (asked (Write p :: ops)) with (asked ops) in H3.
  apply Forall_cons in H1 as [Hp H1]. cbn [map app] in H2. apply NoDup_cons in H2 as [Hn H2]. cbn [length blk_total rev_total] in H4, H5, H6.
  destruct (totals_nonneg ops (S t)). split; [exact Hp|]. split; [intros Hin; apply Hn, elem_of_app; now right|]. split; [lia|]. split; [split; lia|]. split.
  - exact H1.
  - cbn [map]. apply NoDup_app in H2 as (Ha & Hb & Hc). apply NoDup_app. split; [exact Ha|]. split.
    + intros x Hx [->|Hx']%elem_of_cons; [apply Hn, elem_of_app; now left|now apply (Hb x)].
    + constructor; [intros Hx; apply Hn, elem_of_app; now right|exact Hc].
  - eapply Forall_impl; [exact H3|]. intros id [Hid Ht]. split; [exact Hid|]. intros q Hq. apply Ht. cbn [map] in Hq.
    apply elem_of_app in Hq as [Hq|[->|Hq]%elem_of_cons]; [right; apply elem_of_app; now left|left|right; apply elem_of_app; now right].
  - lia.
  - rewrite file_append_length by assumption. lia.
  - rewrite file_append_length by assumption. lia.
Qed.

Lemma restart_holds g log n b out s f1 f2 : (forall i, at_garbage (surroundings (ls_calls s)) i = false) -> holds_blocks g log n b out s f1 f2 ->
  exists s', perform Restart s = Ok A_restarted s' /\ holds_blocks Started log n b out s' f1 f2 /\ ls_calls s' = S (ls_calls s).
Proof.
  intros Hg [H1 [F1 F2 F3 F4 F5] H3]. eexists. split.
  - cbn [perform]. rewrite run_get, (BlockLocalStrage_opens _ _ _ _ F1). reflexivity.
  - rewrite !Hg. split; [|reflexivity]. split; [exact H1| |exact H3]. split; storage_fields;
      [exact F1|exact (view_restart _ _ _ _ F2)|exact (view_restart _ _ _ _ F3)|now split|reflexivity].
Qed.

Lemma perform_spec out o ops g log b s f1 f2 : (forall t, surroundings_ok out (surroundings t)) ->
  holds_blocks g log (length (written (o :: ops))) b out s f1 f2 -> fits log (o :: ops) (ls_calls s) b f1 f2 ->
  comes_to (stage_after g log o) (perform o) s (fun g' a s' => a = expected (ls_calls s) log o /\ ls_calls s' = S (ls_calls s) /\
    exists b' f1' f2', holds_blocks g' (log_after (ls_calls s) log o) (length (written ops)) b' out s' f1' f2' /\
      fits (log_after (ls_calls s) log o) ops (S (ls_calls s)) b' f1' f2').
Proof.
  intros He Hh Hfit. pose proof (hb_files _ _ _ _ _ _ _ _ Hh) as Hf. destruct o as [p|id|id|]; cbn [stage_after expected log_after].
  - destruct (fits_write log p ops _ b f1 f2 Hfit (so_magic _ _ (He _)) (proj1 (ff_blk _ _ _ _ Hf)) (proj1 (ff_rev _ _ _ _ Hf))) as (Hp & Hn & Hb & Hr & Hfit').
    pose proof (writeBlock_spec g log (length (written ops)) b out s f1 f2 p Hh (He _) Hp Hn Hb Hr) as H. unfold comes_to in *. cbn [perform].
    destruct (stage_opened g); [|now apply run_bind_undef]. wp_seq H giving r as (-> & Hh' & Ec). apply wp_ret. eauto 10.
  - destruct (fits_asked log ops _ b f1 f2 (Read id) id eq_refl eq_refl Hfit eq_refl eq_refl) as [Hd Hfit'].
    pose proof (readBlock_spec g log _ b out s f1 f2 id Hh (He _) Hd) as H. unfold comes_to in *. cbn [perform].
    destruct (stage_read g _); [|now apply run_bind_undef]. wp_seq H giving r as (-> & Hh' & Ec). apply wp_ret. eauto 10.
  - destruct (fits_asked log ops _ b f1 f2 (Undo id) id eq_refl eq_refl Hfit eq_refl eq_refl) as [Hd Hfit']. cbn [comes_to perform].
    wp_seq (readUndo_spec g log _ b out s f1 f2 id Hh (He _) Hd) giving r as (-> & Hh' & Ec). apply wp_ret. eauto 10.
  - destruct (restart_holds g log _ b out s f1 f2 (so_garbage _ _ (He _)) Hh) as (s' & E & Hh' & Ec). cbn [comes_to].
    apply (wp_intro _ _ _ _ _ E). split; [reflexivity|]. split; [exact Ec|]. exists b, f1, f2. split; [exact Hh'|]. destruct Hfit; now split.
Qed.

Lemma perform_all_spec out : (forall t, surroundings_ok out (surroundings t)) -> forall ops g log b s f1 f2,
  holds_blocks g log (length (written ops)) b out s f1 f2 -> fits log ops (ls_calls s) b f1 f2 ->
  if keeps_managers (ls_calls s) g log ops then wp (perform_all ops) s (fun rs _ => rs = expected_all (ls_calls s) log ops)
  else perform_all ops s = Undef.
Proof.
  intros He. induction ops as [|o ops IH]; intros g log b s f1 f2 Hh Hfit; [now apply wp_ret|]. cbn [perform_all expected_all keeps_managers].
  pose proof (perform_spec out o ops g log b s f1 f2 He Hh Hfit) as H. unfold comes_to in H.
  destruct (stage_after g log o) as [g'|]; [|now apply run_bind_undef].
  destruct (wp_inv _ _ _ H) as (a & s' & E & -> & Ec & b' & f1' & f2' & Hh' & Hfit'). rewrite <- Ec in *.
  pose proof (IH g' _ b' s' f1' f2' Hh' Hfit') as Hrest. destruct (keeps_managers _ _ _ _).
  - rewrite (wp_run_bind _ _ _ _ _ _ E). wp_seq Hrest giving rest as ->. now apply wp_ret.
  - rewrite (run_bind _ _ _ _ _ E). now apply run_bind_undef.
Qed.

(** A storage that has just been set up holds no block. *)
Lemma fresh_storage_holds n b out (index : Server DB) d f :
  table_state (holds := holds) n b [] out index -> only_first d -> d !! blk_file 0 = Some [] -> default [] (d !! rev_file 0) = [] ->
  LocalFileController_open [] = Ok tt f -> file_ok f ->
  holds_blocks Started [] n b out (mkStrage index d (mkManager None false) (mkManager None false) 0 0) f f.
Proof.
  intros Ht Hd Hblk Hrev Ef Hf. split; [exists []; split; [exact Ht|split; [reflexivity|constructor]]| |constructor].
  split; storage_fields; try assumption; try reflexivity.
  - split; [exact Hf|]. right. split; [discriminate|]. now rewrite Hblk.
  - split; [exact Hf|]. right. split; [discriminate|]. now rewrite Hrev.
  - now split.
Qed.


(** ** Blocks that others sent *)

Definition never {S A} (c : prog S A) : Prop := forall s a s', c s <> Ok a s'.

Lemma never_bind {S A B} (c : prog S A) (k : A -> prog S B) : never c -> never (c ≫= k).
Proof. intros H s a s'. unfold mbind, prog_bind. specialize (H s). destruct (c s) as [x t| |]; [now destruct (H x t)|discriminate..]. Qed.

Lemma never_after {S A B} (c : prog S A) (k : A -> prog S B) : (forall a, never (k a)) -> never (c ≫= k).
Proof. intros H s a s'. unfold mbind, prog_bind. destruct (c s) as [x t| |]; [apply H|discriminate..]. Qed.

Lemma never_local {S T A} (init : S -> T) out (c : prog T A) : (forall s a t, c (init s) <> Ok a t) -> never (with_local init out c).
Proof. intros H s a s'. unfold with_local. specialize (H s). destruct (c (init s)) as [x t| |]; [now destruct (H x t)|discriminate..]. Qed.

Lemma export_no_hash c : _pubkeyHash c = None -> forall r c', coinbase_exportRaw c <> Ok r c'.
Proof.
  intros Hn r c' E. apply (coinbase_calcTxID_no_hash c Hn (EVP_SHA256 r) c'). unfold coinbase_calcTxID.
  rewrite (run_bind _ _ _ _ _ E), SHAHash_all. reflexivity.
Qed.

(** Writing a block whose coinbase has no hash to pay to. *)
Lemma no_hash_never_stored c b connected : _coinbase b = Some c -> _pubkeyHash c = None -> never (Strage_writeBlock engine page connected surroundings b).
Proof.
  intros Hc Hp. apply never_after. intros e. apply never_after. intros s0. apply never_after. intros _. apply never_bind. apply never_bind.
  unfold BlkFileManager_write. apply never_bind, never_local. intros _ a t. unfold BlockContainer_exportRawFormated. rewrite run_get.
  cbn [BlockContainer_of bc_block]. unfold mbind at 1, prog_bind at 1. unfold on_block at 1, zoom at 1, with_coinbase, on_coinbase, zoom at 1.
  cbn [BlockContainer_of bc_block]. rewrite Hc. change (default coinbase_new (Some c)) with c.
  pose proof (export_no_hash c Hp) as Hno. destruct (coinbase_exportRaw c) as [r c'| |]; [now destruct (Hno r c')|discriminate..].
Qed.

Lemma read_coinbase_no_hash raw n c : coinbase_importRawSequentially raw coinbase_new = Ok n c -> _pubkeyHash c = None.
Proof. intros Hi. pose proof (coinbase_import_hash raw coinbase_new) as Hp. unfold post in Hp. now rewrite Hi in Hp. Qed.

(** A block that came from elsewhere is never stored: its coinbase was read from bytes, reading does not
    set the hash to pay to, and writing it fails an assertion. The blocks that this storage reads
    are of that kind too. *)
Theorem received_block_never_stored raw n c b connected :
  coinbase_importRawSequentially raw coinbase_new = Ok n c -> _coinbase b = Some c ->
  never (Strage_writeBlock engine page connected surroundings b).
Proof. intros Hi Hc. exact (no_hash_never_stored c b connected Hc (read_coinbase_no_hash _ _ _ Hi)). Qed.
End storage.

(** ** The same on concrete files *)

Definition sample_put : put := mkPut sample_block sample_coinbase (script_raw 5 [x61; x62; x63; x64]) sample_hash.

Lemma sample_put_ok : put_ok sample_put.
Proof.
  split.
  - split; try reflexivity; apply sample_range; reflexivity.
  - reflexivity.
  - apply (coinbase_make_ok 5 [x61; x62; x63; x64] sample_hash); [simpl; lia|reflexivity].
  - change (cb_script (cb_tx_in (p_coinbase sample_put))) with (coinbase_script 5 [x61; x62; x63; x64]). apply coinbase_script_ok.
  - apply sample_range. reflexivity.
  - apply sample_range. reflexivity.
  - apply Forall_singleton. apply (signed_tx_stored sample_tx); [exact toy_signature_sizes|exact sample_signable|]. vm_compute. reflexivity.
Qed.

Definition sample_surroundings (t : nat) : Surroundings :=
  mkSurroundings (sample_call 1) 7 (mkContainerMeta [x00; x01; x02; x03] 0 0) (fun k i => 77) (fun i => UTXO_new [] 0 0) (fun _ => false).

Lemma sample_surroundings_ok t : surroundings_ok [sample_pending] (sample_surroundings t).
Proof. split; [|reflexivity|cbn; lia|reflexivity]. apply sample_call_ok; [split; vm_compute; congruence|discriminate]. Qed.

Definition sample_operations : list operation :=
  [Write sample_put; Undo (p_id sample_put); Restart; Read (p_id sample_put); Undo (p_id sample_put); Read (replicate 32 xff)].

(** Entries are read first, and a block after them. *)
Definition sample_replacing : list operation := [Write sample_put; Restart; Undo (p_id sample_put); Read (p_id sample_put)].

(** A database with room for a key. *)
Lemma sample_index : exists m db, manager_clear empty_manager = Ok tt m /\
  MMyISAM_new (S := SafeIndexManager (Manager FlatMem FlatMem)) 1700000000 m m = Ok db tt /\
  table_state (holds := MMyISAM_holds 5) 1 1000 [] [sample_pending] (mkServer db [] [sample_pending] 0).
Proof.
  destruct cleared_manager as (m & Em & Hm).
  destruct (database_new (S := SafeIndexManager (Manager FlatMem FlatMem)) 1700000000 m m (fm_view empty_file) (fm_view empty_file) Hm Hm empty_not_formatted)
    as (db & Es & Hdb & _).
  exists m, db. split; [exact Em|]. split; [exact Es|]. split; [|split; reflexivity].
  exists 0, 203, 0%nat. split; [exact Hdb|]. split; [lia|]. split; [lia|]. split; [vm_compute; reflexivity|constructor].
Qed.


Lemma received_block_never_stored_witness :
  never (Strage_writeBlock sample_engine 4096 true sample_surroundings received_block).
Proof.
  apply (received_block_never_stored (engine := sample_engine) 4096 sample_surroundings sample_raw
    (run_value (coinbase_importRawSequentially sample_raw) coinbase_new 0)
    (run_state (coinbase_importRawSequentially sample_raw) coinbase_new) received_block true); [vm_compute; reflexivity|reflexivity].
Defined.
