(* ===== verification/SyncStorage.v ===== *)
(** Block synchronisation on the local files: what a synchronisation with blocks that other nodes
    sent does to the storage. *)
From stdpp Require Import strings.
From S2P Require Import Prelude Bson OverlayPtr CacheTable Allocator Crypto MemoryManager ItemSet NodeStore ONode NodeOps.
From S2P Require Import BTree BTreeModel BTreeAdd BTreeIndex BTreeMap BTreeRemove ValueStore MMyISAM SafeONode SafeBTree SafeMode.
From S2P Require Import Script TxFormat P2PKH BlockHeader Coinbase Block HeaderSync BlockSync StreamBuffer Database DBClient LocalFiles BlockFiles.
From Stdlib Require Import Lia.
#[local] Open Scope Z_scope.

(** ** A storage that refuses blocks *)

Lemma bind_inv {S A B} (c : prog S A) (k : A -> prog S B) s b s2 :
  (c ≫= k) s = Ok b s2 -> exists a s1, c s = Ok a s1 /\ k a s1 = Ok b s2.
Proof. unfold mbind, prog_bind. destruct (c s) as [a s1| |]; [intros H; now exists a, s1|discriminate..]. Qed.

Lemma must_inv {S A} (o : option A) (s : S) a s' : must o s = Ok a s' -> o = Some a /\ s' = s.
Proof. destruct o; [now intros [= -> ->]|discriminate]. Qed.

(** The same storage, on which no block can be written. *)
Definition read_only {ssl : OpenSSL} (st : BlockLocalStrage) : BlockLocalStrage := {|
  storage := storage (BlockLocalStrage := st);
  readBlock := readBlock (BlockLocalStrage := st);
  writeBlock := fun _ => undef;
|}.

Section refusing.
Context {ssl : OpenSSL} {st : BlockLocalStrage}.

Definition refused (b : Block) : Prop := never (writeBlock b).

(** The blocks of a window that would be written are refused. *)
Definition segment_refused (s : segment) : Prop := s.2.1 = false -> forall b, s.2.2 = Some b -> refused b.
Definition window_refused (m : VirtualBlockSyncManager) : Prop := Forall segment_refused (_segmentVector (_unChaindedWindow m)).

Lemma setup_refused v : forall x l x', setup_segments v x = Ok l x' -> Forall segment_refused l.
Proof.
  induction v as [|y v IH]; intros x l x' H; [now injection H as <- <-|].
  cbn [setup_segments] in H. apply bind_inv in H as (h & x1 & _ & H). apply bind_inv in H as (o & x2 & _ & H).
  apply bind_inv in H as (rest & x3 & Hr & H). injection H as <- <-. constructor; [|now apply IH in Hr].
  intros Hf b Hb. cbn in Hf, Hb. now destruct o.
Qed.

Lemma window_add_refused h b l : forall l', refused b -> Forall segment_refused l -> window_add h b l = Some l' -> Forall segment_refused l'.
Proof.
  induction l as [|s l IH]; intros l' Hb Hl H; [injection H as <-; constructor|]. apply Forall_cons in Hl as [Hs Hl].
  cbn [window_add] in H. destruct (memeq 32 (Some s.1) (Some h)) as [eq|]; [|discriminate]. cbn in H.
  destruct (window_add h b l) as [r|]; [|discriminate]. cbn in H. injection H as <-. constructor; [|now apply IH].
  destruct eq; [|exact Hs]. intros _ b' [= <-]. exact Hb.
Qed.

Lemma add_refused b s s' : refused b -> window_refused s.2 -> BlockSync_add b s = Ok tt s' -> window_refused s'.2.
Proof.
  intros Hb Hw H. unfold BlockSync_add in H. apply bind_inv in H as (s0 & s1 & [= <- <-] & H). apply bind_inv in H as (w & s2 & Hm & H).
  apply must_inv in Hm as [Hm ->]. injection H as <-. cbn [snd]. unfold Window_add in Hm. destruct (Block_blockHash b) as [h|]; [|discriminate]. cbn in Hm.
  destruct (window_add h b _) as [l|] eqn:E; [|discriminate]. cbn in Hm. injection Hm as <-. exact (window_add_refused h b _ l Hb Hw E).
Qed.

Lemma add_blocks_refused bs : forall s s', Forall refused bs -> window_refused s.2 -> add_blocks bs s = Ok tt s' -> window_refused s'.2.
Proof.
  induction bs as [|b bs IH]; intros s s' Hb Hw H; [now injection H as <-|]. apply Forall_cons in Hb as [Hb Hbs].
  cbn [add_blocks] in H. apply bind_inv in H as ([] & s1 & H1 & H). exact (IH s1 s' Hbs (add_refused b s s1 Hb Hw H1) H).
Qed.

Lemma head_refused (arrived : list (list Block)) : Forall (Forall refused) arrived -> Forall refused (default [] (head arrived)).
Proof. destruct 1; [constructor|assumption]. Qed.

Lemma tail_refused (arrived : list (list Block)) : Forall (Forall refused) arrived -> Forall (Forall refused) (tail arrived).
Proof. destruct 1; [constructor|assumption]. Qed.

Lemma download_loop_refused left : forall arrived s rest s', Forall (Forall refused) arrived -> window_refused s.2 ->
  download_loop left arrived s = Ok rest s' -> Forall (Forall refused) rest /\ window_refused s'.2.
Proof.
  induction left as [|left IH]; intros arrived s rest s' Ha Hw H; cbn [download_loop] in H;
    apply bind_inv in H as (s0 & s1 & [= <- <-] & H); [now injection H as <- <-|].
  destruct (isComplete _); [now injection H as <- <-|]. apply bind_inv in H as ([] & s2 & H1 & H).
  apply (IH _ _ _ _ (tail_refused _ Ha) (add_blocks_refused _ _ _ (head_refused _ Ha) Hw H1) H).
Qed.

Lemma downloadWindow_refused n arrived s r s' : Forall (Forall refused) arrived -> window_refused s.2 ->
  downloadWindow n arrived s = Ok r s' -> Forall (Forall refused) r.2 /\ window_refused s'.2.
Proof.
  intros Ha Hw H. unfold downloadWindow in H. apply bind_inv in H as (rest & s1 & H1 & H). apply bind_inv in H as ([] & s2 & H2 & H).
  destruct (download_loop_refused _ _ _ _ _ Ha Hw H1) as [Hr Hw1]. injection H as <- <-. cbn [snd].
  split; [exact (tail_refused _ Hr)|exact (add_blocks_refused _ _ _ (head_refused _ Hr) Hw1 H2)].
Qed.

(** Storing a window then returns only when there is nothing to store. *)
Lemma store_from_refused n : forall i (s s' : storage (BlockLocalStrage := st) * VirtualBlockSyncManager),
  window_refused s.2 -> store_from (st := st) n i s = Ok tt s' ->
  s' = s /\ store_from (st := read_only st) n i s = Ok tt s.
Proof.
  induction n as [|n IH]; intros i s s' Hw H; [now injection H as <-|]. cbn [store_from] in H |- *.
  apply bind_inv in H as (s0 & s1 & [= <- <-] & H). rewrite run_get. unfold window_refused in Hw.
  destruct (Window_at i (_unChaindedWindow s.2)) as [flag o] eqn:E. cbn [fst snd] in H.
  change (snd (A := storage (BlockLocalStrage := read_only st)) s) with s.2. rewrite E. cbn [fst snd].
  apply bind_inv in H as ([] & s2 & H1 & H).
  destruct flag.
  - injection H1 as <-. destruct (IH _ _ _ Hw H) as [-> HE]. split; [reflexivity|]. rewrite (run_bind _ _ _ tt s) by reflexivity. exact HE.
  - exfalso. apply bind_inv in H1 as (b & s3 & Hb & H1). apply must_inv in Hb as [-> ->]. unfold Window_at in E.
    destruct (_segmentVector (_unChaindedWindow s.2) !! Z.to_nat i) as [seg|] eqn:Es; [|discriminate].
    rewrite Forall_lookup in Hw. specialize (Hw _ _ Es). unfold segment_refused in Hw. rewrite E in Hw. specialize (Hw eq_refl b eq_refl).
    unfold on_storage, zoom in H1. destruct (writeBlock b s.1) as [[] x| |] eqn:Ew; [exact (Hw s.1 tt x Ew)|discriminate..].
Qed.

Lemma start_loop_refused rounds : forall k arrived (s : storage (BlockLocalStrage := st) * VirtualBlockSyncManager) r s',
  Forall (Forall refused) arrived -> start_loop (st := st) rounds k arrived s = Ok r s' -> start_loop (st := read_only st) rounds k arrived s = Ok r s'.
Proof.
  induction rounds as [|rounds IH]; intros k arrived s r s' Ha H; [discriminate|]. cbn [start_loop] in H |- *.
  apply bind_inv in H as (s0 & s1 & [= <- <-] & H). rewrite run_get. destruct (k <? _)%nat; [|exact H].
  destruct (drop _ _) as [|vb vbs] eqn:Ed; [exact H|]. apply bind_inv in H as ([] & s2 & H1 & H). apply bind_inv in H as (d & s3 & H2 & H).
  assert (window_refused s2.2) as Hw.
  { unfold setupWindow in H1. apply bind_inv in H1 as (l & s4 & H3 & H4). injection H4 as <-. cbn [snd].
    unfold on_storage, zoom in H3. destruct (setup_segments _ _) as [l' x| |] eqn:E; try discriminate. injection H3 as -> <-. exact (setup_refused _ _ _ _ E). }
  destruct (downloadWindow_refused _ _ _ _ _ Ha Hw H2) as [Hd Hw3].
  rewrite (run_bind _ _ _ tt s2) by exact H1. rewrite (run_bind _ _ _ d s3) by exact H2.
  destruct d.1; [|exact H]. apply bind_inv in H as (s4 & s5 & [= <- <-] & H). rewrite run_get. apply bind_inv in H as ([] & s6 & H5 & H).
  destruct (store_from_refused _ _ _ _ Hw3 H5) as [-> HE]. rewrite (run_bind _ _ _ tt s3) by exact HE. exact (IH _ _ _ _ _ Hd H).
Qed.
End refusing.

(** ** Synchronising on the local files *)

Section synchronisation.
Context {ssl : OpenSSL} {ssl_laws : OpenSSL_laws} {DB : Type} (engine : nat -> StrageEngine DB).
Context (page : Z) (connected : bool) (surroundings : nat -> Surroundings).
Notation files := (local_files engine page connected surroundings).

(** A block that was read from the bytes another node sent. *)
Definition received (b : Block) : Prop :=
  exists raw n c, coinbase_importRawSequentially raw coinbase_new = Ok n c /\ _coinbase b = Some c.

(** C16: A synchronisation never stores a block that another node sent. Whenever it returns, it returns in
    the same way on a storage that cannot be written at all: either the download has failed, which it
    does not report, or all blocks were in the local files before. In the case it is meant for, a
    complete download with new blocks, it does not return: writing the first of them ends
    the process. *)
Theorem synchronisation_stores_nothing (hs : list BlockHeader) (arrived : list (list Block)) rounds
  (x : storage (BlockLocalStrage := files)) r s' :
  Forall (Forall received) arrived ->
  BlockSync_start (st := files) rounds arrived (x, VirtualBlockSyncManager_new hs) = Ok r s' ->
  BlockSync_start (st := read_only files) rounds arrived (x, VirtualBlockSyncManager_new hs) = Ok r s'.
Proof.
  intros Ha. apply start_loop_refused. eapply Forall_impl; [exact Ha|]. intros bs Hbs. eapply Forall_impl; [exact Hbs|].
  intros b (raw & n & c & Hi & Hc). unfold refused. cbn [writeBlock local_files]. apply never_bind.
  exact (no_hash_never_stored page surroundings c b connected Hc (read_coinbase_no_hash _ _ _ Hi)).
Qed.
End synchronisation.

(** ** The same on concrete files *)

Definition missing_header : BlockHeader := mkHeader 1 (replicate 32 x09) (replicate 32 x00) 8 0 0.
Notation sample_files := (local_files sample_engine 4096 true sample_surroundings).

(** The chain has one header, whose block is not there; another block arrives. *)
Lemma failed_download (x x' : storage (BlockLocalStrage := sample_files)) :
  readBlock (BlockLocalStrage := sample_files) (Some (hash_of missing_header)) x = Ok None x' ->
  BlockSync_start (st := sample_files) 1 [[received_block]] (x, VirtualBlockSyncManager_new [missing_header]) =
  Ok true (x', set_window (mkWindow 1 [(hash_of missing_header, (false, None))]) (VirtualBlockSyncManager_new [missing_header])).
Proof.
  intros H. unfold BlockSync_start. cbn [start_loop]. rewrite run_get.
  change (drop _ _) with [VirtualBlock_new missing_header]. change (_ <? _)%nat with true. cbv iota zeta.
  rewrite (run_bind _ _ _ tt (x', set_window (mkWindow 1 [(hash_of missing_header, (false, None))]) (VirtualBlockSyncManager_new [missing_header]))).
  - vm_compute. reflexivity.
  - unfold setupWindow. rewrite (run_bind (on_storage _) _ _ [(hash_of missing_header, (false, None))] (x', VirtualBlockSyncManager_new [missing_header])); [reflexivity|].
    unfold on_storage, zoom. cbn [fst snd setup_segments]. unfold VirtualBlock_blockHash at 1. cbn [VirtualBlock_new v_body].
    rewrite headerHash_some, run_must, (run_bind _ _ _ _ _ H). reflexivity.
Qed.

Lemma synchronisation_stores_nothing_witness : exists m db,
  manager_clear empty_manager = Ok tt m /\
  MMyISAM_new (S := SafeIndexManager (Manager FlatMem FlatMem)) 1700000000 m m = Ok db tt /\
  exists s s', BlockLocalStrage_new (fun _ => false) (mkServer db [] [sample_pending] 0) 0 {[blk_file 0 := []]} = Ok s {[blk_file 0 := []]} /\
    BlockSync_start (st := read_only sample_files) 1 [[received_block]] (s, VirtualBlockSyncManager_new [missing_header]) = Ok true s'.
Proof.
  destruct sample_index as (m & db & Em & Es & Ht). exists m, db. split; [exact Em|]. split; [exact Es|].
  assert (only_first {[blk_file 0 := []]}) as Hd by (split; [now eexists|]; intros name f [<- _]%lookup_singleton_Some; now right).
  eexists. destruct LocalFileController_open_new as (f & Ef & Hf & Hl).
  destruct (wp_inv _ _ _ (readBlock_spec (engine := sample_engine) (holds := MMyISAM_holds 5) 4096 ltac:(lia) sample_surroundings Started [] 1 1000 [sample_pending]
    (mkStrage (mkServer db [] [sample_pending] 0) {[blk_file 0 := []]} (mkManager None false) (mkManager None false) 0 0) f f (hash_of missing_header)
    (fresh_storage_holds _ _ _ _ _ _ Ht Hd eq_refl eq_refl Ef Hf) (sample_surroundings_ok 0) (conj (hash_of_length _) (Forall_nil_2 _))))
    as (o & x' & E & -> & _).
  eexists. split; [now apply BlockLocalStrage_opens|].
  apply (synchronisation_stores_nothing sample_engine 4096 true sample_surroundings).
  - repeat (apply Forall_cons; split); try apply Forall_nil; try exact I. exists sample_raw, (run_value (coinbase_importRawSequentially sample_raw) coinbase_new 0),
      (run_state (coinbase_importRawSequentially sample_raw) coinbase_new). split; [vm_compute; reflexivity|reflexivity].
  - exact (failed_download _ _ E).
Defined.
