(* ===== verification/TxPool.v ===== *)
(** The pool of transactions ([chain/transaction_pool/]): control blocks of transactions
    ([txcb.cpp]) in rings ([txcb_bucket.cpp]) below tables that branch on one half of a byte
    of the id ([txcb_table.cpp]), and the pool over them ([transaction_pool.cpp]). *)
From S2P Require Import Prelude Crypto Script TxFormat P2PKH LocalFiles.
From Stdlib Require Import Lia.
#[local] Open Scope Z_scope.

(** ** Control blocks *)

(** A control block is shared by all that hold a pointer to it: it is addressed by the number
    of control blocks made before it. Transactions are addressed in the same way. [_leastChain] is never
    used and left out. *)
Record TxCB : Type := mkTxCB {
  tc_txID : buffer;
  tc_status : Z;
  tc_tx : option nat;
  tc_prev : option nat;
  tc_next : option nat;
  tc_priority : Z;
}.

Notation Cells := (list TxCB).

Definition set_txID (i : buffer) (c : TxCB) : TxCB := mkTxCB i (tc_status c) (tc_tx c) (tc_prev c) (tc_next c) (tc_priority c).
Definition set_prev (p : option nat) (c : TxCB) : TxCB := mkTxCB (tc_txID c) (tc_status c) (tc_tx c) p (tc_next c) (tc_priority c).
Definition set_next (n : option nat) (c : TxCB) : TxCB := mkTxCB (tc_txID c) (tc_status c) (tc_tx c) (tc_prev c) n (tc_priority c).
Definition set_priority (z : Z) (c : TxCB) : TxCB := mkTxCB (tc_txID c) (tc_status c) (tc_tx c) (tc_prev c) (tc_next c) z.

(** [TxCB( status )]. *)
Definition TxCB_new (status : Z) : TxCB := mkTxCB None status None None None 0.

(** [TxCB( target , status )] after the id has been computed; of the null pointer it leaves the
    status as it was in memory, here 0. *)
Definition TxCB_of (target : option nat) (txID : buffer) (status : Z) : TxCB :=
  match target with
  | None => TxCB_new 0
  | Some t => mkTxCB txID status (Some t) None None 0
  end.

(** Reading and writing behind a pointer. *)
Definition cell (p : nat) : prog Cells TxCB := h ← get_state; must (h !! p).
Definition prev (p : nat) : prog Cells (option nat) := c ← cell p; mret (tc_prev c).
Definition next (p : nat) : prog Cells (option nat) := c ← cell p; mret (tc_next c).
Definition put (p : nat) (f : TxCB -> TxCB) : prog Cells unit := c ← cell p; modify (<[p := f c]>).
Definition make_shared (c : TxCB) : prog Cells nat := h ← get_state; _ ← set_state (h ++ [c]); mret (length h).

(** ** Buckets and tables *)

Definition DEFAULT_SCALE_SIZE : Z := 3.

(** [_scaleSize] and [_defaultCapacity] are not used. The parent table is an argument of what
    uses it. *)
Record TxCBBucket : Type := mkBucket { _txcbHead : option nat; _txCount : Z; _bucketSymbol : Z }.

Definition TxCBBucket_new (symbol : Z) : TxCBBucket := mkBucket None 0 symbol.

(** Tables own what lies below them. *)
Inductive TxCBTable : Type := mkTable { _layer : Z; _containerArray : list (TxCBTable + TxCBBucket) }.

Notation TxCBContainer := (TxCBTable + TxCBBucket)%type.

Definition TxCBTable_new (layer : Z) : TxCBTable :=
  mkTable layer (map (fun i => inr (TxCBBucket_new (Z.of_nat i))) (seq 0 16)).

Definition txContainer (index : Z) (target : TxCBContainer) (t : TxCBTable) : TxCBTable :=
  if Z.of_nat (length (_containerArray t)) <=? index then t
  else mkTable (_layer t) (<[Z.to_nat index := target]> (_containerArray t)).

Definition bucketSymbolToIndex (symbol : Z) : Z := symbol.

(** The container of an id in a table: by the upper or the lower half of a byte of it. *)
Definition targetSymbol (layer : Z) (target : nat) : prog Cells Z :=
  c ← cell target;
  targetByte ← must (sub (default [] (tc_txID c)) (layer / 2) 1);
  b ← must (head targetByte);
  mret (if layer mod 2 =? 0 then Z.shiftr (Z.land (u8 b) 240) 4 else Z.land (u8 b) 15).

(** The comparison of ids, on their first 20 bytes. *)
Definition same_id (p q : nat) : prog Cells bool :=
  a ← cell p;
  b ← cell q;
  x ← must (rd 20 (tc_txID a));
  y ← must (rd 20 (tc_txID b));
  mret (bool_decide (x = y)).

(** The loop of [find], from the head backwards. *)
Fixpoint bucket_find_loop (fuel : nat) (head current target : nat) : prog Cells (option nat) :=
  match fuel with
  | O => undef
  | S fuel' =>
      eq ← same_id current target;
      if eq : bool then mret (Some current)
      else
        p ← prev current;
        if bool_decide (p = Some head) then mret None
        else p ← must p; bucket_find_loop fuel' head p target
  end.

(** A walk that is longer than there are control blocks never ends. *)
Definition TxCBBucket_find (b : TxCBBucket) (target : nat) : prog Cells (option nat) :=
  match _txcbHead b with
  | None => mret None
  | Some head => h ← get_state; bucket_find_loop (length h) head head target
  end.

Definition TxCBBucket_remove (b : TxCBBucket) (target : nat) : prog Cells TxCBBucket :=
  thisTarget ← TxCBBucket_find b target;
  match thisTarget with
  | None => mret b
  | Some t =>
      n ← next t;
      p ← prev t;
      if bool_decide (_txcbHead b = Some t) || bool_decide (n = Some t) || bool_decide (p = Some t)
      then mret (mkBucket None (_txCount b) (_bucketSymbol b))
      else
        p ← must p;
        _ ← put p (set_next n);
        n ← next t;
        n ← must n;
        p ← prev t;
        _ ← put n (set_prev p);
        mret b
  end.

(** The loop of [autoScaleUp]: the ring is walked while its members move to the new table. *)
Fixpoint scale_loop (table_add : TxCBTable -> nat -> prog Cells (Z * TxCBTable)) (fuel : nat) (head current : nat) (newTable : TxCBTable) :
  prog Cells TxCBTable :=
  match fuel with
  | O => undef
  | S fuel' =>
      nextTxCB ← next current;
      r ← table_add newTable current;
      if bool_decide (nextTxCB = Some head) then mret r.2
      else n ← must nextTxCB; scale_loop table_add fuel' head n r.2
  end.

(** [autoScaleUp]: the table that replaces the bucket in the array of its parent. *)
Definition autoScaleUp (table_add : TxCBTable -> nat -> prog Cells (Z * TxCBTable)) (parentLayer : Z) (txcbHead : nat) : prog Cells TxCBTable :=
  h ← get_state;
  scale_loop table_add (length h) txcbHead txcbHead (TxCBTable_new (parentLayer + 1)).

(** [add] of a bucket: the answer, the bucket, and the table that takes its place if there is one. *)
Definition TxCBBucket_add (table_add : TxCBTable -> nat -> prog Cells (Z * TxCBTable)) (parentLayer : Z) (b : TxCBBucket) (target : nat) :
  prog Cells (Z * TxCBBucket * option TxCBTable) :=
  found ← TxCBBucket_find b target;
  match found with
  | Some _ => mret (-1, b, None)
  | None =>
      match _txcbHead b with
      | None =>
          _ ← put target (set_prev (Some target));
          _ ← put target (set_next (Some target));
          mret (0, mkBucket (Some target) (_txCount b + 1) (_bucketSymbol b), None)
      | Some head =>
          tailTxCB ← prev head;
          tail ← must tailTxCB;
          n ← next tail;
          _ ← put target (set_next n);
          _ ← put target (set_prev (Some tail));
          n ← next tail;
          n ← must n;
          _ ← put n (set_prev (Some target));
          _ ← put tail (set_next (Some target));
          let b := mkBucket (Some head) (_txCount b + 1) (_bucketSymbol b) in
          if DEFAULT_SCALE_SIZE <=? _txCount b then
            t ← autoScaleUp table_add parentLayer head;
            mret (0, b, Some t)
          else mret (0, b, None)
      end
  end.

(** [add] of a table, with fuel for the tables below it, new ones included. *)
Fixpoint TxCBTable_add (fuel : nat) (t : TxCBTable) (target : nat) : prog Cells (Z * TxCBTable) :=
  match fuel with
  | O => undef
  | S fuel' =>
      targetIndex ← targetSymbol (_layer t) target;
      c ← must (_containerArray t !! Z.to_nat targetIndex);
      match c with
      | inr targetBucket =>
          '(r, b, up) ← TxCBBucket_add (TxCBTable_add fuel') (_layer t) targetBucket target;
          let t := txContainer targetIndex (inr b) t in
          mret (r, match up with Some newTable => txContainer (bucketSymbolToIndex (_bucketSymbol b)) (inl newTable) t | None => t end)
      | inl targetTable =>
          '(r, t') ← TxCBTable_add fuel' targetTable target;
          mret (r, txContainer targetIndex (inl t') t)
      end
  end.

Fixpoint TxCBTable_find (fuel : nat) (t : TxCBTable) (target : nat) : prog Cells (option nat) :=
  match fuel with
  | O => undef
  | S fuel' =>
      targetIndex ← targetSymbol (_layer t) target;
      c ← must (_containerArray t !! Z.to_nat targetIndex);
      match c with
      | inr targetBucket => TxCBBucket_find targetBucket target
      | inl targetTable => TxCBTable_find fuel' targetTable target
      end
  end.

Fixpoint TxCBTable_remove (fuel : nat) (t : TxCBTable) (target : nat) : prog Cells TxCBTable :=
  match fuel with
  | O => undef
  | S fuel' =>
      targetIndex ← targetSymbol (_layer t) target;
      c ← must (_containerArray t !! Z.to_nat targetIndex);
      match c with
      | inr targetBucket => b ← TxCBBucket_remove targetBucket target; mret (txContainer targetIndex (inr b) t)
      | inl targetTable => t' ← TxCBTable_remove fuel' targetTable target; mret (txContainer targetIndex (inl t') t)
      end
  end.

(** [findBucket]: what it found is commented out. *)
Definition TxCBTable_findBucket (t : TxCBTable) (target : nat) : prog Cells (option TxCBBucket) :=
  c ← cell target;
  targetByte ← must (sub (default [] (tc_txID c)) (_layer t / 2) 1);
  mret None.

(** ** The pool *)

Section pool_code.
Context {ssl : OpenSSL}.

(** The pool, with the control blocks and the transactions that are shared with its callers. *)
Record TransactionPool : Type := mkPool { tp_txs : list P2PKH; tp_cells : Cells; _rootTable : TxCBTable }.

Definition TransactionPool_new (txs : list P2PKH) (cells : Cells) : TransactionPool := mkPool txs cells (TxCBTable_new 0).

(** An id has 32 bytes, two layers each: below layer 63 no byte is left to branch on. *)
Definition layers : nat := 65.

Definition on_cells {A} : prog Cells A -> prog TransactionPool A := zoom tp_cells (fun h s => mkPool (tp_txs s) h (_rootTable s)).
Definition set_rootTable (t : TxCBTable) (s : TransactionPool) : TransactionPool := mkPool (tp_txs s) (tp_cells s) t.

(** [calcTxID] of the transaction behind a pointer. *)
Definition tx_calcTxID (target : nat) : prog TransactionPool (list byte) :=
  s ← get_state;
  p ← must (tp_txs s !! target);
  zoom (fun _ => p) (fun p s => mkPool (<[target := p]> (tp_txs s)) (tp_cells s) (_rootTable s)) calcTxID.

(** A new control block for a transaction. *)
Definition make_TxCB (target : option nat) : prog TransactionPool nat :=
  match target with
  | None => on_cells (make_shared (TxCB_of None None 0))
  | Some t => txID ← tx_calcTxID t; on_cells (make_shared (TxCB_of (Some t) (Some txID) 0))
  end.

(** [find] of a control block calls itself. *)
Fixpoint TransactionPool_find_cb (fuel : nat) (target : nat) : prog TransactionPool (option nat) :=
  match fuel with
  | O => undef
  | S fuel' => TransactionPool_find_cb fuel' target
  end.

Definition TransactionPool_find_id (targetTxID : buffer) : prog TransactionPool (option nat) :=
  searchTargetTxCB ← on_cells (make_shared (TxCB_new 1));
  _ ← on_cells (put searchTargetTxCB (set_txID targetTxID));
  s ← get_state;
  on_cells (TxCBTable_find layers (_rootTable s) searchTargetTxCB).

Definition TransactionPool_find (target : option nat) : prog TransactionPool (option nat) :=
  match target with
  | None => mret None
  | Some t => txID ← tx_calcTxID t; TransactionPool_find_id (Some txID)
  end.

Definition TransactionPool_add_cb (target : nat) : prog TransactionPool Z :=
  s ← get_state;
  '(r, t) ← on_cells (TxCBTable_add layers (_rootTable s) target);
  _ ← modify (set_rootTable t);
  mret r.

(** A first control block is made and dropped. *)
Definition TransactionPool_add (target : option nat) : prog TransactionPool Z :=
  storeTargetTxCB ← make_TxCB target;
  c ← make_TxCB target;
  TransactionPool_add_cb c.

(** [add] of a block: those of its transactions that are new. *)
Fixpoint TransactionPool_add_block (txVector : list nat) (priority : Z) : prog TransactionPool (list nat) :=
  match txVector with
  | [] => mret []
  | itr :: l =>
      targetTxCB ← make_TxCB (Some itr);
      _ ← on_cells (put targetTxCB (set_priority priority));
      flag ← TransactionPool_add_cb targetTxCB;
      addedTxCBVector ← TransactionPool_add_block l priority;
      mret (if flag =? 0 then targetTxCB :: addedTxCBVector else addedTxCBVector)
  end.

Definition TransactionPool_remove_cb (target : nat) : prog TransactionPool unit :=
  s ← get_state;
  t ← on_cells (TxCBTable_remove layers (_rootTable s) target);
  modify (set_rootTable t).

Definition TransactionPool_remove_id (targetTxID : buffer) : prog TransactionPool unit :=
  targetTxCB ← on_cells (make_shared (TxCB_new 1));
  _ ← on_cells (put targetTxCB (set_txID targetTxID));
  TransactionPool_remove_cb targetTxCB.

Definition TransactionPool_remove (target : nat) : prog TransactionPool unit :=
  txID ← tx_calcTxID target; TransactionPool_remove_id (Some txID).

Fixpoint TransactionPool_remove_block (txVector : list nat) : prog TransactionPool unit :=
  match txVector with
  | [] => mret tt
  | itr :: l => targetTxCB ← make_TxCB (Some itr); _ ← TransactionPool_remove_cb targetTxCB; TransactionPool_remove_block l
  end.
End pool_code.
