(* ===== verification/TxPoolSpec.v ===== *)
(** What the pool of transactions holds: rings of control blocks as lists, tables as sets of
    control blocks, and the operations of [TxPool] on them. *)
From S2P Require Import Prelude Crypto Script TxFormat P2PKH LocalFiles TxPool.
From stdpp Require Import gmap sets fin_sets.
From Stdlib Require Import Lia.
#[local] Open Scope Z_scope.

(** ** Ids and their halves of bytes *)

(** The part of an id that tells transactions apart. *)
Definition key (h : Cells) (c : nat) : list byte := take 20 (default [] (h !! c ≫= tc_txID)).
Definition good (h : Cells) (c : nat) : Prop := length (key h c) = 20%nat.

(** The half of a byte that a table branches on. *)
Definition nib (l : nat) (k : list byte) : nat :=
  let b := u8 (default x00 (k !! (l / 2)%nat)) in
  Z.to_nat (if Nat.even l then b / 16 else b mod 16).

Lemma good_cell h c : good h c -> exists x i, h !! c = Some x /\ tc_txID x = Some i /\ key h c = take 20 i /\ (20 <= length i)%nat.
Proof.
  unfold good, key. destruct (h !! c) as [x|]; [|discriminate]. cbn [mbind option_bind].
  destruct (tc_txID x) as [i|] eqn:E; [|discriminate]. cbn. intros H. exists x, i. rewrite length_take in H. repeat split; [exact E|lia].
Qed.

Lemma nib_range l k : (nib l k < 16)%nat.
Proof.
  unfold nib. pose proof (u8_range (default x00 (k !! (l / 2)%nat))) as H. destruct (Nat.even l).
  - assert (u8 (default x00 (k !! (l / 2)%nat)) / 16 < 16) by (apply Z.div_lt_upper_bound; lia).
    pose proof (Z.div_pos (u8 (default x00 (k !! (l / 2)%nat))) 16). lia.
  - pose proof (Z.mod_pos_bound (u8 (default x00 (k !! (l / 2)%nat))) 16). lia.
Qed.

Lemma same_nibs k k' : length k = 20%nat -> length k' = 20%nat -> (forall l, (l < 40)%nat -> nib l k = nib l k') -> k = k'.
Proof.
  intros Hk Hk' H. apply list_eq_same_length with (n := 20%nat); [congruence|congruence|]. intros i x y Hi Hx Hy. apply u8_inj.
  pose proof (H (2 * i)%nat ltac:(lia)) as H1. pose proof (H (2 * i + 1)%nat ltac:(lia)) as H2. unfold nib in H1, H2.
  rewrite Nat.even_even in H1. rewrite Nat.even_odd in H2.
  replace (2 * i / 2)%nat with i in H1 by (rewrite Nat.mul_comm, Nat.div_mul; lia).
  replace ((2 * i + 1) / 2)%nat with i in H2 by (apply (Nat.div_unique _ _ _ 1); lia).
  rewrite Hx, Hy in H1, H2. cbn in H1, H2. pose proof (u8_range x). pose proof (u8_range y).
  clear H. apply Z2Nat.inj in H1, H2; try (apply Z.div_pos; lia); try (apply Z.mod_pos_bound; lia).
  rewrite (Z.div_mod (u8 x) 16), (Z.div_mod (u8 y) 16) by lia. now rewrite H1, H2.
Qed.

Lemma cell_run h c x : h !! c = Some x -> cell c h = Ok x h.
Proof. intros H. unfold cell. rewrite run_get, H. reflexivity. Qed.

(** A half of a byte as the code takes it. *)
Definition half (even : bool) (b : byte) : Z := if even then u8 b / 16 else u8 b mod 16.

Lemma half_code b : Z.shiftr (Z.land (u8 b) 240) 4 = half true b /\ Z.land (u8 b) 15 = half false b.
Proof. destruct b; vm_compute; split; reflexivity. Qed.

Lemma targetSymbol_run h c l : good h c -> (l < 40)%nat -> targetSymbol (Z.of_nat l) c h = Ok (Z.of_nat (nib l (key h c))) h.
Proof.
  intros (x & i & Hx & Hi & Hk & Hlen)%good_cell Hl. unfold targetSymbol. rewrite (run_bind _ _ _ _ _ (cell_run _ _ _ Hx)), Hi. cbn [default].
  assert (l / 2 < 20)%nat as Hd by (apply Nat.Div0.div_lt_upper_bound; lia).
  destruct (lookup_lt_is_Some_2 i (l / 2)%nat ltac:(lia)) as [b Hb].
  assert (key h c !! (l / 2)%nat = Some b) as Hn by (rewrite Hk, lookup_take_lt by lia; exact Hb).
  change 2 with (Z.of_nat 2). rewrite <- Nat2Z.inj_div, <- Nat2Z.inj_mod. unfold sub, rd.
  rewrite (proj2 (Z.leb_le 0 _)), (proj2 (Z.leb_le _ (Z.of_nat (length i)))) by lia. cbn [andb Z.eqb].
  change (id i) with i. rewrite length_drop, (proj2 (Z.leb_le 1 _)), run_must by lia.
  rewrite Nat2Z.id, (drop_S _ _ _ Hb). change (take (Z.to_nat 1) (b :: drop (S (l / 2)) i)) with [b]. cbn [head]. rewrite run_must. unfold mret, prog_ret. f_equal.
  destruct (half_code b) as [-> ->]. unfold nib. rewrite Hn. change (default x00 (Some b)) with b.
  pose proof (u8_range b) as Hr. destruct (Nat.Even_or_Odd l) as [E|E].
  - rewrite (proj2 (Nat.even_spec l) E). destruct E as [m ->]. rewrite Nat.mul_comm, Nat.Div0.mod_mul. cbn [half]. rewrite Z2Nat.id by (apply Z.div_pos; lia). reflexivity.
  - rewrite <- Nat.negb_odd, (proj2 (Nat.odd_spec l) E). destruct E as [m ->].
    replace ((2 * m + 1) mod 2)%nat with 1%nat by (rewrite Nat.add_comm, Nat.mul_comm, Nat.Div0.mod_add; reflexivity).
    cbn [half negb]. rewrite Z2Nat.id by (apply Z.mod_pos_bound; lia). reflexivity.
Qed.

Lemma same_id_run h p q : good h p -> good h q -> same_id p q h = Ok (bool_decide (key h p = key h q)) h.
Proof.
  intros (x & i & Hx & Hi & Hk & Hl)%good_cell (y & j & Hy & Hj & Hk' & Hl')%good_cell. unfold same_id.
  rewrite (run_bind _ _ _ _ _ (cell_run _ _ _ Hx)), (run_bind _ _ _ _ _ (cell_run _ _ _ Hy)), Hi, Hj. unfold rd. cbn [Z.eqb].
  rewrite !(proj2 (Z.leb_le _ _)), !run_must by lia. now rewrite Hk, Hk'.
Qed.

(** ** Links *)

Definition nxt (h : Cells) (c : nat) : option nat := h !! c ≫= tc_next.
Definition prv (h : Cells) (c : nat) : option nat := h !! c ≫= tc_prev.

(** What never changes in a control block once its id is set. *)
Definition data (x : TxCB) : buffer * Z * option nat * Z := (tc_txID x, tc_status x, tc_tx x, tc_priority x).
Definition same_data (h h' : Cells) : Prop := map data h' = map data h.

(** Neighbours in a list of control blocks know each other. *)
Fixpoint linked (h : Cells) (l : list nat) : Prop :=
  match l with
  | a :: ((b :: _) as l') => nxt h a = Some b /\ prv h b = Some a /\ linked h l'
  | _ => True
  end.

(** A ring of control blocks. *)
Definition ring (h : Cells) (l : list nat) : Prop :=
  NoDup l /\ Forall (good h) l /\ match l with [] => True | a :: _ => linked h (l ++ [a]) end.

Lemma linked_app h p z q : linked h (p ++ z :: q) <-> linked h (p ++ [z]) /\ linked h (z :: q).
Proof.
  induction p as [|a p IH]; cbn [app]; [cbn; tauto|]. destruct p as [|b p]; cbn [app linked] in *; [tauto|]. rewrite IH. tauto.
Qed.

Lemma linked_ext h h' a m z :
  linked h (a :: m ++ [z]) -> (forall x, x ∈ a :: m -> nxt h' x = nxt h x) -> (forall x, x ∈ m ++ [z] -> prv h' x = prv h x) ->
  linked h' (a :: m ++ [z]).
Proof.
  revert a; induction m as [|b m IH]; intros a; cbn [app linked].
  - intros (H1 & H2 & _) Hn Hp. rewrite Hn, Hp by set_solver. auto.
  - intros (H1 & H2 & H3) Hn Hp. rewrite Hn, Hp by set_solver. repeat split; [assumption..|]. apply IH; [exact H3| |]; intros x Hx; [apply Hn|apply Hp]; set_solver.
Qed.

Lemma ring_ext h h' l : ring h l -> (forall x, x ∈ l -> h' !! x = h !! x) -> ring h' l.
Proof.
  intros (Hn & Hg & Hl) H. repeat split; [exact Hn| |].
  - rewrite Forall_forall in Hg |- *. intros x Hx. pose proof (Hg x Hx) as E. unfold good, key in *. now rewrite H.
  - destruct l as [|a l]; [exact I|]. cbn [app] in *. eapply linked_ext; [exact Hl| |]; intros x Hx; unfold nxt, prv; rewrite H; set_solver.
Qed.

Lemma same_data_key h h' c : same_data h h' -> key h' c = key h c.
Proof.
  intros H. unfold key. do 2 f_equal. apply (f_equal (fun l => l !! c)) in H. rewrite !list_lookup_fmap in H.
  destruct (h !! c), (h' !! c); cbn in *; try discriminate; [|reflexivity]. injection H as H. unfold data in H. congruence.
Qed.

Lemma same_data_length h h' : same_data h h' -> length h' = length h.
Proof. intros H. apply (f_equal length) in H. now rewrite !length_map in H. Qed.

#[export] Instance same_data_preorder : PreOrder same_data.
Proof. split; [intros h; reflexivity|intros h1 h2 h3; unfold same_data; congruence]. Qed.

(** *** Writing a link *)

Definition with_next (h : Cells) (p : nat) (n : option nat) : Cells := alter (set_next n) p h.
Definition with_prev (h : Cells) (p : nat) (n : option nat) : Cells := alter (set_prev n) p h.

Lemma put_run h p f : (p < length h)%nat -> put p f h = Ok tt (alter f p h).
Proof.
  intros [x Hx]%lookup_lt_is_Some_2. unfold put. rewrite (run_bind _ _ _ _ _ (cell_run _ _ _ Hx)). unfold modify. f_equal.
  apply list_eq. intros i. rewrite list_lookup_alter. case_decide as E; [subst i; rewrite list_lookup_insert_eq by (eapply lookup_lt_Some, Hx); now rewrite Hx|now rewrite list_lookup_insert_ne].
Qed.

Lemma prev_run h p : (p < length h)%nat -> prev p h = Ok (prv h p) h.
Proof. intros [x Hx]%lookup_lt_is_Some_2. unfold prev. rewrite (run_bind _ _ _ _ _ (cell_run _ _ _ Hx)). unfold prv. now rewrite Hx. Qed.

Lemma next_run h p : (p < length h)%nat -> next p h = Ok (nxt h p) h.
Proof. intros [x Hx]%lookup_lt_is_Some_2. unfold next. rewrite (run_bind _ _ _ _ _ (cell_run _ _ _ Hx)). unfold nxt. now rewrite Hx. Qed.

Lemma good_lt h c : good h c -> (c < length h)%nat.
Proof. intros (x & i & Hx & _)%good_cell. exact (lookup_lt_Some _ _ _ Hx). Qed.

Lemma alter_same_data f p h : (forall x, data (f x) = data x) -> same_data h (alter f p h).
Proof.
  intros H. unfold same_data. apply list_eq. intros i. rewrite !list_lookup_fmap, list_lookup_alter. case_decide; [|reflexivity].
  subst i. destruct (h !! p); cbn; [now rewrite H|reflexivity].
Qed.

Lemma with_next_data h p n : same_data h (with_next h p n).
Proof. now apply alter_same_data. Qed.
Lemma with_prev_data h p n : same_data h (with_prev h p n).
Proof. now apply alter_same_data. Qed.

Lemma nxt_with_next h p n x : (p < length h)%nat -> nxt (with_next h p n) x = if decide (x = p) then n else nxt h x.
Proof.
  intros [c Hc]%lookup_lt_is_Some_2. unfold nxt, with_next. rewrite list_lookup_alter. repeat case_decide; subst; try congruence. now rewrite Hc.
Qed.
Lemma prv_with_prev h p n x : (p < length h)%nat -> prv (with_prev h p n) x = if decide (x = p) then n else prv h x.
Proof.
  intros [c Hc]%lookup_lt_is_Some_2. unfold prv, with_prev. rewrite list_lookup_alter. repeat case_decide; subst; try congruence. now rewrite Hc.
Qed.
Lemma nxt_with_prev h p n x : nxt (with_prev h p n) x = nxt h x.
Proof. unfold nxt, with_prev. rewrite list_lookup_alter. case_decide; [subst|reflexivity]. now destruct (h !! x). Qed.
Lemma prv_with_next h p n x : prv (with_next h p n) x = prv h x.
Proof. unfold prv, with_next. rewrite list_lookup_alter. case_decide; [subst|reflexivity]. now destruct (h !! x). Qed.

Lemma with_next_length h p n : length (with_next h p n) = length h.
Proof. apply length_alter. Qed.
Lemma with_prev_length h p n : length (with_prev h p n) = length h.
Proof. apply length_alter. Qed.
Lemma with_next_other h p n x : x <> p -> with_next h p n !! x = h !! x.
Proof. intros H. now apply list_lookup_alter_ne. Qed.
Lemma with_prev_other h p n x : x <> p -> with_prev h p n !! x = h !! x.
Proof. intros H. now apply list_lookup_alter_ne. Qed.

(** *** The search in a ring *)

Definition finds (h : Cells) (l : list nat) (target : nat) (r : option nat) : Prop :=
  match r with
  | Some c => c ∈ l /\ key h c = key h target
  | None => forall c, c ∈ l -> key h c <> key h target
  end.

Lemma linked_last h p z a : linked h (p ++ [z; a]) -> nxt h z = Some a /\ prv h a = Some z.
Proof. intros H. change (p ++ [z; a]) with (p ++ z :: [a]) in H. apply linked_app in H as [_ H]. cbn in H. tauto. Qed.

Lemma find_loop_spec h a target : good h target -> forall p x fuel,
  Forall (good h) (p ++ [x]) -> a ∉ p -> linked h (a :: p ++ [x]) -> (length p < fuel)%nat ->
  exists r, bucket_find_loop fuel a x target h = Ok r h /\ finds h (p ++ [x]) target r.
Proof.
  intros Ht. induction p as [|z p IH] using rev_ind; intros x fuel Hg Ha Hl Hf; (destruct fuel as [|fuel]; [lia|]); cbn [bucket_find_loop].
  - assert (good h x) as Hx by (now apply Forall_inv in Hg). rewrite (run_bind _ _ _ _ _ (same_id_run _ _ _ Hx Ht)).
    case_bool_decide as E; [exists (Some x); split; [reflexivity|split; [apply list_elem_of_singleton|]; auto]|].
    rewrite (run_bind _ _ _ _ _ (prev_run _ _ (good_lt _ _ Hx))). destruct (linked_last h [] a x Hl) as [_ ->]. rewrite bool_decide_true by reflexivity.
    exists None. split; [reflexivity|]. intros c ->%list_elem_of_singleton. exact E.
  - assert (good h x) as Hx by (apply Forall_app in Hg as [_ Hg]; now apply Forall_inv in Hg). rewrite (run_bind _ _ _ _ _ (same_id_run _ _ _ Hx Ht)).
    case_bool_decide as E; [exists (Some x); split; [reflexivity|split; [set_solver|auto]]|].
    rewrite (run_bind _ _ _ _ _ (prev_run _ _ (good_lt _ _ Hx))).
    rewrite <- app_assoc, app_comm_cons in Hl. change ([z] ++ [x]) with [z; x] in Hl.
    destruct (linked_last h (a :: p) z x Hl) as [_ ->]. rewrite bool_decide_false by (intros [= ->]; set_solver). cbv zeta.
    destruct (IH z fuel) as (r & Er & Hr).
    + now apply Forall_app in Hg as [Hg _].
    + set_solver.
    + change ((a :: p) ++ z :: [x]) with ((a :: p) ++ z :: [x]) in Hl. apply linked_app in Hl. apply Hl.
    + rewrite length_app in Hf. cbn in Hf. lia.
    + exists r. split; [rewrite run_must; exact Er|]. destruct r as [c|]; [destruct Hr; split; [set_solver|assumption]|].
      intros c [Hc|Hc]%elem_of_app; [now apply Hr|]. apply list_elem_of_singleton in Hc as ->. exact E.
Qed.

Lemma nodup_bound (l : list nat) n : NoDup l -> Forall (fun x => (x < n)%nat) l -> (length l <= n)%nat.
Proof.
  intros Hn H. transitivity (length (seq 0 n)); [|now rewrite length_seq]. apply submseteq_length, NoDup_submseteq; [exact Hn|].
  rewrite Forall_forall in H. intros x Hx. apply elem_of_seq. specialize (H x Hx). lia.
Qed.

(** A bucket over a ring. *)
Definition bucket_is (h : Cells) (b : TxCBBucket) (l : list nat) : Prop := head l = _txcbHead b /\ ring h l.

Lemma bucket_find_spec h b l target : bucket_is h b l -> good h target ->
  exists r, TxCBBucket_find b target h = Ok r h /\ finds h l target r.
Proof.
  intros [Hh (Hn & Hg & Hl)] Ht. unfold TxCBBucket_find. rewrite <- Hh. destruct l as [|a t]; cbn [head].
  { exists None. split; [reflexivity|]. intros c Hc. set_solver. }
  rewrite run_get. assert (good h a) as Ha by (now apply Forall_inv in Hg).
  assert (length (a :: t) <= length h)%nat as Hlen.
  { apply nodup_bound; [exact Hn|]. eapply Forall_impl; [exact Hg|]. intros x. apply good_lt. }
  destruct (length h) as [|n] eqn:En; [cbn in Hlen; lia|]. cbn [bucket_find_loop].
  rewrite (run_bind _ _ _ _ _ (same_id_run _ _ _ Ha Ht)). case_bool_decide as E; [exists (Some a); split; [reflexivity|split; [set_solver|exact E]]|].
  rewrite (run_bind _ _ _ _ _ (prev_run _ _ (good_lt _ _ Ha))). destruct t as [|x t _] using rev_ind.
  - destruct (linked_last h [] a a Hl) as [_ ->]. rewrite bool_decide_true by reflexivity. exists None. split; [reflexivity|].
    intros c ->%list_elem_of_singleton. exact E.
  - cbn [app] in Hl. rewrite <- app_assoc, app_comm_cons in Hl. destruct (linked_last h (a :: t) x a Hl) as [_ ->].
    apply NoDup_cons in Hn as [Hat Hn]. rewrite bool_decide_false by (intros [= ->]; set_solver). rewrite run_must.
    destruct (find_loop_spec h a target Ht t x n) as (r & Er & Hr).
    + now apply Forall_inv_tail in Hg.
    + set_solver.
    + change ((a :: t) ++ x :: [a]) with ((a :: t) ++ [x; a]) in Hl. apply (linked_app h (a :: t) x [a]) in Hl. apply Hl.
    + cbn [length] in Hlen. rewrite length_app in Hlen. cbn in Hlen. lia.
    + exists r. split; [exact Er|]. destruct r as [c|]; [destruct Hr; split; [set_solver|assumption]|].
      intros c [->|Hc]%elem_of_cons; [exact E|]. now apply Hr.
Qed.

(** ** Joining and leaving a ring *)

(** What may have changed: the links of some control blocks. *)
Definition frame (S : gset nat) (h h' : Cells) : Prop := same_data h h' /\ forall c, c ∉ S -> h' !! c = h !! c.

Lemma frame_refl S h : frame S h h.
Proof. split; [reflexivity|auto]. Qed.

Lemma frame_trans S T U h1 h2 h3 : S ⊆ U -> T ⊆ U -> frame S h1 h2 -> frame T h2 h3 -> frame U h1 h3.
Proof. intros HS HT [H1 H2] [H3 H4]. split; [now transitivity h2|]. intros c Hc. rewrite H4, H2 by set_solver. reflexivity. Qed.

Lemma frame_mono S U h h' : S ⊆ U -> frame S h h' -> frame U h h'.
Proof. intros HS [H1 H2]. split; [exact H1|]. intros c Hc. apply H2. set_solver. Qed.

Lemma frame_next h p n : frame {[p]} h (with_next h p n).
Proof. split; [apply with_next_data|]. intros c Hc. apply with_next_other. set_solver. Qed.
Lemma frame_prev h p n : frame {[p]} h (with_prev h p n).
Proof. split; [apply with_prev_data|]. intros c Hc. apply with_prev_other. set_solver. Qed.

Lemma frame_good S h h' c : frame S h h' -> good h' c <-> good h c.
Proof. intros [H _]. unfold good. now rewrite (same_data_key _ _ _ H). Qed.
Lemma frame_key S h h' c : frame S h h' -> key h' c = key h c.
Proof. intros [H _]. now apply same_data_key. Qed.
Lemma frame_goods S h h' l : frame S h h' -> Forall (good h) l -> Forall (good h') l.
Proof. intros H Hl. eapply Forall_impl; [exact Hl|]. intros c. now apply (frame_good _ _ _ _ H). Qed.

Lemma head_elem (l : list nat) a : head l = Some a -> a ∈ l.
Proof. destruct l; cbn; intros [= ->]. set_solver. Qed.

(** The heap after [target] has been put between [z] and [a]. *)
Definition join (h : Cells) (z target a : nat) : Cells :=
  with_next (with_prev (with_prev (with_next h target (Some a)) target (Some z)) a (Some target)) z (Some target).

Lemma join_frame h z target a : frame {[z; target; a]} h (join h z target a).
Proof.
  unfold join. eapply (frame_trans {[z; target; a]} {[z]}); [set_solver..| |apply frame_next].
  eapply (frame_trans {[z; target; a]} {[a]}); [set_solver..| |apply frame_prev].
  eapply (frame_trans {[target]} {[target]}); [set_solver..|apply frame_next|apply frame_prev].
Qed.

Lemma ring_join h l z a target : ring h (l ++ [z]) -> head (l ++ [z]) = Some a -> good h target -> target ∉ l ++ [z] ->
  ring (join h z target a) ((l ++ [z]) ++ [target]).
Proof.
  intros (Hn & Hg & Hl) Ha Ht Hni. pose proof (join_frame h z target a) as Hf.
  assert (z < length h /\ a < length h /\ target < length h)%nat as (Lz & La & Lt).
  { rewrite Forall_forall in Hg. repeat split; apply good_lt; [apply Hg; set_solver|apply Hg, head_elem, Ha|exact Ht]. }
  assert (forall x, nxt (join h z target a) x = if decide (x = z) then Some target else if decide (x = target) then Some a else nxt h x) as Nx.
  { intros x. unfold join. rewrite nxt_with_next by (now rewrite !with_prev_length, with_next_length). case_decide; [reflexivity|].
    rewrite !nxt_with_prev. now apply nxt_with_next. }
  assert (forall x, prv (join h z target a) x = if decide (x = a) then Some target else if decide (x = target) then Some z else prv h x) as Px.
  { intros x. unfold join. rewrite prv_with_next, prv_with_prev by (now rewrite with_prev_length, with_next_length). case_decide; [reflexivity|].
    rewrite prv_with_prev by (now rewrite with_next_length). case_decide; [reflexivity|]. apply prv_with_next. }
  split; [|split].
  - apply NoDup_app. repeat split; [exact Hn| |apply NoDup_singleton]. intros x Hx ->%list_elem_of_singleton. contradiction.
  - eapply frame_goods; [exact Hf|]. apply Forall_app; split; [exact Hg|]. now apply Forall_singleton.
  - assert (linked (join h z target a) [z; target; a]) as Hend.
    { cbn. rewrite !Nx, !Px. rewrite !(decide_True (P := z = z)), !(decide_True (P := a = a)) by reflexivity.
      rewrite (decide_False (P := target = z)), (decide_False (P := target = a)), !(decide_True (P := target = target)) by
        (reflexivity || (pose proof (head_elem _ _ Ha); intros ->; set_solver)). tauto. }
    assert (linked (join h z target a) (l ++ [z])) as Hbeg.
    { destruct l as [|y l]; [exact I|]. cbn [app head] in Ha. injection Ha as ->. cbn [app] in *.
      apply NoDup_cons in Hn as [Hal Hn]. apply NoDup_app in Hn as (Hn1 & Hn2 & _).
      rewrite <- app_assoc in Hl. change ([z] ++ [a]) with [z; a] in Hl. change (a :: l ++ [z; a]) with ((a :: l) ++ z :: [a]) in Hl. apply linked_app in Hl as [Hl _].
      eapply linked_ext; [exact Hl| |]; intros x Hx; [rewrite Nx|rewrite Px]; rewrite !decide_False; try reflexivity; intros ->; set_solver. }
    assert (exists l', l ++ [z] = a :: l') as [l' El] by (destruct (l ++ [z]) as [|y l']; cbn in Ha; [discriminate|injection Ha as ->; eauto]).
    rewrite El. cbn [app]. rewrite !app_comm_cons, <- El, <- !app_assoc. apply (linked_app _ l z [target; a]). split; [exact Hbeg|exact Hend].
Qed.

(** The heap after what lay between [z] and [n] has been taken out. *)
Definition leave (h : Cells) (z n : nat) : Cells := with_prev (with_next h z (Some n)) n (Some z).

Lemma leave_frame h z n : frame {[z; n]} h (leave h z n).
Proof. unfold leave. eapply (frame_trans {[z]} {[n]}); [set_solver..|apply frame_next|apply frame_prev]. Qed.

Lemma ring_leave h p z x q a n r :
  ring h (p ++ z :: x :: q) -> head (p ++ [z]) = Some a -> q ++ [a] = n :: r ->
  nxt h x = Some n /\ prv h x = Some z /\ ring (leave h z n) (p ++ z :: q).
Proof.
  intros (Hn & Hg & Hl) Ha Er. pose proof (leave_frame h z n) as Hf.
  assert (exists s, p ++ z :: x :: q = a :: s) as [s Es] by (destruct p; cbn in *; injection Ha as ->; eauto).
  rewrite Es in Hl. cbn [app] in Hl. rewrite app_comm_cons, <- Es, <- app_assoc in Hl. cbn [app] in Hl. rewrite Er in Hl.
  change (p ++ z :: x :: n :: r) with (p ++ z :: [x] ++ n :: r) in Hl. apply linked_app in Hl as [Hb Hl].
  cbn [app linked] in Hl. destruct Hl as (_ & Hzx & Hxn & _ & Hr). split; [exact Hxn|]. split; [exact Hzx|].
  assert (n ∈ q ++ [a]) as Hnq by (rewrite Er; set_solver). pose proof (head_elem _ _ Ha) as Hap.
  assert (forall y, y ∈ p ++ z :: x :: q -> (y < length h)%nat) as Hlt by (intros y Hy; rewrite Forall_forall in Hg; now apply good_lt, Hg).
  assert (z < length h /\ n < length h)%nat as [Lz Ln] by (split; apply Hlt; set_solver).
  assert (forall y, nxt (leave h z n) y = if decide (y = z) then Some n else nxt h y) as Ny.
  { intros y. unfold leave. rewrite nxt_with_prev. now apply nxt_with_next. }
  assert (forall y, prv (leave h z n) y = if decide (y = n) then Some z else prv h y) as Py.
  { intros y. unfold leave. rewrite prv_with_prev by (now rewrite with_next_length). case_decide; [reflexivity|]. apply prv_with_next. }
  assert (NoDup (p ++ [z]) /\ NoDup q /\ forall y, y ∈ p ++ [z] -> y ∉ q) as (Npz & Nq & Hpq).
  { replace (p ++ z :: x :: q) with ((p ++ [z]) ++ [x] ++ q) in Hn by (now rewrite <- app_assoc).
    apply NoDup_app in Hn as (H1 & H2 & H3). apply NoDup_app in H3 as (_ & _ & H3). repeat split; [exact H1|exact H3|].
    intros y Hy Hq. apply (H2 y Hy). set_solver. }
  assert (linked (leave h z n) (p ++ [z])) as Hbeg.
  { destruct p as [|y p]; [exact I|]. cbn [app head] in Ha. injection Ha as ->. cbn [app] in *.
    apply NoDup_cons in Npz as [Hal Npz]. apply NoDup_app in Npz as (_ & Npz & _).
    eapply linked_ext; [exact Hb| |]; intros y Hy; [rewrite Ny|rewrite Py]; rewrite decide_False; try reflexivity; intros ->; set_solver. }
  assert (linked (leave h z n) (n :: r)) as Hend.
  { destruct q as [|m q]; cbn [app] in Er; injection Er as -> <-; [exact I|].
    apply NoDup_cons in Nq as [Hmq Nq]. eapply linked_ext; [exact Hr| |]; intros y Hy; [rewrite Ny|rewrite Py]; rewrite decide_False; try reflexivity; intros ->; set_solver. }
  split; [|split].
  - replace (p ++ z :: q) with ((p ++ [z]) ++ q) by (now rewrite <- app_assoc). apply NoDup_app. repeat split; [exact Npz|exact Hpq|exact Nq].
  - eapply frame_goods; [exact Hf|]. rewrite Forall_forall in Hg |- *. intros y Hy. apply Hg. set_solver.
  - assert (exists s', p ++ z :: q = a :: s') as [s' Es'] by (destruct p; cbn in *; injection Ha as ->; eauto).
    rewrite Es'. cbn [app]. rewrite app_comm_cons, <- Es', <- app_assoc. cbn [app]. rewrite Er. apply linked_app. split; [exact Hbeg|].
    cbn [linked]. rewrite Ny, Py, !decide_True by reflexivity. repeat split; exact Hend.
Qed.

(** ** Tables as sets of control blocks *)

(** Control blocks that a table of layer [l] can hold: their ids differ, but not before that layer. *)
Record set_ok (h : Cells) (l : nat) (S : gset nat) : Prop := {
  so_good : forall x, x ∈ S -> good h x;
  so_inj : forall x y, x ∈ S -> y ∈ S -> key h x = key h y -> x = y;
  so_nibs : forall x y m, x ∈ S -> y ∈ S -> (m < l)%nat -> nib m (key h x) = nib m (key h y);
}.

(** Those of them below place [i]. *)
Definition below (h : Cells) (l i : nat) (S : gset nat) : gset nat := filter (fun x => nib l (key h x) = i) S.

(** What a table holds; [d] layers are left. *)
Fixpoint holds (d : nat) (h : Cells) (l : nat) (t : TxCBTable) (S : gset nat) : Prop :=
  match d with
  | O => False
  | Datatypes.S d' =>
      _layer t = Z.of_nat l /\ length (_containerArray t) = 16%nat /\
      forall i c, _containerArray t !! i = Some c ->
        match c with
        | inr b => _bucketSymbol b = Z.of_nat i /\ exists r, bucket_is h b r /\ list_to_set r = below h l i S
        | inl t' => holds d' h (Datatypes.S l) t' (below h l i S)
        end
  end.

Lemma elem_of_below h l i S x : x ∈ below h l i S <-> nib l (key h x) = i /\ x ∈ S.
Proof. unfold below. now rewrite elem_of_filter. Qed.

Lemma below_ok h l i S : set_ok h l S -> set_ok h (Datatypes.S l) (below h l i S).
Proof.
  intros [H1 H2 H3]. split.
  - intros x [_ Hx]%elem_of_below. auto.
  - intros x y [_ Hx]%elem_of_below [_ Hy]%elem_of_below. auto.
  - intros x y m [Ex Hx]%elem_of_below [Ey Hy]%elem_of_below Hm. destruct (decide (m = l)) as [->|]; [congruence|]. apply H3; [assumption..|lia].
Qed.

Lemma set_ok_subset h l S T : T ⊆ S -> set_ok h l S -> set_ok h l T.
Proof. intros HT [H1 H2 H3]. split; intros; [apply H1|apply H2|apply H3]; auto. Qed.

Lemma set_ok_frame U h h' l S : frame U h h' -> set_ok h l S -> set_ok h' l S.
Proof.
  intros Hf [H1 H2 H3]. split.
  - intros x Hx. now apply (frame_good _ _ _ _ Hf), H1.
  - intros x y Hx Hy. rewrite !(frame_key _ _ _ _ Hf). now apply H2.
  - intros x y m Hx Hy Hm. rewrite !(frame_key _ _ _ _ Hf). now apply H3.
Qed.

Lemma key_ext h h' x : h' !! x = h !! x -> key h' x = key h x.
Proof. intros H. unfold key. now rewrite H. Qed.

Lemma below_ext h h' l i S : (forall x, x ∈ S -> key h' x = key h x) -> below h' l i S = below h l i S.
Proof. intros H. apply set_eq. intros x. rewrite !elem_of_below. split; intros [E Hx]; (split; [|exact Hx]); [rewrite <- H by exact Hx|rewrite H by exact Hx]; exact E. Qed.

Lemma bucket_ext h h' b r : bucket_is h b r -> (forall x, x ∈ r -> h' !! x = h !! x) -> bucket_is h' b r.
Proof. intros [H1 H2] H. split; [exact H1|]. eapply ring_ext; [exact H2|exact H]. Qed.

Lemma holds_ext d : forall h h' l t S, holds d h l t S -> (forall x, x ∈ S -> h' !! x = h !! x) -> holds d h' l t S.
Proof.
  induction d as [|d IH]; intros h h' l t S; [intros []|]. cbn [holds]. intros (Hl & Hn & H) He. split; [exact Hl|]. split; [exact Hn|].
  intros i c Hc. pose proof (H i c Hc) as Hi. rewrite (below_ext h h') by (intros x Hx; now apply key_ext, He).
  assert (forall x, x ∈ below h l i S -> h' !! x = h !! x) as He' by (intros x [_ Hx]%elem_of_below; auto).
  destruct c as [t'|b]; [eapply IH; [exact Hi|exact He']|]. destruct Hi as (Hs & r & Hr & Er). split; [exact Hs|]. exists r. split; [|exact Er].
  eapply bucket_ext; [exact Hr|]. intros x Hx. apply He'. rewrite <- Er. now apply elem_of_list_to_set.
Qed.

(** A new table. *)
Lemma holds_new d h l : holds (S d) h l (TxCBTable_new (Z.of_nat l)) ∅.
Proof.
  cbn [holds]. split; [reflexivity|]. split; [reflexivity|]. intros i c Hc. unfold TxCBTable_new in Hc. cbn [_containerArray] in Hc.
  rewrite list_lookup_fmap in Hc. apply fmap_Some in Hc as (j & Hj & ->). apply lookup_seq in Hj as [-> _].
  split; [reflexivity|]. exists []. split; [split; [reflexivity|split; [constructor|split; [constructor|exact I]]]|].
  unfold below. apply set_eq. intros x. rewrite elem_of_filter. set_solver.
Qed.

(** Replacing one container. *)
Lemma container_set t i c : length (_containerArray t) = 16%nat -> (i < 16)%nat ->
  length (_containerArray (txContainer (Z.of_nat i) c t)) = 16%nat /\ _layer (txContainer (Z.of_nat i) c t) = _layer t /\
  forall j, _containerArray (txContainer (Z.of_nat i) c t) !! j = if decide (j = i) then Some c else _containerArray t !! j.
Proof.
  intros Hn Hi. unfold txContainer. rewrite Hn, (proj2 (Z.leb_gt _ _)), Nat2Z.id by lia. cbn [_containerArray _layer].
  rewrite length_insert. repeat split; [exact Hn|]. intros j. case_decide as E; [subst j; apply list_lookup_insert_eq; lia|].
  now apply list_lookup_insert_ne.
Qed.

(** The table after what is below place [i] has changed. *)
Lemma holds_update d h h' l t T U S S' i c :
  holds (Datatypes.S d) h l t S -> (i < 16)%nat -> frame U h h' ->
  (forall x, x ∈ U -> nib l (key h x) = i) -> (forall x, nib l (key h x) <> i -> x ∈ S' <-> x ∈ S) ->
  _layer T = Z.of_nat l -> length (_containerArray T) = 16%nat ->
  (forall j, _containerArray T !! j = if decide (j = i) then Some c else _containerArray t !! j) ->
  match c with
  | inr b => _bucketSymbol b = Z.of_nat i /\ exists r, bucket_is h' b r /\ list_to_set r = below h l i S'
  | inl t' => holds d h' (Datatypes.S l) t' (below h l i S')
  end -> holds (Datatypes.S d) h' l T S'.
Proof.
  intros (Hl & Hn & H) Hi Hf HU HS TL TN TC Hc. cbn [holds]. split; [exact TL|]. split; [exact TN|]. intros j c' Hj. rewrite TC in Hj.
  rewrite (below_ext h h') by (intros x _; apply (frame_key _ _ _ _ Hf)).
  case_decide as E; [subst j; injection Hj as <-; exact Hc|]. pose proof (H j c' Hj) as Hjc.
  assert (below h l j S' = below h l j S) as -> by (apply set_eq; intros x; rewrite !elem_of_below; split; intros [Ex Hx]; (split; [exact Ex|]); apply HS; congruence || exact Hx).
  assert (forall x, x ∈ below h l j S -> h' !! x = h !! x) as He.
  { intros x [Ex _]%elem_of_below. apply Hf. intros Hx. apply HU in Hx. congruence. }
  destruct c' as [t'|b]; [eapply holds_ext; [exact Hjc|exact He]|]. destruct Hjc as (Hs & r & Hr & Er). split; [exact Hs|]. exists r. split; [|exact Er].
  eapply bucket_ext; [exact Hr|]. intros x Hx. apply He. rewrite <- Er. now apply elem_of_list_to_set.
Qed.

(** ** Adding *)

(** What adding a new control block to a table of layer [l] does. *)
Definition adds (d l : nat) (table_add : TxCBTable -> nat -> prog Cells (Z * TxCBTable)) : Prop :=
  forall h t S target, holds d h l t S -> set_ok h l ({[target]} ∪ S) -> target ∉ S ->
  exists t' h', table_add t target h = Ok (0, t') h' /\ holds d h' l t' ({[target]} ∪ S) /\ frame ({[target]} ∪ S) h h'.

(** The next pointers of a list. *)
Fixpoint nexts (h : Cells) (l : list nat) : Prop :=
  match l with
  | a :: ((b :: _) as l') => nxt h a = Some b /\ nexts h l'
  | _ => True
  end.

Lemma linked_nexts h l : linked h l -> nexts h l.
Proof. induction l as [|a [|b l] IH]; [exact (fun _ => I)..|]. intros (H1 & _ & H). split; [exact H1|]. apply IH. exact H. Qed.

Lemma nexts_ext h h' l z : nexts h (l ++ [z]) -> (forall x, x ∈ l -> h' !! x = h !! x) -> nexts h' (l ++ [z]).
Proof.
  induction l as [|a l IH]; [cbn; tauto|]. intros H He. cbn [app] in *. destruct (l ++ [z]) as [|b l'] eqn:E; [exact I|].
  destruct H as [H1 H2]. split; [unfold nxt in *; now rewrite He by set_solver|]. apply IH; [exact H2|]. intros x Hx. apply He. set_solver.
Qed.

Lemma scale_loop_spec d l ta head : adds d l ta -> forall rest cur done T h fuel,
  nexts h ((cur :: rest) ++ [head]) -> holds d h l T done -> NoDup (cur :: rest) -> (forall x, x ∈ cur :: rest -> x ∉ done) ->
  set_ok h l (done ∪ list_to_set (cur :: rest)) -> head ∉ rest -> (length rest < fuel)%nat ->
  exists T' h', scale_loop ta fuel head cur T h = Ok T' h' /\ holds d h' l T' (done ∪ list_to_set (cur :: rest)) /\
    frame (done ∪ list_to_set (cur :: rest)) h h'.
Proof.
  intros Hta. induction rest as [|n rest IH]; intros cur done T h fuel Hx HT Hnd Hdis Hok Hhd Hf; (destruct fuel as [|fuel]; [cbn in Hf; lia|]); cbn [scale_loop].
  all: assert (cur < length h)%nat as Lc by (apply good_lt, (so_good _ _ _ Hok); set_solver).
  all: rewrite (run_bind _ _ _ _ _ (next_run _ _ Lc)).
  all: destruct (Hta h T done cur HT) as (T1 & h1 & E1 & H1 & F1); [eapply set_ok_subset; [|exact Hok]; set_solver|set_solver|].
  all: rewrite (run_bind _ _ _ _ _ E1); cbn [snd].
  - cbn in Hx. destruct Hx as [-> _]. rewrite bool_decide_true by reflexivity. exists T1, h1.
    replace (done ∪ list_to_set [cur]) with ({[cur]} ∪ done) by set_solver. auto.
  - cbn [app nexts] in Hx. destruct Hx as [-> Hx]. rewrite bool_decide_false by (intros [= ->]; set_solver). rewrite run_must.
    apply NoDup_cons in Hnd as [Hc Hnd]. assert (frame (done ∪ list_to_set (cur :: n :: rest)) h h1) as F1' by (eapply frame_mono; [|exact F1]; set_solver).
    destruct (IH n ({[cur]} ∪ done) T1 h1 fuel) as (T2 & h2 & E2 & H2 & F2).
    + eapply nexts_ext; [exact Hx|]. intros x Hx'. apply F1. set_solver.
    + exact H1.
    + exact Hnd.
    + set_solver.
    + replace ({[cur]} ∪ done ∪ list_to_set (n :: rest)) with (done ∪ list_to_set (cur :: n :: rest)) by set_solver.
      eapply set_ok_frame; [exact F1|exact Hok].
    + set_solver.
    + cbn in Hf. lia.
    + exists T2, h2. replace (done ∪ list_to_set (cur :: n :: rest)) with ({[cur]} ∪ done ∪ list_to_set (n :: rest)) by set_solver.
      split; [exact E2|]. split; [exact H2|]. eapply frame_trans; [| |exact F1|exact F2]; set_solver.
Qed.

Lemma ring_nexts h a r : ring h (a :: r) -> nexts h ((a :: r) ++ [a]).
Proof. intros (_ & _ & H). now apply linked_nexts. Qed.

Lemma ring_bound h r : ring h r -> (length r <= length h)%nat.
Proof. intros (Hn & Hg & _). apply nodup_bound; [exact Hn|]. eapply Forall_impl; [exact Hg|]. intros x. apply good_lt. Qed.

(** Control blocks that share all 40 halves of bytes are the same. *)
Lemma set_ok_bottom h S x y : set_ok h 40 S -> x ∈ S -> y ∈ S -> x = y.
Proof.
  intros H Hx Hy. apply (so_inj _ _ _ H); [assumption..|]. apply same_nibs; [now apply (so_good _ _ _ H)..|]. intros m Hm. now apply (so_nibs _ _ _ H).
Qed.

(** A new control block in an empty ring. *)
Definition alone (h : Cells) (target : nat) : Cells := with_next (with_prev h target (Some target)) target (Some target).

Lemma ring_alone h target : good h target -> ring (alone h target) [target] /\ frame {[target]} h (alone h target).
Proof.
  intros Ht. pose proof (good_lt _ _ Ht) as Lt.
  assert (frame {[target]} h (alone h target)) as F by (unfold alone; eapply (frame_trans {[target]} {[target]}); [set_solver..|apply frame_prev|apply frame_next]).
  split; [|exact F]. split; [apply NoDup_singleton|]. split; [apply Forall_singleton; now apply (frame_good _ _ _ _ F)|].
  cbn. unfold alone. rewrite nxt_with_next by (now rewrite with_prev_length). rewrite prv_with_next, prv_with_prev by exact Lt. rewrite !decide_True by reflexivity. auto.
Qed.

(** The neighbours of the ends of a ring. *)
Lemma ring_ends h r a hd : ring h (r ++ [a]) -> head (r ++ [a]) = Some hd ->
  nxt h a = Some hd /\ prv h hd = Some a /\ (a < length h)%nat /\ (hd < length h)%nat.
Proof.
  intros (_ & Hg & Hl) Ehd. assert (exists s, r ++ [a] = hd :: s) as [s Es] by (destruct r; cbn in *; injection Ehd as ->; eauto).
  rewrite Es in Hl. cbn [app] in Hl. rewrite app_comm_cons, <- Es, <- app_assoc in Hl. destruct (linked_last h r a hd Hl) as [Hn Hp].
  rewrite Forall_forall in Hg. repeat split; [exact Hn|exact Hp|apply good_lt, Hg; set_solver|apply good_lt, Hg, head_elem, Ehd].
Qed.

(** Moving a whole ring to a new table. *)
Lemma scale_up_spec d l ta h hd r : adds d (Datatypes.S l) ta -> (exists d', d = Datatypes.S d') -> ring h r -> head r = Some hd ->
  set_ok h (Datatypes.S l) (list_to_set r) ->
  exists T h', autoScaleUp ta (Z.of_nat l) hd h = Ok T h' /\ holds d h' (Datatypes.S l) T (list_to_set r) /\ frame (list_to_set r) h h'.
Proof.
  intros Hta [d' ->] Hr Ehd Hok. destruct r as [|a r]; [discriminate|]. injection Ehd as ->. unfold autoScaleUp. rewrite run_get.
  pose proof (ring_bound _ _ Hr) as Hb. pose proof (proj1 Hr) as Hn.
  replace (Z.of_nat l + 1) with (Z.of_nat (Datatypes.S l)) by lia.
  destruct (scale_loop_spec _ _ _ hd Hta r hd ∅ (TxCBTable_new (Z.of_nat (Datatypes.S l))) h (length h)) as (T & h' & E & HT & F).
  - now apply ring_nexts.
  - apply holds_new.
  - exact Hn.
  - set_solver.
  - now rewrite union_empty_l_L.
  - now apply NoDup_cons in Hn as [? _].
  - cbn in Hb. lia.
  - rewrite union_empty_l_L in HT, F. eauto.
Qed.

Lemma bucket_add_spec d l ta h b r target :
  (d + l = 39)%nat -> adds d (Datatypes.S l) ta -> bucket_is h b r -> target ∉ r -> set_ok h (Datatypes.S l) ({[target]} ∪ list_to_set r) ->
  exists h' b' up, TxCBBucket_add ta (Z.of_nat l) b target h = Ok (0, b', up) h' /\ _bucketSymbol b' = _bucketSymbol b /\
    (_txCount b' = _txCount b + 1 /\ (_txCount b + 1 < DEFAULT_SCALE_SIZE -> up = None)) /\
    frame ({[target]} ∪ list_to_set r) h h' /\
    match up with
    | None => bucket_is h' b' (r ++ [target])
    | Some T => holds d h' (Datatypes.S l) T ({[target]} ∪ list_to_set r)
    end.
Proof.
  intros Hd Hta Hb Hni Hok. assert (good h target) as Ht by (apply (so_good _ _ _ Hok); set_solver). pose proof (good_lt _ _ Ht) as Lt.
  destruct (bucket_find_spec h b r target Hb Ht) as (f & Ef & Hf). unfold TxCBBucket_add. rewrite (run_bind _ _ _ _ _ Ef).
  destruct f as [c|].
  { destruct Hf as [Hc Hk]. assert (c = target) as -> by (apply (so_inj _ _ _ Hok); set_solver). contradiction. }
  destruct Hb as [Hh Hr]. rewrite <- Hh. destruct r as [|a r _] using rev_ind.
  - cbn [head]. rewrite (run_bind _ _ _ _ _ (put_run _ _ _ Lt)).
    rewrite (run_bind _ _ _ tt (alone h target)) by (unfold alone, with_prev; apply put_run; now rewrite length_alter).
    destruct (ring_alone h target Ht) as [Hr' F]. eexists _, _, None. split; [reflexivity|]. split; [reflexivity|].
    split; [split; reflexivity|]. split; [eapply frame_mono; [|exact F]; set_solver|]. split; [reflexivity|exact Hr'].
  - destruct (head (r ++ [a])) as [hd|] eqn:Ehd; [|destruct r; discriminate].
    destruct (ring_ends _ _ _ _ Hr Ehd) as (Na & Pa & La & Lh). assert (a <> target) as Hat by set_solver.
    rewrite (run_bind _ _ _ _ _ (prev_run _ _ Lh)), Pa, run_must, (run_bind _ _ _ _ _ (next_run _ _ La)), Na, (run_bind _ _ _ _ _ (put_run _ _ _ Lt)).
    rewrite (run_bind _ _ _ _ _ (put_run _ _ _ ltac:(rewrite length_alter; exact Lt))).
    fold (with_next h target (Some hd)). fold (with_prev (with_next h target (Some hd)) target (Some a)).
    rewrite (run_bind _ _ _ _ _ (next_run _ a ltac:(rewrite with_prev_length, with_next_length; exact La))), nxt_with_prev, nxt_with_next, decide_False, Na, run_must by (exact Lt || exact Hat).
    rewrite (run_bind _ _ _ _ _ (put_run _ _ _ ltac:(rewrite with_prev_length, with_next_length; exact Lh))).
    rewrite (run_bind _ _ _ _ _ (put_run _ _ _ ltac:(rewrite length_alter, with_prev_length, with_next_length; exact La))).
    fold (with_prev (with_prev (with_next h target (Some hd)) target (Some a)) hd (Some target)).
    fold (with_next (with_prev (with_prev (with_next h target (Some hd)) target (Some a)) hd (Some target)) a (Some target)).
    fold (join h a target hd). cbn [_txCount].
    pose proof (ring_join h r a hd target Hr Ehd Ht Hni) as Hj.
    assert (frame ({[target]} ∪ list_to_set (r ++ [a])) h (join h a target hd)) as Fj.
    { eapply frame_mono; [|apply join_frame]. pose proof (head_elem _ _ Ehd). set_solver. }
    destruct (Z.leb_spec DEFAULT_SCALE_SIZE (_txCount b + 1)).
    + destruct (scale_up_spec d l ta (join h a target hd) hd ((r ++ [a]) ++ [target])) as (T & h' & E & HT & F).
      * exact Hta.
      * destruct d; [|eauto]. replace l with 39%nat in Hok by lia. exfalso. apply Hat, (set_ok_bottom _ _ _ _ Hok); set_solver.
      * exact Hj.
      * destruct r; cbn in *; exact Ehd.
      * replace (list_to_set ((r ++ [a]) ++ [target])) with (({[target]} : gset nat) ∪ list_to_set (r ++ [a])) by set_solver. eapply set_ok_frame; [exact Fj|exact Hok].
      * replace (list_to_set ((r ++ [a]) ++ [target])) with (({[target]} : gset nat) ∪ list_to_set (r ++ [a])) in * by set_solver.
        rewrite (run_bind _ _ _ _ _ E). eexists _, _, (Some T). split; [reflexivity|]. split; [reflexivity|]. split; [split; [reflexivity|lia]|]. split; [|exact HT].
        eapply frame_trans; [| |exact Fj|exact F]; set_solver.
    + eexists _, _, None. split; [reflexivity|]. split; [reflexivity|]. split; [split; reflexivity|]. split; [exact Fj|]. split; [|exact Hj].
      destruct r; cbn in *; exact Ehd.
Qed.

(** The container that an id leads to. *)
Lemma holds_container d h l t S target : holds d h l t S -> (d + l = 40)%nat -> good h target ->
  exists d' c, d = Datatypes.S d' /\ targetSymbol (_layer t) target h = Ok (Z.of_nat (nib l (key h target))) h /\
    _containerArray t !! nib l (key h target) = Some c /\
    match c with
    | inr b => _bucketSymbol b = Z.of_nat (nib l (key h target)) /\ exists r, bucket_is h b r /\ list_to_set r = below h l (nib l (key h target)) S
    | inl t' => holds d' h (Datatypes.S l) t' (below h l (nib l (key h target)) S)
    end.
Proof.
  intros H Hd Ht. destruct d as [|d]; [destruct H|]. destruct H as (Hl & Hn & H). pose proof (nib_range l (key h target)) as Hr.
  destruct (lookup_lt_is_Some_2 (_containerArray t) (nib l (key h target)) ltac:(lia)) as [c Hc]. exists d, c. split; [reflexivity|].
  split; [rewrite Hl; apply targetSymbol_run; [exact Ht|lia]|]. split; [exact Hc|exact (H _ _ Hc)].
Qed.

Lemma below_add h l target S : below h l (nib l (key h target)) ({[target]} ∪ S) = {[target]} ∪ below h l (nib l (key h target)) S.
Proof. apply set_eq. intros x. rewrite elem_of_union, !elem_of_below, elem_of_union, elem_of_singleton. split; [tauto|]. intros [->|]; tauto. Qed.

Lemma below_subset h l i S : below h l i S ⊆ S.
Proof. intros x [_ Hx]%elem_of_below. exact Hx. Qed.

Lemma table_add_spec d : forall fuel l, (d + l = 40)%nat -> (d <= fuel)%nat -> adds d l (TxCBTable_add fuel).
Proof.
  induction d as [|d IH]; intros fuel l Hd Hf h t S target HT Hok Hni; [destruct HT|]. destruct fuel as [|fuel]; [lia|]. cbn [TxCBTable_add].
  assert (good h target) as Ht by (apply (so_good _ _ _ Hok); set_solver).
  destruct (holds_container _ _ _ _ _ _ HT Hd Ht) as (d' & c & [= <-] & Es & Ec & Hc). pose proof (below_ok h l (nib l (key h target)) _ Hok) as Hok'. rewrite below_add in Hok'.
  set (i := nib l (key h target)) in *. rewrite (run_bind _ _ _ _ _ Es), Nat2Z.id, Ec, run_must. destruct HT as (Hl & Hn & HT). assert (holds (Datatypes.S d) h l t S) as HT0 by (repeat split; assumption).
  assert (target ∉ below h l i S) as Hni' by (intros ?%below_subset; contradiction). pose proof (nib_range l (key h target)) as Hi.
  assert (forall x, nib l (key h x) <> i -> x ∈ {[target]} ∪ S <-> x ∈ S) as HS.
  { intros x Hx. rewrite elem_of_union, elem_of_singleton. split; [intros [->|]; [now destruct Hx|assumption]|auto]. }
  assert (forall x, x ∈ {[target]} ∪ below h l i S -> nib l (key h x) = i) as HU.
  { intros x [->%elem_of_singleton|[E _]%elem_of_below]%elem_of_union; [reflexivity|exact E]. }
  assert (({[target]} : gset nat) ∪ below h l i S ⊆ {[target]} ∪ S) as Hsub by (pose proof (below_subset h l i S); set_solver).
  destruct c as [t'|b].
  - destruct (IH fuel (Datatypes.S l) ltac:(lia) ltac:(lia) h t' _ target Hc Hok' Hni') as (T & h' & E & HT' & F).
    rewrite (run_bind _ _ _ _ _ E). destruct (container_set t i (inl T) Hn Hi) as (N1 & N2 & N3).
    eexists _, h'. split; [reflexivity|]. split; [|eapply frame_mono; [exact Hsub|exact F]].
    eapply (holds_update d h h' l t _ _ S _ i (inl T)); [exact HT0|exact Hi|exact F|exact HU|exact HS|congruence|exact N1|exact N3|].
    unfold i. rewrite below_add. exact HT'.
  - destruct Hc as (Hsym & r & Hb & Er). rewrite <- Er in Hok', Hni', HU, Hsub.
    destruct (bucket_add_spec d l (TxCBTable_add fuel) h b r target) as (h' & b' & up & E & Hsym' & _ & F & Hup).
    + lia.
    + apply IH; lia.
    + exact Hb.
    + intros Hx. apply Hni'. now apply elem_of_list_to_set.
    + exact Hok'.
    + rewrite Hl, (run_bind _ _ _ _ _ E). cbv beta iota zeta.
      destruct (container_set t i (inr b') Hn Hi) as (N1 & N2 & N3). unfold bucketSymbolToIndex. rewrite Hsym', Hsym.
      eexists _, h'. split; [reflexivity|]. split; [|eapply frame_mono; [exact Hsub|exact F]]. destruct up as [T|].
      * destruct (container_set (txContainer (Z.of_nat i) (inr b') t) i (inl T) N1 Hi) as (M1 & M2 & M3).
        eapply (holds_update d h h' l t _ _ S _ i (inl T)); [exact HT0|exact Hi|exact F|exact HU|exact HS|congruence|exact M1| |].
        { intros j. rewrite M3. case_decide; [reflexivity|]. rewrite N3. now rewrite decide_False. }
        unfold i. rewrite below_add. fold i. rewrite <- Er. exact Hup.
      * eapply (holds_update d h h' l t _ _ S _ i (inr b')); [exact HT0|exact Hi|exact F|exact HU|exact HS|congruence|exact N1|exact N3|].
        split; [congruence|]. exists (r ++ [target]). split; [exact Hup|]. unfold i. rewrite below_add. fold i. rewrite <- Er. set_solver.
Qed.

(** Adding a control block whose id is there already. *)
Lemma table_add_again d : forall fuel l h t S c target, (d + l = 40)%nat -> (d <= fuel)%nat ->
  holds d h l t S -> good h target -> c ∈ S -> key h c = key h target ->
  exists t', TxCBTable_add fuel t target h = Ok (-1, t') h /\ holds d h l t' S.
Proof.
  induction d as [|d IH]; intros fuel l h t S c target Hd Hf HT Ht Hc Hk; [destruct HT|]. destruct fuel as [|fuel]; [lia|]. cbn [TxCBTable_add].
  destruct (holds_container _ _ _ _ _ _ HT Hd Ht) as (d' & k & [= <-] & Es & Ec & Hkc).
  assert (c ∈ below h l (nib l (key h target)) S) as Hcb by (apply elem_of_below; split; [now rewrite Hk|exact Hc]).
  pose proof (nib_range l (key h target)) as Hi. set (i := nib l (key h target)) in *.
  rewrite (run_bind _ _ _ _ _ Es), Nat2Z.id, Ec, run_must. assert (HT0 := HT). destruct HT0 as (Hl & Hn & _).
  assert (forall k, match k with
    | inr b => _bucketSymbol b = Z.of_nat i /\ exists r, bucket_is h b r /\ list_to_set r = below h l i S
    | inl t' => holds d h (Datatypes.S l) t' (below h l i S) end -> holds (Datatypes.S d) h l (txContainer (Z.of_nat i) k t) S) as Hsame.
  { intros k' Hk'. destruct (container_set t i k' Hn Hi) as (N1 & N2 & N3).
    eapply (holds_update d h h l t _ ∅ S S i k'); [exact HT|exact Hi|apply frame_refl|set_solver|tauto|congruence|exact N1|exact N3|exact Hk']. }
  destruct k as [t'|b].
  - destruct (IH fuel (Datatypes.S l) h t' _ c target ltac:(lia) ltac:(lia) Hkc Ht Hcb Hk) as (T & E & HT').
    rewrite (run_bind _ _ _ _ _ E). eexists. split; [reflexivity|]. now apply (Hsame (inl T)).
  - destruct Hkc as (Hsym & r & Hb & Er). destruct (bucket_find_spec h b r target Hb Ht) as (f & Ef & Hfind).
    destruct f as [c'|]; [|exfalso; apply (Hfind c); [|exact Hk]; rewrite <- (elem_of_list_to_set (C := gset nat)), Er; exact Hcb].
    rewrite (run_bind _ _ h (-1, b, None) h) by (unfold TxCBBucket_add; now rewrite (run_bind _ _ _ _ _ Ef)).
    eexists. split; [reflexivity|]. apply (Hsame (inr b)). split; [exact Hsym|]. eauto.
Qed.

(** ** Finding *)

Definition finds_in (h : Cells) (S : gset nat) (target : nat) (r : option nat) : Prop :=
  match r with
  | Some c => c ∈ S /\ key h c = key h target
  | None => forall c, c ∈ S -> key h c <> key h target
  end.

Lemma finds_below h l S target r : finds_in h (below h l (nib l (key h target)) S) target r -> finds_in h S target r.
Proof.
  destruct r as [c|]; cbn.
  - intros [H Hk]. split; [now apply below_subset in H|exact Hk].
  - intros H c Hc Hk. apply (H c); [|exact Hk]. apply elem_of_below. split; [now rewrite Hk|exact Hc].
Qed.

Lemma finds_ring h r S target f : list_to_set r = S -> finds h r target f -> finds_in h S target f.
Proof.
  intros <-. destruct f as [c|]; cbn; [intros [H Hk]; split; [now apply elem_of_list_to_set|exact Hk]|].
  intros H c Hc. apply H. now apply elem_of_list_to_set in Hc.
Qed.

Lemma table_find_spec d : forall fuel l h t S target, (d + l = 40)%nat -> (d <= fuel)%nat -> holds d h l t S -> good h target ->
  exists r, TxCBTable_find fuel t target h = Ok r h /\ finds_in h S target r.
Proof.
  induction d as [|d IH]; intros fuel l h t S target Hd Hf HT Ht; [destruct HT|]. destruct fuel as [|fuel]; [lia|]. cbn [TxCBTable_find].
  destruct (holds_container _ _ _ _ _ _ HT Hd Ht) as (d' & k & [= <-] & Es & Ec & Hkc).
  rewrite (run_bind _ _ _ _ _ Es), Nat2Z.id, Ec, run_must. destruct k as [t'|b].
  - destruct (IH fuel (Datatypes.S l) h t' _ target ltac:(lia) ltac:(lia) Hkc Ht) as (r & E & Hr). exists r. split; [exact E|]. now apply finds_below in Hr.
  - destruct Hkc as (_ & r & Hb & Er). destruct (bucket_find_spec h b r target Hb Ht) as (f & Ef & Hfind). exists f. split; [exact Ef|].
    eapply finds_below, finds_ring; [exact Er|exact Hfind].
Qed.

(** ** Removing *)

Lemma bucket_remove_spec h b r target : bucket_is h b r -> good h target ->
  exists f b' h', TxCBBucket_remove b target h = Ok b' h' /\ finds h r target f /\ _bucketSymbol b' = _bucketSymbol b /\
    frame (list_to_set r) h h' /\
    exists r', bucket_is h' b' r' /\
      (list_to_set r' : gset nat) = match f with
                   | None => list_to_set r
                   | Some c => if decide (_txcbHead b = Some c) then ∅ else list_to_set r ∖ {[c]}
                   end.
Proof.
  intros Hb Ht. destruct (bucket_find_spec h b r target Hb Ht) as (f & Ef & Hf). unfold TxCBBucket_remove. rewrite (run_bind _ _ _ _ _ Ef).
  exists f. destruct f as [c|]; [|exists b, h; split; [reflexivity|]; split; [exact Hf|]; split; [reflexivity|]; split; [apply frame_refl|eauto]].
  destruct Hf as [Hc Hk]. destruct Hb as [Hh Hr]. assert (Hr' := Hr). destruct Hr' as (Hn & Hg & Hl).
  assert (c < length h)%nat as Lc by (rewrite Forall_forall in Hg; now apply good_lt, Hg).
  rewrite (run_bind _ _ _ _ _ (next_run _ _ Lc)), (run_bind _ _ _ _ _ (prev_run _ _ Lc)).
  case_decide as Ed.
  - rewrite bool_decide_true by exact Ed. cbn [orb]. eexists _, h. split; [reflexivity|]. split; [split; [exact Hc|exact Hk]|]. split; [reflexivity|]. split; [apply frame_refl|]. exists [].
    split; [|reflexivity]. split; [reflexivity|]. repeat split; constructor.
  - rewrite bool_decide_false by exact Ed. rewrite <- Hh in Ed. apply list_elem_of_split in Hc as (p & q & ->).
    destruct p as [|z p _] using rev_ind; [contradiction|]. rewrite <- app_assoc in *. cbn [app] in *.
    destruct (head (p ++ [z])) as [a|] eqn:Ea; [|destruct p; discriminate].
    destruct (q ++ [a]) as [|n s] eqn:Er; [destruct q; discriminate|].
    destruct (ring_leave h p z c q a n s Hr Ea Er) as (Nc & Pc & Hr2).
    assert (n ∈ q ++ [a]) as Hnq by (rewrite Er; set_solver). pose proof (head_elem _ _ Ea) as Hap.
    assert (z <> c /\ n <> c /\ c ∉ p ++ [z] /\ c ∉ q) as (Zc & Nnc & Cp & Cq).
    { replace (p ++ z :: c :: q) with ((p ++ [z]) ++ c :: q) in Hn by (now rewrite <- app_assoc).
      apply NoDup_app in Hn as (_ & H2 & H3). apply NoDup_cons in H3 as [H3 _]. assert (c ∉ p ++ [z]) as Hcp by (intros Hx; apply (H2 c Hx); set_solver).
      repeat split; [set_solver| |exact Hcp|exact H3]. intros ->. apply elem_of_app in Hnq as [?| ->%list_elem_of_singleton]; contradiction. }
    assert (z < length h /\ n < length h)%nat as [Lz Ln].
    { rewrite Forall_forall in Hg. split; apply good_lt, Hg; [set_solver|]. set_solver. }
    rewrite Nc, Pc, !bool_decide_false by congruence. cbn [orb]. rewrite run_must, (run_bind _ _ _ _ _ (put_run _ _ _ Lz)).
    fold (with_next h z (Some n)). 
    rewrite (run_bind _ _ _ _ _ (next_run _ c ltac:(rewrite with_next_length; exact Lc))), nxt_with_next, decide_False, Nc, run_must by congruence.
    rewrite (run_bind _ _ _ _ _ (prev_run _ c ltac:(rewrite with_next_length; exact Lc))), prv_with_next, Pc.
    rewrite (run_bind _ _ _ _ _ (put_run _ n _ ltac:(rewrite with_next_length; exact Ln))). fold (with_prev (with_next h z (Some n)) n (Some z)). fold (leave h z n).
    exists b, (leave h z n). split; [reflexivity|]. split; [split; [set_solver|exact Hk]|]. split; [reflexivity|].
    split; [eapply frame_mono; [|apply leave_frame]; set_solver|]. exists (p ++ z :: q). split.
    + split; [|exact Hr2]. rewrite <- Hh. destruct p; reflexivity.
    + apply set_eq. intros x. rewrite elem_of_difference, !elem_of_list_to_set, elem_of_singleton.
      rewrite !elem_of_app, !elem_of_cons. split; [|tauto]. intros Hx. split; [tauto|]. intros ->. set_solver.
Qed.

(** What removing [c] takes away: if [c] is the head of its bucket, all that is in the bucket. *)
Fixpoint lost (d : nat) (h : Cells) (l : nat) (t : TxCBTable) (S : gset nat) (c : nat) : gset nat :=
  match d with
  | O => ∅
  | Datatypes.S d' =>
      let i := nib l (key h c) in
      match _containerArray t !! i with
      | Some (inr b) => if decide (_txcbHead b = Some c) then below h l i S else {[c]}
      | Some (inl t') => lost d' h (Datatypes.S l) t' (below h l i S) c
      | None => ∅
      end
  end.

Lemma lost_subset d : forall h l t S c, c ∈ S -> lost d h l t S c ⊆ S.
Proof.
  induction d as [|d IH]; intros h l t S c Hc; [set_solver|]. cbn [lost].
  assert (c ∈ below h l (nib l (key h c)) S) as Hcb by (now apply elem_of_below).
  destruct (_containerArray t !! _) as [[t'|b]|]; [|case_decide; [apply below_subset|set_solver]|set_solver].
  etransitivity; [now apply IH|apply below_subset].
Qed.

Lemma below_difference h l i S T : below h l i (S ∖ T) = below h l i S ∖ T.
Proof. apply set_eq. intros x. rewrite elem_of_difference, !elem_of_below, elem_of_difference. tauto. Qed.

Lemma table_remove_spec d : forall fuel l h t S target, (d + l = 40)%nat -> (d <= fuel)%nat -> holds d h l t S -> good h target ->
  exists f t' h', TxCBTable_remove fuel t target h = Ok t' h' /\ finds_in h S target f /\ frame S h h' /\
    holds d h' l t' (match f with None => S | Some c => S ∖ lost d h l t S c end).
Proof.
  induction d as [|d IH]; intros fuel l h t S target Hd Hf HT Ht; [destruct HT|]. destruct fuel as [|fuel]; [lia|]. cbn [TxCBTable_remove].
  destruct (holds_container _ _ _ _ _ _ HT Hd Ht) as (d' & k & [= <-] & Es & Ec & Hkc).
  pose proof (nib_range l (key h target)) as Hi. rewrite (run_bind _ _ _ _ _ Es), Nat2Z.id, Ec, run_must.
  assert (HT0 := HT). destruct HT0 as (Hl & Hn & _).
  assert (forall U h' c X, frame U h h' -> U ⊆ below h l (nib l (key h target)) S -> X ⊆ below h l (nib l (key h target)) S ->
    match c with
    | inr b => _bucketSymbol b = Z.of_nat (nib l (key h target)) /\ exists r, bucket_is h' b r /\ list_to_set r = below h l (nib l (key h target)) S ∖ X
    | inl t' => holds d h' (Datatypes.S l) t' (below h l (nib l (key h target)) S ∖ X)
    end -> holds (Datatypes.S d) h' l (txContainer (Z.of_nat (nib l (key h target))) c t) (S ∖ X)) as Hup.
  { intros U h' c X F HU HX Hc. destruct (container_set t _ c Hn Hi) as (N1 & N2 & N3).
    eapply (holds_update d h h' l t _ U S _ _ c); [exact HT|exact Hi|exact F|intros x Hx%HU; apply (elem_of_below h l _ S x) in Hx; apply Hx| |congruence|exact N1|exact N3|].
    - intros x Hx. rewrite elem_of_difference. split; [tauto|]. intros HxS. split; [exact HxS|]. intros [? _]%HX%elem_of_below. contradiction.
    - now rewrite below_difference. }
  destruct k as [t'|b].
  - destruct (IH fuel (Datatypes.S l) h t' _ target ltac:(lia) ltac:(lia) Hkc Ht) as (f & T & h' & E & Hfi & F & HT').
    rewrite (run_bind _ _ _ _ _ E). exists f. eexists _, h'. split; [reflexivity|]. split; [exact (finds_below _ _ _ _ _ Hfi)|].
    split; [eapply frame_mono; [apply below_subset|exact F]|]. destruct f as [c|].
    + destruct Hfi as [Hcb Hk]. cbn [lost]. rewrite Hk, Ec. apply (Hup _ _ (inl T) _ F); [reflexivity|now apply lost_subset|exact HT'].
    + rewrite <- (difference_empty_L S). apply (Hup _ _ (inl T) ∅ F); [reflexivity|set_solver|]. now rewrite difference_empty_L.
  - destruct Hkc as (Hsym & r & Hb & Er). destruct (bucket_remove_spec h b r target Hb Ht) as (f & b' & h' & E & Hfi & Hsym' & F & r' & Hb' & Er').
    rewrite (run_bind _ _ _ _ _ E). exists f. eexists _, h'. split; [reflexivity|]. pose proof (finds_ring _ _ _ _ _ Er Hfi) as Hfb.
    split; [exact (finds_below _ _ _ _ _ Hfb)|]. rewrite Er in F. split; [eapply frame_mono; [apply below_subset|exact F]|]. destruct f as [c|].
    + destruct Hfb as [Hcb Hk]. cbn [lost]. rewrite Hk, Ec. apply (Hup _ _ (inr b') _ F); [reflexivity|case_decide; set_solver|].
      split; [congruence|]. exists r'. split; [exact Hb'|]. rewrite Er', Er. case_decide; set_solver.
    + rewrite <- (difference_empty_L S). apply (Hup _ _ (inr b') ∅ F); [reflexivity|set_solver|]. split; [congruence|]. exists r'.
      split; [exact Hb'|]. now rewrite difference_empty_L, Er'.
Qed.
