(* ===== verification/TxPoolRuns.v ===== *)
(** Runs of the pool of transactions: it is a map from the first 20 bytes of ids to transactions,
    until something is removed from it. *)
From S2P Require Import Prelude Crypto Script TxFormat P2PKH BlockHeader LocalFiles TxPool TxPoolSpec.
From stdpp Require Import gmap sets fin_sets fin_maps.
From Stdlib Require Import Lia.
#[local] Open Scope Z_scope.

#[export] Program Instance byte_countable : Countable byte := inj_countable Byte.to_N Byte.of_N _.
Next Obligation. exact Byte.of_to_N. Qed.

Section pool_runs.
Context {ssl : OpenSSL} {ssl_laws : OpenSSL_laws}.

(** ** Transactions with an id *)

(** Computing the id of a transaction gives [id], again and again: it is a signed transaction, or
    one that computing the id leaves as it is, as those that were received. *)
Definition identified (p : P2PKH) (id : list byte) : Prop :=
  (tx_stored p /\ id = EVP_SHA256 (tx_bytes p)) \/ calcTxID p = Ok id p.

Lemma identified_run p id : identified p id -> exists p', calcTxID p = Ok id p' /\ identified p' id.
Proof.
  intros [[H ->]|H]; [|exists p; split; [exact H|now right]]. exists (tx_after p). split; [now apply calcTxID_stored|].
  left. split; [now apply tx_after_stored|]. now rewrite tx_after_bytes.
Qed.

Lemma identified_length p id : identified p id -> length id = 32%nat.
Proof.
  intros [[_ ->]|H]; [apply SHA256_length|]. unfold calcTxID, mbind, prog_bind in H. destruct (P2PKH_exportRaw p) as [raw p'| |]; try discriminate.
  rewrite SHAHash_all in H. injection H as <- _. apply SHA256_length.
Qed.

(** ** The state of a pool *)

(** The pool holds the control blocks of [S], each with a transaction and its id. *)
Record pool_state (ids : list (list byte)) (S : gset nat) (s : TransactionPool) : Prop := {
  ps_txs : Forall2 identified (tp_txs s) ids;
  ps_holds : holds 40 (tp_cells s) 0 (_rootTable s) S;
  ps_ok : set_ok (tp_cells s) 0 S;
  ps_data : forall c, c ∈ S -> exists x t id, tp_cells s !! c = Some x /\ tc_tx x = Some t /\ tc_txID x = Some id /\ ids !! t = Some id;
}.

Lemma new_pool ids txs cells : Forall2 identified txs ids -> pool_state ids ∅ (TransactionPool_new txs cells).
Proof. intros H. split; [exact H|apply (holds_new 39 cells 0)|split; set_solver|set_solver]. Qed.

(** Control blocks are made beside those of the pool. *)
Lemma set_ok_ext h h' l S : (forall x, x ∈ S -> h' !! x = h !! x) -> set_ok h l S -> set_ok h' l S.
Proof.
  intros He [H1 H2 H3]. assert (forall x, x ∈ S -> key h' x = key h x) as Hk by (intros x Hx; now apply key_ext, He). split.
  - intros x Hx. unfold good. rewrite Hk by exact Hx. now apply H1.
  - intros x y Hx Hy. rewrite !Hk by assumption. now apply H2.
  - intros x y m Hx Hy. rewrite !Hk by assumption. now apply H3.
Qed.

Lemma pool_extend ids S s h : pool_state ids S s -> (forall x, x ∈ S -> h !! x = tp_cells s !! x) ->
  pool_state ids S (mkPool (tp_txs s) h (_rootTable s)).
Proof.
  intros [H1 H2 H3 H4] He. split; cbn [tp_txs tp_cells _rootTable]; [exact H1|now apply (holds_ext _ (tp_cells s))|now apply (set_ok_ext (tp_cells s))|].
  intros c Hc. rewrite He by exact Hc. now apply H4.
Qed.

Lemma pool_cells_lt ids S s x : pool_state ids S s -> x ∈ S -> (x < length (tp_cells s))%nat.
Proof. intros H Hx. apply good_lt, (so_good _ _ _ (ps_ok _ _ _ H)), Hx. Qed.

(** The pool with one more control block. *)
Definition with_cell (x : TxCB) (s : TransactionPool) : TransactionPool := mkPool (tp_txs s) (tp_cells s ++ [x]) (_rootTable s).

Lemma pool_with_cell ids S s x : pool_state ids S s -> pool_state ids S (with_cell x s).
Proof. intros H. apply pool_extend; [exact H|]. intros c Hc. apply lookup_app_l. eapply pool_cells_lt; [exact H|exact Hc]. Qed.

Lemma make_shared_run x s : on_cells (make_shared x) s = Ok (length (tp_cells s)) (with_cell x s).
Proof. reflexivity. Qed.

Lemma calc_run ids S s t id : pool_state ids S s -> ids !! t = Some id ->
  exists s', tx_calcTxID t s = Ok id s' /\ pool_state ids S s' /\ tp_cells s' = tp_cells s /\ _rootTable s' = _rootTable s.
Proof.
  intros [H1 H2 H3 H4] Hid. destruct (Forall2_lookup_r _ _ _ _ _ H1 Hid) as (p & Hp & Hpi). destruct (identified_run _ _ Hpi) as (p' & E & Hp').
  unfold tx_calcTxID. rewrite run_get, Hp, run_must. unfold zoom. rewrite E. eexists. split; [reflexivity|].
  split; [|split; reflexivity]. split; cbn [tp_txs tp_cells _rootTable]; [|exact H2|exact H3|exact H4].
  rewrite <- (list_insert_id ids t id Hid). now apply Forall2_insert.
Qed.

(** A search or a removal starts with a control block of an id. *)
Definition search_cell (id : list byte) : TxCB := mkTxCB (Some id) 1 None None None 0.

Lemma search_run {A} (k : nat -> prog TransactionPool A) id s :
  (c ← on_cells (make_shared (TxCB_new 1)); _ ← on_cells (put c (set_txID (Some id))); k c) s = k (length (tp_cells s)) (with_cell (search_cell id) s).
Proof.
  rewrite (run_bind _ _ _ _ _ (make_shared_run _ _)). unfold on_cells at 1. unfold zoom, mbind at 1, prog_bind. cbn [with_cell tp_cells].
  rewrite put_run by (rewrite length_app; cbn; lia). cbn [tp_txs _rootTable]. do 2 f_equal. unfold with_cell. f_equal.
  rewrite <- (Nat.add_0_r (length (tp_cells s))). rewrite alter_app_r. reflexivity.
Qed.

Lemma new_cell_key h x i : tc_txID x = Some i -> key (h ++ [x]) (length h) = take 20 i.
Proof. intros H. unfold key. rewrite lookup_app_r, Nat.sub_diag by lia. cbn. now rewrite H. Qed.

(** ** What a pool answers *)

(** The id and the transaction of a control block. *)
Definition entry (h : Cells) (c : nat) : option (list byte * nat) := x ← h !! c; t ← tc_tx x; Some (key h c, t).

Lemma entry_ext h h' c : h' !! c = h !! c -> entry h' c = entry h c.
Proof. intros H. unfold entry. now rewrite (key_ext h h' c H), H. Qed.

Lemma entry_frame S h h' c : frame S h h' -> entry h' c = entry h c.
Proof.
  intros Hf. unfold entry. rewrite (frame_key _ _ _ _ Hf). destruct Hf as [H _]. apply (f_equal (fun l => l !! c)) in H. rewrite !list_lookup_fmap in H.
  destruct (h !! c), (h' !! c); cbn in *; try discriminate; [|reflexivity]. injection H as H. unfold data in H. now replace (tc_tx t0) with (tc_tx t) by congruence.
Qed.

(** The pool as a map. *)
Definition maps (h : Cells) (S : gset nat) (m : gmap (list byte) nat) : Prop :=
  forall k t, m !! k = Some t <-> exists c, c ∈ S /\ entry h c = Some (k, t).

Lemma maps_ext h h' S m : (forall c, c ∈ S -> entry h' c = entry h c) -> maps h S m -> maps h' S m.
Proof. intros He H k t. rewrite (H k t). split; intros (c & Hc & E); exists c; (split; [exact Hc|]); [rewrite He by exact Hc|rewrite <- He by exact Hc]; exact E. Qed.

Lemma pool_entry ids S s c : pool_state ids S s -> c ∈ S ->
  exists t id, entry (tp_cells s) c = Some (key (tp_cells s) c, t) /\ tp_cells s !! c ≫= tc_tx = Some t /\ ids !! t = Some id /\ key (tp_cells s) c = take 20 id.
Proof.
  intros H Hc. destruct (ps_data _ _ _ H c Hc) as (x & t & id & Hx & Ht & Hi & Hid). exists t, id. unfold entry, key. rewrite Hx. cbn. rewrite Ht, Hi. auto.
Qed.

Lemma maps_found ids S s m c t : pool_state ids S s -> maps (tp_cells s) S m -> c ∈ S -> tp_cells s !! c ≫= tc_tx = Some t -> m !! key (tp_cells s) c = Some t.
Proof.
  intros H Hm Hc Ht. destruct (pool_entry _ _ _ _ H Hc) as (t' & id & E & Et & _). apply Hm. exists c. split; [exact Hc|]. congruence.
Qed.

Lemma maps_none h S m k : maps h S m -> (forall c, c ∈ S -> key h c <> k) -> m !! k = None.
Proof.
  intros Hm H. destruct (m !! k) as [t|] eqn:E; [|reflexivity]. apply Hm in E as (c & Hc & E). unfold entry in E.
  destruct (h !! c); [|discriminate]. cbn in E. destruct (tc_tx _); [|discriminate]. cbn in E. exfalso. apply (H c Hc). congruence.
Qed.

Lemma maps_add h S m c k t : maps h S m -> entry h c = Some (k, t) -> (forall x, x ∈ S -> key h x <> k) -> maps h ({[c]} ∪ S) (<[k := t]> m).
Proof.
  intros Hm Ec Hno k' u. rewrite lookup_insert_Some, (Hm k' u). split.
  - intros [[<- <-]|[Hk (a & Ha & Ea)]]; [exists c|exists a]; (split; [set_solver|assumption]).
  - intros (a & Ha & Ea). apply elem_of_union in Ha as [->%elem_of_singleton|Ha]; [left; split; congruence|]. right. split; [|eauto].
    intros <-. apply (Hno a Ha). unfold entry in Ea. destruct (h !! a); [|discriminate]. cbn in Ea. destruct (tc_tx _); [|discriminate]. cbn in Ea. congruence.
Qed.

(** ** Finding *)

Lemma find_run ids S s id : pool_state ids S s -> (20 <= length id)%nat ->
  exists r, TransactionPool_find_id (Some id) s = Ok r (with_cell (search_cell id) s) /\
    match r with Some c => c ∈ S /\ key (tp_cells s) c = take 20 id | None => forall c, c ∈ S -> key (tp_cells s) c <> take 20 id end.
Proof.
  intros H Hid. unfold TransactionPool_find_id. rewrite search_run, run_get. pose proof (pool_with_cell _ _ _ (search_cell id) H) as H'.
  set (n := length (tp_cells s)). assert (key (tp_cells (with_cell (search_cell id) s)) n = take 20 id) as Kn by (now apply new_cell_key).
  destruct (table_find_spec 40 layers 0 _ _ S n eq_refl ltac:(unfold layers; lia) (ps_holds _ _ _ H')) as (r & E & Hr).
  { unfold good. rewrite Kn, length_take. lia. }
  exists r. split; [unfold on_cells, zoom; rewrite E; reflexivity|].
  assert (forall c, c ∈ S -> key (tp_cells (with_cell (search_cell id) s)) c = key (tp_cells s) c) as Hk.
  { intros c Hc. apply key_ext, lookup_app_l. eapply pool_cells_lt; [exact H|exact Hc]. }
  unfold finds_in in Hr. rewrite Kn in Hr. destruct r as [c|].
  - destruct Hr as [Hc E']. split; [exact Hc|]. rewrite <- E'. symmetry. now apply Hk.
  - intros c Hc. rewrite <- Hk by exact Hc. now apply Hr.
Qed.

(** ** Adding *)

Lemma set_ok_add h S c : set_ok h 0 S -> good h c -> (forall x, x ∈ S -> key h x <> key h c) -> set_ok h 0 ({[c]} ∪ S).
Proof.
  intros [O1 O2 O3] Gc Hno. split; [set_solver| |lia].
  intros a b [->%elem_of_singleton|Ha]%elem_of_union [->%elem_of_singleton|Hb]%elem_of_union Hk; [reflexivity| | |now apply O2]; exfalso;
    [now apply (Hno b Hb)|now apply (Hno a Ha)].
Qed.

(** A control block made for a transaction. *)
Definition made_for (ids : list (list byte)) (t : nat) (h : Cells) (c : nat) : Prop :=
  exists x id, h !! c = Some x /\ tc_tx x = Some t /\ tc_txID x = Some id /\ ids !! t = Some id.

Lemma add_cb_run ids S s m t c id : pool_state ids S s -> maps (tp_cells s) S m -> c ∉ S -> made_for ids t (tp_cells s) c -> ids !! t = Some id ->
  match m !! take 20 id with
  | Some _ => exists s', TransactionPool_add_cb c s = Ok (-1) s' /\ pool_state ids S s' /\ tp_cells s' = tp_cells s
  | None => exists s', TransactionPool_add_cb c s = Ok 0 s' /\ pool_state ids ({[c]} ∪ S) s' /\ frame ({[c]} ∪ S) (tp_cells s) (tp_cells s') /\
      maps (tp_cells s') ({[c]} ∪ S) (<[take 20 id := t]> m)
  end.
Proof.
  intros H Hm Hc (x & id' & Hx & Hxt & Hxi & Hid') Hid. assert (id' = id) as -> by congruence.
  destruct (Forall2_lookup_r _ _ _ _ _ (ps_txs _ _ _ H) Hid) as (p & _ & Hp). pose proof (identified_length _ _ Hp) as Hlen.
  assert (key (tp_cells s) c = take 20 id) as Kc by (unfold key; rewrite Hx; cbn; now rewrite Hxi).
  assert (good (tp_cells s) c) as Gc by (unfold good; rewrite Kc, length_take; lia).
  unfold TransactionPool_add_cb. rewrite run_get. destruct (m !! take 20 id) as [t'|] eqn:Em.
  - apply Hm in Em as (c' & Hc' & Ec'). destruct (pool_entry _ _ _ _ H Hc') as (t2 & id2 & E2 & _).
    destruct (table_add_again 40 layers 0 _ _ S c' c eq_refl ltac:(unfold layers; lia) (ps_holds _ _ _ H) Gc Hc') as (T & E & HT); [congruence|].
    unfold on_cells, zoom, mbind, prog_bind. rewrite E. eexists. split; [reflexivity|]. split; [|reflexivity].
    split; [exact (ps_txs _ _ _ H)|exact HT|exact (ps_ok _ _ _ H)|exact (ps_data _ _ _ H)].
  - assert (forall c', c' ∈ S -> key (tp_cells s) c' <> take 20 id) as Hno.
    { intros c' Hc' E. destruct (pool_entry _ _ _ _ H Hc') as (t2 & id2 & E2 & _). rewrite E in E2. assert (m !! take 20 id = Some t2) by (apply Hm; eauto). congruence. }
    assert (set_ok (tp_cells s) 0 ({[c]} ∪ S)) as Hok by (apply set_ok_add; [exact (ps_ok _ _ _ H)|exact Gc|now rewrite Kc]).
    destruct (table_add_spec 40 layers 0 eq_refl ltac:(unfold layers; lia) _ _ S c (ps_holds _ _ _ H) Hok Hc) as (T & h' & E & HT & F).
    unfold on_cells, zoom, mbind, prog_bind. rewrite E. clear E. eexists. split; [reflexivity|]. cbn [tp_txs tp_cells _rootTable set_rootTable].
    split; [|split; [exact F|]].
    + split; cbn [tp_txs tp_cells _rootTable]; [exact (ps_txs _ _ _ H)|exact HT|exact (set_ok_frame _ _ _ _ _ F Hok)|].
      intros a Ha. assert (exists u, made_for ids u (tp_cells s) a) as (u & y & i & Hy & Hu & Hi & Hui).
      { apply elem_of_union in Ha as [->%elem_of_singleton|Ha]; [exists t, x, id; repeat split; assumption|].
        destruct (ps_data _ _ _ H a Ha) as (y & u & i & Hy). exists u, y, i. exact Hy. }
      destruct F as [F _]. apply (f_equal (fun l => l !! a)) in F. rewrite !list_lookup_fmap, Hy in F.
      destruct (h' !! a) as [y'|] eqn:Ey; [|discriminate]. injection F as F1 F2 F3 F4. exists y', u, i. rewrite F1, F3. repeat split; assumption.
    + eapply maps_ext; [intros a _; exact (entry_frame _ _ _ _ F)|]. apply (maps_add _ _ _ _ _ _ Hm); [|exact Hno].
      unfold entry. rewrite Hx, <- Kc. cbn. now rewrite Hxt.
Qed.

(** Transactions stay with their control blocks. *)
Definition grows (h h' : Cells) : Prop := forall c t, h !! c ≫= tc_tx = Some t -> h' !! c ≫= tc_tx = Some t.

#[local] Instance grows_preorder : PreOrder grows.
Proof. split; [intros h c t H; exact H|intros h1 h2 h3 H1 H2 c t H; now apply H2, H1]. Qed.

Lemma grows_app h l : grows h (h ++ l).
Proof. intros c t H. destruct (h !! c) as [x|] eqn:E; [|discriminate]. erewrite lookup_app_l_Some by exact E. exact H. Qed.

Lemma grows_frame S h h' : frame S h h' -> grows h h'.
Proof.
  intros [F _] c t H. apply (f_equal (fun l => l !! c)) in F. rewrite !list_lookup_fmap in F.
  destruct (h !! c) as [x|]; [|discriminate]. destruct (h' !! c) as [x'|]; [|discriminate]. injection F as F1 F2 F3 F4. cbn in *. congruence.
Qed.

Lemma maps_app ids S s m l : pool_state ids S s -> maps (tp_cells s) S m -> maps (tp_cells s ++ l) S m.
Proof. intros H. apply maps_ext. intros c Hc. apply entry_ext, lookup_app_l. exact (pool_cells_lt _ _ _ _ H Hc). Qed.

(** A control block for a transaction, of a priority. *)
Definition tx_cell (t : nat) (id : list byte) (priority : Z) : TxCB := mkTxCB (Some id) 0 (Some t) None None priority.

Lemma make_run ids S s t id : pool_state ids S s -> ids !! t = Some id ->
  exists s', make_TxCB (Some t) s = Ok (length (tp_cells s)) s' /\ pool_state ids S s' /\ tp_cells s' = tp_cells s ++ [tx_cell t id 0] /\
    _rootTable s' = _rootTable s.
Proof.
  intros H Hid. destruct (calc_run _ _ _ _ _ H Hid) as (s1 & E & H1 & Ec & Et). unfold make_TxCB. rewrite (run_bind _ _ _ _ _ E), make_shared_run, Ec.
  eexists. split; [reflexivity|]. split; [exact (pool_with_cell _ _ _ _ H1)|]. unfold with_cell. cbn [tp_cells _rootTable]. now rewrite Ec, Et.
Qed.

(** What adding a transaction to a map gives. *)
Definition add_one (ids : list (list byte)) (t : nat) (m : gmap (list byte) nat) : Z * gmap (list byte) nat :=
  let k := take 20 (ids !!! t) in match m !! k with Some _ => (-1, m) | None => (0, <[k := t]> m) end.

(** Adding a control block that was just made. *)
Lemma add_made ids S s m t id c : pool_state ids S s -> maps (tp_cells s) S m -> c ∉ S -> made_for ids t (tp_cells s) c -> ids !! t = Some id ->
  exists s' S', TransactionPool_add_cb c s = Ok (add_one ids t m).1 s' /\ pool_state ids S' s' /\
    maps (tp_cells s') S' (add_one ids t m).2 /\ grows (tp_cells s) (tp_cells s').
Proof.
  intros H Hm Hc Hmade Hid. pose proof (add_cb_run _ _ _ _ _ _ _ H Hm Hc Hmade Hid) as Hr. unfold add_one.
  rewrite (list_lookup_total_correct _ _ _ Hid). destruct (m !! take 20 id).
  - destruct Hr as (s' & E & H' & Ec). exists s', S. rewrite Ec. split; [exact E|]. split; [exact H'|]. split; [exact Hm|reflexivity].
  - destruct Hr as (s' & E & H' & F & Hm'). exists s', ({[c]} ∪ S). split; [exact E|]. split; [exact H'|]. split; [exact Hm'|]. exact (grows_frame _ _ _ F).
Qed.

(** [add] of a transaction. *)
Lemma add_run ids S s m t id : pool_state ids S s -> maps (tp_cells s) S m -> ids !! t = Some id ->
  exists s' S', TransactionPool_add (Some t) s = Ok (add_one ids t m).1 s' /\ pool_state ids S' s' /\ maps (tp_cells s') S' (add_one ids t m).2.
Proof.
  intros H Hm Hid. unfold TransactionPool_add. destruct (make_run _ _ _ _ _ H Hid) as (s1 & E1 & H1 & C1 & T1). rewrite (run_bind _ _ _ _ _ E1).
  destruct (make_run _ _ _ _ _ H1 Hid) as (s2 & E2 & H2 & C2 & T2). rewrite (run_bind _ _ _ _ _ E2).
  destruct (add_made ids S s2 m t id (length (tp_cells s1)) H2) as (s' & S' & E & H' & Hm' & _); [| | |exact Hid|eauto].
  - rewrite C2. apply (maps_app _ _ _ _ _ H1). rewrite C1. now apply (maps_app _ _ _ _ _ H).
  - intros Hx. apply (pool_cells_lt _ _ _ _ H1) in Hx. lia.
  - exists (tx_cell t id 0), id. rewrite C2, lookup_app_r, Nat.sub_diag by lia. auto.
Qed.

(** [add] of the transactions of a block. *)
Fixpoint add_all (ids : list (list byte)) (ts : list nat) (m : gmap (list byte) nat) : list nat * gmap (list byte) nat :=
  match ts with
  | [] => ([], m)
  | t :: ts' =>
      let r := add_one ids t m in let r' := add_all ids ts' r.2 in (if r.1 =? 0 then t :: r'.1 else r'.1, r'.2)
  end.

Lemma add_block_run ids z ts : Forall (fun t => (t < length ids)%nat) ts -> forall S s m, pool_state ids S s -> maps (tp_cells s) S m ->
  exists cs s' S', TransactionPool_add_block ts z s = Ok cs s' /\ pool_state ids S' s' /\ maps (tp_cells s') S' (add_all ids ts m).2 /\
    Forall2 (fun c t => tp_cells s' !! c ≫= tc_tx = Some t) cs (add_all ids ts m).1 /\ grows (tp_cells s) (tp_cells s').
Proof.
  induction ts as [|t ts IH]; intros Hts S s m H Hm; cbn [TransactionPool_add_block add_all].
  { exists [], s, S. split; [reflexivity|]. split; [exact H|]. split; [exact Hm|]. split; [constructor|reflexivity]. }
  apply Forall_cons in Hts as [Ht Hts]. destruct (lookup_lt_is_Some_2 _ _ Ht) as [id Hid].
  destruct (make_run _ _ _ _ _ H Hid) as (s1 & E1 & H1 & C1 & T1). rewrite (run_bind _ _ _ _ _ E1).
  set (n := length (tp_cells s)) in *.
  assert (put n (set_priority z) (tp_cells s1) = Ok tt (tp_cells s ++ [tx_cell t id z])) as Ep.
  { rewrite C1, put_run by (rewrite length_app; unfold n; cbn; lia). f_equal. unfold n. rewrite <- (Nat.add_0_r (length (tp_cells s))). now rewrite alter_app_r. }
  rewrite (run_bind _ _ _ tt (mkPool (tp_txs s1) (tp_cells s ++ [tx_cell t id z]) (_rootTable s1))) by (unfold on_cells, zoom; now rewrite Ep).
  assert (n ∉ S) as Hn by (intros Hx; apply (pool_cells_lt _ _ _ _ H) in Hx; unfold n in Hx; lia).
  destruct (add_made ids S (mkPool (tp_txs s1) (tp_cells s ++ [tx_cell t id z]) (_rootTable s1)) m t id n) as (s2 & S2 & E2 & H2 & Hm2 & G2).
  - apply (pool_extend _ _ s1); [exact H1|]. intros x Hx. rewrite C1. pose proof (pool_cells_lt _ _ _ _ H Hx). now rewrite !lookup_app_l.
  - cbn [tp_cells]. now apply (maps_app _ _ _ _ _ H).
  - exact Hn.
  - exists (tx_cell t id z), id. cbn [tp_cells]. unfold n. rewrite lookup_app_r, Nat.sub_diag by lia. auto.
  - exact Hid.
  - rewrite (run_bind _ _ _ _ _ E2). destruct (IH Hts S2 s2 _ H2 Hm2) as (cs & s3 & S3 & E3 & H3 & Hm3 & HF & G3). rewrite (run_bind _ _ _ _ _ E3).
    cbn [tp_cells] in G2. eexists _, s3, S3. split; [reflexivity|]. split; [exact H3|]. split; [exact Hm3|]. split.
    + cbn [fst]. destruct ((add_one ids t m).1 =? 0); [|exact HF]. constructor; [|exact HF]. apply G3, G2. unfold n. rewrite lookup_app_r, Nat.sub_diag by lia. reflexivity.
    + etransitivity; [apply grows_app|]. etransitivity; [exact G2|exact G3].
Qed.

(** ** Removing *)

(** What the pool loses with a control block. *)
Definition lost_with (s : TransactionPool) (S : gset nat) (c : nat) : gset nat := lost 40 (tp_cells s) 0 (_rootTable s) S c.

Lemma pool_shrink ids S T s s' : pool_state ids S s -> T ⊆ S -> tp_txs s' = tp_txs s -> frame S (tp_cells s) (tp_cells s') ->
  holds 40 (tp_cells s') 0 (_rootTable s') T -> pool_state ids T s'.
Proof.
  intros H HT Et F Hh. split; [rewrite Et; exact (ps_txs _ _ _ H)|exact Hh| |].
  - eapply set_ok_frame; [exact F|]. eapply set_ok_subset; [exact HT|exact (ps_ok _ _ _ H)].
  - intros c Hc%HT. destruct (ps_data _ _ _ H c Hc) as (x & t & id & Hx & Hxt & Hi & Hid). destruct F as [F _].
    apply (f_equal (fun l => l !! c)) in F. rewrite !list_lookup_fmap, Hx in F. destruct (tp_cells s' !! c) as [x'|] eqn:Ex; [|discriminate].
    injection F as F1 F2 F3 F4. exists x', t, id. rewrite F1, F3. repeat split; assumption.
Qed.

Lemma remove_cb_run ids S s target : pool_state ids S s -> good (tp_cells s) target ->
  exists f s', TransactionPool_remove_cb target s = Ok tt s' /\ finds_in (tp_cells s) S target f /\ frame S (tp_cells s) (tp_cells s') /\
    pool_state ids (match f with None => S | Some c => S ∖ lost_with s S c end) s'.
Proof.
  intros H Ht. unfold TransactionPool_remove_cb. rewrite run_get.
  destruct (table_remove_spec 40 layers 0 _ _ S target eq_refl ltac:(unfold layers; lia) (ps_holds _ _ _ H) Ht) as (f & T & h' & E & Hf & F & HT).
  exists f. unfold on_cells, zoom, mbind, prog_bind. rewrite E. clear E. eexists. split; [reflexivity|]. split; [exact Hf|]. split; [exact F|].
  eapply (pool_shrink ids S _ s); [exact H| |reflexivity|exact F|exact HT]. destruct f; [intros x Hx; apply elem_of_difference in Hx; apply Hx|reflexivity].
Qed.

(** ** Runs *)

Inductive pool_op : Type :=
| Add (t : nat)
| AddBlock (ts : list nat) (priority : Z)
| Find (id : list byte)
| Remove (id : list byte)
| RemoveBlock (ts : list nat).

Inductive pool_answer : Type := A_flag (r : Z) | A_added (ts : list (option nat)) | A_tx (t : option nat) | A_done.

Definition pool_perform (o : pool_op) : prog TransactionPool pool_answer :=
  match o with
  | Add t => r ← TransactionPool_add (Some t); mret (A_flag r)
  | AddBlock ts z => cs ← TransactionPool_add_block ts z; s ← get_state; mret (A_added (map (fun c => tp_cells s !! c ≫= tc_tx) cs))
  | Find id => c ← TransactionPool_find_id (Some id); s ← get_state; mret (A_tx (c ≫= fun c => tp_cells s !! c ≫= tc_tx))
  | Remove id => _ ← TransactionPool_remove_id (Some id); mret A_done
  | RemoveBlock ts => _ ← TransactionPool_remove_block ts; mret A_done
  end.

Fixpoint pool_perform_all (ops : list pool_op) : prog TransactionPool (list pool_answer) :=
  match ops with
  | [] => mret []
  | o :: ops' => r ← pool_perform o; rs ← pool_perform_all ops'; mret (r :: rs)
  end.

(** Operations on transactions that exist, and with ids that can be compared. *)
Definition op_ok (ids : list (list byte)) (o : pool_op) : Prop :=
  match o with
  | Add t => (t < length ids)%nat
  | AddBlock ts _ | RemoveBlock ts => Forall (fun t => (t < length ids)%nat) ts
  | Find id | Remove id => (20 <= length id)%nat
  end.

Definition removes (o : pool_op) : bool := match o with Remove _ | RemoveBlock _ => true | _ => false end.

(** The answers of a map, while nothing is removed. *)
Definition map_answer (ids : list (list byte)) (m : gmap (list byte) nat) (o : pool_op) : pool_answer * gmap (list byte) nat :=
  match o with
  | Add t => let r := add_one ids t m in (A_flag r.1, r.2)
  | AddBlock ts _ => let r := add_all ids ts m in (A_added (map Some r.1), r.2)
  | Find id => (A_tx (m !! take 20 id), m)
  | _ => (A_done, m)
  end.

Fixpoint map_answers (ids : list (list byte)) (m : gmap (list byte) nat) (ops : list pool_op) : list pool_answer :=
  match ops with
  | [] => []
  | o :: ops' => let r := map_answer ids m o in r.1 :: map_answers ids r.2 ops'
  end.

Lemma perform_maps ids S s m o : pool_state ids S s -> maps (tp_cells s) S m -> op_ok ids o -> removes o = false ->
  exists s' S', pool_perform o s = Ok (map_answer ids m o).1 s' /\ pool_state ids S' s' /\ maps (tp_cells s') S' (map_answer ids m o).2.
Proof.
  intros H Hm Ho Hr. destruct o as [t|ts z|id|id|ts]; try discriminate; cbn [pool_perform map_answer fst snd].
  - destruct (lookup_lt_is_Some_2 _ _ Ho) as [id Hid]. destruct (add_run _ _ _ _ _ _ H Hm Hid) as (s' & S' & E & H' & Hm').
    rewrite (run_bind _ _ _ _ _ E). exists s', S'. auto.
  - destruct (add_block_run _ z ts Ho _ _ _ H Hm) as (cs & s' & S' & E & H' & Hm' & HF & _). rewrite (run_bind _ _ _ _ _ E), run_get.
    exists s', S'. split; [|split; [exact H'|exact Hm']]. unfold mret, prog_ret. do 2 f_equal. clear - HF. induction HF; cbn; [reflexivity|]. now f_equal.
  - destruct (find_run _ _ _ id H Ho) as (r & E & Hf). rewrite (run_bind _ _ _ _ _ E), run_get.
    exists (with_cell (search_cell id) s), S. split; [|split; [exact (pool_with_cell _ _ _ _ H)|exact (maps_app _ _ _ _ _ H Hm)]].
    unfold mret, prog_ret. do 2 f_equal. destruct r as [c|].
    + destruct Hf as [Hc Hk]. destruct (pool_entry _ _ _ _ H Hc) as (t & id' & _ & Et & _). cbn [mbind option_bind].
      assert (tp_cells (with_cell (search_cell id) s) !! c ≫= tc_tx = Some t) as -> by (apply grows_app; exact Et).
      rewrite <- Hk. symmetry. exact (maps_found _ _ _ _ _ _ H Hm Hc Et).
    + symmetry. exact (maps_none _ _ _ _ Hm Hf).
Qed.

Lemma perform_all_maps ids ops : Forall (op_ok ids) ops -> forallb (fun o => negb (removes o)) ops = true -> forall S s m,
  pool_state ids S s -> maps (tp_cells s) S m ->
  exists s' S', pool_perform_all ops s = Ok (map_answers ids m ops) s' /\ pool_state ids S' s'.
Proof.
  induction ops as [|o ops IH]; intros Ho Hr S s m H Hm; cbn [pool_perform_all map_answers]; [exists s, S; auto|].
  apply Forall_cons in Ho as [Ho1 Ho]. cbn [forallb] in Hr. apply andb_true_iff in Hr as [Hr1 Hr]. apply negb_true_iff in Hr1.
  destruct (perform_maps _ _ _ _ _ H Hm Ho1 Hr1) as (s1 & S1 & E1 & H1 & Hm1). rewrite (run_bind _ _ _ _ _ E1).
  destruct (IH Ho Hr _ _ _ H1 Hm1) as (s2 & S2 & E2 & H2). rewrite (run_bind _ _ _ _ _ E2). exists s2, S2. auto.
Qed.

Lemma new_pool_maps h : maps h ∅ ∅.
Proof. intros k t. rewrite lookup_empty. split; [discriminate|]. intros (c & Hc & _). set_solver. Qed.

(** C6: The pool of transactions is a map from the first 20 bytes of ids to transactions. A new pool answers any
    sequence of adding transactions, adding the transactions of blocks and searching ids as the map does: a
    transaction is added (0) unless one with the same first 20 bytes is there (-1), a block
    adds those of its transactions that are new, in order, and a search finds the transaction that was added
    with the id. However the ids are distributed, buckets grow into tables at most 40 deep, every loop over a
    ring ends, and no pointer is dangling. *)
Theorem pool_refines_map ids txs cells ops :
  Forall2 identified txs ids -> Forall (op_ok ids) ops -> forallb (fun o => negb (removes o)) ops = true ->
  wp (pool_perform_all ops) (TransactionPool_new txs cells) (fun rs _ => rs = map_answers ids ∅ ops).
Proof.
  intros Ht Ho Hr. destruct (perform_all_maps ids ops Ho Hr ∅ _ ∅ (new_pool ids txs cells Ht) (new_pool_maps _)) as (s & S & E & _).
  unfold wp. now rewrite E.
Qed.

(** ** What removing does *)

Lemma remove_id_run ids S s id : pool_state ids S s -> (20 <= length id)%nat ->
  exists f s', TransactionPool_remove_id (Some id) s = Ok tt s' /\ (forall c, c ∈ S -> entry (tp_cells s') c = entry (tp_cells s) c) /\
    match f with
    | Some c => c ∈ S /\ key (tp_cells s) c = take 20 id /\ pool_state ids (S ∖ lost_with (with_cell (search_cell id) s) S c) s'
    | None => (forall c, c ∈ S -> key (tp_cells s) c <> take 20 id) /\ pool_state ids S s'
    end.
Proof.
  intros H Hid. unfold TransactionPool_remove_id. rewrite search_run. pose proof (pool_with_cell _ _ _ (search_cell id) H) as H'.
  set (n := length (tp_cells s)). assert (key (tp_cells (with_cell (search_cell id) s)) n = take 20 id) as Kn by (now apply new_cell_key).
  destruct (remove_cb_run ids S _ n H') as (f & s' & E & Hf & F & H2); [unfold good; rewrite Kn, length_take; lia|].
  assert (forall c, c ∈ S -> key (tp_cells (with_cell (search_cell id) s)) c = key (tp_cells s) c) as Hk.
  { intros c Hc. apply key_ext, lookup_app_l. exact (pool_cells_lt _ _ _ _ H Hc). }
  exists f, s'. split; [exact E|]. split.
  { intros c Hc. rewrite (entry_frame _ _ _ _ F). apply entry_ext, lookup_app_l. exact (pool_cells_lt _ _ _ _ H Hc). }
  unfold finds_in in Hf. rewrite Kn in Hf. destruct f as [c|].
  - destruct Hf as [Hc E']. split; [exact Hc|]. split; [rewrite <- E'; symmetry; now apply Hk|exact H2].
  - split; [|exact H2]. intros c Hc. rewrite <- Hk by exact Hc. now apply Hf.
Qed.

(** Adding to a bucket of the root that has room. *)
Lemma table_add_bucket fuel t target h i b b' h' r : targetSymbol (_layer t) target h = Ok (Z.of_nat i) h -> _containerArray t !! i = Some (inr b) ->
  TxCBBucket_add (TxCBTable_add fuel) (_layer t) b target h = Ok (r, b', None) h' ->
  TxCBTable_add (Datatypes.S fuel) t target h = Ok (r, txContainer (Z.of_nat i) (inr b') t) h'.
Proof. intros Hi Hb E. cbn [TxCBTable_add]. rewrite (run_bind _ _ _ _ _ Hi), Nat2Z.id, Hb, run_must, (run_bind _ _ _ _ _ E). reflexivity. Qed.

(** The bucket of the root for ids that start with [i], with its members in order. *)
Definition root_bucket (s : TransactionPool) (S : gset nat) (i : nat) (r : list nat) : Prop :=
  exists b, _containerArray (_rootTable s) !! i = Some (inr b) /\ _txCount b = Z.of_nat (length r) /\ bucket_is (tp_cells s) b r /\
    list_to_set r = below (tp_cells s) 0 i S.

Lemma new_root_bucket txs cells i : (i < 16)%nat -> root_bucket (TransactionPool_new txs cells) ∅ i [].
Proof.
  intros Hi. exists (TxCBBucket_new (Z.of_nat i)). split.
  - unfold TransactionPool_new, TxCBTable_new. cbn [_rootTable _containerArray]. rewrite list_lookup_fmap, lookup_seq_lt by exact Hi. reflexivity.
  - split; [reflexivity|]. split; [split; [reflexivity|]; split; [constructor|]; split; [constructor|exact I]|].
    apply set_eq. intros x. rewrite elem_of_below. set_solver.
Qed.

Lemma root_bucket_ext s s' S i r : root_bucket s S i r -> _rootTable s' = _rootTable s -> (forall x, x ∈ S -> tp_cells s' !! x = tp_cells s !! x) ->
  root_bucket s' S i r.
Proof.
  intros (b & Hb & Hn & Hr & Er) Et He. exists b. rewrite Et. split; [exact Hb|]. split; [exact Hn|]. split.
  - apply (bucket_ext _ _ _ _ Hr). intros x Hx. apply He. apply (below_subset (tp_cells s) 0 i). rewrite <- Er. now apply elem_of_list_to_set.
  - rewrite Er. symmetry. apply below_ext. intros x Hx. now apply key_ext, He.
Qed.

Lemma add_cb_of_table s c r t h : TxCBTable_add layers (_rootTable s) c (tp_cells s) = Ok (r, t) h ->
  TransactionPool_add_cb c s = Ok r (mkPool (tp_txs s) h t).
Proof. intros E. unfold TransactionPool_add_cb. rewrite run_get. unfold on_cells, zoom, mbind, prog_bind. rewrite E. reflexivity. Qed.

Lemma layers_succ : layers = Datatypes.S 64.
Proof. reflexivity. Qed.

Lemma add_cb_bucket ids S s m t c id r : pool_state ids S s -> maps (tp_cells s) S m -> c ∉ S -> made_for ids t (tp_cells s) c -> ids !! t = Some id ->
  m !! take 20 id = None -> root_bucket s S (nib 0 (take 20 id)) r -> Z.of_nat (length r) + 1 < DEFAULT_SCALE_SIZE ->
  exists s', TransactionPool_add_cb c s = Ok 0 s' /\ pool_state ids ({[c]} ∪ S) s' /\ root_bucket s' ({[c]} ∪ S) (nib 0 (take 20 id)) (r ++ [c]) /\
    maps (tp_cells s') ({[c]} ∪ S) (<[take 20 id := t]> m) /\ key (tp_cells s') c = take 20 id /\ forall x, key (tp_cells s') x = key (tp_cells s) x.
Proof.
  intros H Hm Hc Hmade Hid Em (b & Hb & Hcount & Hr & Er) Hroom.
  pose proof (add_cb_run _ _ _ _ _ _ _ H Hm Hc Hmade Hid) as Hadd. rewrite Em in Hadd. destruct Hadd as (s' & E & H' & F & Hm').
  assert (forall x, key (tp_cells s') x = key (tp_cells s) x) as Hkeys by (intros a; exact (frame_key _ _ _ _ F)).
  exists s'. split; [exact E|]. split; [exact H'|]. rewrite Hkeys. cut (root_bucket s' ({[c]} ∪ S) (nib 0 (take 20 id)) (r ++ [c]) /\ key (tp_cells s) c = take 20 id); [intros [X Y]; auto|].
  destruct Hmade as (x & id' & Hx & Hxt & Hxi & Hid'). assert (id' = id) as -> by congruence.
  assert (key (tp_cells s) c = take 20 id) as Kc by (unfold key; rewrite Hx; cbn; now rewrite Hxi). split; [|exact Kc]. rewrite <- Kc in *.
  destruct (ps_holds _ _ _ H) as (Hl & Hlen & _). change (_layer (_rootTable s) = 0) in Hl.
  assert (set_ok (tp_cells s) 0 ({[c]} ∪ S)) as Hok.
  { pose proof (ps_ok _ _ _ H') as [O1 O2 O3]. split; [intros a Ha; now apply (frame_good _ _ _ _ F), O1| |lia].
    intros a a' Ha Ha' Hk. apply O2; [exact Ha|exact Ha'|]. now rewrite !(frame_key _ _ _ _ F). }
  assert (good (tp_cells s) c) as Gc by (apply (so_good _ _ _ Hok), elem_of_union_l, elem_of_singleton; reflexivity).
  pose proof (below_ok _ _ (nib 0 (key (tp_cells s) c)) _ Hok) as Hok1. rewrite below_add, <- Er in Hok1.
  destruct (bucket_add_spec 39 0 (TxCBTable_add 64) (tp_cells s) b r c) as (h' & b' & up & Eb & _ & (Ecount & Hup) & Fb & Hb').
  - reflexivity.
  - apply table_add_spec; lia.
  - exact Hr.
  - intros Hx'. apply Hc. apply (below_subset (tp_cells s) 0 (nib 0 (key (tp_cells s) c))). rewrite <- Er. now apply elem_of_list_to_set.
  - exact Hok1.
  - rewrite Hup in Eb, Hb' by lia. assert (Z.of_nat 0 = _layer (_rootTable s)) as Hl0 by (now rewrite Hl). rewrite Hl0 in Eb.
    assert (targetSymbol (_layer (_rootTable s)) c (tp_cells s) = Ok (Z.of_nat (nib 0 (key (tp_cells s) c))) (tp_cells s)) as Hsym.
    { rewrite Hl. apply (targetSymbol_run _ _ 0 Gc). lia. }
    pose proof (table_add_bucket 64 _ _ _ _ _ _ _ _ Hsym Hb Eb) as Et.
    assert (_rootTable s' = txContainer (Z.of_nat (nib 0 (key (tp_cells s) c))) (inr b') (_rootTable s) /\ tp_cells s' = h') as [Er' Ec'].
    { rewrite <- layers_succ in Et. rewrite (add_cb_of_table _ _ _ _ _ Et) in E. injection E as <-. split; reflexivity. }
    destruct (container_set (_rootTable s) (nib 0 (key (tp_cells s) c)) (inr b') Hlen (nib_range _ _)) as (_ & _ & N).
    exists b'. rewrite Er', Ec', N, decide_True by reflexivity. split; [reflexivity|]. split; [rewrite Ecount, Hcount, length_app; cbn; lia|].
    split; [exact Hb'|]. rewrite (below_ext (tp_cells s)) by (intros a _; exact (frame_key _ _ _ _ Fb)).
    rewrite below_add, <- Er. apply set_eq. intros a. rewrite elem_of_list_to_set, elem_of_app, elem_of_union, elem_of_list_to_set, list_elem_of_singleton, elem_of_singleton. tauto.
Qed.

Lemma lost_from d h l t S c b : _containerArray t !! nib l (key h c) = Some (inr b) ->
  lost (Datatypes.S d) h l t S c = if decide (_txcbHead b = Some c) then below h l (nib l (key h c)) S else {[c]}.
Proof. intros Hb. cbn [lost]. now rewrite Hb. Qed.

Lemma add_run_bucket ids S s m t id r : pool_state ids S s -> maps (tp_cells s) S m -> ids !! t = Some id -> m !! take 20 id = None ->
  root_bucket s S (nib 0 (take 20 id)) r -> Z.of_nat (length r) + 1 < DEFAULT_SCALE_SIZE ->
  exists s' c, pool_perform (Add t) s = Ok (A_flag 0) s' /\ pool_state ids ({[c]} ∪ S) s' /\ root_bucket s' ({[c]} ∪ S) (nib 0 (take 20 id)) (r ++ [c]) /\
    maps (tp_cells s') ({[c]} ∪ S) (<[take 20 id := t]> m) /\ key (tp_cells s') c = take 20 id /\
    forall x, x ∈ S -> key (tp_cells s') x = key (tp_cells s) x.
Proof.
  intros H Hm Hid Em Hb Hroom. cbn [pool_perform]. unfold TransactionPool_add. destruct (make_run _ _ _ _ _ H Hid) as (s1 & E1 & H1 & C1 & T1).
  destruct (make_run _ _ _ _ _ H1 Hid) as (s2 & E2 & H2 & C2 & T2).
  assert (forall x, x ∈ S -> tp_cells s2 !! x = tp_cells s !! x) as He.
  { intros x Hx. rewrite C2, C1. pose proof (pool_cells_lt _ _ _ _ H Hx). rewrite !lookup_app_l; [reflexivity|lia|rewrite length_app; lia]. }
  destruct (add_cb_bucket ids S s2 m t (length (tp_cells s1)) id r H2) as (s' & E & H' & Hb' & Hm' & Kc & Hkeys).
  - apply (maps_ext (tp_cells s)); [intros x Hx; now apply entry_ext, He|exact Hm].
  - intros Hx. apply (pool_cells_lt _ _ _ _ H1) in Hx. lia.
  - exists (tx_cell t id 0), id. rewrite C2, lookup_app_r, Nat.sub_diag by lia. auto.
  - exact Hid.
  - exact Em.
  - apply (root_bucket_ext s); [exact Hb|now rewrite T2|exact He].
  - exact Hroom.
  - exists s', (length (tp_cells s1)). split; [|split; [exact H'|]; split; [exact Hb'|]; split; [exact Hm'|]; split; [exact Kc|]; intros x Hx; rewrite Hkeys; now apply key_ext, He]. rewrite (run_bind _ _ s 0 s'); [reflexivity|].
    rewrite (run_bind _ _ _ _ _ E1), (run_bind _ _ _ _ _ E2). exact E.
Qed.

(** The pool after two transactions whose ids start with the same half of a byte. *)
Lemma two_in_a_bucket ids txs cells t1 t2 id1 id2 : Forall2 identified txs ids -> ids !! t1 = Some id1 -> ids !! t2 = Some id2 ->
  take 20 id1 <> take 20 id2 -> nib 0 (take 20 id1) = nib 0 (take 20 id2) ->
  exists s1 s2 c1 c2, pool_perform (Add t1) (TransactionPool_new txs cells) = Ok (A_flag 0) s1 /\ pool_perform (Add t2) s1 = Ok (A_flag 0) s2 /\
    pool_state ids {[c2; c1]} s2 /\ root_bucket s2 {[c2; c1]} (nib 0 (take 20 id1)) [c1; c2] /\
    maps (tp_cells s2) {[c2; c1]} (<[take 20 id2 := t2]> (<[take 20 id1 := t1]> ∅)) /\
    key (tp_cells s2) c1 = take 20 id1 /\ key (tp_cells s2) c2 = take 20 id2.
Proof.
  intros Ht H1 H2 Hne Hnib.
  destruct (add_run_bucket ids ∅ _ ∅ t1 id1 [] (new_pool ids txs cells Ht) (new_pool_maps _) H1) as (s1 & c1 & E1 & P1 & B1 & M1 & K1 & _);
    [apply lookup_empty|apply new_root_bucket, nib_range|reflexivity|].
  destruct (add_run_bucket ids _ s1 _ t2 id2 [c1] P1 M1 H2) as (s2 & c2 & E2 & P2 & B2 & M2 & K2 & Hk);
    [rewrite lookup_insert_ne by exact Hne; apply lookup_empty|now rewrite <- Hnib|reflexivity|].
  assert (({[c2]} ∪ ({[c1]} ∪ ∅) : gset nat) = {[c2; c1]}) as ES by set_solver. rewrite ES in P2, B2, M2. rewrite <- Hnib in B2.
  exists s1, s2, c1, c2. split; [exact E1|]. split; [exact E2|]. split; [exact P2|]. split; [exact B2|]. split; [exact M2|]. split; [|exact K2].
  rewrite Hk by set_solver. exact K1.
Qed.

(** Searching does not change what the pool holds. *)
Lemma find_answer ids S s m id : pool_state ids S s -> maps (tp_cells s) S m -> (20 <= length id)%nat ->
  pool_perform (Find id) s = Ok (A_tx (m !! take 20 id)) (with_cell (search_cell id) s).
Proof.
  intros H Hm Hid. destruct (perform_maps ids S s m (Find id) H Hm Hid eq_refl) as (s' & S' & E & _). rewrite E. cbn [map_answer fst].
  cbn [pool_perform] in E. destruct (find_run _ _ _ id H Hid) as (r & Er & _). rewrite (run_bind _ _ _ _ _ Er), run_get in E. injection E as _ <-. reflexivity.
Qed.

(** Removing a member of a bucket of the root. *)
Lemma remove_in_bucket ids S s c id r : pool_state ids S s -> root_bucket s S (nib 0 (take 20 id)) r -> c ∈ S -> key (tp_cells s) c = take 20 id ->
  (20 <= length id)%nat ->
  exists s', pool_perform (Remove id) s = Ok A_done s' /\ (forall x, x ∈ S -> entry (tp_cells s') x = entry (tp_cells s) x) /\
    pool_state ids (S ∖ (if decide (head r = Some c) then list_to_set r else {[c]})) s'.
Proof.
  intros H (b & Hb & _ & [Hh Hr] & Er) Hc Kc Hid. destruct (remove_id_run _ _ _ _ H Hid) as (f & s' & E & He & Hf).
  exists s'. split; [cbn [pool_perform]; now rewrite (run_bind _ _ _ _ _ E)|]. split; [exact He|].
  destruct f as [c'|]; [|exfalso; destruct Hf as [Hf _]; exact (Hf c Hc Kc)]. destruct Hf as (Hc' & Kc' & H').
  assert (c' = c) as -> by (apply (so_inj _ _ _ (ps_ok _ _ _ H)); [exact Hc'|exact Hc|congruence]).
  assert (key (tp_cells (with_cell (search_cell id) s)) c = take 20 id) as Kw.
  { rewrite <- Kc. apply key_ext, lookup_app_l. exact (pool_cells_lt _ _ _ _ H Hc). }
  assert (lost_with (with_cell (search_cell id) s) S c = if decide (head r = Some c) then list_to_set r else {[c]}) as <-; [|exact H'].
  unfold lost_with. rewrite (lost_from 39 _ 0 _ S c b) by (rewrite Kw; exact Hb). rewrite Kw, <- Hh, Er. case_decide; [|reflexivity].
  apply below_ext. intros x Hx. apply key_ext, lookup_app_l. exact (pool_cells_lt _ _ _ _ H Hx).
Qed.

Lemma perform_cons o ops s r s1 rs s2 : pool_perform o s = Ok r s1 -> pool_perform_all ops s1 = Ok rs s2 -> pool_perform_all (o :: ops) s = Ok (r :: rs) s2.
Proof. intros E1 E2. cbn [pool_perform_all]. rewrite (run_bind _ _ _ _ _ E1), (run_bind _ _ _ _ _ E2). reflexivity. Qed.

Lemma maps_one h c k t : entry h c = Some (k, t) -> maps h {[c]} {[k := t]}.
Proof.
  intros E k' u. rewrite lookup_singleton_Some. split; [intros [<- <-]; exists c; split; [set_solver|exact E]|].
  intros (c' & ->%elem_of_singleton & E'). split; congruence.
Qed.

Lemma with_cell_same ids S s m x : pool_state ids S s -> maps (tp_cells s) S m ->
  pool_state ids S (with_cell x s) /\ maps (tp_cells (with_cell x s)) S m /\ (forall c, c ∈ S -> key (tp_cells (with_cell x s)) c = key (tp_cells s) c) /\
  forall i r, root_bucket s S i r -> root_bucket (with_cell x s) S i r.
Proof.
  intros H Hm. assert (forall c, c ∈ S -> tp_cells (with_cell x s) !! c = tp_cells s !! c) as He by (intros c Hc; apply lookup_app_l; exact (pool_cells_lt _ _ _ _ H Hc)).
  split; [exact (pool_with_cell _ _ _ _ H)|]. split; [exact (maps_app _ _ _ _ _ H Hm)|]. split; [intros c Hc; now apply key_ext, He|].
  intros i r Hr. now apply (root_bucket_ext s).
Qed.

(** C20: Removing a transaction can remove others. Let two transactions be added to a new pool whose ids start with the same
    half of a byte. Removing the second works: it is not found any more, the first one is. Removing the first one,
    which is the head of their bucket, empties the bucket: afterwards the second is not found
    either, although nobody removed it. *)
Theorem removal_loses_neighbours ids txs cells t1 t2 id1 id2 :
  Forall2 identified txs ids -> ids !! t1 = Some id1 -> ids !! t2 = Some id2 ->
  take 20 id1 <> take 20 id2 -> nib 0 (take 20 id1) = nib 0 (take 20 id2) ->
  wp (pool_perform_all [Add t1; Add t2; Remove id2; Find id1; Find id2]) (TransactionPool_new txs cells)
    (fun rs _ => rs = [A_flag 0; A_flag 0; A_done; A_tx (Some t1); A_tx None]) /\
  wp (pool_perform_all [Add t1; Add t2; Find id2; Remove id1; Find id1; Find id2]) (TransactionPool_new txs cells)
    (fun rs _ => rs = [A_flag 0; A_flag 0; A_tx (Some t2); A_done; A_tx None; A_tx None]).
Proof.
  intros Ht H1 H2 Hne Hnib.
  assert (20 <= length id1 /\ 20 <= length id2)%nat as [L1 L2].
  { destruct (Forall2_lookup_r _ _ _ _ _ Ht H1) as (p1 & _ & Hp1). destruct (Forall2_lookup_r _ _ _ _ _ Ht H2) as (p2 & _ & Hp2).
    pose proof (identified_length _ _ Hp1). pose proof (identified_length _ _ Hp2). lia. }
  destruct (two_in_a_bucket ids txs cells t1 t2 id1 id2 Ht H1 H2 Hne Hnib) as (s1 & s2 & c1 & c2 & E1 & E2 & P2 & B2 & M2 & K1 & K2).
  assert (c1 <> c2) as Hc by congruence. split.
  - rewrite Hnib in B2. destruct (remove_in_bucket ids _ s2 c2 id2 _ P2 B2 ltac:(set_solver) K2 L2) as (s3 & E3 & He & P3).
    rewrite decide_False in P3 by (cbn; congruence). replace ({[c2; c1]} ∖ {[c2]}) with ({[c1]} : gset nat) in P3 by set_solver.
    assert (maps (tp_cells s3) {[c1]} {[take 20 id1 := t1]}) as M3.
    { apply maps_one. rewrite He by set_solver. destruct (proj1 (M2 (take 20 id1) t1)) as (c & Hcc & Ec); [rewrite lookup_insert_ne by congruence; apply lookup_insert_eq|].
      rewrite <- Ec. f_equal. apply (so_inj _ _ _ (ps_ok _ _ _ P2)); [set_solver|exact Hcc|]. rewrite K1. unfold entry in Ec.
      destruct (tp_cells s2 !! c); [|discriminate]. cbn in Ec. destruct (tc_tx _); [|discriminate]. cbn in Ec. congruence. }
    destruct (with_cell_same _ _ _ _ (search_cell id1) P3 M3) as (P4 & M4 & _).
    eapply wp_intro; [do 2 (eapply perform_cons; [eassumption|]); eapply perform_cons; [exact E3|]; eapply perform_cons; [exact (find_answer _ _ _ _ id1 P3 M3 L1)|];
      eapply perform_cons; [exact (find_answer _ _ _ _ id2 P4 M4 L2)|reflexivity]|].
    cbv beta. rewrite lookup_singleton_eq, lookup_singleton_ne by exact Hne. reflexivity.
  - destruct (with_cell_same _ _ _ _ (search_cell id2) P2 M2) as (P3 & M3 & K3 & B3). specialize (B3 _ _ B2).
    destruct (remove_in_bucket ids _ _ c1 id1 _ P3 B3 ltac:(set_solver)) as (s4 & E4 & _ & P4); [rewrite K3 by set_solver; exact K1|exact L1|].
    rewrite decide_True in P4 by reflexivity. replace ({[c2; c1]} ∖ list_to_set [c1; c2]) with (∅ : gset nat) in P4 by set_solver.
    assert (maps (tp_cells s4) ∅ ∅) as M4 by apply new_pool_maps. destruct (with_cell_same _ _ _ _ (search_cell id1) P4 M4) as (P5 & M5 & _).
    eapply wp_intro; [do 2 (eapply perform_cons; [eassumption|]); eapply perform_cons; [exact (find_answer _ _ _ _ id2 P2 M2 L2)|]; eapply perform_cons; [exact E4|];
      eapply perform_cons; [exact (find_answer _ _ _ _ id1 P4 M4 L1)|]; eapply perform_cons; [exact (find_answer _ _ _ _ id2 P5 M5 L2)|reflexivity]|].
    cbv beta. rewrite lookup_insert_eq, !lookup_empty. reflexivity.
Qed.

(** ** Received transactions *)

Lemma received_identified raw n p : P2PKH_importRawSequentially raw P2PKH_new = Ok n p -> _ins p <> [] -> identified p (EVP_SHA256 []).
Proof. intros H Hne. right. exact (proj2 (received_not_exportable raw n p H Hne)). Qed.

Lemma later_ones_refused ids m k : forall n start, (forall t, (start <= t < start + n)%nat -> take 20 (ids !!! t) = k) -> is_Some (m !! k) ->
  map_answers ids m (map Add (seq start n)) = replicate n (A_flag (-1)).
Proof.
  induction n as [|n IH]; intros start Hk [t Ht]; [reflexivity|]. cbn [seq map map_answers map_answer replicate].
  unfold add_one. rewrite Hk, Ht by lia. cbn [fst snd]. f_equal. apply IH; [|eauto]. intros u Hu. apply Hk. lia.
Qed.

(** The pool holds at most one transaction that another node sent. A transaction with inputs that was read from
    bytes has the id of no bytes at all, as all others of the kind: the first one that
    is added to a new pool is taken, every later one is refused as a duplicate. *)
Theorem one_received_transaction (ps : list P2PKH) cells :
  ps <> [] -> Forall (fun p => exists raw n, P2PKH_importRawSequentially raw P2PKH_new = Ok n p /\ _ins p <> []) ps ->
  wp (pool_perform_all (map Add (seq 0 (length ps)))) (TransactionPool_new ps cells)
    (fun rs _ => rs = A_flag 0 :: replicate (length ps - 1) (A_flag (-1))).
Proof.
  intros Hne Hps. set (ids := replicate (length ps) (EVP_SHA256 [])).
  assert (Forall2 identified ps ids) as Hids.
  { unfold ids. clear Hne. induction Hps as [|p ps (raw & n & Hr & Hi) _ IH]; cbn; constructor; [exact (received_identified _ _ _ Hr Hi)|exact IH]. }
  assert (length ids = length ps) as Hlen by apply length_replicate.
  destruct (perform_all_maps ids (map Add (seq 0 (length ps)))) with (S := ∅ : gset nat) (s := TransactionPool_new ps cells) (m := ∅ : gmap (list byte) nat) as (s & S & E & _).
  - apply Forall_fmap, Forall_seq. intros t Ht. cbn. rewrite Hlen. lia.
  - apply forallb_forall. intros o (t & <- & _)%in_map_iff. reflexivity.
  - exact (new_pool _ _ _ Hids).
  - apply new_pool_maps.
  - apply (wp_intro _ _ _ _ _ E). destruct ps as [|p ps]; [contradiction|]. cbn [length seq map map_answers map_answer].
    assert (forall t, (t < Datatypes.S (length ps))%nat -> take 20 (ids !!! t) = take 20 (EVP_SHA256 [])) as Hid.
    { intros t Ht. unfold ids. now rewrite lookup_total_replicate_2. }
    assert (add_one ids 0 ∅ = (0, <[take 20 (EVP_SHA256 []) := 0%nat]> ∅)) as -> by (unfold add_one; rewrite Hid, lookup_empty by lia; reflexivity). cbn [fst snd]. f_equal. cbn [Nat.sub]. rewrite Nat.sub_0_r.
    apply (later_ones_refused _ _ (take 20 (EVP_SHA256 []))); [intros t Ht; apply Hid; lia|]. rewrite lookup_insert_eq. eauto.
Qed.
End pool_runs.

(** ** Examples *)

(** Transactions without inputs or outputs; they differ in their version. *)
Definition tx_of_version (z : Z) : P2PKH := mkP2PKH z [] [].

Lemma tx_of_version_identified z : 0 <= z < 2 ^ 32 -> identified (tx_of_version z) (EVP_SHA256 (tx_bytes (tx_of_version z))).
Proof. intros H. left. split; [|reflexivity]. split; cbn; try lia; constructor. Qed.

Definition sample_pool_txs : list P2PKH := map tx_of_version [17; 18; 19; 33; 17].
Definition sample_pool_ids : list (list byte) := map (fun z => EVP_SHA256 (tx_bytes (tx_of_version z))) [17; 18; 19; 33; 17].

Lemma sample_pool_identified : Forall2 identified sample_pool_txs sample_pool_ids.
Proof. repeat constructor; apply tx_of_version_identified; lia. Qed.

Definition sample_pool_ops : list pool_op := [Add 0; Add 1; AddBlock [2; 4; 3] 1; Find (sample_pool_ids !!! 2%nat); Find (replicate 32 x00)]%nat.

Lemma pool_refines_map_witness :
  wp (pool_perform_all sample_pool_ops) (TransactionPool_new sample_pool_txs []) (fun rs _ => rs = map_answers sample_pool_ids ∅ sample_pool_ops) /\
  map_answers sample_pool_ids ∅ sample_pool_ops = [A_flag 0; A_flag 0; A_added [Some 2; Some 3]; A_tx (Some 2); A_tx None]%nat.
Proof.
  split; [|vm_compute; reflexivity]. apply pool_refines_map; [exact sample_pool_identified| |reflexivity].
  repeat constructor; cbn; lia.
Defined.

Lemma removal_loses_neighbours_witness :
  wp (pool_perform_all [Add 0; Add 1; Remove (sample_pool_ids !!! 1%nat); Find (sample_pool_ids !!! 0%nat); Find (sample_pool_ids !!! 1%nat)])
    (TransactionPool_new sample_pool_txs []) (fun rs _ => rs = [A_flag 0; A_flag 0; A_done; A_tx (Some 0%nat); A_tx None]) /\
  wp (pool_perform_all [Add 0; Add 1; Find (sample_pool_ids !!! 1%nat); Remove (sample_pool_ids !!! 0%nat); Find (sample_pool_ids !!! 0%nat); Find (sample_pool_ids !!! 1%nat)])
    (TransactionPool_new sample_pool_txs []) (fun rs _ => rs = [A_flag 0; A_flag 0; A_tx (Some 1%nat); A_done; A_tx None; A_tx None]).
Proof.
  apply (removal_loses_neighbours sample_pool_ids sample_pool_txs [] 0 1 (sample_pool_ids !!! 0%nat) (sample_pool_ids !!! 1%nat));
    [exact sample_pool_identified|vm_compute; reflexivity|vm_compute; reflexivity|vm_compute; discriminate|vm_compute; reflexivity].
Defined.

Lemma one_received_transaction_witness :
  _ins sample_read <> [] /\ wp (pool_perform_all (map Add (seq 0 2))) (TransactionPool_new [sample_read; sample_read] []) (fun rs _ => rs = [A_flag 0; A_flag (-1)]).
Proof.
  split; [vm_compute; discriminate|]. apply (one_received_transaction [sample_read; sample_read] []); [discriminate|].
  assert (exists raw n, P2PKH_importRawSequentially raw P2PKH_new = Ok n sample_read /\ _ins sample_read <> []) as H.
  { exists sample_bytes. eexists. split; [vm_compute; reflexivity|vm_compute; discriminate]. }
  repeat constructor; exact H.
Defined.
