(* ===== verification/Payments.v ===== *)
(** Transactions read from files of payments ([ControlInterface::createTxFromJsonFile],
    [from_json] of inputs and outputs), down to the hexadecimal digits. *)
From stdpp Require Import strings.
From S2P Require Import Prelude Bson Crypto Script TxFormat P2PKH.
From Stdlib Require Import Lia.
#[local] Open Scope Z_scope.

(** ** Strings *)

(** [std::isspace], and a hexadecimal digit. *)
Definition is_space (b : byte) : bool := (u8 b =? 32) || ((9 <=? u8 b) && (u8 b <=? 13)).

Definition hex_digit (b : byte) : option Z :=
  let c := u8 b in
  if (48 <=? c) && (c <=? 57) then Some (c - 48)
  else if (65 <=? c) && (c <=? 70) then Some (c - 55)
  else if (97 <=? c) && (c <=? 102) then Some (c - 87)
  else None.

Fixpoint skip_space (s : list byte) : list byte :=
  match s with b :: s' => if is_space b then skip_space s' else s | [] => [] end.

Fixpoint hex_value (acc : Z) (s : list byte) : Z :=
  match s with
  | [] => acc
  | b :: s' => match hex_digit b with Some d => hex_value (16 * acc + d) s' | None => acc end
  end.

(** [std::stoul( s , nullptr , 16 )]: spaces, a sign, a prefix, digits, and what follows them is ignored. *)
Definition stoul16 {St} (s : list byte) : prog St Z :=
  let s := skip_space s in
  let '(neg, s) := match s with x2d :: s' => (true, s') | x2b :: s' => (false, s') | _ => (false, s) end in
  let s := match s with
           | x30 :: x :: d :: s' => if (bool_decide (x = x78) || bool_decide (x = x58)) && bool_decide (is_Some (hex_digit d)) then d :: s' else s
           | _ => s
           end in
  if bool_decide (is_Some (head s ≫= hex_digit)) then
    let v := hex_value 0 s in
    if 2 ^ 64 <=? v then throw OutOfRange else mret (if neg then (- v) mod 2 ^ 64 else v)
  else throw InvalidArgument.

(** [std::string::substr]. *)
Definition substr {St} (pos n : nat) (s : list byte) : prog St (list byte) :=
  if (length s <? pos)%nat then throw OutOfRange else mret (take n (drop pos s)).

(** The loop over pairs of digits from place [i], [n] of them. *)
Fixpoint hexBinaryVector {St} (n i : nat) (s : list byte) : prog St (list byte) :=
  match n with
  | O => mret []
  | S n' =>
      subString ← substr i 2 s;
      v ← stoul16 subString;
      r ← hexBinaryVector n' (i + 2) s;
      mret (b8 v :: r)
  end.

(** ** JSON values *)

(** [operator[]] on a constant value, whose missing members are asserted to be there. *)
Definition const_member {St} (k : list byte) (j : json) : prog St json :=
  match j with
  | J_object m => match obj_get k m with Some v => mret v | None => throw AssertionFailure end
  | _ => throw JsonError
  end.

(** [operator[]] on a variable: null becomes an object, a missing member null. *)
Definition member (k : list byte) : prog json json :=
  j ← get_state;
  match j with
  | J_object m => _ ← set_state (J_object (obj_at k m).2); mret (obj_at k m).1
  | J_null => _ ← set_state (J_object [(k, J_null)]); mret J_null
  | _ => throw JsonError
  end.

(** [get<std::string>]. *)
Definition json_get_string {St} (j : json) : prog St (list byte) := match j with J_string s => mret s | _ => throw JsonError end.

(** ** Outputs and inputs *)

Definition k_value : list byte := Bson.key_of "value".
Definition k_address : list byte := Bson.key_of "address".
Definition k_utxo_tx_id : list byte := Bson.key_of "utxo_tx_id".
Definition k_index : list byte := Bson.key_of "index".
Definition k_destination : list byte := Bson.key_of "destination".
Definition k_source : list byte := Bson.key_of "source".

Definition TxOut_from_json (from : json) : prog TxOut unit :=
  j ← const_member k_value from;
  v ← json_to_int true 64 j;
  _ ← modify (fun t => mkTxOut (bswap64 (v mod 2 ^ 64)) (_pkScriptBytes t) (_pkScript t) (_pubKeyHash t));
  j ← const_member k_address from;
  sAddress ← json_get_string j;
  hex ← hexBinaryVector 20 0 sAddress;
  modify (fun t => mkTxOut (_value t) (_pkScriptBytes t) (_pkScript t) (Some hex)).

(** [txID( const unsigned char* )] copies into the id that is there. *)
Definition prev_out_copy_txID (target : buffer) : prog prev_out unit :=
  p ← get_state;
  match target with
  | None => set_state (mkPrevOut (replicate 32 x00 ++ drop 32 (_txID p)) (_index p))
  | Some _ => t ← must (rd 32 target); set_state (mkPrevOut (t ++ drop 32 (_txID p)) (_index p))
  end.

Section payments_code.
Context {ssl : OpenSSL}.

Definition TxIn_from_json (from : json) : prog TxIn unit :=
  j ← const_member k_utxo_tx_id from;
  sUTXOTxID ← json_get_string j;
  hex ← hexBinaryVector 32 0 sUTXOTxID;
  _ ← on_prevOut (prev_out_copy_txID (Some hex));
  j ← const_member k_index from;
  i ← json_to_int true 32 j;
  on_prevOut (modify (prev_out_set_index (i mod 2 ^ 32))).

(** Code on an object of its own. *)
Definition on_new {St T A} (new : T) (c : prog T A) : prog St (A * T) := fun s =>
  match c new with Ok a t => Ok (a, t) s | Throw e _ => Throw e s | Undef => Undef end.

Fixpoint load_items {St T} (new : T) (from_json : json -> prog T unit) (l : list json) : prog St (list T) :=
  match l with
  | [] => mret []
  | itr :: l' => '(_, t) ← on_new new (from_json itr); r ← load_items new from_json l'; mret (t :: r)
  end.

(** The body of [createTxFromJsonFile], outputs first. *)
Definition load_payment : prog json P2PKH :=
  tos ← member k_destination;
  outs ← load_items TxOut_new TxOut_from_json (json_items tos);
  let loadedP2PKH := foldl (fun p t => P2PKH_add_out t p) P2PKH_new outs in
  froms ← member k_source;
  ins ← load_items TxIn_new TxIn_from_json (json_items froms);
  mret (foldl (fun p t => P2PKH_add_in t p) loadedP2PKH ins).

(** [createTxFromJsonFile]: [file] is what the parser makes of the file, if there is one that can be opened. *)
Definition createTxFromJsonFile {St} (file : option (option json)) : prog St (option P2PKH) :=
  match file with
  | None => mret None
  | Some None => throw JsonError
  | Some (Some paymentData) => '(loadedP2PKH, _) ← on_new paymentData load_payment; mret (Some loadedP2PKH)
  end.
End payments_code.

(** ** Digits *)

Definition is_hex (b : byte) : Prop := is_Some (hex_digit b).
Definition digit (b : byte) : Z := default 0 (hex_digit b).

Lemma hex_digit_range b d : hex_digit b = Some d -> 0 <= d < 16.
Proof.
  unfold hex_digit. pose proof (u8_range b). repeat case_match; intros [= <-]; unfold is_true in *;
    repeat match goal with H : (_ && _) = true |- _ => apply andb_prop in H as [?%Z.leb_le ?%Z.leb_le] end; lia.
Qed.

Lemma stoul16_short {St} a t (s : St) : is_hex a -> (length t <= 1)%nat ->
  stoul16 (a :: t) s = Ok (hex_value 0 (a :: t)) s.
Proof.
  intros [d E] Ht.
  assert (hex_value 0 (a :: t) < 2 ^ 64) as Hlt.
  { destruct t as [|b [|]]; [| |cbn in Ht; lia]; cbn [hex_value]; rewrite E; pose proof (hex_digit_range _ _ E); [lia|].
    destruct (hex_digit b) as [y|] eqn:Eb; [pose proof (hex_digit_range _ _ Eb)|]; lia. }
  assert (stoul16 (a :: t) s = (let v := hex_value 0 (a :: t) in if 2 ^ 64 <=? v then throw OutOfRange else mret v) s) as ->.
  { destruct a; try discriminate; destruct t as [|b [|]]; try reflexivity; cbn in Ht; lia. }
  cbv zeta. now rewrite (proj2 (Z.leb_gt _ _)) by exact Hlt.
Qed.

(** The bytes the loop makes of digits: the last may be alone. *)
Fixpoint hex_pairs (n : nat) (s : list byte) : list byte :=
  match n, s with
  | S n', a :: b :: s' => b8 (16 * digit a + digit b) :: hex_pairs n' s'
  | S _, [a] => [b8 (digit a)]
  | _, _ => []
  end.

Lemma hex_pairs_length n s : (2 * n <= length s + 1)%nat -> length (hex_pairs n s) = n.
Proof.
  revert s; induction n as [|n IH]; intros [|a [|b s]] Hl; cbn [length] in Hl; try lia; [reflexivity..| |].
  - cbn [hex_pairs length]. lia.
  - cbn [hex_pairs length]. rewrite IH by lia. reflexivity.
Qed.

(** What lies behind the digits does not matter; a digit that is left over is a byte. *)
Lemma hex_pairs_rest n s rest : length s = (2 * n)%nat -> hex_pairs n (s ++ rest) = hex_pairs n s.
Proof.
  revert s; induction n as [|n IH]; intros [|a [|b s]] Hl; cbn [length] in Hl; try lia; [now destruct rest|].
  cbn [app hex_pairs]. rewrite IH by lia. reflexivity.
Qed.

Lemma hex_pairs_left_over n l c : length l = (2 * n)%nat -> hex_pairs (S n) (l ++ [c]) = hex_pairs n l ++ [b8 (digit c)].
Proof.
  revert l; induction n as [|n IH]; intros [|a [|b l]] Hl; cbn [length] in Hl; try lia; [reflexivity|].
  change (hex_pairs (S (S n)) ((a :: b :: l) ++ [c])) with (b8 (16 * digit a + digit b) :: hex_pairs (S n) (l ++ [c])).
  rewrite IH by lia. reflexivity.
Qed.

Lemma hex_value_pair a b : is_hex a -> is_hex b -> hex_value 0 [a; b] = 16 * digit a + digit b.
Proof. intros [x Ea] [y Eb]. cbn [hex_value]. unfold digit. rewrite Ea, Eb. cbn [default]. unfold default, from_option, id. lia. Qed.

Lemma hex_value_single a : is_hex a -> hex_value 0 [a] = digit a.
Proof. intros [x Ea]. cbn [hex_value]. unfold digit. rewrite Ea. unfold default, from_option, id. lia. Qed.

(** What the loop answers, by what is left of the string. *)
Lemma hex_loop {St} n : forall i s (st : St), (i <= length s)%nat -> Forall is_hex (take (2 * n) (drop i s)) ->
  hexBinaryVector n i s st =
    if (2 * n <=? length s - i + 1)%nat then Ok (hex_pairs n (drop i s)) st
    else Throw (if Nat.even (length s - i) then InvalidArgument else OutOfRange) st.
Proof.
  induction n as [|n IH]; intros i s st Hi Hh; [reflexivity|].
  cbn [hexBinaryVector]. unfold substr. destruct (Nat.ltb_spec (length s) i); [lia|].
  assert (length (drop i s) = length s - i)%nat as Hl by apply length_drop.
  unfold mbind at 1, prog_bind at 1. cbn [mret prog_ret].
  destruct (drop i s) as [|a [|b r]] eqn:Ed; cbn [length] in Hl.
  - cbn [take]. replace (length s - i)%nat with 0%nat by lia. destruct (Nat.leb_spec (2 * S n) (0 + 1)); [lia|]. reflexivity.
  - replace (2 * S n)%nat with (S (S (2 * n))) in Hh by lia. cbn [take] in Hh. apply Forall_cons in Hh as [Ha _]. cbn [take].
    unfold mbind at 1, prog_bind at 1. rewrite (stoul16_short a []) by first [assumption|cbn; lia].
    rewrite hex_value_single by assumption. replace (length s - i)%nat with 1%nat by lia.
    destruct n as [|n]; [reflexivity|]. cbn [hexBinaryVector]. unfold substr. destruct (Nat.ltb_spec (length s) (i + 2)); [|lia].
    destruct (Nat.leb_spec (2 * S (S n)) (1 + 1)); [lia|]. reflexivity.
  - replace (2 * S n)%nat with (S (S (2 * n))) in Hh by lia. cbn [take] in Hh. apply Forall_cons in Hh as [Ha [Hb Hh]%Forall_cons]. cbn [take].
    unfold mbind at 1, prog_bind at 1. rewrite (stoul16_short a [b]) by first [assumption|cbn; lia]. rewrite hex_value_pair by assumption.
    assert (drop (i + 2) s = r) as Er by (rewrite <- drop_drop, Ed; reflexivity).
    unfold mbind, prog_bind. rewrite IH by (rewrite ?Er; assumption || lia). rewrite Er.
    replace (length s - i)%nat with (S (S (length s - (i + 2)))) by lia. cbn [Nat.even].
    destruct (Nat.leb_spec (2 * n) (length s - (i + 2) + 1)), (Nat.leb_spec (2 * S n) (S (S (length s - (i + 2))) + 1)); try lia; reflexivity.
Qed.

(** Writing bytes as digits, of either case. *)
Definition hex_char (upper : bool) (d : Z) : byte := b8 (if d <? 10 then 48 + d else if upper then 55 + d else 87 + d).
Definition hex_encode (upper : bool) (l : list byte) : list byte := concat (map (fun b => [hex_char upper (u8 b / 16); hex_char upper (u8 b mod 16)]) l).

Lemma hex_char_digit upper d : 0 <= d < 16 -> hex_digit (hex_char upper d) = Some d.
Proof.
  intros H. assert (forall n, (n < 16)%nat -> hex_digit (hex_char upper (Z.of_nat n)) = Some (Z.of_nat n)) as Hn.
  { intros n Hn. do 16 (destruct n as [|n]; [destruct upper; reflexivity|]). lia. }
  specialize (Hn (Z.to_nat d)). rewrite Z2Nat.id in Hn by lia. apply Hn. lia.
Qed.

Lemma hex_halves b : 0 <= u8 b / 16 < 16 /\ 0 <= u8 b mod 16 < 16.
Proof. pose proof (u8_range b). split; [split; [apply Z.div_pos; lia|apply Z.div_lt_upper_bound; lia]|apply Z.mod_pos_bound; lia]. Qed.

Lemma hex_encode_length upper l : length (hex_encode upper l) = (2 * length l)%nat.
Proof. induction l as [|b l IH]; [reflexivity|]. change (length (hex_encode upper (b :: l))) with (S (S (length (hex_encode upper l)))). rewrite IH. cbn [length]. lia. Qed.

Lemma hex_encode_digits upper l : Forall is_hex (hex_encode upper l).
Proof.
  induction l as [|b l IH]; [constructor|]. pose proof (hex_halves b) as [H1 H2].
  constructor; [eexists; now apply hex_char_digit|]. constructor; [eexists; now apply hex_char_digit|exact IH].
Qed.

Lemma hex_pairs_encode upper l rest : hex_pairs (length l) (hex_encode upper l ++ rest) = l.
Proof.
  induction l as [|b l IH]; [now destruct rest|]. pose proof (hex_halves b) as [H1 H2].
  change (hex_encode upper (b :: l) ++ rest) with (hex_char upper (u8 b / 16) :: hex_char upper (u8 b mod 16) :: hex_encode upper l ++ rest).
  cbn [length hex_pairs]. rewrite IH. f_equal. unfold digit. rewrite !hex_char_digit by assumption. unfold default, from_option, id.
  rewrite <- Z.div_mod by lia. apply b8_u8.
Qed.

Lemma hex_text_read {St} upper l rest (st : St) : hexBinaryVector (length l) 0 (hex_encode upper l ++ rest) st = Ok l st.
Proof.
  rewrite hex_loop; [|lia|].
  - rewrite drop_0, hex_pairs_encode. rewrite length_app, hex_encode_length. destruct (Nat.leb_spec (2 * length l) (2 * length l + length rest - 0 + 1)); [reflexivity|lia].
  - rewrite drop_0. rewrite <- (hex_encode_length upper l), take_app_length. apply hex_encode_digits.
Qed.

(** ** Payments *)

(** Values that describe an output (key hash, amount) or an input (id, index): digits of either case, with anything behind them
    and among other members. *)
Definition describes_out (j : json) (o : list byte * Z) : Prop := exists m upper rest,
  j = J_object m /\ obj_get k_value m = Some (J_number o.2) /\ obj_get k_address m = Some (J_string (hex_encode upper o.1 ++ rest)) /\
  length o.1 = 20%nat.
Definition describes_in (j : json) (o : list byte * Z) : Prop := exists m upper rest,
  j = J_object m /\ obj_get k_index m = Some (J_number o.2) /\ obj_get k_utxo_tx_id m = Some (J_string (hex_encode upper o.1 ++ rest)) /\
  length o.1 = 32%nat.

Definition made_out (o : list byte * Z) : TxOut := mkTxOut (bswap64 (o.2 mod 2 ^ 64)) 0 [] (Some o.1).

Lemma to_signed_mod_id w z : 0 < w -> to_signed w z mod 2 ^ w = z mod 2 ^ w.
Proof.
  intros Hw. unfold to_signed. rewrite Zminus_mod_idemp_l. f_equal. lia.
Qed.

Lemma TxOut_from_json_run j o : describes_out j o -> TxOut_from_json j TxOut_new = Ok tt (made_out o).
Proof.
  intros (m & upper & rest & -> & Ev & Ea & Hl). unfold TxOut_from_json, const_member. rewrite Ev, Ea.
  unfold mbind, prog_bind, mret, prog_ret, json_to_int, modify, json_get_string, wrap, mret, prog_ret.
  rewrite <- Hl, hex_text_read. unfold made_out, TxOut_new. cbn [_value _pkScriptBytes _pkScript]. now rewrite to_signed_mod_id by lia.
Qed.

Lemma load_items_run {St T B} (new : T) (from : json -> prog T unit) (rel : json -> B -> Prop) (made : B -> T) l os (st : St) :
  (forall j o, rel j o -> from j new = Ok tt (made o)) -> Forall2 rel l os -> load_items new from l st = Ok (map made os) st.
Proof.
  intros H HF. induction HF as [|j o l os Hj _ IH]; [reflexivity|].
  cbn [load_items]. unfold mbind, prog_bind, on_new. rewrite (H j o Hj), IH. reflexivity.
Qed.

Section payments.
Context {ssl : OpenSSL}.

Definition made_in (o : list byte * Z) : TxIn := set_prevOut (mkPrevOut o.1 (bswap32 (o.2 mod 2 ^ 32))) TxIn_new.
Definition payment (ins outs : list (list byte * Z)) : P2PKH := mkP2PKH 0 (map made_in ins) (map made_out outs).

Lemma foldl_add_outs l : forall p, foldl (fun p t => P2PKH_add_out t p) p l = mkP2PKH (_version p) (_ins p) (_outs p ++ l).
Proof. induction l as [|t l IH]; intros [v i o]; cbn [foldl]; [now rewrite app_nil_r|]. rewrite IH. cbn [_version _ins _outs P2PKH_add_out]. now rewrite <- app_assoc. Qed.

Lemma foldl_add_ins l : forall p, foldl (fun p t => P2PKH_add_in t p) p l = mkP2PKH (_version p) (_ins p ++ l) (_outs p).
Proof. induction l as [|t l IH]; intros [v i o]; cbn [foldl]; [now rewrite app_nil_r|]. rewrite IH. cbn [_version _ins _outs P2PKH_add_in]. now rewrite <- app_assoc. Qed.

(** The end of reading an input, with the id it refers to. *)
Lemma made_in_run hex v : length hex = 32%nat ->
  (_ ← on_prevOut (prev_out_copy_txID (Some hex)); j ← mret (J_number v); i ← json_to_int true 32 j; on_prevOut (modify (prev_out_set_index (i mod 2 ^ 32)))) TxIn_new =
  Ok tt (made_in (hex, v)).
Proof.
  intros Hl. unfold mbind, prog_bind, mret, prog_ret.
  unfold on_prevOut, zoom, prev_out_copy_txID, mbind, prog_bind, get_state. cbn [_prevOut TxIn_new].
  assert (rd 32 (Some hex) = Some hex) as -> by (change 32 with (Z.of_nat 32); rewrite <- Hl; apply rd_all).
  unfold must, mret, prog_ret, set_state, json_to_int, wrap, modify. cbn. rewrite to_signed_mod_id by lia. now rewrite app_nil_r.
Qed.

Lemma TxIn_from_json_run j o : describes_in j o -> TxIn_from_json j TxIn_new = Ok tt (made_in o).
Proof.
  intros (m & upper & rest & -> & Ev & Ea & Hl). unfold TxIn_from_json, const_member. rewrite Ev, Ea. unfold json_get_string.
  rewrite 2!(run_bind (mret _) _ _ _ _ eq_refl). rewrite <- Hl. rewrite (run_bind _ _ _ _ _ (hex_text_read upper o.1 rest TxIn_new)).
  rewrite (made_in_run _ _ Hl). now destruct o.
Qed.

(** A member, which is null where there is none. *)
Definition member_of (k : list byte) (m : list (list byte * json)) : json := default J_null (obj_get k m).

Lemma member_run k m : exists m', member k (J_object m) = Ok (member_of k m) (J_object m') /\ forall k', k' <> k -> obj_get k' m' = obj_get k' m.
Proof.
  unfold member, member_of, obj_at. rewrite run_get. destruct (obj_get k m) as [v|] eqn:E.
  - exists m. now split.
  - exists (obj_set k J_null m). split; [reflexivity|]. intros k' Hk. now apply obj_get_set_other.
Qed.

Lemma load_payment_run m outs ins : Forall2 describes_out (json_items (member_of k_destination m)) outs ->
  Forall2 describes_in (json_items (member_of k_source m)) ins -> exists j, load_payment (J_object m) = Ok (payment ins outs) j.
Proof.
  intros Ho Hi. unfold load_payment. destruct (member_run k_destination m) as (m' & E & Hm). erewrite run_bind by exact E.
  erewrite run_bind by exact (load_items_run _ _ _ _ _ _ _ TxOut_from_json_run Ho). cbv zeta.
  destruct (member_run k_source m') as (m'' & E' & _). erewrite run_bind by exact E'.
  assert (member_of k_source m' = member_of k_source m) as -> by (unfold member_of; now rewrite Hm by discriminate).
  erewrite run_bind by exact (load_items_run _ _ _ _ _ _ _ TxIn_from_json_run Hi).
  rewrite foldl_add_outs, foldl_add_ins. now eexists.
Qed.

(** The payer's keys, which are set on the inputs of a payment that was read. *)
Definition with_keys (keys : list PKEY) (p : P2PKH) : P2PKH := mkP2PKH (_version p) (zip_with (fun k t => TxIn_set_pkey (Some k) t) keys (_ins p)) (_outs p).
Definition payer_key (k : PKEY) : Prop := has_private k = true /\ push_ok (i2d_PUBKEY k).

Lemma payment_signable keys ins outs : length keys = length ins -> Forall payer_key keys ->
  Forall (fun o : list byte * Z => length o.1 = 32%nat) ins -> Forall (fun o : list byte * Z => length o.1 = 20%nat) outs ->
  Z.of_nat (length ins) < 2 ^ 32 -> Z.of_nat (length outs) < 2 ^ 32 -> signable (with_keys keys (payment ins outs)).
Proof.
  intros Hk HF Hi Ho Hni Hno. constructor; cbn [with_keys payment _version _ins _outs].
  - lia.
  - rewrite length_zip_with, length_map. lia.
  - rewrite length_map. lia.
  - clear Hni Hno. revert ins Hk Hi. induction HF as [|k keys [Hp Hq] _ IH]; intros [|o ins] Hk Hi; try discriminate; [constructor|].
    apply Forall_cons in Hi as [Hl Hi]. cbn [map zip_with]. constructor; [|apply IH; [now injection Hk|exact Hi]].
    split; [unfold in_ok; cbn; lia|]. split; [apply (bswap_range 4)|]. split; [cbn; lia|].
    exists k. now repeat split; try apply Hq.
  - apply Forall_map. eapply Forall_impl; [exact Ho|]. intros o Hl. exists o.1. now split.
  - apply Forall_map. apply Forall_true. intros o. apply (bswap_range 8).
Qed.

End payments.

(** ** Properties *)

Section properties.
Context {ssl : OpenSSL} {laws : OpenSSL_laws}.

(** C10: A payment written to a file can be made. A file whose outputs give a key hash in digits and an amount, and whose inputs
    give an id in digits and an index (digits of either case, anything behind them, other members beside them; a list that
    is missing is empty), is read to the
    transaction with these inputs and outputs; and once its inputs have their keys it can be signed, sent
    and received: the receiver has the outputs that were asked for, and every input refers to
    the output that was given and validates against the hash of the payer's key. *)
Theorem payment_file_validates {St} m outs ins keys rest (st : St) :
  Forall2 describes_out (json_items (member_of k_destination m)) outs -> Forall2 describes_in (json_items (member_of k_source m)) ins ->
  length keys = length ins -> Forall payer_key keys -> signature_sizes -> Z.of_nat (length ins) < 2 ^ 32 -> Z.of_nat (length outs) < 2 ^ 32 ->
  createTxFromJsonFile (Some (Some (J_object m))) st = Ok (Some (payment ins outs)) st /\
  exists p1 raw p2 p3, P2PKH_sign (with_keys keys (payment ins outs)) = Ok true p1 /\ P2PKH_exportRaw p1 = Ok raw p2 /\
    P2PKH_importRawSequentially (raw ++ rest) P2PKH_new = Ok (Z.of_nat (length raw)) p3 /\
    map out_core (_outs p3) = map (fun o : list byte * Z => (bswap64 (o.2 mod 2 ^ 64), o.1)) outs /\
    forall i o k, ins !! i = Some o -> keys !! i = Some k ->
    exists t3 bytes p4, _ins p3 !! i = Some t3 /\ _prevOut t3 = mkPrevOut o.1 (bswap32 (o.2 mod 2 ^ 32)) /\
      txHashOnTxIn i p3 = Ok bytes p4 /\
      verifyP2PKHScript (p2pkh_script (EVP_SHA1 (i2d_PUBKEY k))) (_script (_signatureScript t3)) (Some bytes) (Z.of_nat (length bytes)) = Some true.
Proof.
  intros Ho Hi Hk HF Hsz Hni Hno.
  assert (Forall (fun o : list byte * Z => length o.1 = 32%nat) ins) as Li by (clear -Hi; induction Hi as [|j o l os (? & ? & ? & _ & _ & _ & H)]; now constructor).
  assert (Forall (fun o : list byte * Z => length o.1 = 20%nat) outs) as Lo by (clear -Ho; induction Ho as [|j o l os (? & ? & ? & _ & _ & _ & H)]; now constructor).
  split.
  - unfold createTxFromJsonFile, on_new, mbind, prog_bind. now destruct (load_payment_run m outs ins Ho Hi) as [j ->].
  - pose proof (payment_signable keys ins outs Hk HF Li Lo Hni Hno) as Hs.
    destruct (signed_received _ rest Hsz Hs) as (p1 & p2 & E & Ex & Er & Eo & Hv).
    do 4 eexists. split; [exact E|]. split; [exact Ex|]. split; [exact Er|].
    split; [rewrite Eo; cbn [with_keys payment _outs]; now rewrite map_map|]. intros i o k Eoi Ek.
    assert (_ins (with_keys keys (payment ins outs)) !! i = Some (TxIn_set_pkey (Some k) (made_in o))) as Et.
    { cbn [with_keys payment _ins]. rewrite lookup_zip_with, Ek. cbn. now rewrite list_lookup_fmap, Eoi. }
    destruct (Hv i _ k Et eq_refl) as (bytes & p4 & Hb & Hs4). exists (in_read (signed (with_keys keys (payment ins outs)) i (TxIn_set_pkey (Some k) (made_in o)))), bytes, p4.
    split; [cbn [_ins]; now rewrite list_lookup_fmap, list_lookup_imap, Et|]. split; [|now split].
    rewrite Forall_lookup in Li. cbn. now rewrite take_ge by (rewrite (Li i o Eoi); lia).
Qed.

(** C27: Too short an address is refused, but not always. Of a string whose characters, as far as they are looked
    at, are digits, an output takes the first 40 for the hash of a key and an input the first 64 for an id. If one is
    missing, the last digit is taken for
    a byte of its own; if more are missing, an exception is thrown, which depends on whether the number of digits is even.
    Nothing checks that the string ends where it should. *)
Theorem address_digits_counted s m v :
  (obj_get k_value m = Some (J_number v) -> obj_get k_address m = Some (J_string s) -> Forall is_hex (take 40 s) ->
   TxOut_from_json (J_object m) TxOut_new =
    (let t := mkTxOut (bswap64 (v mod 2 ^ 64)) 0 [] in
     if (39 <=? length s)%nat then Ok tt (t (Some (hex_pairs 20 s)))
     else Throw (if Nat.even (length s) then InvalidArgument else OutOfRange) (t None))) /\
  (obj_get k_utxo_tx_id m = Some (J_string s) -> obj_get k_index m = Some (J_number v) -> Forall is_hex (take 64 s) ->
   TxIn_from_json (J_object m) TxIn_new =
    (if (63 <=? length s)%nat then Ok tt (made_in (hex_pairs 32 s, v))
     else Throw (if Nat.even (length s) then InvalidArgument else OutOfRange) TxIn_new)) /\
  (forall n rest, length s = (2 * n)%nat -> hex_pairs n (s ++ rest) = hex_pairs n s) /\
  (forall n l c, length l = (2 * n)%nat -> hex_pairs (S n) (l ++ [c]) = hex_pairs n l ++ [b8 (digit c)]).
Proof.
  split; [|split; [|split]].
  - intros Ev Ea Hs. unfold TxOut_from_json, const_member. rewrite Ev, Ea. unfold mbind, prog_bind, mret, prog_ret, json_to_int, modify, json_get_string, wrap, mret, prog_ret.
    rewrite (hex_loop 20 0 s) by (rewrite ?drop_0; assumption || lia). rewrite drop_0, Nat.sub_0_r, to_signed_mod_id by lia. unfold TxOut_new. cbn [_value _pkScriptBytes _pkScript _pubKeyHash].
    destruct (Nat.leb_spec (2 * 20) (length s + 1)), (Nat.leb_spec 39 (length s)); try lia; reflexivity.
  - intros Ea Ev Hs. unfold TxIn_from_json, const_member. rewrite Ev, Ea. unfold json_get_string.
    rewrite 2!(run_bind (mret _) _ _ _ _ eq_refl). unfold mbind at 1, prog_bind at 1.
    rewrite (hex_loop 32 0 s) by (rewrite ?drop_0; assumption || lia). rewrite drop_0, Nat.sub_0_r.
    destruct (Nat.leb_spec (2 * 32) (length s + 1)), (Nat.leb_spec 63 (length s)); try lia; [|reflexivity].
    apply made_in_run, hex_pairs_length. lia.
  - intros n rest. apply hex_pairs_rest.
  - intros n l c. apply hex_pairs_left_over.
Qed.
End properties.

(** ** The properties at a payment of one input and one output *)

Definition sample_destination : json := J_object [(k_address, J_string (hex_encode true (replicate 20 xab))); (k_value, J_number 70000)].
Definition sample_source : json := J_object [(k_index, J_number 1); (k_utxo_tx_id, J_string (hex_encode false (replicate 32 xcd) ++ [x7a]))].
Definition sample_file : list (list byte * json) := [(k_destination, J_array [sample_destination]); (k_source, J_array [sample_source])].

Lemma payment_file_validates_witness :
  createTxFromJsonFile (Some (Some (J_object sample_file))) tt = Ok (Some (payment [(replicate 32 xcd, 1)] [(replicate 20 xab, 70000)])) tt /\
  exists p1 raw p2 p3, P2PKH_sign (with_keys [sample_key] (payment [(replicate 32 xcd, 1)] [(replicate 20 xab, 70000)])) = Ok true p1 /\
    P2PKH_exportRaw p1 = Ok raw p2 /\
    P2PKH_importRawSequentially (raw ++ [xff]) P2PKH_new = Ok (Z.of_nat (length raw)) p3 /\
    map out_core (_outs p3) = map (fun o : list byte * Z => (bswap64 (o.2 mod 2 ^ 64), o.1)) [(replicate 20 xab, 70000)] /\
    forall i o k, [(replicate 32 xcd, 1)] !! i = Some o -> [sample_key] !! i = Some k ->
    exists t3 bytes p4, _ins p3 !! i = Some t3 /\ _prevOut t3 = mkPrevOut o.1 (bswap32 (o.2 mod 2 ^ 32)) /\
      txHashOnTxIn i p3 = Ok bytes p4 /\
      verifyP2PKHScript (p2pkh_script (EVP_SHA1 (i2d_PUBKEY k))) (_script (_signatureScript t3)) (Some bytes) (Z.of_nat (length bytes)) = Some true.
Proof.
  apply (payment_file_validates sample_file [(replicate 20 xab, 70000)] [(replicate 32 xcd, 1)] [sample_key] [xff] tt).
  - constructor; [|constructor]. eexists _, true, []. split; [reflexivity|]. split; [reflexivity|]. split; reflexivity.
  - constructor; [|constructor]. eexists _, false, [x7a]. split; [reflexivity|]. split; [reflexivity|]. split; reflexivity.
  - reflexivity.
  - constructor; [|constructor]. split; [reflexivity|]. split; [split; reflexivity|reflexivity].
  - exact toy_signature_sizes.
  - reflexivity.
  - reflexivity.
Defined.

Lemma address_digits_counted_witness :
  TxOut_from_json (J_object [(k_address, J_string (hex_encode false (replicate 5 xab))); (k_value, J_number 3)]) TxOut_new =
    Throw InvalidArgument (mkTxOut (bswap64 3) 0 [] None) /\
  TxIn_from_json (J_object [(k_index, J_number 3); (k_utxo_tx_id, J_string (hex_encode false (replicate 31 xab) ++ [x37]))]) TxIn_new =
    Ok tt (made_in (replicate 31 xab ++ [x07], 3)) /\
  hex_pairs 20 (hex_encode false (replicate 20 xab) ++ [xff]) = replicate 20 xab /\
  hex_pairs 20 (hex_encode false (replicate 19 xab) ++ [x37]) = replicate 19 xab ++ [x07].
Proof.
  split; [|split; [|split]].
  - exact (proj1 (address_digits_counted (hex_encode false (replicate 5 xab)) [(k_address, J_string (hex_encode false (replicate 5 xab))); (k_value, J_number 3)] 3)
      eq_refl eq_refl (hex_encode_digits false (replicate 5 xab))).
  - apply (address_digits_counted (hex_encode false (replicate 31 xab) ++ [x37])
      [(k_index, J_number 3); (k_utxo_tx_id, J_string (hex_encode false (replicate 31 xab) ++ [x37]))] 3); [reflexivity..|].
    apply Forall_take, Forall_app. split; [apply hex_encode_digits|apply Forall_singleton; now eexists].
  - exact (proj1 (proj2 (proj2 (address_digits_counted (hex_encode false (replicate 20 xab)) [] 0))) 20%nat [xff] eq_refl).
  - exact (proj2 (proj2 (proj2 (address_digits_counted [] [] 0))) 19%nat (hex_encode false (replicate 19 xab)) x37 eq_refl).
Defined.
