(* ===== verification/Validation.v ===== *)
(** The checks of headers and transactions that stand beside their classes
    ([chain/validation/validation.cpp]), and the queue of the blocks whose data is awaited
    ([chain/daemon/block_validator/block_validator.cpp]). *)
From S2P Require Import Prelude Bson OverlayPtr CacheTable Allocator Crypto MemoryManager ItemSet NodeStore ONode NodeOps.
From S2P Require Import BTree BTreeModel BTreeAdd BTreeIndex BTreeMap BTreeRemove ValueStore MMyISAM SafeONode SafeBTree SafeMode.
From S2P Require Import StreamBuffer Database DBClient Script TxFormat P2PKH BlockHeader UTXOSet.
From Stdlib Require Import Lia.
#[local] Open Scope Z_scope.

(** ** Headers and transactions *)

Section validation_code.
Context {ssl : OpenSSL}.

(** [verifyBlockHeader]: what is printed reads no more than the comparison does. *)
Definition verifyBlockHeader (target : BlockHeader) : option bool :=
  let exportedRawHeader := BlockHeader_exportRaw target in
  rawNBitMask ← generatenBitMask (_nBits target);
  ret ← SHAHash (Some exportedRawHeader) (Z.of_nat (length exportedRawHeader)) sha256;
  Some (mbitcmp rawNBitMask ret).

(** The transaction that is checked beside the set of unspent outputs it is checked with.
    [utxoSet_get] is [LightUTXOSet::get] for the input of a number. *)
Context {W : Type} (utxoSet_get : nat -> prev_out -> prog W (option UTXO)).

Definition Checked : Type := P2PKH * W.
Definition on_tx {A} : prog P2PKH A -> prog Checked A := zoom fst (fun p s => (p, s.2)).
Definition on_utxoSet {A} : prog W A -> prog Checked A := zoom snd (fun w s => (s.1, w)).

(** The loop over the inputs. The validator copies both scripts before the bytes that are
    signed are computed; its verdict is only printed. *)
Fixpoint verify_ins (n i : nat) : prog Checked bool :=
  match n with
  | O => mret true
  | S n' =>
      s ← get_state;
      itr ← must (_ins s.1 !! i);
      utxo ← on_utxoSet (utxoSet_get i (_prevOut itr));
      match utxo with
      | None => mret false
      | Some utxo =>
          pkScript ← must (ux_pkScript utxo);
          txHash ← on_tx (txHashOnTxIn i);
          flag ← must (verifyP2PKHScript pkScript (_script (_signatureScript itr)) (Some txHash) (Z.of_nat (length txHash)));
          verify_ins n' (S i)
      end
  end.

(** [BlockValidation::verifyP2PKH]. *)
Definition validation_verifyP2PKH : prog Checked bool :=
  s ← get_state; verify_ins (length (_ins s.1)) 0.
End validation_code.

(** ** The queue of pending blocks *)

Definition MAX_PENDING_QUEUE_SIZE : nat := 5.
Definition MAX_PENDING_TIME : Z := 60 * 3.

(** A control block, without what only commented-out code writes. *)
Record BlockValidationControlBlock : Type := mkBVCB {
  bv_blockHash : buffer;
  bv_updateFlag : bool;
  bv_startTime : Z;
}.

(** The constructor takes the time. *)
Definition BVCB_new (now : Z) : BlockValidationControlBlock := mkBVCB None false now.

(** [blockHash]: a new object of one byte, the first of the hash. *)
Definition BVCB_blockHash (target : buffer) (b : BlockValidationControlBlock) : option BlockValidationControlBlock :=
  c ← rd 1 target; Some (mkBVCB (Some c) (bv_updateFlag b) (bv_startTime b)).

(** [txArrive]: the message is not looked at. *)
Definition BVCB_txArrive (b : BlockValidationControlBlock) : BlockValidationControlBlock :=
  mkBVCB (bv_blockHash b) true (bv_startTime b).

(** Control blocks are shared: [pq_cells] are those there are, the queue holds pointers
    (places in that list). *)
Record PendingResponseQueue : Type := mkPending {
  pq_cells : list BlockValidationControlBlock;
  _bvcbQueue : list nat;
}.

Definition bvcb (p : nat) : prog PendingResponseQueue BlockValidationControlBlock := q ← get_state; must (pq_cells q !! p).

Definition make_bvcb (now : Z) : prog PendingResponseQueue nat :=
  q ← get_state; _ ← set_state (mkPending (pq_cells q ++ [BVCB_new now]) (_bvcbQueue q)); mret (length (pq_cells q)).

Definition on_bvcb (p : nat) (f : BlockValidationControlBlock -> option BlockValidationControlBlock) : prog PendingResponseQueue unit :=
  b ← bvcb p; b ← must (f b); modify (fun q => mkPending (<[p := b]> (pq_cells q)) (_bvcbQueue q)).

(** The loop of [timeOutRefresh]. It goes on with an iterator to what it has just erased,
    which [std::vector::erase] has made invalid. *)
Fixpoint refresh_loop (currentTime : Z) (l : list nat) : prog PendingResponseQueue unit :=
  match l with
  | [] => mret tt
  | itr :: l' =>
      b ← bvcb itr;
      if MAX_PENDING_TIME <=? currentTime - bv_startTime b then undef
      else refresh_loop currentTime l'
  end.

Definition timeOutRefresh (now : Z) : prog PendingResponseQueue unit :=
  q ← get_state; refresh_loop now (_bvcbQueue q).

(** [find], with the loop over the queue. *)
Fixpoint find_bvcb (targetHash : buffer) (l : list nat) : prog PendingResponseQueue (option nat) :=
  match l with
  | [] => mret None
  | itr :: l' =>
      b ← bvcb itr;
      h ← must (rd 32 (bv_blockHash b));
      t ← must (rd 32 targetHash);
      match memcmp h t with Eq => mret (Some itr) | _ => find_bvcb targetHash l' end
  end.

Definition Pending_find (targetHash : buffer) : prog PendingResponseQueue (option nat) :=
  q ← get_state; find_bvcb targetHash (_bvcbQueue q).

Definition Pending_enqueue (now : Z) (target : nat) : prog PendingResponseQueue unit :=
  _ ← timeOutRefresh now;
  q ← get_state;
  if (MAX_PENDING_QUEUE_SIZE <=? length (_bvcbQueue q))%nat then mret tt
  else set_state (mkPending (pq_cells q) (_bvcbQueue q ++ [target])).

(** [erase] of the first that is equal. *)
Fixpoint erase_first (x : nat) (l : list nat) : list nat :=
  match l with
  | [] => []
  | y :: l' => if bool_decide (y = x) then l' else y :: erase_first x l'
  end.

Definition Pending_dequeue (target : nat) : prog PendingResponseQueue (option nat) :=
  q ← get_state;
  if bool_decide (target ∈ _bvcbQueue q) then
    _ ← set_state (mkPending (pq_cells q) (erase_first target (_bvcbQueue q)));
    mret (Some target)
  else mret None.

(** [BlockValidator::vlidationDone]. *)
Definition vlidationDone (target : nat) : prog PendingResponseQueue unit := targetBVCB ← Pending_dequeue target; mret tt.

(** ** What the checks say *)

Section verdicts.
Context {ssl : OpenSSL} {ssl_laws : OpenSSL_laws}.

(** Header checks agree with that of [BlockHeader::verify]. *)
Lemma verifyBlockHeader_eq h : verifyBlockHeader h = BlockHeader_verify h.
Proof. reflexivity. Qed.

Definition has_script (t : TxIn) : bool := negb (bool_decide (_script (_signatureScript t) = [])).

(** Inputs with some signature and key, or with an empty script. *)
Definition scripted (t : TxIn) : Prop := unlocked t \/ (in_ok t /\ _script (_signatureScript t) = []).

Lemma scripted_in_ok t : scripted t -> in_ok t.
Proof. now intros [[H _]|[H _]]. Qed.

Lemma unlocked_has_script t : unlocked t -> has_script t = true.
Proof. intros (_ & sig & pk & E & _). unfold has_script. now rewrite E. Qed.

Lemma empty_script_undefined h txHash n : verifyP2PKHScript (p2pkh_script h) [] txHash n = None.
Proof. reflexivity. Qed.

(** What a lookup that works does: it finds an output that is locked to some hash. *)
Definition finds_output {W} (get : nat -> prev_out -> prog W (option UTXO)) : Prop :=
  forall i o w, wp (get i o) w (fun r _ => exists u h, r = Some u /\ ux_pkScript u = Some (p2pkh_script h) /\ length h = 20%nat).

Section lookup.
Context {W : Type} {get : nat -> prev_out -> prog W (option UTXO)}.

Lemma verify_ins_run : finds_output get -> forall n i p w, tx_ok p -> (i + n = length (_ins p))%nat ->
  (forall j t, (i <= j)%nat -> _ins p !! j = Some t -> scripted t) ->
  if forallb has_script (drop i (_ins p)) then exists s', verify_ins get n i (p, w) = Ok true s'
  else verify_ins get n i (p, w) = Undef.
Proof.
  intros Hget. induction n as [|n IH]; intros i p w Hok Hn Hs.
  - rewrite drop_ge by lia. now exists (p, w).
  - destruct (lookup_lt_is_Some_2 (_ins p) i) as [t Ht]; [lia|]. rewrite (drop_S _ _ _ Ht). cbn [forallb].
    cbn [verify_ins]. rewrite run_get. cbn [fst]. rewrite Ht, run_must.
    destruct (wp_inv _ _ _ (Hget i (_prevOut t) w)) as (r & w' & Eg & u & h & -> & Hu & Hh).
    rewrite (run_bind _ _ _ (Some u) (p, w')) by (unfold on_utxoSet, zoom; cbn [snd]; now rewrite Eg). rewrite Hu, run_must.
    rewrite (run_bind _ _ _ (tx_hash_bytes i p) (hashed_tx i p, w')) by (unfold on_tx, zoom; cbn [fst]; now rewrite txHashOnTxIn_spec).
    destruct (Hs i t (le_n _) Ht) as [Hun|[_ He]].
    + rewrite (unlocked_has_script _ Hun). destruct Hun as (_ & sig & pk & Es & H1 & H2). rewrite Es, verifyP2PKHScript_run by assumption.
      rewrite run_must. cbn [andb].
      specialize (IH (S i) (hashed_tx i p) w' (hashed_tx_ok _ _ Hok)). cbn [_ins hashed_tx] in IH. rewrite length_alter in IH.
      rewrite drop_alter_lt in IH by lia. apply IH; [lia|].
      intros j t' Hj. rewrite list_lookup_alter_ne by lia. apply Hs. lia.
    + replace (has_script t) with false by (unfold has_script; now rewrite He). cbn [andb]. now rewrite He, empty_script_undefined.
Qed.

(** With a set that knows every output, [BlockValidation::verifyP2PKH] looks at no signature: a transaction whose
    inputs have some data in the place of signature and key is accepted, and one with an
    input whose script is empty makes the validator pop from an empty stack, whatever the other inputs are. *)
Theorem validation_ignores_signatures p w :
  finds_output get -> Forall scripted (_ins p) -> Forall out_ok (_outs p) ->
  if forallb has_script (_ins p) then wp (validation_verifyP2PKH get) (p, w) (fun r _ => r = true)
  else validation_verifyP2PKH get (p, w) = Undef.
Proof.
  intros Hget Hi Ho. unfold validation_verifyP2PKH, wp. rewrite run_get. cbn [fst].
  assert (tx_ok p) as Hok by (split; [eapply Forall_impl; [exact Hi|apply scripted_in_ok]|exact Ho]).
  pose proof (verify_ins_run Hget (length (_ins p)) 0 p w Hok eq_refl) as H. rewrite drop_0 in H.
  assert (forall j t, (0 <= j)%nat -> _ins p !! j = Some t -> scripted t) as Hj by (intros j t _ Hj; rewrite Forall_lookup in Hi; exact (Hi j t Hj)).
  specialize (H Hj). destruct (forallb has_script (_ins p)); [destruct H as [s' ->]; reflexivity|exact H].
Qed.
End lookup.

(** ** With the set of outputs as it is *)

Context {DB : Type} {engine : nat -> StrageEngine DB} {holds : DB -> nat -> Z -> list (list byte * list byte) -> Prop}.
Context {laws : TableLaws engine holds}.

(** The lookup in the database; every input has its own calls and memory. *)
Definition database_lookup (calls : nat -> Call) (fresh : nat -> UTXO) (i : nat) (o : prev_out) : prog (Server DB) (option UTXO) :=
  LightUTXOSet_get_prev engine true (calls i) (fresh i) o.

(** C18: A block chain that validates with [BlockValidation::verifyP2PKH] on its own set of unspent outputs accepts no payment.
    Whatever the database holds of values that fit a response of 16 bits of length, as those
    do that came to it in a request, and whatever its server answers to others meanwhile, a
    transaction is accepted exactly when it has no inputs: the set never finds an output, and
    without inputs there is nothing to look for. *)
Theorem validation_accepts_no_payment calls fresh p n b kvs out (s : Server DB) :
  table_state (holds := holds) n b kvs out s ->
  (forall i, (i < length (_ins p))%nat -> awaits (utxo_response (call_id (calls i))) (calls i) out) ->
  Forall (fun t => length (_txID (_prevOut t)) = 32%nat) (_ins p) ->
  wp (validation_verifyP2PKH (database_lookup calls fresh)) (p, s) (fun r s' => r = bool_decide (_ins p = []) /\ s'.1 = p).
Proof.
  intros Hs Hc Hi. unfold validation_verifyP2PKH, wp. rewrite run_get. cbn [fst].
  destruct (_ins p) as [|t l] eqn:Ep; [now split|]. cbn [length verify_ins]. rewrite run_get. cbn [fst].
  rewrite Ep. cbn [lookup list_lookup]. rewrite run_must. apply Forall_cons in Hi as [Ht _].
  destruct (wp_inv _ _ _ (LightUTXOSet_get_none (calls 0%nat) (fresh 0%nat) (_txID (_prevOut t)) (prev_out_index (_prevOut t)) n b kvs out s Hs
    (Hc 0%nat (Nat.lt_0_succ _)) Ht)) as (r & s' & E & -> & _).
  rewrite (run_bind _ _ _ None (p, s')); [now split|].
  unfold on_utxoSet, zoom, database_lookup, LightUTXOSet_get_prev. cbn [snd]. now rewrite E.
Qed.
End verdicts.

(** ** The queue as it runs *)

(** What the validator does to the queue and its control blocks. *)
Inductive pending_op : Type :=
  | Announce (now : Z)
  | Set_hash (p : nat) (target : buffer)
  | Arrive (p : nat)
  | Enqueue (now : Z) (p : nat)
  | Dequeue (p : nat).

Definition pending_run (o : pending_op) : prog PendingResponseQueue unit :=
  match o with
  | Announce now => _ ← make_bvcb now; mret tt
  | Set_hash p target => on_bvcb p (BVCB_blockHash target)
  | Arrive p => on_bvcb p (fun b => Some (BVCB_txArrive b))
  | Enqueue now p => _ ← bvcb p; Pending_enqueue now p
  | Dequeue p => vlidationDone p
  end.

Inductive pending_reachable : PendingResponseQueue -> Prop :=
  | pending_start : pending_reachable (mkPending [] [])
  | pending_step o q q' : pending_reachable q -> pending_run o q = Ok tt q' -> pending_reachable q'.

(** A hash that can be compared: 32 bytes of it. *)
Definition short_hash (b : BlockValidationControlBlock) : Prop := rd 32 (bv_blockHash b) = None.

Definition pending_inv (q : PendingResponseQueue) : Prop :=
  (length (_bvcbQueue q) <= MAX_PENDING_QUEUE_SIZE)%nat /\
  Forall (fun p => (p < length (pq_cells q))%nat) (_bvcbQueue q) /\ Forall short_hash (pq_cells q).

Lemma bvcb_ok p q : (p < length (pq_cells q))%nat -> exists b, bvcb p q = Ok b q /\ pq_cells q !! p = Some b.
Proof. intros H. destruct (lookup_lt_is_Some_2 _ _ H) as [b Hb]. exists b. unfold bvcb. rewrite run_get, Hb. now split. Qed.

Lemma BVCB_blockHash_short target b b' : BVCB_blockHash target b = Some b' -> short_hash b'.
Proof.
  unfold BVCB_blockHash, short_hash. destruct (rd 1 target) as [c|] eqn:E; [|discriminate].
  intros [= <-]. cbn [bv_blockHash]. apply rd_length in E; [|lia]. unfold rd. cbn [Z.eqb]. destruct (Z.leb_spec 32 (Z.of_nat (length c))); [lia|reflexivity].
Qed.

Lemma on_bvcb_inv p f q q' : pending_inv q -> (forall b b', short_hash b -> f b = Some b' -> short_hash b') ->
  on_bvcb p f q = Ok tt q' -> pending_inv q'.
Proof.
  intros (H1 & H2 & H3) Hf. unfold on_bvcb, bvcb. destruct (pq_cells q !! p) as [b|] eqn:Eb.
  - rewrite (run_bind _ _ _ b q) by (rewrite run_get; now rewrite Eb). destruct (f b) as [b'|] eqn:Ef; [|discriminate].
    rewrite run_must. intros [= <-]. split; [exact H1|]. cbn [pq_cells _bvcbQueue]. split.
    + eapply Forall_impl; [exact H2|]. intros x. now rewrite length_insert.
    + apply Forall_insert; [exact H3|]. eapply Hf; [|exact Ef]. rewrite Forall_lookup in H3. exact (H3 p b Eb).
  - unfold mbind, prog_bind, get_state. now rewrite Eb.
Qed.

Lemma refresh_loop_spec now q l : Forall (fun p => (p < length (pq_cells q))%nat) l ->
  refresh_loop now l q = if existsb (fun p => from_option (fun b => MAX_PENDING_TIME <=? now - bv_startTime b) false (pq_cells q !! p)) l
    then Undef else Ok tt q.
Proof.
  induction 1 as [|p l Hp _ IH]; [reflexivity|]. cbn [refresh_loop existsb]. destruct (bvcb_ok p q Hp) as (b & E & Hb).
  rewrite (run_bind _ _ _ _ _ E), Hb. cbn [from_option]. destruct (MAX_PENDING_TIME <=? now - bv_startTime b); [reflexivity|exact IH].
Qed.

(** The time of some pending block is over. *)
Definition some_expired (now : Z) (q : PendingResponseQueue) : bool :=
  existsb (fun p => from_option (fun b => MAX_PENDING_TIME <=? now - bv_startTime b) false (pq_cells q !! p)) (_bvcbQueue q).

Lemma Pending_enqueue_spec now p q : pending_inv q ->
  Pending_enqueue now p q = if some_expired now q then Undef
    else Ok tt (if (MAX_PENDING_QUEUE_SIZE <=? length (_bvcbQueue q))%nat then q else mkPending (pq_cells q) (_bvcbQueue q ++ [p])).
Proof.
  intros (_ & H2 & _). unfold Pending_enqueue, timeOutRefresh, some_expired.
  destruct (existsb _ _) eqn:E.
  - unfold mbind, prog_bind, get_state. now rewrite refresh_loop_spec, E.
  - rewrite (run_bind _ _ _ tt q) by (rewrite run_get, refresh_loop_spec by assumption; now rewrite E). rewrite run_get. now destruct (_ <=? _)%nat.
Qed.

Lemma erase_first_spec x l : x ∈ l -> exists l1 l2, l = l1 ++ x :: l2 /\ x ∉ l1 /\ erase_first x l = l1 ++ l2.
Proof.
  induction l as [|y l IH]; [intros H; now apply not_elem_of_nil in H|]. intros Hx. cbn [erase_first].
  destruct (decide (y = x)) as [->|Hne].
  - rewrite bool_decide_true by reflexivity. exists [], l. split; [reflexivity|]. split; [apply not_elem_of_nil|reflexivity].
  - rewrite bool_decide_false by assumption. apply elem_of_cons in Hx as [->|Hx]; [contradiction|].
    destruct (IH Hx) as (l1 & l2 & -> & Hn & ->). exists (y :: l1), l2. split; [reflexivity|]. split; [|reflexivity].
    intros [->|Hin]%elem_of_cons; contradiction.
Qed.

Lemma Pending_dequeue_spec p q :
  if decide (p ∈ _bvcbQueue q) then exists l1 l2, _bvcbQueue q = l1 ++ p :: l2 /\ p ∉ l1 /\ Pending_dequeue p q = Ok (Some p) (mkPending (pq_cells q) (l1 ++ l2))
  else Pending_dequeue p q = Ok None q.
Proof.
  unfold Pending_dequeue. destruct (decide (p ∈ _bvcbQueue q)) as [H|H].
  - destruct (erase_first_spec p _ H) as (l1 & l2 & E & Hn & Ee). exists l1, l2. split; [exact E|]. split; [exact Hn|].
    rewrite run_get, bool_decide_true by assumption. now rewrite Ee.
  - now rewrite run_get, bool_decide_false.
Qed.

Lemma pending_run_inv o q q' : pending_inv q -> pending_run o q = Ok tt q' -> pending_inv q'.
Proof.
  intros Hinv. destruct o as [now|p target|p|now p|p]; cbn [pending_run].
  - destruct Hinv as (H1 & H2 & H3). unfold make_bvcb. intros [= <-]. split; [exact H1|]. cbn [pq_cells _bvcbQueue]. split.
    + eapply Forall_impl; [exact H2|]. intros x. rewrite length_app. lia.
    + apply Forall_app. split; [exact H3|]. now apply Forall_singleton.
  - apply on_bvcb_inv; [exact Hinv|]. intros b b' _. apply BVCB_blockHash_short.
  - apply on_bvcb_inv; [exact Hinv|]. intros b b' Hb [= <-]. exact Hb.
  - destruct (decide (p < length (pq_cells q))%nat) as [Hp|Hp].
    + destruct (bvcb_ok p q Hp) as (b & E & _). rewrite (run_bind _ _ _ _ _ E), Pending_enqueue_spec by assumption.
      destruct (some_expired now q); [discriminate|]. destruct (Nat.leb_spec MAX_PENDING_QUEUE_SIZE (length (_bvcbQueue q))); [now intros [= <-]|].
      intros [= <-]. destruct Hinv as (H1 & H2 & H3).
      split; [cbn [_bvcbQueue]; rewrite length_app; cbn [length]; lia|]. split; [|exact H3]. apply Forall_app. split; [exact H2|now apply Forall_singleton].
    + assert (bvcb p q = Undef) as E by (unfold bvcb; rewrite run_get, lookup_ge_None_2 by lia; reflexivity).
      unfold mbind, prog_bind. now rewrite E.
  - unfold vlidationDone. pose proof (Pending_dequeue_spec p q) as H. destruct (decide (p ∈ _bvcbQueue q)).
    + destruct H as (l1 & l2 & El & _ & E). rewrite (run_bind _ _ _ _ _ E). intros [= <-]. destruct Hinv as (H1 & H2 & H3). rewrite El in H1, H2.
      split; [cbn [_bvcbQueue]; rewrite length_app in *; cbn [length] in H1; lia|]. split; [|exact H3].
      apply Forall_app in H2 as [Ha [_ Hb]%Forall_cons]. now apply Forall_app.
    + rewrite (run_bind _ _ _ _ _ H). now intros [= <-].
Qed.

Lemma pending_reachable_inv q : pending_reachable q -> pending_inv q.
Proof.
  induction 1 as [|o q q' _ IH E]; [|exact (pending_run_inv _ _ _ IH E)].
  split; [cbn; lia|]. split; constructor.
Qed.

(** C40: The queue of pending blocks keeps its bound but is no queue one can search. In every state the validator
    reaches from the start, by announcing blocks, setting hashes, data arriving, enqueueing and dequeueing, the queue
    holds at most five blocks, enqueueing appends a block unless the queue is full, and dequeueing takes out the first
    occurrence of the block. But searching for a hash, whatever it is, is undefined as soon as a block
    is pending, because the hash of a block is a copy of its first byte alone, and enqueueing is undefined
    as soon as the time of a pending block is over, because the loop goes on from the erased element. *)
Theorem pending_queue_behaviour q : pending_reachable q ->
  (length (_bvcbQueue q) <= MAX_PENDING_QUEUE_SIZE)%nat /\
  (forall h, Pending_find h q = if decide (_bvcbQueue q = []) then Ok None q else Undef) /\
  (forall now p, Pending_enqueue now p q = if some_expired now q then Undef
    else Ok tt (if (MAX_PENDING_QUEUE_SIZE <=? length (_bvcbQueue q))%nat then q else mkPending (pq_cells q) (_bvcbQueue q ++ [p]))) /\
  (forall p, if decide (p ∈ _bvcbQueue q) then exists l1 l2, _bvcbQueue q = l1 ++ p :: l2 /\ p ∉ l1 /\
      Pending_dequeue p q = Ok (Some p) (mkPending (pq_cells q) (l1 ++ l2))
    else Pending_dequeue p q = Ok None q).
Proof.
  intros Hq%pending_reachable_inv. pose proof Hq as (H1 & H2 & H3). split; [exact H1|]. split; [|split].
  - intros h. unfold Pending_find. rewrite run_get. destruct (_bvcbQueue q) as [|p l]; [reflexivity|]. cbn [find_bvcb].
    apply Forall_cons in H2 as [Hp _]. destruct (bvcb_ok p q Hp) as (b & E & Hb). rewrite (run_bind _ _ _ _ _ E).
    rewrite Forall_lookup in H3. specialize (H3 p b Hb). unfold short_hash in H3. unfold mbind, prog_bind. now rewrite H3.
  - intros now p. now apply Pending_enqueue_spec.
  - intros p. apply Pending_dequeue_spec.
Qed.

(** ** Concrete runs *)

(** A block announced, its hash set, pending. *)
Definition one_pending : PendingResponseQueue := mkPending [mkBVCB (Some [x07]) false 100] [0%nat].

Lemma one_pending_reachable : pending_reachable one_pending.
Proof.
  apply (pending_step (Enqueue 110 0) (mkPending [mkBVCB (Some [x07]) false 100] [])); [|vm_compute; reflexivity].
  apply (pending_step (Set_hash 0 (Some (x07 :: replicate 31 x00))) (mkPending [mkBVCB None false 100] [])); [|vm_compute; reflexivity].
  apply (pending_step (Announce 100) (mkPending [] [])); [constructor|vm_compute; reflexivity].
Qed.

Lemma pending_queue_behaviour_witness :
  Pending_find (Some (x07 :: replicate 31 x00)) one_pending = Undef /\ Pending_enqueue 280 0 one_pending = Undef /\
  Pending_enqueue 279 0 one_pending = Ok tt (mkPending (pq_cells one_pending) [0%nat; 0%nat]).
Proof.
  destruct (pending_queue_behaviour one_pending one_pending_reachable) as (_ & Hf & He & _).
  split; [exact (Hf _)|]. split; [exact (He 280 0%nat)|exact (He 279 0%nat)].
Defined.

Lemma validation_accepts_no_payment_witness : exists m db,
  manager_clear empty_manager = Ok tt m /\
  MMyISAM_new (S := SafeIndexManager (Manager FlatMem FlatMem)) 1700000000 m m = Ok db tt /\
  wp (validation_verifyP2PKH (database_lookup (engine := sample_engine) (fun i => sample_call (Z.of_nat i)) (fun _ => UTXO_new [] 0 0)))
    (sample_tx, mkServer db [] [sample_pending] 0) (fun r s' => r = bool_decide (_ins sample_tx = []) /\ s'.1 = sample_tx).
Proof.
  destruct cleared_manager as (m & Em & Hm).
  destruct (database_new (S := SafeIndexManager (Manager FlatMem FlatMem)) 1700000000 m m (fm_view empty_file) (fm_view empty_file) Hm Hm empty_not_formatted)
    as (db & Es & Hdb & _).
  exists m, db. split; [exact Em|]. split; [exact Es|].
  apply (validation_accepts_no_payment (engine := sample_engine) (holds := MMyISAM_holds 5)) with (n := 0%nat) (b := 1000) (kvs := []) (out := [sample_pending]).
  - split; [|split; reflexivity]. exists 0, 203, 0%nat. split; [exact Hdb|]. split; [lia|]. split; [lia|]. split; [vm_compute; reflexivity|constructor].
  - intros i Hi. assert (i = 0%nat) as -> by (change (length (_ins sample_tx)) with 1%nat in Hi; lia).
    split; [split; vm_compute; congruence|]. split; [|split; [cbn; lia|]].
    + apply Forall_singleton. exists (response 99 1). split; vm_compute; reflexivity.
    + exists 2%nat. split; [|cbn; lia]. right. exists 1%nat. cbn. lia.
  - apply Forall_singleton. reflexivity.
Defined.
