(* ===== verification/PoolTables.v ===== *)
(** The tables beside the pool of transactions: the outputs of its transactions
    ([chain/transaction_pool/provisional_utxo_cache/]) and the memory pool
    ([chain/transaction_pool/mempool.cpp], [mempool_entry.cpp]). *)
From S2P Require Import Prelude Crypto Script TxFormat P2PKH LocalFiles TxPool TxPoolSpec TxPoolRuns.
From Stdlib Require Import Lia Sorting.Sorted.
#[local] Open Scope Z_scope.

(** ** The outputs of pooled transactions *)

(** [OutPointPair]: an id behind a pointer and an index of 32 bits. *)
Notation OutPointPair := (buffer * Z)%type.

Definition CustomCompare (left right : OutPointPair) : option bool :=
  l ← rd 32 left.1;
  r ← rd 32 right.1;
  Some (match memcmp l r with Eq => left.2 <? right.2 | Lt => true | Gt => false end).

(** [std::map] with this comparison: its entries in order. Searching looks for the first that is
    not less. In a map of one entry the library compares with that, in larger ones every key is
    one that could be compared, so that the same searches are undefined. *)
Notation UTxOMap := (list (OutPointPair * nat)).

Fixpoint map_find (k : OutPointPair) (m : UTxOMap) : option (option nat) :=
  match m with
  | [] => Some None
  | (k', v) :: m' =>
      lt ← CustomCompare k' k;
      if lt : bool then map_find k m'
      else gt ← CustomCompare k k'; Some (if gt : bool then None else Some v)
  end.

(** [insert] leaves an entry that is there as it is. *)
Fixpoint map_insert (k : OutPointPair) (v : nat) (m : UTxOMap) : option UTxOMap :=
  match m with
  | [] => Some [(k, v)]
  | (k', v') :: m' =>
      lt ← CustomCompare k' k;
      if lt : bool then m' ← map_insert k v m'; Some ((k', v') :: m')
      else gt ← CustomCompare k k'; Some (if gt : bool then (k, v) :: m else m)
  end.

Fixpoint map_erase (k : OutPointPair) (m : UTxOMap) : option UTxOMap :=
  match m with
  | [] => Some []
  | (k', v') :: m' =>
      lt ← CustomCompare k' k;
      if lt : bool then m' ← map_erase k m'; Some ((k', v') :: m')
      else gt ← CustomCompare k k'; Some (if gt : bool then m else m')
  end.

(** The cache beside the control blocks and transactions that it points to. *)
Record ProvisionalUTxOCache : Type := mkCache { pu_txs : list P2PKH; pu_cells : Cells; _pUTxOMap : UTxOMap }.

Definition set_pUTxOMap (m : UTxOMap) (c : ProvisionalUTxOCache) : ProvisionalUTxOCache := mkCache (pu_txs c) (pu_cells c) m.

(** [find( txID , index )]: the index has 16 bits here. *)
Definition Cache_find_index (txID : buffer) (index : Z) : prog ProvisionalUTxOCache (option nat) :=
  c ← get_state; must (map_find (txID, index mod 2 ^ 16) (_pUTxOMap c)).

(** [find( target )], with its loop over the inputs. *)
Fixpoint find_ins (l : list TxIn) : prog ProvisionalUTxOCache (list nat) :=
  match l with
  | [] => mret []
  | itr :: l' =>
      hitedTxCB ← Cache_find_index (Some (_txID (_prevOut itr))) (prev_out_index (_prevOut itr));
      r ← find_ins l';
      mret (match hitedTxCB with Some h => h :: r | None => r end)
  end.

Definition Cache_find (target : nat) : prog ProvisionalUTxOCache (list nat) :=
  c ← get_state; t ← must (pu_txs c !! target); find_ins (_ins t).

(** [remove( targetPair )]: the entry it searches for first is not used. *)
Definition Cache_remove_pair (targetPair : OutPointPair) : prog ProvisionalUTxOCache unit :=
  c ← get_state;
  retItr ← must (map_find targetPair (_pUTxOMap c));
  m ← must (map_erase targetPair (_pUTxOMap c));
  set_state (set_pUTxOMap m c).

Definition Cache_remove_index (txID : buffer) (index : Z) : prog ProvisionalUTxOCache unit :=
  Cache_remove_pair (txID, index mod 2 ^ 16).

(** The control block behind a pointer, and the number of outputs of its transaction. *)
Definition Cache_target (target : nat) : prog ProvisionalUTxOCache (buffer * Z) :=
  c ← get_state;
  b ← must (pu_cells c !! target);
  t ← must (tc_tx b);
  p ← must (pu_txs c !! t);
  mret (tc_txID b, outCount p).

(** The loops of [remove( target )] and [add( target )], from output [i] on. *)
Fixpoint remove_outs (n : nat) (i : Z) (txID : buffer) : prog ProvisionalUTxOCache unit :=
  match n with
  | O => mret tt
  | S n' => _ ← Cache_remove_pair (txID, i); remove_outs n' (i + 1) txID
  end.

Definition Cache_remove (target : nat) : prog ProvisionalUTxOCache unit :=
  '(txID, n) ← Cache_target target; remove_outs (Z.to_nat n) 0 txID.

Fixpoint add_outs (n : nat) (i : Z) (txID : buffer) (target : nat) : prog ProvisionalUTxOCache unit :=
  match n with
  | O => mret tt
  | S n' =>
      c ← get_state;
      m ← must (map_insert (txID, i) target (_pUTxOMap c));
      _ ← set_state (set_pUTxOMap m c);
      add_outs n' (i + 1) txID target
  end.

Definition Cache_add (target : nat) : prog ProvisionalUTxOCache unit :=
  '(txID, n) ← Cache_target target; add_outs (Z.to_nat n) 0 txID target.

(** ** The memory pool *)

(** A transaction by reference: [tx_ref], with its id. *)
Section mempool_code.
Context {Tx : Type} (get_id : Tx -> list byte).

Definition get_size (t : Tx) : Z := 100.

Record mempool_entry : Type := mkEntry { _tx_ref : Tx; me_fee : Z; me_mem_usage_size : Z; me_entryed_at : Z }.

(** The constructor: fee and size have 32 bits. *)
Definition mempool_entry_new (tx_ref : Tx) (fee bytes entryed_at : Z) : mempool_entry :=
  mkEntry tx_ref (fee mod 2 ^ 32) (bytes mod 2 ^ 32) entryed_at.

Definition get_tx_id (e : mempool_entry) : list byte := get_id (_tx_ref e).
Definition get_tx_fee (e : mempool_entry) : Z := me_fee e.
Definition get_tx_size_bytes (e : mempool_entry) : Z := get_size (_tx_ref e).

(** The meta data take 16 bytes: twice four and the time. *)
Definition get_entry_size_bytes (e : mempool_entry) : Z := get_tx_size_bytes e + 16.
Definition get_entryed_at (e : mempool_entry) : Z := me_entryed_at e.

(** The orders of the indices. *)
Definition compare_tx_fee (a b : mempool_entry) : bool := get_tx_fee a <? get_tx_fee b.
Definition compare_entryed_at (a b : mempool_entry) : bool := get_entryed_at a <? get_entryed_at b.
Definition compare_entry_size_bytes (a b : mempool_entry) : bool := get_entry_size_bytes a <? get_entry_size_bytes b.

(** The container [boost::multi_index_container], of which the unique index by id is used:
    [insert] answers the entry of the id that is in it afterwards. *)
Class MultiIndex (I : Type) : Type := {
  mi_insert : mempool_entry -> I -> mempool_entry * I;
  mi_find : list byte -> I -> option mempool_entry;
  mi_erase : list byte -> I -> I;
  mi_size : I -> Z;
}.

Context {I : Type} {index : MultiIndex I}.

Record mempool : Type := mkMempool {
  _indexed_tx_set : I;
  _total_mem_usage_bytes : Z;
  _total_tx_size_bytes : Z;
  _total_fee : Z;
}.

Definition mempool_new (empty : I) : mempool := mkMempool empty 0 0 0.

Definition add_entry (entry : mempool_entry) : prog mempool mempool_entry :=
  m ← get_state;
  let '(ret_itr, set) := mi_insert entry (_indexed_tx_set m) in
  _ ← set_state (mkMempool set ((_total_mem_usage_bytes m + get_entry_size_bytes ret_itr) mod 2 ^ 64)
    ((_total_tx_size_bytes m + get_tx_size_bytes ret_itr) mod 2 ^ 64) (get_tx_fee ret_itr));
  mret ret_itr.

(** The entry that is searched is used without asking whether it was found. *)
Definition remove_entry (target : Tx) : prog mempool unit :=
  m ← get_state;
  let target_id := get_id target in
  target_itr ← must (mi_find target_id (_indexed_tx_set m));
  set_state (mkMempool (mi_erase target_id (_indexed_tx_set m)) ((_total_mem_usage_bytes m - get_entry_size_bytes target_itr) mod 2 ^ 64)
    ((_total_tx_size_bytes m - get_tx_size_bytes target_itr) mod 2 ^ 64) ((_total_fee m - get_tx_fee target_itr) mod 2 ^ 64)).

Definition get_tx_count (m : mempool) : Z := mi_size (_indexed_tx_set m).
End mempool_code.

Arguments mempool_entry : clear implicits.
Arguments MultiIndex : clear implicits.
Arguments mempool : clear implicits.

(** ** The map of outputs against a finite map *)

Notation OutPoint := (list byte * Z)%type.

(** Keys that can be compared, the output each stands for, and its number in the order. *)
Definition pair_ok (k : OutPointPair) : Prop := (exists id, rd 32 k.1 = Some id) /\ 0 <= k.2 < 2 ^ 32.
Definition point (k : OutPointPair) : OutPoint := (default [] (rd 32 k.1), k.2).
Definition rank (k : OutPointPair) : Z := be_decode (point k).1 * 2 ^ 32 + k.2.

Lemma CustomCompare_rank a b : pair_ok a -> pair_ok b -> CustomCompare a b = Some (rank a <? rank b).
Proof.
  intros [[x Hx] Ha] [[y Hy] Hb]. unfold CustomCompare, rank, point. cbn [fst snd]. rewrite Hx, Hy. cbn [mbind option_bind from_option id fst].
  f_equal. apply rd_length in Hx; [|lia]. apply rd_length in Hy; [|lia]. rewrite memcmp_be by lia.
  destruct (Z.compare_spec (be_decode x) (be_decode y)) as [E|E|E]; symmetry.
  - rewrite E. destruct (Z.ltb_spec a.2 b.2); [apply Z.ltb_lt|apply Z.ltb_ge]; lia.
  - apply Z.ltb_lt. lia.
  - apply Z.ltb_ge. lia.
Qed.

Lemma rank_point a b : pair_ok a -> pair_ok b -> rank a = rank b <-> point a = point b.
Proof.
  intros [[x Hx] Ha] [[y Hy] Hb]. unfold rank, point. cbn [fst snd]. rewrite Hx, Hy. cbn [from_option id fst].
  apply rd_length in Hx; [|lia]. apply rd_length in Hy; [|lia]. split.
  - intros E. assert (be_decode x = be_decode y /\ a.2 = b.2) as [E1 ->] by lia. f_equal. apply be_decode_inj; [lia|exact E1].
  - now intros [= -> ->].
Qed.

Definition keys_ok (m : UTxOMap) : Prop := StronglySorted Z.lt (map (fun e => rank e.1) m) /\ Forall (fun e => pair_ok e.1) m.

(** What a map holds. *)
Fixpoint map_points (m : UTxOMap) : gmap OutPoint nat :=
  match m with [] => ∅ | (k, v) :: m' => <[point k := v]> (map_points m') end.

Lemma map_points_none m k : pair_ok k -> keys_ok m -> (forall e, e ∈ m -> rank k < rank e.1) -> map_points m !! point k = None.
Proof.
  intros Hk [_ Hok]. induction m as [|[k' v] m IH]; intros Hlt; cbn [map_points]; [apply lookup_empty|].
  apply Forall_cons in Hok as [Hk' Hok]. cbn [fst] in Hk'.
  rewrite lookup_insert_ne; [apply IH; [exact Hok|]; intros e He; apply Hlt; now right|].
  intros E. apply rank_point in E; [|assumption..]. specialize (Hlt (k', v) (list_elem_of_here _ _)). cbn [fst] in Hlt. lia.
Qed.

Lemma keys_ok_cons k v m : keys_ok ((k, v) :: m) -> keys_ok m /\ pair_ok k /\ forall e, e ∈ m -> rank k < rank e.1.
Proof.
  intros [Hs Hok]. cbn [map fst] in Hs. apply StronglySorted_inv in Hs as [Hs Hlt]. apply Forall_cons in Hok as [Hk Hok].
  split; [now split|]. split; [exact Hk|]. intros e He. rewrite Forall_forall in Hlt. apply Hlt. apply list_elem_of_In, in_map_iff. exists e. split; [reflexivity|now apply list_elem_of_In].
Qed.

Lemma keys_ok_intro k v m : keys_ok m -> pair_ok k -> (forall e, e ∈ m -> rank k < rank e.1) -> keys_ok ((k, v) :: m).
Proof.
  intros [Hs Hok] Hk Hlt. split; [|now constructor]. cbn [map fst]. constructor; [exact Hs|]. apply Forall_forall.
  intros x (e & <- & He)%list_elem_of_In%in_map_iff. apply Hlt. now apply list_elem_of_In.
Qed.

Lemma map_find_points k m : keys_ok m -> pair_ok k -> map_find k m = Some (map_points m !! point k).
Proof.
  intros Hm Hk. induction m as [|[k' v] m IH]; cbn [map_find map_points]; [now rewrite lookup_empty|].
  apply keys_ok_cons in Hm as (Hm & Hk' & Hlt). rewrite !CustomCompare_rank by assumption. cbn [mbind option_bind].
  destruct (Z.ltb_spec (rank k') (rank k)) as [H|H].
  - rewrite IH by assumption. rewrite lookup_insert_ne; [reflexivity|]. intros E%rank_point; [lia|assumption..].
  - destruct (Z.ltb_spec (rank k) (rank k')) as [H'|H'].
    + rewrite lookup_insert_ne by (intros E%rank_point; [lia|assumption..]). f_equal. symmetry. apply map_points_none; [assumption..|].
      intros e He. specialize (Hlt e He). lia.
    + assert (rank k' = rank k) as E by lia. apply rank_point in E; [|assumption..]. now rewrite E, lookup_insert_eq.
Qed.

Lemma map_insert_points k v m : keys_ok m -> pair_ok k -> exists m', map_insert k v m = Some m' /\ keys_ok m' /\
  (forall e, e ∈ m' -> e ∈ m \/ e.1 = k) /\
  map_points m' = if decide (is_Some (map_points m !! point k)) then map_points m else <[point k := v]> (map_points m).
Proof.
  intros Hm Hk. induction m as [|[k' v'] m IH]; cbn [map_insert map_points].
  - exists [(k, v)]. split; [reflexivity|]. split; [apply keys_ok_intro; [exact Hm|exact Hk|intros e He; now apply not_elem_of_nil in He]|].
    split; [intros e He; right; now apply list_elem_of_singleton in He as ->|]. rewrite lookup_empty.
    rewrite decide_False by (now intros [? [=]]). reflexivity.
  - pose proof Hm as Hm0. apply keys_ok_cons in Hm as (Hm & Hk' & Hlt). rewrite !CustomCompare_rank by assumption. cbn [mbind option_bind].
    destruct (Z.ltb_spec (rank k') (rank k)) as [H|H].
    + destruct (IH Hm) as (m' & -> & Hm' & Hin & Em). cbn [mbind option_bind]. exists ((k', v') :: m'). split; [reflexivity|].
      assert (point k' <> point k) as Hne by (intros E%rank_point; [lia|assumption..]). split.
      * apply keys_ok_intro; [assumption..|]. intros e He. destruct (Hin e He) as [He'|He']; [now apply Hlt|]. now rewrite He'.
      * split; [intros e [->|He]%elem_of_cons; [left; left|destruct (Hin e He); [left; now right|now right]]|].
        cbn [map_points]. rewrite Em, lookup_insert_ne by assumption. destruct (decide _); [reflexivity|]. now apply insert_insert_ne.
    + destruct (Z.ltb_spec (rank k) (rank k')) as [H'|H'].
      * assert (forall e, e ∈ (k', v') :: m -> rank k < rank e.1) as Hall
          by (intros e [->|He]%elem_of_cons; [exact H'|specialize (Hlt e He); lia]).
        exists ((k, v) :: (k', v') :: m). split; [reflexivity|]. split; [now apply keys_ok_intro|]. split.
        { intros e [->|He]%elem_of_cons; [now right|now left]. }
        change (<[point k' := v']> (map_points m)) with (map_points ((k', v') :: m)). rewrite (map_points_none _ k Hk Hm0 Hall).
        rewrite decide_False by (now intros [? [=]]). reflexivity.
      * exists ((k', v') :: m). split; [reflexivity|]. split; [exact Hm0|]. split; [intros e He; now left|].
        assert (rank k' = rank k) as E by lia. apply rank_point in E; [|assumption..]. rewrite E, lookup_insert_eq.
        rewrite decide_True by (now exists v'). cbn [map_points]. now rewrite E.
Qed.

Lemma map_erase_points k m : keys_ok m -> pair_ok k -> exists m', map_erase k m = Some m' /\ keys_ok m' /\
  (forall e, e ∈ m' -> e ∈ m) /\ map_points m' = delete (point k) (map_points m).
Proof.
  intros Hm Hk. induction m as [|[k' v'] m IH]; cbn [map_erase map_points].
  - exists []. split; [reflexivity|]. split; [exact Hm|]. split; [easy|]. cbn [map_points]. now rewrite delete_empty.
  - pose proof Hm as Hm0. apply keys_ok_cons in Hm as (Hm & Hk' & Hlt). rewrite !CustomCompare_rank by assumption. cbn [mbind option_bind].
    destruct (Z.ltb_spec (rank k') (rank k)) as [H|H].
    + destruct (IH Hm) as (m' & -> & Hm' & Hin & Em). cbn [mbind option_bind]. exists ((k', v') :: m'). split; [reflexivity|].
      assert (point k' <> point k) as Hne by (intros E%rank_point; [lia|assumption..]). split.
      * apply keys_ok_intro; [assumption..|]. intros e He%Hin. now apply Hlt.
      * split; [intros e [->|He]%elem_of_cons; [left|right; now apply Hin]|]. cbn [map_points]. now rewrite Em, delete_insert_ne.
    + destruct (Z.ltb_spec (rank k) (rank k')) as [H'|H'].
      * exists ((k', v') :: m). split; [reflexivity|]. split; [exact Hm0|]. split; [easy|].
        symmetry. apply delete_id. apply (map_points_none ((k', v') :: m)); [assumption..|].
        intros e [->|He]%elem_of_cons; [exact H'|specialize (Hlt e He); lia].
      * exists m. split; [reflexivity|]. split; [exact Hm|]. split; [intros e He; now right|].
        assert (rank k' = rank k) as E by lia. apply rank_point in E; [|assumption..]. rewrite E, delete_insert_eq.
        symmetry. apply delete_id. apply map_points_none; [assumption..|]. intros e He. specialize (Hlt e He). lia.
Qed.

(** ** The cache as a map *)

(** The map of a cache. *)
Definition cache_holds (M : gmap OutPoint nat) (c : ProvisionalUTxOCache) : Prop :=
  keys_ok (_pUTxOMap c) /\ map_points (_pUTxOMap c) = M.

(** The id of a control block, as far as it is compared, and how many outputs its transaction has. *)
Definition block_of (txs : list P2PKH) (cells : Cells) (target : nat) : option (list byte * Z) :=
  b ← cells !! target;
  id ← rd 32 (tc_txID b);
  t ← tc_tx b;
  p ← txs !! t;
  Some (id, outCount p).

Definition outputs (id : list byte) (n : Z) (v : nat) : gmap OutPoint nat :=
  list_to_map ((fun i => ((id, Z.of_nat i), v)) <$> seq 0 (Z.to_nat n)).

(** The outputs of one transaction. *)
Definition output_of (id : list byte) (n : Z) (o : OutPoint) : Prop := o.1 = id /\ 0 <= o.2 < n.
#[local] Instance output_of_dec id n o : Decision (output_of id n o) := _.

Lemma outputs_lookup id n v o : 0 <= n -> outputs id n v !! o = if decide (output_of id n o) then Some v else None.
Proof.
  intros Hn. unfold outputs. destruct o as [x j]. destruct (decide _) as [[E Hj]|H]; cbn [fst snd] in *.
  - subst x. apply elem_of_list_to_map.
    + rewrite <- list_fmap_compose. apply NoDup_fmap; [|apply NoDup_seq]. intros a b [= E]. lia.
    + apply list_elem_of_fmap. exists (Z.to_nat j). split; [f_equal; f_equal; lia|]. apply elem_of_seq. lia.
  - apply not_elem_of_list_to_map. rewrite <- list_fmap_compose. intros (i & [= -> ->] & Hi%elem_of_seq)%list_elem_of_fmap.
    apply H. split; cbn; [reflexivity|lia].
Qed.

(** What a pair of pointers makes of a map. *)
Lemma Cache_find_index_spec M c (txID : buffer) id index : cache_holds M c -> rd 32 txID = Some id ->
  Cache_find_index txID index c = Ok (M !! (id, index mod 2 ^ 16)) c.
Proof.
  intros [Hk <-] Hid. unfold Cache_find_index. rewrite run_get.
  assert (pair_ok (txID, index mod 2 ^ 16)) as Hp.
  { split; [now exists id|]. cbn [snd]. pose proof (Z.mod_pos_bound index (2 ^ 16)). lia. }
  rewrite (map_find_points _ _ Hk Hp). unfold point. cbn [fst snd]. now rewrite Hid.
Qed.

Lemma Cache_remove_pair_spec M c (txID : buffer) id index : cache_holds M c -> rd 32 txID = Some id -> 0 <= index < 2 ^ 32 ->
  wp (Cache_remove_pair (txID, index)) c (fun _ c' =>
    cache_holds (delete (id, index) M) c' /\ pu_txs c' = pu_txs c /\ pu_cells c' = pu_cells c).
Proof.
  intros [Hk <-] Hid Hi. assert (pair_ok (txID, index)) as Hp by (split; [now exists id|exact Hi]).
  unfold Cache_remove_pair, wp. rewrite run_get, (map_find_points _ _ Hk Hp), run_must.
  destruct (map_erase_points _ _ Hk Hp) as (m' & -> & Hk' & _ & Em). rewrite run_must. unfold set_state.
  split; [|now split]. split; [exact Hk'|]. cbn [_pUTxOMap set_pUTxOMap]. rewrite Em. unfold point. cbn [fst snd]. now rewrite Hid.
Qed.

Lemma add_outs_spec (txID : buffer) id v n : rd 32 txID = Some id -> forall i M c, cache_holds M c -> 0 <= i -> i + Z.of_nat n <= 2 ^ 32 ->
  wp (add_outs n i txID v) c (fun _ c' => pu_txs c' = pu_txs c /\ pu_cells c' = pu_cells c /\ exists M', cache_holds M' c' /\
    forall o, M' !! o = match M !! o with Some w => Some w | None => if decide (o.1 = id /\ i <= o.2 < i + Z.of_nat n) then Some v else None end).
Proof.
  intros Hid. induction n as [|n IH]; intros i M c Hc Hi Hn.
  - cbn [add_outs]. apply wp_ret. split; [reflexivity|]. split; [reflexivity|]. exists M. split; [exact Hc|].
    intros o. rewrite decide_False by (intros [_ ?]; lia). now destruct (M !! o).
  - cbn [add_outs]. unfold wp. rewrite run_get. destruct Hc as [Hk HM].
    assert (pair_ok (txID, i)) as Hp by (split; [now exists id|cbn [snd]; lia]).
    destruct (map_insert_points (txID, i) v _ Hk Hp) as (m' & -> & Hk' & _ & Em). rewrite run_must.
    assert (point (txID, i) = (id, i)) as Ep by (unfold point; cbn [fst snd]; now rewrite Hid). rewrite Ep, HM in Em.
    match goal with |- context [set_state ?x] => pose proof (IH (i + 1) (map_points m') x) as H end.
    unfold wp in H. unfold mbind, prog_bind, set_state. cbv beta iota.
    assert (keys_ok m' /\ map_points m' = map_points m') as Hh by now split.
    specialize (H Hh ltac:(lia) ltac:(lia)). destruct (add_outs n (i + 1) txID v _) as [[] c'| |]; [|exact H..].
    destruct H as (E1 & E2 & M' & HM' & Hl). split; [exact E1|]. split; [exact E2|]. exists M'. split; [exact HM'|].
    intros o. rewrite Hl, Em. destruct (decide (o = (id, i))) as [->|Hne].
    + destruct (M !! (id, i)) as [w|] eqn:E.
      * rewrite decide_True by now exists w. now rewrite E.
      * rewrite decide_False by (now intros [? [=]]). rewrite lookup_insert_eq, decide_True; [reflexivity|split; [reflexivity|cbn [snd]; lia]].
    + assert ((if decide (is_Some (M !! (id, i))) then M else <[(id, i) := v]> M) !! o = M !! o) as ->
        by (destruct (decide _); [reflexivity|now rewrite lookup_insert_ne]).
      destruct (M !! o); [reflexivity|]. destruct o as [x j]. cbn [fst snd] in *.
      destruct (decide (x = id /\ i + 1 <= j < i + 1 + Z.of_nat n)) as [H1|H1], (decide (x = id /\ i <= j < i + Z.of_nat (S n))) as [H2|H2];
        [reflexivity|destruct H2; split; [apply H1|lia]| |reflexivity].
      destruct H1. split; [easy|]. assert (j <> i) by (intros ->; apply Hne; now destruct H2 as [-> _]). lia.
Qed.

Lemma remove_outs_spec (txID : buffer) id n : rd 32 txID = Some id -> forall i M c, cache_holds M c -> 0 <= i -> i + Z.of_nat n <= 2 ^ 32 ->
  wp (remove_outs n i txID) c (fun _ c' => pu_txs c' = pu_txs c /\ pu_cells c' = pu_cells c /\ exists M', cache_holds M' c' /\
    forall o, M' !! o = if decide (o.1 = id /\ i <= o.2 < i + Z.of_nat n) then None else M !! o).
Proof.
  intros Hid. induction n as [|n IH]; intros i M c Hc Hi Hn.
  - cbn [remove_outs]. apply wp_ret. split; [reflexivity|]. split; [reflexivity|]. exists M. split; [exact Hc|].
    intros o. now rewrite decide_False by (intros [_ ?]; lia).
  - cbn [remove_outs]. wp_seq (Cache_remove_pair_spec M c txID id i Hc Hid) as (Hc' & E1 & E2); [lia|].
    eapply wp_mono; [apply (IH (i + 1) _ _ Hc'); lia|]. cbv beta. intros _ c' (F1 & F2 & M' & HM' & Hl).
    split; [congruence|]. split; [congruence|]. exists M'. split; [exact HM'|]. intros o. rewrite Hl.
    destruct (decide (o = (id, i))) as [->|Hne].
    + rewrite lookup_delete_eq, (decide_True (P := _ = id /\ i <= _ < _)) by (split; [reflexivity|cbn [snd]; lia]). now destruct (decide _).
    + rewrite lookup_delete_ne by congruence. destruct o as [x j]. cbn [fst snd] in *.
      destruct (decide (x = id /\ i + 1 <= j < i + 1 + Z.of_nat n)) as [H1|H1], (decide (x = id /\ i <= j < i + Z.of_nat (S n))) as [H2|H2];
        [reflexivity|destruct H2; split; [apply H1|lia]| |reflexivity].
      destruct H1. split; [easy|]. assert (j <> i) by (intros ->; apply Hne; now destruct H2 as [-> _]). lia.
Qed.

Lemma outCount_range p : 0 <= outCount p < 2 ^ 16.
Proof. unfold outCount. pose proof (Z.mod_pos_bound (Z.of_nat (length (_outs p))) (2 ^ 16)). lia. Qed.

Lemma Cache_target_spec c target id n : block_of (pu_txs c) (pu_cells c) target = Some (id, n) ->
  exists txID, Cache_target target c = Ok (txID, n) c /\ rd 32 txID = Some id /\ 0 <= n < 2 ^ 16.
Proof.
  unfold block_of, Cache_target. intros H. rewrite run_get.
  destruct (pu_cells c !! target) as [b|]; [|discriminate]. cbn [mbind option_bind] in H. rewrite run_must.
  destruct (rd 32 (tc_txID b)) as [x|] eqn:Ex; [|discriminate]. cbn [mbind option_bind] in H.
  destruct (tc_tx b) as [t|]; [|discriminate]. cbn [mbind option_bind] in H. rewrite run_must.
  destruct (pu_txs c !! t) as [p|]; [|discriminate]. cbn [mbind option_bind] in H. rewrite run_must.
  injection H as <- <-. exists (tc_txID b). split; [reflexivity|]. split; [exact Ex|]. apply outCount_range.
Qed.

(** Entries that are there stay; the others of the transaction are added. *)
Lemma Cache_add_spec M c target id n : cache_holds M c -> block_of (pu_txs c) (pu_cells c) target = Some (id, n) ->
  wp (Cache_add target) c (fun _ c' => cache_holds (M ∪ outputs id n target) c' /\ pu_txs c' = pu_txs c /\ pu_cells c' = pu_cells c).
Proof.
  intros Hc Hb. destruct (Cache_target_spec _ _ _ _ Hb) as (txID & E & Hid & Hn). unfold Cache_add, wp. rewrite (run_bind _ _ _ _ _ E).
  apply (wp_mono _ _ _ _ (add_outs_spec txID id target (Z.to_nat n) Hid 0 M c Hc (Z.le_refl 0) ltac:(lia))).
  intros _ c' (E1 & E2 & M' & HM' & Hl). split; [|now split]. replace (M ∪ outputs id n target) with M'; [exact HM'|].
  apply map_eq. intros o. rewrite Hl, lookup_union, outputs_lookup by lia. unfold output_of. rewrite Z2Nat.id by lia. cbn [Z.add].
  destruct (M !! o); [now destruct (decide _)|]. now destruct (decide _).
Qed.

Lemma Cache_remove_spec M c target id n : cache_holds M c -> block_of (pu_txs c) (pu_cells c) target = Some (id, n) ->
  wp (Cache_remove target) c (fun _ c' => cache_holds (filter (fun e => ~ output_of id n e.1) M) c' /\ pu_txs c' = pu_txs c /\ pu_cells c' = pu_cells c).
Proof.
  intros Hc Hb. destruct (Cache_target_spec _ _ _ _ Hb) as (txID & E & Hid & Hn). unfold Cache_remove, wp. rewrite (run_bind _ _ _ _ _ E).
  apply (wp_mono _ _ _ _ (remove_outs_spec txID id (Z.to_nat n) Hid 0 M c Hc (Z.le_refl 0) ltac:(lia))).
  intros _ c' (E1 & E2 & M' & HM' & Hl). split; [|now split]. replace (filter _ M) with M'; [exact HM'|].
  apply map_eq. intros o. rewrite Hl. rewrite Z2Nat.id by lia. cbn [Z.add]. destruct (decide _) as [H|H].
  - symmetry. apply map_lookup_filter_None. right. intros x _ Hx. now apply Hx.
  - destruct (M !! o) as [x|] eqn:Eo; symmetry; [apply map_lookup_filter_Some; now split|apply map_lookup_filter_None; now left].
Qed.

Lemma find_ins_spec M c l : cache_holds M c -> Forall in_ok l ->
  find_ins l c = Ok (omap (fun t => M !! (take 32 (_txID (_prevOut t)), prev_out_index (_prevOut t))) l) c.
Proof.
  intros Hc. induction 1 as [|t l Ht _ IH]; [reflexivity|]. cbn [find_ins omap list_omap].
  assert (rd 32 (Some (_txID (_prevOut t))) = Some (take 32 (_txID (_prevOut t)))) as Hid.
  { unfold rd. cbn [Z.eqb]. unfold in_ok in Ht. destruct (Z.leb_spec 32 (Z.of_nat (length (_txID (_prevOut t))))); [reflexivity|lia]. }
  rewrite (run_bind _ _ _ _ _ (Cache_find_index_spec _ _ _ _ _ Hc Hid)), (run_bind _ _ _ _ _ IH).
  unfold prev_out_index. rewrite Z.mod_mod by lia. now destruct (M !! _).
Qed.

(** What is asked of a cache, and its answers. *)
Inductive cache_op : Type :=
  | C_add (target : nat)
  | C_remove (target : nat)
  | C_remove_output (txID : buffer) (index : Z)
  | C_find_output (txID : buffer) (index : Z)
  | C_find (t : nat).

Inductive cache_answer : Type := C_done | C_found (r : option nat) | C_hits (l : list nat).

Definition cache_run (o : cache_op) : prog ProvisionalUTxOCache cache_answer :=
  match o with
  | C_add target => _ ← Cache_add target; mret C_done
  | C_remove target => _ ← Cache_remove target; mret C_done
  | C_remove_output txID index => _ ← Cache_remove_index txID index; mret C_done
  | C_find_output txID index => r ← Cache_find_index txID index; mret (C_found r)
  | C_find t => l ← Cache_find t; mret (C_hits l)
  end.

Fixpoint cache_runs (ops : list cache_op) : prog ProvisionalUTxOCache (list cache_answer) :=
  match ops with
  | [] => mret []
  | o :: ops' => a ← cache_run o; l ← cache_runs ops'; mret (a :: l)
  end.

Section cache_refinement.
Context (txs : list P2PKH) (cells : Cells).

(** The same on a finite map from outputs to control blocks. *)
Definition id_of (txID : buffer) : list byte := default [] (rd 32 txID).

Definition map_op (o : cache_op) (M : gmap OutPoint nat) : cache_answer * gmap OutPoint nat :=
  match o with
  | C_add v => (C_done, match block_of txs cells v with Some (id, n) => M ∪ outputs id n v | None => M end)
  | C_remove v => (C_done, match block_of txs cells v with Some (id, n) => filter (fun e => ~ output_of id n e.1) M | None => M end)
  | C_remove_output txID index => (C_done, delete (id_of txID, index mod 2 ^ 16) M)
  | C_find_output txID index => (C_found (M !! (id_of txID, index mod 2 ^ 16)), M)
  | C_find t => (C_hits (match txs !! t with
      | Some p => omap (fun i => M !! (take 32 (_txID (_prevOut i)), prev_out_index (_prevOut i))) (_ins p)
      | None => []
      end), M)
  end.

Fixpoint map_ops (ops : list cache_op) (M : gmap OutPoint nat) : list cache_answer :=
  match ops with
  | [] => []
  | o :: ops' => (map_op o M).1 :: map_ops ops' (map_op o M).2
  end.

(** Pointers that point to something, and ids of 32 bytes. *)
Definition cache_op_ok (o : cache_op) : Prop :=
  match o with
  | C_add v | C_remove v => is_Some (block_of txs cells v)
  | C_remove_output txID _ | C_find_output txID _ => is_Some (rd 32 txID)
  | C_find t => exists p, txs !! t = Some p /\ Forall in_ok (_ins p)
  end.

Lemma cache_run_spec o M c : cache_holds M c -> pu_txs c = txs -> pu_cells c = cells -> cache_op_ok o ->
  wp (cache_run o) c (fun a c' => a = (map_op o M).1 /\ cache_holds (map_op o M).2 c' /\ pu_txs c' = txs /\ pu_cells c' = cells).
Proof.
  intros Hc E1 E2 Ho. destruct o as [v|v|txID index|txID index|t]; cbn [cache_run map_op fst snd cache_op_ok] in *.
  - destruct Ho as [[id n] Hb]. rewrite Hb. rewrite <- E1, <- E2 in Hb |- *. wp_seq (Cache_add_spec M c v id n Hc Hb) as H. now split.
  - destruct Ho as [[id n] Hb]. rewrite Hb. rewrite <- E1, <- E2 in Hb |- *. wp_seq (Cache_remove_spec M c v id n Hc Hb) as H. now split.
  - destruct Ho as [id Hid]. unfold Cache_remove_index, id_of. rewrite Hid.
    wp_seq (Cache_remove_pair_spec M c txID id (index mod 2 ^ 16) Hc Hid) as (Hc' & F1 & F2); [|split; [reflexivity|]; split; [exact Hc'|]; split; congruence].
    pose proof (Z.mod_pos_bound index (2 ^ 16)). lia.
  - destruct Ho as [id Hid]. unfold wp, id_of. rewrite (run_bind _ _ _ _ _ (Cache_find_index_spec M c txID id index Hc Hid)), Hid. now split.
  - destruct Ho as (p & Hp & Hi). unfold wp. rewrite (run_bind _ _ _ (omap (fun t => M !! (take 32 (_txID (_prevOut t)), prev_out_index (_prevOut t))) (_ins p)) c).
    + rewrite Hp. now split.
    + unfold Cache_find. rewrite run_get, E1, Hp, run_must. now apply find_ins_spec.
Qed.

Lemma cache_runs_spec ops : forall M c, cache_holds M c -> pu_txs c = txs -> pu_cells c = cells -> Forall cache_op_ok ops ->
  wp (cache_runs ops) c (fun l _ => l = map_ops ops M).
Proof.
  induction ops as [|o ops IH]; intros M c Hc H1 H2 Ho; [now apply wp_ret|]. apply Forall_cons in Ho as [Ho Hops]. cbn [cache_runs map_ops].
  wp_seq (cache_run_spec o M c Hc H1 H2 Ho) as (-> & Hc' & H1' & H2'). apply wp_bind.
  eapply wp_mono; [exact (IH _ _ Hc' H1' H2' Hops)|]. cbv beta. intros l s2 E. now rewrite E.
Qed.
End cache_refinement.

Lemma empty_cache_holds txs cells : cache_holds ∅ (mkCache txs cells []).
Proof. split; [split; constructor|reflexivity]. Qed.

(** C13: The cache of provisional outputs is a finite map from outputs (the first 32 bytes of an id, and an index) to control
    blocks. Starting empty, it answers any sequence of adding and removing transactions, removing and searching single
    outputs and searching the outputs that a transaction spends as the map does: adding a transaction adds its outputs but
    leaves those that are there, removing takes out all of them, and indices are
    cut to 16 bits when one output is named. *)
Theorem cache_refines_map txs cells ops : Forall (cache_op_ok txs cells) ops ->
  wp (cache_runs ops) (mkCache txs cells []) (fun l _ => l = map_ops txs cells ops ∅).
Proof. intros Ho. now apply cache_runs_spec; [apply empty_cache_holds|..]. Qed.

(** Searching the outputs that a transaction spends does not find who else spends them. *)
Lemma add_all_map txs cells cs M t p :
  Forall (fun v => exists id n, block_of txs cells v = Some (id, n) /\ Forall (fun i => take 32 (_txID (_prevOut i)) <> id) (_ins p)) cs ->
  txs !! t = Some p -> (forall i, i ∈ _ins p -> M !! (take 32 (_txID (_prevOut i)), prev_out_index (_prevOut i)) = None) ->
  map_ops txs cells (map C_add cs ++ [C_find t]) M = map (fun _ => C_done) cs ++ [C_hits []].
Proof.
  revert M. induction cs as [|v cs IH]; intros M Hcs Ht HM; cbn [map app map_ops map_op fst snd].
  - rewrite Ht. f_equal. f_equal. clear Ht Hcs. induction (_ins p) as [|i l IHl]; [reflexivity|]. cbn [omap list_omap].
    rewrite HM by left. apply IHl. intros j Hj. apply HM. now right.
  - apply Forall_cons in Hcs as [(id & n & Hb & Hi) Hcs]. rewrite Hb. f_equal. apply IH; [exact Hcs|exact Ht|].
    intros i Hin. rewrite lookup_union, (HM i Hin). rewrite Forall_forall in Hi. specialize (Hi i Hin).
    assert (0 <= n) as Hn by (unfold block_of in Hb; destruct (cells !! v) as [b|]; [|discriminate]; cbn [mbind option_bind] in Hb;
      destruct (rd 32 _); [|discriminate]; destruct (tc_tx b) as [x|]; [|discriminate]; cbn [mbind option_bind] in Hb;
      destruct (txs !! x) as [q|]; [|discriminate]; injection Hb as _ <-; apply outCount_range).
    rewrite outputs_lookup, decide_False; [reflexivity|intros [E _]; now apply Hi|exact Hn].
Qed.

(** The cache does not notice double spends. It is asked, of a transaction, for pooled transactions that refer to the same
    outputs, yet it answers the pooled transactions that create them: when none of the transactions added to the cache
    creates an output that [t] spends, the answer is empty, although any number of them may spend the
    very same outputs. *)
Theorem cache_misses_double_spends txs cells cs t p :
  Forall (fun v => exists id n, block_of txs cells v = Some (id, n) /\ Forall (fun i => take 32 (_txID (_prevOut i)) <> id) (_ins p)) cs ->
  txs !! t = Some p -> Forall in_ok (_ins p) ->
  wp (cache_runs (map C_add cs ++ [C_find t])) (mkCache txs cells []) (fun l _ => l = map (fun _ => C_done) cs ++ [C_hits []]).
Proof.
  intros Hcs Ht Hi. eapply wp_mono; [apply (cache_runs_spec txs cells _ ∅ _ (empty_cache_holds txs cells) eq_refl eq_refl)|].
  - apply Forall_app. split; [|apply Forall_singleton; now exists p]. apply Forall_fmap. eapply Forall_impl; [exact Hcs|].
    intros v (id & n & Hb & _). cbn. now rewrite Hb.
  - cbv beta. intros l s2 E. rewrite E. apply (add_all_map txs cells cs ∅ t p Hcs Ht). intros i _. apply lookup_empty.
Qed.

(** ** The accounts of the memory pool *)

Section mempool_accounts.
Context {Tx : Type} (get_id : Tx -> list byte) {I : Type} {index : MultiIndex Tx I}.

(** What the library says of a container with a unique index: it is a finite map by ids. *)
Class MultiIndex_laws (elems : I -> gmap (list byte) (mempool_entry Tx)) : Prop := {
  mi_insert_law e s : mi_insert e s = (default e (elems s !! get_tx_id get_id e), (mi_insert e s).2) /\
    elems (mi_insert e s).2 = match elems s !! get_tx_id get_id e with Some _ => elems s | None => <[get_tx_id get_id e := e]> (elems s) end;
  mi_find_law k s : mi_find k s = elems s !! k;
  mi_erase_law k s : elems (mi_erase k s) = delete k (elems s);
  mi_size_law s : mi_size s = Z.of_nat (size (elems s));
}.

Context {elems : I -> gmap (list byte) (mempool_entry Tx)} {laws : MultiIndex_laws elems}.

Inductive mempool_op : Type := M_add (e : mempool_entry Tx) | M_remove (t : Tx).

Definition mempool_run (o : mempool_op) : prog (mempool I) unit :=
  match o with M_add e => _ ← add_entry e; mret tt | M_remove t => remove_entry get_id t end.

Fixpoint mempool_runs (ops : list mempool_op) : prog (mempool I) unit :=
  match ops with [] => mret tt | o :: ops' => _ ← mempool_run o; mempool_runs ops' end.

(** What a pool should hold, with how often an entry was added whose id was there already. *)
Definition pool_step (o : mempool_op) (M : gmap (list byte) (mempool_entry Tx)) : gmap (list byte) (mempool_entry Tx) :=
  match o with
  | M_add e => match M !! get_tx_id get_id e with Some _ => M | None => <[get_tx_id get_id e := e]> M end
  | M_remove t => delete (get_id t) M
  end.

Definition repeated (o : mempool_op) (M : gmap (list byte) (mempool_entry Tx)) : Z :=
  match o with M_add e => if decide (is_Some (M !! get_tx_id get_id e)) then 1 else 0 | M_remove _ => 0 end.

Fixpoint repetitions (ops : list mempool_op) (M : gmap (list byte) (mempool_entry Tx)) : Z :=
  match ops with [] => 0 | o :: ops' => repeated o M + repetitions ops' (pool_step o M) end.

(** Every removal finds its transaction. *)
Fixpoint removes_present (ops : list mempool_op) (M : gmap (list byte) (mempool_entry Tx)) : bool :=
  match ops with
  | [] => true
  | o :: ops' => match o with M_add _ => true | M_remove t => bool_decide (is_Some (M !! get_id t)) end && removes_present ops' (pool_step o M)
  end.

Definition pool_after (ops : list mempool_op) (M : gmap (list byte) (mempool_entry Tx)) : gmap (list byte) (mempool_entry Tx) :=
  fold_left (fun M o => pool_step o M) ops M.

(** Counted entries: those in the pool and [d] repetitions. *)
Definition accounts (d : Z) (M : gmap (list byte) (mempool_entry Tx)) (m : mempool I) : Prop :=
  elems (_indexed_tx_set m) = M /\
  _total_tx_size_bytes m = (100 * (Z.of_nat (size M) + d)) mod 2 ^ 64 /\
  _total_mem_usage_bytes m = (116 * (Z.of_nat (size M) + d)) mod 2 ^ 64.

Lemma sizes_of (e : mempool_entry Tx) : get_tx_size_bytes e = 100 /\ get_entry_size_bytes e = 116.
Proof. split; reflexivity. Qed.

Lemma add_mod a b : (a mod 2 ^ 64 + b) mod 2 ^ 64 = (a + b) mod 2 ^ 64.
Proof. now rewrite Zplus_mod_idemp_l. Qed.

Lemma add_entry_run (e : mempool_entry Tx) (m : mempool I) : exists m',
  add_entry e m = Ok (default e (elems (_indexed_tx_set m) !! get_tx_id get_id e)) m' /\
  elems (_indexed_tx_set m') = pool_step (M_add e) (elems (_indexed_tx_set m)) /\
  _total_tx_size_bytes m' = (_total_tx_size_bytes m + 100) mod 2 ^ 64 /\
  _total_mem_usage_bytes m' = (_total_mem_usage_bytes m + 116) mod 2 ^ 64 /\
  _total_fee m' = get_tx_fee (default e (elems (_indexed_tx_set m) !! get_tx_id get_id e)).
Proof.
  unfold add_entry. rewrite run_get. destruct (mi_insert_law e (_indexed_tx_set m)) as [E1 E2]. rewrite E1.
  eexists. split; [reflexivity|]. cbn [_indexed_tx_set _total_tx_size_bytes _total_mem_usage_bytes _total_fee]. now split.
Qed.

Lemma add_entry_accounts d M e (m : mempool I) : accounts d M m ->
  wp (mempool_run (M_add e)) m (fun _ m' => accounts (d + repeated (M_add e) M) (pool_step (M_add e) M) m').
Proof.
  intros (<- & Ht & Hm). unfold wp. cbn [mempool_run]. destruct (add_entry_run e m) as (m' & E & F1 & F2 & F3 & _).
  rewrite (run_bind _ _ _ _ _ E). split; [exact F1|]. rewrite F2, F3, Ht, Hm, !add_mod. cbn [pool_step repeated].
  destruct (elems (_indexed_tx_set m) !! get_tx_id get_id e) eqn:Ee.
  - rewrite decide_True by (now eexists). split; f_equal; lia.
  - rewrite decide_False by (now intros [? [=]]). rewrite map_size_insert_None by exact Ee. split; f_equal; lia.
Qed.

Lemma remove_entry_run t (m : mempool I) :
  match elems (_indexed_tx_set m) !! get_id t with
  | None => remove_entry get_id t m = Undef
  | Some e => exists m', remove_entry get_id t m = Ok tt m' /\ elems (_indexed_tx_set m') = delete (get_id t) (elems (_indexed_tx_set m)) /\
      _total_tx_size_bytes m' = (_total_tx_size_bytes m - 100) mod 2 ^ 64 /\
      _total_mem_usage_bytes m' = (_total_mem_usage_bytes m - 116) mod 2 ^ 64 /\
      _total_fee m' = (_total_fee m - get_tx_fee e) mod 2 ^ 64
  end.
Proof.
  unfold remove_entry. rewrite run_get, mi_find_law. destruct (elems (_indexed_tx_set m) !! get_id t) as [e|]; [|reflexivity].
  rewrite run_must. eexists. split; [reflexivity|]. cbn [_indexed_tx_set _total_tx_size_bytes _total_mem_usage_bytes _total_fee].
  rewrite mi_erase_law. now split.
Qed.

Lemma remove_entry_accounts d M t e (m : mempool I) : accounts d M m -> M !! get_id t = Some e ->
  wp (mempool_run (M_remove t)) m (fun _ m' => accounts d (pool_step (M_remove t) M) m').
Proof.
  intros (<- & Ht & Hm) He. unfold wp. cbn [mempool_run pool_step]. pose proof (remove_entry_run t m) as H. rewrite He in H.
  destruct H as (m' & -> & F1 & F2 & F3 & _). split; [exact F1|]. rewrite F2, F3, Ht, Hm.
  assert (size (elems (_indexed_tx_set m)) <> 0%nat) as Hs by (intros E; apply map_size_empty_inv in E; rewrite E, lookup_empty in He; discriminate).
  rewrite <- !Z.add_opp_r, !add_mod, map_size_delete_Some by (now exists e). split; f_equal; lia.
Qed.

Lemma mempool_runs_accounts ops : forall d M (m : mempool I), accounts d M m ->
  if removes_present ops M then wp (mempool_runs ops) m (fun _ m' => accounts (d + repetitions ops M) (pool_after ops M) m')
  else mempool_runs ops m = Undef.
Proof.
  induction ops as [|o ops IH]; intros d M m H; cbn [removes_present repetitions pool_after fold_left mempool_runs].
  - apply wp_ret. now rewrite Z.add_0_r.
  - destruct o as [e|t].
    + cbn [andb]. destruct (wp_inv _ _ _ (add_entry_accounts d M e m H)) as ([] & m' & E & H').
      specialize (IH _ _ _ H'). rewrite <- Z.add_assoc in IH. unfold wp. now rewrite (run_bind _ _ _ _ _ E).
    + destruct (M !! get_id t) as [e|] eqn:Ee.
      * rewrite bool_decide_true by (now exists e). cbn [andb]. destruct (wp_inv _ _ _ (remove_entry_accounts d M t e m H Ee)) as ([] & m' & E & H').
        specialize (IH _ _ _ H'). cbn [repeated]. rewrite Z.add_0_l. unfold wp. now rewrite (run_bind _ _ _ _ _ E).
      * rewrite bool_decide_false by (now intros [? [=]]). cbn [andb]. destruct H as (<- & _). pose proof (remove_entry_run t m) as Hr.
        rewrite Ee in Hr. cbn [mempool_run]. unfold mbind, prog_bind. now rewrite Hr.
Qed.

(** The memory pool keeps its count, but its totals only under conditions. Starting empty, over any container with the
    laws of the library, any sequence of adding entries and removing transactions that are in the pool leaves the entries
    that were added first under their ids and not removed; the totals of sizes are those of the
    entries in the pool and, once more each, of every entry that was added although its id was
    there; a removal of what is not in the pool is undefined. The total of fees is not a total: adding replaces it by
    the fee of the entry, so that after two transactions came and went the pool is empty and the
    total wrapped around below zero. *)
Theorem mempool_totals (empty : I) : elems empty = ∅ ->
  (forall ops, if removes_present ops ∅ then
     wp (mempool_runs ops) (mempool_new empty) (fun _ m =>
       elems (_indexed_tx_set m) = pool_after ops ∅ /\ get_tx_count m = Z.of_nat (size (pool_after ops ∅)) /\
       _total_tx_size_bytes m = (100 * (get_tx_count m + repetitions ops ∅)) mod 2 ^ 64 /\
       _total_mem_usage_bytes m = (116 * (get_tx_count m + repetitions ops ∅)) mod 2 ^ 64)
   else mempool_runs ops (mempool_new empty) = Undef) /\
  (forall e1 e2, get_tx_id get_id e1 <> get_tx_id get_id e2 -> 0 <= get_tx_fee e2 < 2 ^ 32 ->
     wp (mempool_runs [M_add e1; M_add e2; M_remove (_tx_ref e1); M_remove (_tx_ref e2)]) (mempool_new empty) (fun _ m =>
       get_tx_count m = 0 /\ _total_fee m = (- get_tx_fee e1) mod 2 ^ 64)).
Proof.
  intros He. split.
  - intros ops. pose proof (mempool_runs_accounts ops 0 ∅ (mempool_new empty)) as H.
    assert (accounts 0 ∅ (mempool_new empty)) as Ha by (split; [exact He|split; reflexivity]). specialize (H Ha).
    destruct (removes_present ops ∅); [|exact H]. eapply wp_mono; [exact H|]. intros _ m (H1 & H2 & H3). cbv beta in *.
    assert (get_tx_count m = Z.of_nat (size (pool_after ops ∅))) as Ec by (unfold get_tx_count; now rewrite mi_size_law, H1).
    rewrite Ec, H2, H3. now split.
  - intros e1 e2 Hne Hf. unfold wp. cbn [mempool_runs mempool_run].
    destruct (add_entry_run e1 (mempool_new empty)) as (m1 & E1 & F1 & _). destruct (add_entry_run e2 m1) as (m2 & E2 & F2 & _ & _ & G2).
    cbn [_indexed_tx_set mempool_new pool_step] in F1. rewrite He, lookup_empty in F1. cbn [pool_step] in F2. rewrite F1 in F2, G2.
    rewrite lookup_insert_ne, lookup_empty in F2 by assumption. rewrite lookup_insert_ne, lookup_empty in G2 by assumption. cbn [from_option id] in G2.
    unfold get_tx_id in F1, F2, Hne.
    pose proof (remove_entry_run (_tx_ref e1) m2) as R1. rewrite F2, lookup_insert_ne, lookup_insert_eq in R1 by congruence.
    destruct R1 as (m3 & E3 & F3 & _ & _ & G3).
    pose proof (remove_entry_run (_tx_ref e2) m3) as R2. rewrite F3, lookup_delete_ne, lookup_insert_eq in R2 by congruence.
    destruct R2 as (m4 & E4 & F4 & _ & _ & G4).
    repeat (rewrite ?mbind_assoc; first [erewrite run_bind by (rewrite (run_bind _ _ _ _ _ E1); reflexivity)
      |erewrite run_bind by (rewrite (run_bind _ _ _ _ _ E2); reflexivity)|erewrite run_bind by exact E3|erewrite run_bind by exact E4]).
    unfold mret, prog_ret. split.
    + unfold get_tx_count. rewrite mi_size_law, F4. rewrite delete_insert_ne by congruence.
      rewrite (delete_insert_id ∅) by apply lookup_empty. now rewrite delete_insert_id by apply lookup_empty.
    + rewrite G4, G3, G2. rewrite Zminus_mod_idemp_l. f_equal. lia.
Qed.
End mempool_accounts.

(** ** Concrete runs *)

Definition sample_block : TxCB := mkTxCB (Some (replicate 32 x05)) 0 (Some 0%nat) None None 0.

Lemma cache_refines_map_witness :
  wp (cache_runs [C_add 0; C_find_output (Some (replicate 32 x05)) 65536; C_find 0; C_remove 0; C_find_output (Some (replicate 32 x05)) 0])
    (mkCache [sample_tx] [sample_block] []) (fun l _ => l = [C_done; C_found (Some 0%nat); C_hits []; C_done; C_found None]).
Proof.
  eapply wp_mono; [apply (cache_refines_map [sample_tx] [sample_block])|].
  - repeat constructor; cbn [cache_op_ok]; try (vm_compute; eexists; reflexivity).
    exists sample_tx. split; [reflexivity|]. apply Forall_singleton. unfold in_ok. vm_compute. lia.
  - intros l s E. rewrite E. vm_compute. reflexivity.
Defined.

(** Two transactions that spend the same output. *)
Lemma cache_misses_double_spends_witness :
  wp (cache_runs (map C_add [0%nat] ++ [C_find 1])) (mkCache [sample_tx; sample_tx] [sample_block] []) (fun l _ => l = [C_done; C_hits []]).
Proof.
  eapply wp_mono; [apply (cache_misses_double_spends [sample_tx; sample_tx] [sample_block] [0%nat] 1 sample_tx)|].
  - apply Forall_singleton. exists (replicate 32 x05), 1. split; [vm_compute; reflexivity|]. apply Forall_singleton. vm_compute. discriminate.
  - reflexivity.
  - apply Forall_singleton. unfold in_ok. vm_compute. lia.
  - intros l s E. rewrite E. reflexivity.
Defined.

(** A finite map as the container. *)
#[local] Instance map_index {Tx} (get_id : Tx -> list byte) : MultiIndex Tx (gmap (list byte) (mempool_entry Tx)) := {|
  mi_insert e s := match s !! get_tx_id get_id e with Some e' => (e', s) | None => (e, <[get_tx_id get_id e := e]> s) end;
  mi_find k s := s !! k;
  mi_erase k s := delete k s;
  mi_size s := Z.of_nat (size s);
|}.

#[local] Instance map_index_laws {Tx} (get_id : Tx -> list byte) : MultiIndex_laws get_id (index := map_index get_id) id.
Proof.
  split; try reflexivity. intros e s. cbn. change (id s) with s. destruct (s !! get_tx_id get_id e) eqn:E; [now split|now split].
Qed.

Lemma mempool_totals_witness :
  (if removes_present (fun t : byte => [t]) [M_add (mkEntry x01 5 0 0); M_add (mkEntry x01 7 0 0); M_add (mkEntry x02 7 0 0); M_remove x01] ∅ then
     wp (mempool_runs (index := map_index (fun t : byte => [t])) (fun t : byte => [t]) [M_add (mkEntry x01 5 0 0); M_add (mkEntry x01 7 0 0); M_add (mkEntry x02 7 0 0); M_remove x01])
       (mempool_new ∅) (fun _ m => get_tx_count (index := map_index (fun t : byte => [t])) m = 1 /\ _total_tx_size_bytes m = 200)
   else False) /\
  wp (mempool_runs (index := map_index (fun t : byte => [t])) (fun t : byte => [t]) [M_add (mkEntry x01 5 0 0); M_add (mkEntry x02 7 0 0); M_remove x01; M_remove x02])
    (mempool_new ∅) (fun _ m => get_tx_count (index := map_index (fun t : byte => [t])) m = 0 /\ _total_fee m = 2 ^ 64 - 5).
Proof.
  destruct (mempool_totals (fun t : byte => [t]) (index := map_index (fun t : byte => [t])) (elems := id) ∅ eq_refl) as [Ha Hb]. split.
  - specialize (Ha [M_add (mkEntry x01 5 0 0); M_add (mkEntry x01 7 0 0); M_add (mkEntry x02 7 0 0); M_remove x01]). vm_compute in Ha. vm_compute.
    destruct Ha as (_ & H1 & H2 & _). split; [exact H1|exact H2].
  - specialize (Hb (mkEntry x01 5 0 0) (mkEntry x02 7 0 0)). apply Hb; [vm_compute; discriminate|cbn; lia].
Defined.
