(* ===== verification/ChainState.v ===== *)
(** The state of the chain that outlives the node ([chain/chain_state.cpp]): a mapped file with the
    hash and the height of the newest block, and the iterator it gives out. *)
From S2P Require Import Prelude Crypto Script TxFormat P2PKH BlockHeader Coinbase Block HeaderSync BlockSync ChainSync.
From Stdlib Require Import Lia.
#[local] Open Scope Z_scope.

(** ** The file *)

(** The packed struct [ChainMeta]: hash, height, time, version. *)
Record ChainMeta : Type := mkChainMeta { _chainHead : list byte; _heigth : Z; _timestamp : Z; cm_version : list byte }.

Definition CHAIN_META_SIZE : Z := 44.

Definition ChainMeta_bytes (m : ChainMeta) : list byte :=
  _chainHead m ++ le_encode 4 (_heigth m) ++ le_encode 4 (_timestamp m) ++ cm_version m.

(** The struct that the mapped bytes are. *)
Definition ChainMeta_of (file : list byte) : option ChainMeta :=
  h ← sub file 0 32;
  height ← sub file 32 4;
  t ← sub file 36 4;
  v ← sub file 40 4;
  Some (mkChainMeta h (le_decode height) (le_decode t) v).

(** Writing the struct in place: what lies behind it in the file stays. *)
Definition put_meta (m : ChainMeta) (file : list byte) : list byte := ChainMeta_bytes m ++ drop 44 file.

(** The constructor: the file is created if there is none, and filled up with zeros to the size of the
    struct. It is mapped with the size of a pointer, which gives a whole page. [present]: the storage is not null. Opening and
    mapping succeed. *)
Definition MiyaChainState_new (present : bool) : prog (option (list byte)) unit :=
  if negb present then throw AssertionFailure
  else
    file ← get_state;
    let f := default [] file in
    set_state (Some (if Z.of_nat (length f) <? CHAIN_META_SIZE then f ++ replicate (44 - length f) x00 else f)).

(** [ChainMeta::blockHash]: a copy. *)
Definition ChainMeta_blockHash : prog (option (list byte)) (list byte) :=
  file ← get_state; f ← must file; m ← must (ChainMeta_of f); mret (_chainHead m).

(** [update]: the height is given in 16 bits; the mapped memory is the file. *)
Definition MiyaChainState_update (blockHash : buffer) (height now : Z) : prog (option (list byte)) unit :=
  file ← get_state;
  f ← must file;
  h ← must (rd 32 blockHash);
  set_state (Some (put_meta (mkChainMeta h (height mod 2 ^ 16) (now mod 2 ^ 32) (replicate 4 x00)) f)).

Section ChainState_iterator.
Context {ssl : OpenSSL} {st : BlockLocalStrage}.

(** The state beside the storage of blocks. *)
Definition ChainWorld : Type := option (list byte) * storage.

Definition latestBlockIterator : prog ChainWorld BlockChainIterator :=
  h ← zoom fst (fun f s => (f, s.2)) ChainMeta_blockHash;
  zoom snd (fun x s => (s.1, x)) (BlockChainIterator_hash true (Some h)).
End ChainState_iterator.

(** ** What the file keeps *)

Definition meta_fits (m : ChainMeta) : Prop :=
  length (_chainHead m) = 32%nat /\ 0 <= _heigth m < 2 ^ 32 /\ 0 <= _timestamp m < 2 ^ 32 /\ length (cm_version m) = 4%nat.

Lemma ChainMeta_bytes_length m : meta_fits m -> length (ChainMeta_bytes m) = 44%nat.
Proof. intros (H1 & _ & _ & H2). unfold ChainMeta_bytes. rewrite !length_app, !le_encode_length, H1, H2. reflexivity. Qed.

Lemma ChainMeta_round_trip m rest : meta_fits m -> ChainMeta_of (ChainMeta_bytes m ++ rest) = Some m.
Proof.
  intros (H1 & H2 & H3 & H4). unfold ChainMeta_of, ChainMeta_bytes.
  pose proof (le_encode_length 4 (_heigth m)) as L1. pose proof (le_encode_length 4 (_timestamp m)) as L2.
  set (raw := (_chainHead m ++ _ ++ _ ++ cm_version m) ++ rest).
  assert (sub raw 0 32 = Some (_chainHead m)) as -> by (eapply (sub_at raw [] _ _); unfold raw; rewrite <- ?app_assoc; [reflexivity|reflexivity|lia]).
  assert (sub raw 32 4 = Some (le_encode 4 (_heigth m))) as ->
    by (eapply (sub_at raw (_chainHead m) _ _); unfold raw; rewrite <- ?app_assoc; [reflexivity|lia|lia]).
  assert (sub raw 36 4 = Some (le_encode 4 (_timestamp m))) as ->
    by (eapply (sub_at raw (_chainHead m ++ le_encode 4 (_heigth m)) _ _); unfold raw; rewrite <- ?app_assoc; [reflexivity|rewrite length_app; lia|lia]).
  assert (sub raw 40 4 = Some (cm_version m)) as ->
    by (eapply (sub_at raw (_chainHead m ++ le_encode 4 (_heigth m) ++ le_encode 4 (_timestamp m)) _ _); unfold raw; rewrite <- ?app_assoc;
        [reflexivity|rewrite !length_app; lia|lia]).
  cbn [mbind option_bind]. rewrite !le_decode_le by (cbn; lia). now destruct m.
Qed.

(** ** Runs *)

Definition update_args : Type := list byte * Z * Z.

(** Updates one after the other, each with a hash, a height and the time. *)
Fixpoint updates (us : list update_args) : prog (option (list byte)) unit :=
  match us with
  | [] => mret tt
  | (h, height, now) :: us' => _ ← MiyaChainState_update (Some h) height now; updates us'
  end.

Definition meta_after (u : update_args) : ChainMeta := mkChainMeta u.1.1 (u.1.2 mod 2 ^ 16) (u.2 mod 2 ^ 32) (replicate 4 x00).

Lemma meta_after_fits u : length u.1.1 = 32%nat -> meta_fits (meta_after u).
Proof.
  intros H. split; [exact H|]. cbn [_heigth _timestamp meta_after cm_version]. pose proof (Z.mod_pos_bound u.1.2 (2 ^ 16)).
  pose proof (Z.mod_pos_bound u.2 (2 ^ 32)). split; [lia|]. split; [lia|reflexivity].
Qed.

(** The file after the constructor. *)
Definition opened (f : option (list byte)) : list byte := default [] f ++ replicate (44 - length (default [] f)) x00.

Lemma MiyaChainState_new_opens f : MiyaChainState_new true f = Ok tt (Some (opened f)) /\ length (opened f) = Nat.max 44 (length (default [] f)).
Proof.
  unfold MiyaChainState_new, opened, CHAIN_META_SIZE. cbn [negb]. rewrite run_get. split; [|rewrite length_app, length_replicate; lia].
  destruct (Z.ltb_spec (Z.of_nat (length (default [] f))) 44) as [H|H]; [reflexivity|].
  replace (44 - length (default [] f))%nat with 0%nat by lia. cbn [replicate]. now rewrite app_nil_r.
Qed.

Lemma updates_run us : forall f, (44 <= length f)%nat -> Forall (fun u => length u.1.1 = 32%nat) us ->
  updates us (Some f) = Ok tt (Some (match last us with Some u => put_meta (meta_after u) f | None => f end)).
Proof.
  induction us as [|[[h height] now] us IH]; intros f Hf Hus; [reflexivity|]. apply Forall_cons in Hus as [Hh Hus]. cbn [fst] in Hh. cbn [updates].
  rewrite (run_bind _ _ _ tt (Some (put_meta (meta_after (h, height, now)) f))).
  - pose proof (ChainMeta_bytes_length _ (meta_after_fits (h, height, now) Hh)) as L.
    assert (44 <= length (put_meta (meta_after (h, height, now)) f))%nat as Hl by (unfold put_meta; rewrite length_app, L; lia).
    rewrite (IH _ Hl Hus). destruct us as [|u us]; [reflexivity|].
    change (last ((h, height, now) :: u :: us)) with (last (u :: us)). destruct (last (u :: us)) as [v|] eqn:Ev; [|apply last_None in Ev; discriminate].
    unfold put_meta at 1 3. unfold put_meta. rewrite drop_app_length' by lia. reflexivity.
  - unfold MiyaChainState_update. rewrite run_get, run_must, (rd_32 _ Hh), run_must. reflexivity.
Qed.

Section restart.
Context {ssl : OpenSSL} {laws : OpenSSL_laws} {st : BlockLocalStrage}.

(** The iterator that is given out for a hash, by what the storage answers. *)
Definition head_iterator (h : list byte) (f : option (list byte)) (x : storage) : result ChainWorld BlockChainIterator :=
  match readBlock (Some h) x with
  | Ok (Some b) _ => Undef
  | Ok None x' => Ok (mkIterator None true None (-1)) (f, x')
  | Throw e x' => Throw e (f, x')
  | Undef => Undef
  end.

Lemma iterator_of_hash h (f : option (list byte)) (x : storage) : ChainMeta_blockHash f = Ok h f ->
  latestBlockIterator (f, x) = head_iterator h f x.
Proof.
  intros Eh. unfold latestBlockIterator. rewrite (run_bind _ _ _ h (f, x)) by (unfold zoom; cbn [fst snd]; now rewrite Eh).
  unfold head_iterator, zoom, BlockChainIterator_hash, setupFromBlockHash, set_cache, read_storage, zoom, mbind, prog_bind, get_state, set_state, mret, prog_ret.
  cbn [negb fst snd has_storage]. destruct (readBlock (Some h) x) as [[b|] y| |]; cbn [negb fst snd has_storage _body set_body]; [|reflexivity..].
  unfold must. now destruct (Block_blockHash b).
Qed.

(** C31: The head of the chain survives restarts, but cannot be used. Whatever the state file held, after any
    sequence of updates and a restart of the node the hash is that of the last update and the height that of the last update
    modulo 2^16; what lay in the file behind the struct is still there. The iterator that the state gives out for this
    head, over any storage of blocks, depends on how the storage answers the request for the head's block: it is an iterator
    without a block when there is none, and undefined when there is one, since
    the iterator asks it for its height; an exception of the storage goes through. *)
Theorem chain_head_survives_restart f us h height now (x : storage) :
  Forall (fun u : update_args => length u.1.1 = 32%nat) (us ++ [(h, height, now)]) ->
  wp (_ ← MiyaChainState_new true; _ ← updates (us ++ [(h, height, now)]); MiyaChainState_new true) f (fun _ f' =>
    ChainMeta_blockHash f' = Ok h f' /\
    (exists g m, f' = Some g /\ ChainMeta_of g = Some m /\ _heigth m = height mod 2 ^ 16 /\ drop 44 g = drop 44 (default [] f)) /\
    latestBlockIterator (f', x) = head_iterator h f' x).
Proof.
  intros Hus. destruct (MiyaChainState_new_opens f) as [E L]. unfold wp. rewrite (run_bind _ _ _ _ _ E).
  rewrite (run_bind _ _ _ _ _ (updates_run _ (opened f) ltac:(lia) Hus)), last_snoc.
  assert (length h = 32%nat) as Hh by (apply Forall_app in Hus as [_ Hu]; apply Forall_cons in Hu as [Hu _]; exact Hu).
  pose proof (meta_after_fits (h, height, now) Hh) as Hm. pose proof (ChainMeta_bytes_length _ Hm) as Lm.
  set (g := put_meta (meta_after (h, height, now)) (opened f)).
  assert (opened (Some g) = g) as Eg.
  { unfold opened. change (default [] (Some g)) with g. replace (44 - length g)%nat with 0%nat; [now rewrite app_nil_r|].
    unfold g, put_meta. rewrite length_app, Lm. lia. }
  destruct (MiyaChainState_new_opens (Some g)) as [E2 _]. rewrite E2, Eg.
  assert (ChainMeta_of g = Some (meta_after (h, height, now))) as Em by (apply ChainMeta_round_trip; exact Hm).
  assert (ChainMeta_blockHash (Some g) = Ok h (Some g)) as Eh by (unfold ChainMeta_blockHash; rewrite run_get, run_must, Em, run_must; reflexivity).
  split; [exact Eh|]. split.
  - exists g, (meta_after (h, height, now)). split; [reflexivity|]. split; [exact Em|]. split; [reflexivity|].
    unfold g, put_meta. rewrite drop_app_length' by lia. unfold opened. destruct (decide (length (default [] f) <= 44)%nat).
    + rewrite !drop_ge; [reflexivity|lia|rewrite length_app, length_replicate; lia].
    + replace (44 - length (default [] f))%nat with 0%nat by lia. now rewrite app_nil_r.
  - now apply iterator_of_hash.
Qed.
End restart.

(** Two updates over a file that was too short. *)
Definition sample_updates : list update_args := [(replicate 32 x01, 1, 1700000000)].

Lemma chain_head_survives_restart_witness :
  wp (_ ← MiyaChainState_new true; _ ← updates (sample_updates ++ [(replicate 32 x02, 65537, 1700000600)]); MiyaChainState_new true) (Some [xff])
    (fun _ f' => ChainMeta_blockHash f' = Ok (replicate 32 x02) f' /\
      (exists g m, f' = Some g /\ ChainMeta_of g = Some m /\ _heigth m = 1 /\ drop 44 g = []) /\
      latestBlockIterator (ssl := chain_ssl) (st := memory_storage) (f', fun _ => None) = Ok (mkIterator None true None (-1)) (f', fun _ => None)).
Proof.
  exact (chain_head_survives_restart (ssl := chain_ssl) (st := memory_storage)
    (Some [xff]) sample_updates (replicate 32 x02) 65537 1700000600 (fun _ => None)
    ltac:(repeat constructor)).
Defined.
