(* ===== verification/Daemons.v ===== *)
(** The threads of the peer-to-peer layer and of the chain above it ([src/ekp2p/daemon/],
    [src/chain/daemon/broker/]), the segments they pass on ([share/stream_buffer/]), and finding out
    the node's own address ([src/ekp2p/network/nat/], [ekp2p.cpp]). *)
From S2P Require Import Prelude Crypto Ekp2pWire Kademlia.
From Stdlib Require Import Lia.
#[local] Open Scope Z_scope.

(** ** Segments *)

(** [sockaddr_in]: address and port as they lie in memory. *)
Notation sockaddr := (Z * Z)%type.

(** A segment has one owner and is moved; [sb_ref] tells it from others. The control block's [_type], [_protocol]
    and [_reserved] and the [_rpcType] are never read or written by code that is not commented out. *)
Record SBSegment : Type := mkSeg {
  sb_ref : nat;
  sb_flag : Z;
  sb_bodySize : Z;
  sb_forwardingSBCID : Z;
  sb_isProcessed : bool;
  sb_sendFlag : Z;
  sb_rawSenderAddr : sockaddr;
  sb_destinationAddr : sockaddr;
  sb_body : buffer;
}.

Definition SB_FLAG_MODULE_EXIT : Z := 1.

(** [SBSegment()]: what it does not initialise is given. *)
Definition SBSegment_new (ref : nat) (flag bodySize forwardingSBCID : Z) (raw dest : sockaddr) : SBSegment :=
  mkSeg ref flag bodySize forwardingSBCID false 0 raw dest None.

(** [body( void* , bodyLength )]: the new body is one byte. *)
Definition set_body_raw (body : buffer) (bodyLength : Z) (s : SBSegment) : option SBSegment :=
  b ← rd 1 body;
  Some (mkSeg (sb_ref s) (sb_flag s) (bodyLength mod 2 ^ 16) (sb_forwardingSBCID s) (sb_isProcessed s) (sb_sendFlag s) (sb_rawSenderAddr s)
    (sb_destinationAddr s) (Some b)).

(** [SBSegment( body , bodyLength )]: all is zero before the body is set. *)
Definition SBSegment_of (ref : nat) (junk : SBSegment) (body : buffer) (bodyLength : Z) : option SBSegment :=
  match body with
  | None => Some junk
  | Some _ => if bodyLength <=? 0 then Some junk else set_body_raw body bodyLength (mkSeg ref 0 0 0 false 0 (0, 0) (0, 0) None)
  end.

Definition SBSegment_set_body (body : buffer) (bodyLength : Z) (s : SBSegment) : SBSegment :=
  mkSeg (sb_ref s) (sb_flag s) (bodyLength mod 2 ^ 16) (sb_forwardingSBCID s) (sb_isProcessed s) (sb_sendFlag s) (sb_rawSenderAddr s) (sb_destinationAddr s) body.
Definition set_ekp2pIsProcessed (b : bool) (s : SBSegment) : SBSegment :=
  mkSeg (sb_ref s) (sb_flag s) (sb_bodySize s) (sb_forwardingSBCID s) b (sb_sendFlag s) (sb_rawSenderAddr s) (sb_destinationAddr s) (sb_body s).
Definition set_sendFlag (z : Z) (s : SBSegment) : SBSegment :=
  mkSeg (sb_ref s) (sb_flag s) (sb_bodySize s) (sb_forwardingSBCID s) (sb_isProcessed s) z (sb_rawSenderAddr s) (sb_destinationAddr s) (sb_body s).
Definition set_forwardingSBCID (z : Z) (s : SBSegment) : SBSegment :=
  mkSeg (sb_ref s) (sb_flag s) (sb_bodySize s) z (sb_isProcessed s) (sb_sendFlag s) (sb_rawSenderAddr s) (sb_destinationAddr s) (sb_body s).
Definition set_rawSenderAddr (a : sockaddr) (s : SBSegment) : SBSegment :=
  mkSeg (sb_ref s) (sb_flag s) (sb_bodySize s) (sb_forwardingSBCID s) (sb_isProcessed s) (sb_sendFlag s) a (sb_destinationAddr s) (sb_body s).
Definition set_destinationAddr (a : sockaddr) (s : SBSegment) : SBSegment :=
  mkSeg (sb_ref s) (sb_flag s) (sb_bodySize s) (sb_forwardingSBCID s) (sb_isProcessed s) (sb_sendFlag s) (sb_rawSenderAddr s) a (sb_body s).
Definition set_flag (z : Z) (s : SBSegment) : SBSegment :=
  mkSeg (sb_ref s) z (sb_bodySize s) (sb_forwardingSBCID s) (sb_isProcessed s) (sb_sendFlag s) (sb_rawSenderAddr s) (sb_destinationAddr s) (sb_body s).

(** Getters whose return statement is commented out: what they answer is undefined. *)
Definition sb_sourceKNodeAddr (s : SBSegment) : option KNodeAddr := None.
Definition sb_relayKNodeAddrVector (s : SBSegment) : option (list KNodeAddr) := None.
Definition sb_rpcType (s : SBSegment) : option Z := None.
Definition sb_protocol (s : SBSegment) : option Z := None.

(** Setters whose body is commented out. *)
Definition sb_set_protocol (z : Z) (s : SBSegment) : SBSegment := s.
Definition sb_importFromEKP2PHeader (h : Header) (s : SBSegment) : SBSegment := s.

(** ** The broker *)

Definition MAX_PROTOCOL : Z := 10.
Definition DEFAULT_DAEMON_FORWARDING_SBC_ID_SENDER : Z := 0.
Definition DEFAULT_DAEMON_FORWARDING_SBC_ID_NATER : Z := 1.
Definition EKP2P_SENDBACK : Z := 1.
Definition EKP2P_SEND_UNICAST : Z := 2.
Definition EKP2P_SEND_BROADCAST : Z := 4.

(** Containers are named by numbers. *)
Record EKP2PBroker : Type := mkBroker { _sbHub : list (option nat); _allowedProtocolSet : list bool }.

Definition EKP2PBroker_new : EKP2PBroker := mkBroker (replicate 10 None) (replicate 10 true).

Definition forwardingDestination (sbc : option nat) (destination : Z) (b : EKP2PBroker) : Z * EKP2PBroker :=
  if MAX_PROTOCOL <=? destination then (-1, b)
  else match sbc with
       | None => (-1, b)
       | Some q => (destination, mkBroker (<[Z.to_nat destination := Some q]> (_sbHub b)) (_allowedProtocolSet b))
       end.

(** What becomes of a segment: the thread ends, the segment is thrown away, or it is passed on. *)
Inductive broker_outcome : Type := B_exit | B_discarded | B_forwarded (q : nat).

(** One round of the thread. [requiresRouting] is what it reads from the parameter of [start], which it
    holds a reference to after [start] has returned. *)
Definition broker_round (requiresRouting : bool) (routing : nat) (b : EKP2PBroker) (sb : SBSegment) : broker_outcome :=
  if sb_flag sb =? SB_FLAG_MODULE_EXIT then B_exit
  else
    let forwardingProtocol := sb_forwardingSBCID sb in
    if MAX_PROTOCOL <=? forwardingProtocol then B_discarded
    else if negb (sb_isProcessed sb) && requiresRouting then B_forwarded routing
    else
      match default None (_sbHub b !! Z.to_nat forwardingProtocol) with
      | None => B_discarded
      | Some q => if default false (_allowedProtocolSet b !! Z.to_nat forwardingProtocol) then B_forwarded q else B_discarded
      end.

(** The broker of the chain: its hub and filter are set but not looked at. *)
Record MiyaChainBrocker : Type := mkChainBroker { cb_sbHub : list (option nat); allowedForwardingFilter : list bool }.

Definition MiyaChainBrocker_new : MiyaChainBrocker := mkChainBroker (replicate 10 None) (replicate 10 true).
Definition allowAll (b : MiyaChainBrocker) : MiyaChainBrocker := mkChainBroker (cb_sbHub b) (map (fun _ => true) (allowedForwardingFilter b)).
Definition blockAll (b : MiyaChainBrocker) : MiyaChainBrocker := mkChainBroker (cb_sbHub b) (map (fun _ => false) (allowedForwardingFilter b)).

(** [setDestinationStreamBuffer]: [at] throws outside the array. *)
Definition setDestinationStreamBuffer (target : option nat) (destination : Z) : prog MiyaChainBrocker unit :=
  b ← get_state;
  if MAX_PROTOCOL <=? destination then throw OutOfRange
  else set_state (mkChainBroker (<[Z.to_nat destination := target]> (cb_sbHub b)) (allowedForwardingFilter b)).

Definition chain_forwardingDestination (sbc : option nat) (destination : Z) (b : MiyaChainBrocker) : Z * MiyaChainBrocker :=
  if MAX_PROTOCOL <=? destination then (-1, b)
  else match sbc with
       | None => (-1, b)
       | Some q => (destination, mkChainBroker (<[Z.to_nat destination := Some q]> (cb_sbHub b)) (allowedForwardingFilter b))
       end.

(** ** STUN messages *)

Record StunResponse : Type := mkStun { _message_type : Z; _message_size : Z; _requesterAddr : sockaddr }.

Definition StunResponse_sockaddr_in (from : sockaddr) (r : StunResponse) : StunResponse := mkStun (_message_type r) (_message_size r) from.

Definition StunResponse_exportRaw (r : StunResponse) : list byte :=
  le_encode 2 (_message_type r) ++ le_encode 2 (_message_size r) ++ le_encode 4 (_requesterAddr r).1 ++ le_encode 2 (_requesterAddr r).2.

Definition STUN_RESPONSE_SIZE : Z := 10.

(** [importRaw]: the bytes are the struct. *)
Definition StunResponse_importRaw (fromRaw : buffer) (fromRawLength : Z) : prog StunResponse Z :=
  if (fromRawLength <? STUN_RESPONSE_SIZE) || (match fromRaw with None => true | Some _ => false end) then mret 0
  else
    raw ← must (rd STUN_RESPONSE_SIZE fromRaw);
    t ← must (sub raw 0 2);
    s ← must (sub raw 2 2);
    a ← must (sub raw 4 4);
    p ← must (sub raw 8 2);
    _ ← set_state (mkStun (le_decode t) (le_decode s) (le_decode a, le_decode p));
    mret STUN_RESPONSE_SIZE.

(** [StunRequest], a struct of four bytes; the size of a response is copied from it. *)
Definition StunRequest_bytes : list byte := [x00; x01; x00; x00].
Definition StunRequest_exportRaw : option (list byte) := rd STUN_RESPONSE_SIZE (Some StunRequest_bytes).

(** One round of the server's handler for a segment; the response is a variable of the thread. *)
Definition stun_handler_round (response : StunResponse) (sb : SBSegment) : StunResponse * SBSegment :=
  let response := StunResponse_sockaddr_in (sb_rawSenderAddr sb) response in
  let raw := StunResponse_exportRaw response in
  (response, set_sendFlag (Z.lor EKP2P_SENDBACK EKP2P_SEND_UNICAST)
    (set_forwardingSBCID DEFAULT_DAEMON_FORWARDING_SBC_ID_SENDER
      (sb_set_protocol DEFAULT_DAEMON_FORWARDING_SBC_ID_NATER (SBSegment_set_body (Some raw) (Z.of_nat (length raw)) sb)))).

(** [validateSockaddrIn]. *)
Definition validateSockaddrIn (target : sockaddr) : bool := negb (htons target.2 =? 0) && negb (target.1 =? 0).

(** ** Finding out the own address *)

Section nat_code.
Context {ssl : OpenSSL}.

Definition DEFAULT_GLOBAL_ADDR_INQUIRE_COUNT : nat := 5.

(** The inquiry of a server: what is handed to the broker. *)
Definition inquiry (junk : SBSegment) (raw : list byte) (server : sockaddr) : SBSegment :=
  set_destinationAddr server (set_forwardingSBCID DEFAULT_DAEMON_FORWARDING_SBC_ID_SENDER (set_sendFlag EKP2P_SEND_UNICAST
    (sb_set_protocol DEFAULT_DAEMON_FORWARDING_SBC_ID_NATER (SBSegment_set_body (Some raw) (Z.of_nat (length raw)) junk)))).

(** The loop over the servers, [i] inquiries made so far; [answers] are the segments that
    come back in time. *)
Fixpoint inquire_servers (junk : nat -> SBSegment) (answers : nat -> option SBSegment) (raw : list byte) (response : StunResponse)
    (l : list sockaddr) (i : nat) (sent : list SBSegment) : option (option KNodeAddr * StunResponse * nat * list SBSegment) :=
  match l with
  | [] => Some (None, response, i, sent)
  | server :: l' =>
      let sent := sent ++ [inquiry (junk i) raw server] in
      match answers i with
      | None => inquire_servers junk answers raw response l' (S i) sent
      | Some sb =>
          match StunResponse_importRaw (sb_body sb) (sb_bodySize sb) response with
          | Ok _ response =>
              addr ← KNodeAddr_make (_requesterAddr response).1 (_requesterAddr response).2;
              Some (Some addr, response, S i, sent)
          | _ => None
          end
      end
  end.

Fixpoint inquire_rounds (n : nat) (junk : nat -> SBSegment) (answers : nat -> option SBSegment) (raw : list byte) (response : StunResponse)
    (l : list sockaddr) (i : nat) (sent : list SBSegment) : option (option KNodeAddr * list SBSegment) :=
  match n with
  | O => Some (None, sent)
  | S n' =>
      '(r, response, i, sent) ← inquire_servers junk answers raw response l i sent;
      match r with
      | Some a => Some (Some a, sent)
      | None => inquire_rounds n' junk answers raw response l i sent
      end
  end.

(** [natTraversal]: the address, if one was found, and the inquiries. [servers] is the list in the file, if there is one that
    can be opened; a file that is not JSON throws before any of this. *)
Definition natTraversal (servers : option (list sockaddr)) (junk : nat -> SBSegment) (answers : nat -> option SBSegment) (response : StunResponse)
  : option (option KNodeAddr * list SBSegment) :=
  match servers with
  | None => Some (None, [])
  | Some l =>
      raw ← StunRequest_exportRaw;
      inquire_rounds DEFAULT_GLOBAL_ADDR_INQUIRE_COUNT junk answers raw response l 0 []
  end.

(** [KNode::kNodeAddr( nodeAddr )]: the new address gets its id. *)
Definition set_host_kNodeAddr (nodeAddr : option KNodeAddr) (t : KRoutingTable) : option KRoutingTable :=
  a ← nodeAddr; a ← setNodeID a; Some (mkTable a (_bucketArray t)).

(** [EKP2P::init] after its daemons are set up: the new table and the two segments that end
    broker and sender. *)
Definition EKP2P_init (servers : option (list sockaddr)) (junk : nat -> SBSegment) (answers : nat -> option SBSegment) (response : StunResponse)
    (t : KRoutingTable) : option (KRoutingTable * (SBSegment * SBSegment)) :=
  '(globalKNodeAddr, inquiries) ← natTraversal servers junk answers response;
  t ← set_host_kNodeAddr globalKNodeAddr t;
  let exitBrokerSB := set_flag SB_FLAG_MODULE_EXIT (junk (length inquiries)) in
  let exitSenderSB := set_flag SB_FLAG_MODULE_EXIT (junk (S (length inquiries))) in
  Some (t, (exitBrokerSB, exitSenderSB)).

(** ** The node *)

(** The containers of the node: the broker's, the routing manager's, the sender's, then those of
    other modules. *)
Definition toBrokerSBC : nat := 0.
Definition toRoutingTableManagerSBC : nat := 1.
Definition toSenderSBC : nat := 2.

(** [nd_sent]: datagrams given to the socket. [nd_freed]: segments whose owner let go of them. *)
Record Node : Type := mkNodeState {
  nd_queues : list (list SBSegment);
  nd_broker : EKP2PBroker;
  nd_table : KRoutingTable;
  nd_wait : WaitQueue;
  nd_response : StunResponse;
  nd_sent : list (sockaddr * list byte);
  nd_freed : list nat;
}.

Definition set_queues (l : list (list SBSegment)) (n : Node) : Node := mkNodeState l (nd_broker n) (nd_table n) (nd_wait n) (nd_response n) (nd_sent n) (nd_freed n).

(** [pushOne]: a push into a full container waits until there is room ([StreamBuffer]), which is a later step here. *)
Definition pushOne (q : nat) (sb : SBSegment) : prog Node unit :=
  n ← get_state; l ← must (nd_queues n !! q); set_state (set_queues (<[q := l ++ [sb]]> (nd_queues n)) n).

(** [popOne], for a thread that does not wait: the container is not empty. *)
Definition popOne (q : nat) : prog Node SBSegment :=
  n ← get_state;
  l ← must (nd_queues n !! q);
  sb ← must (head l);
  _ ← set_state (set_queues (<[q := tail l]> (nd_queues n)) n);
  mret sb.

Definition release (sb : SBSegment) : prog Node unit :=
  modify (fun n => mkNodeState (nd_queues n) (nd_broker n) (nd_table n) (nd_wait n) (nd_response n) (nd_sent n) (nd_freed n ++ [sb_ref sb])).

Definition sendto (dest : sockaddr) (msg : EKP2PMessage) : prog Node EKP2PMessage := fun n =>
  match EKP2PMessage_exportRaw msg with
  | Ok raw msg => Ok msg (mkNodeState (nd_queues n) (nd_broker n) (nd_table n) (nd_wait n) (nd_response n) (nd_sent n ++ [(dest, raw)]) (nd_freed n))
  | Throw e _ => Throw e n
  | Undef => Undef
  end.

(** A round of the broker: [true] when the thread goes on. *)
Definition broker_step (requiresRouting : bool) : prog Node bool :=
  sb ← popOne toBrokerSBC;
  n ← get_state;
  match broker_round requiresRouting toRoutingTableManagerSBC (nd_broker n) sb with
  | B_exit => _ ← release sb; mret false
  | B_discarded => _ ← release sb; mret true
  | B_forwarded q => _ ← pushOne q sb; mret true
  end.

(** The message of a reply or request, up to its type. *)
Definition sender_message (sb : SBSegment) (rpc : option Z) : prog Node EKP2PMessage :=
  let msg := set_payload (sb_body sb) (sb_bodySize sb) EKP2PMessage_new in
  p ← must (sb_protocol sb);
  r ← must rpc;
  n ← get_state;
  mret (mkMessage (set_sourceKNodeAddr (Some (_hostNode (nd_table n))) (set_rpcType r (set_protocol p (_header msg)))) (_payload msg)).

Fixpoint send_relays (l : list KNodeAddr) (msg : EKP2PMessage) : prog Node unit :=
  match l with
  | [] => mret tt
  | itr :: l' => msg ← sendto (_IPv4Addr itr, _Port itr) msg; send_relays l' msg
  end.

Definition KADEMLIA_RPC_IGNORE : Z := 0.
Definition KADEMLIA_RPC_PING : Z := 1.
Definition KADEMLIA_RPC_PONG : Z := 2.
Definition KADEMLIA_RPC_FIND_NODE : Z := 3.

Definition sender_step : prog Node bool :=
  popedSB ← popOne toSenderSBC;
  if sb_flag popedSB =? SB_FLAG_MODULE_EXIT then _ ← release popedSB; mret false
  else
    _ ← (if sb_sendFlag popedSB =? EKP2P_SEND_UNICAST then
           msg ← sender_message popedSB (sb_rpcType popedSB);
           _ ← sendto (sb_destinationAddr popedSB) msg; mret tt
         else if sb_sendFlag popedSB =? Z.lor EKP2P_SENDBACK EKP2P_SEND_UNICAST then
           msg ← sender_message popedSB (Some KADEMLIA_RPC_PONG);
           _ ← sendto (sb_rawSenderAddr popedSB) msg; mret tt
         else if sb_sendFlag popedSB =? Z.lor EKP2P_SENDBACK EKP2P_SEND_BROADCAST then
           msg ← sender_message popedSB (Some KADEMLIA_RPC_PONG);
           msg ← sendto (sb_rawSenderAddr popedSB) msg;
           l ← must (sb_relayKNodeAddrVector popedSB);
           send_relays l msg
         else mret tt);
    _ ← release popedSB;
    mret true.

(** A round of the routing manager; the segment goes back to the broker in any case. [fresh] names the node
    object it makes. *)
Definition manager_step (fresh : nat) : prog Node bool :=
  popedSB ← popOne toRoutingTableManagerSBC;
  if sb_flag popedSB =? SB_FLAG_MODULE_EXIT then _ ← release popedSB; mret false
  else
    t ← must (sb_rpcType popedSB);
    popedSB ← (if t =? KADEMLIA_RPC_PING then
        let sb := set_sendFlag (Z.lor EKP2P_SENDBACK EKP2P_SEND_UNICAST) popedSB in
        mret (if (match sb_body sb with None => true | Some _ => false end) || (sb_bodySize sb <=? 0)
              then set_forwardingSBCID DEFAULT_DAEMON_FORWARDING_SBC_ID_SENDER sb else sb)
      else if t =? KADEMLIA_RPC_PONG then
        a ← must (sb_sourceKNodeAddr popedSB);
        _ ← zoom nd_wait (fun w n => mkNodeState (nd_queues n) (nd_broker n) (nd_table n) w (nd_response n) (nd_sent n) (nd_freed n))
              (unregist (Some (mkNode fresh a)));
        mret popedSB
      else mret popedSB);
    _ ← pushOne toBrokerSBC (set_ekp2pIsProcessed true popedSB);
    mret true.

(** A round of the STUN server's handler, and of the chain's broker, on their containers. *)
Definition stun_step (q : nat) : prog Node bool :=
  popedSB ← popOne q;
  n ← get_state;
  let '(response, sb) := stun_handler_round (nd_response n) popedSB in
  _ ← set_state (mkNodeState (nd_queues n) (nd_broker n) (nd_table n) (nd_wait n) response (nd_sent n) (nd_freed n));
  _ ← pushOne toBrokerSBC sb;
  mret true.

Definition chain_broker_step (q : nat) : prog Node bool :=
  popedSB ← popOne q; _ ← pushOne toBrokerSBC (set_forwardingSBCID DEFAULT_DAEMON_FORWARDING_SBC_ID_SENDER popedSB); mret true.

(** The receiver's segment for a datagram from [from]. *)
Definition received_segment (junk : SBSegment) (h : Header) (payload : buffer) (from : sockaddr) : SBSegment :=
  set_rawSenderAddr from (SBSegment_set_body payload (payloadLength h) (set_forwardingSBCID (protocol h) (sb_importFromEKP2PHeader h junk))).
End nat_code.

(** ** STUN messages between client and server *)

Lemma StunResponse_round_trip r rest junk : 0 <= _message_type r < 2 ^ 16 -> 0 <= _message_size r < 2 ^ 16 ->
  0 <= (_requesterAddr r).1 < 2 ^ 32 -> 0 <= (_requesterAddr r).2 < 2 ^ 16 ->
  StunResponse_importRaw (Some (StunResponse_exportRaw r ++ rest)) (Z.of_nat (length (StunResponse_exportRaw r ++ rest))) junk = Ok 10 r.
Proof.
  intros H1 H2 H3 H4. destruct r as [t s [a p]]. cbn [_message_type _message_size _requesterAddr fst snd] in *.
  unfold StunResponse_importRaw, StunResponse_exportRaw, STUN_RESPONSE_SIZE. cbn [_message_type _message_size _requesterAddr fst snd].
  pose proof (le_encode_length 2 t) as L1. pose proof (le_encode_length 2 s) as L2. pose proof (le_encode_length 4 a) as L3. pose proof (le_encode_length 2 p) as L4.
  set (raw := le_encode 2 t ++ _ ++ _ ++ le_encode 2 p). assert (length raw = 10%nat) as L by (unfold raw; rewrite !length_app; lia).
  destruct (Z.ltb_spec (Z.of_nat (length (raw ++ rest))) 10) as [Hl|_]; [rewrite length_app in Hl; lia|]. cbn [orb].
  assert (rd 10 (Some (raw ++ rest)) = Some raw) as -> by (change 10 with (Z.of_nat 10); rewrite <- L; apply rd_app). rewrite run_must.
  assert (sub raw 0 2 = Some (le_encode 2 t)) as -> by (eapply (sub_at raw [] _ _); unfold raw; [reflexivity|reflexivity|lia]).
  assert (sub raw 2 2 = Some (le_encode 2 s)) as -> by (eapply (sub_at raw (le_encode 2 t) _ _); unfold raw; [reflexivity|lia|lia]).
  assert (sub raw 4 4 = Some (le_encode 4 a)) as ->
    by (eapply (sub_at raw (le_encode 2 t ++ le_encode 2 s) _ _); unfold raw; [now rewrite <- app_assoc|rewrite length_app; lia|lia]).
  assert (sub raw 8 2 = Some (le_encode 2 p)) as ->
    by (eapply (sub_at raw (le_encode 2 t ++ le_encode 2 s ++ le_encode 4 a) _ []); unfold raw; [now rewrite <- !app_assoc, app_nil_r|rewrite !length_app; lia|lia]).
  rewrite !run_must. unfold set_state, mbind, prog_bind, mret, prog_ret. now rewrite !le_decode_le by (cbn; lia).
Qed.

Section nat.
Context {ssl : OpenSSL}.

(** C34: The address exchange would tell a node its address, but a node never gets to ask. What the server's handler makes of
    any inquiry is a segment to be sent back to its sender whose body, read by a client, gives the
    address the inquiry came from (whatever the uninitialised type and size of the response are). The client, however,
    copies ten bytes out of a request of four before it asks, and uses the address it did not get if
    there is no list of servers, so that initialising a node is undefined whether or not the list is there. *)
Theorem address_exchange response sb junk servers segs answers t :
  0 <= _message_type response < 2 ^ 16 -> 0 <= _message_size response < 2 ^ 16 ->
  0 <= (sb_rawSenderAddr sb).1 < 2 ^ 32 -> 0 <= (sb_rawSenderAddr sb).2 < 2 ^ 16 ->
  (let sb' := (stun_handler_round response sb).2 in
   sb_sendFlag sb' = 3 /\ sb_forwardingSBCID sb' = 0 /\ sb_rawSenderAddr sb' = sb_rawSenderAddr sb /\ sb_ref sb' = sb_ref sb /\
   exists r, StunResponse_importRaw (sb_body sb') (sb_bodySize sb') junk = Ok 10 r /\ _requesterAddr r = sb_rawSenderAddr sb) /\
  EKP2P_init servers segs answers junk t = None.
Proof.
  intros H1 H2 H3 H4. split.
  - cbn zeta. split; [reflexivity|]. split; [reflexivity|]. split; [reflexivity|]. split; [reflexivity|].
    set (r := StunResponse_sockaddr_in (sb_rawSenderAddr sb) response). exists r. split; [|reflexivity].
    pose proof (StunResponse_round_trip r [] junk H1 H2 H3 H4) as H. rewrite app_nil_r in H.
    change (sb_body (stun_handler_round response sb).2) with (Some (StunResponse_exportRaw r)).
    change (sb_bodySize (stun_handler_round response sb).2) with (Z.of_nat (length (StunResponse_exportRaw r)) mod 2 ^ 16).
    rewrite Z.mod_small; [exact H|]. unfold StunResponse_exportRaw. rewrite !length_app, !le_encode_length. lia.
  - unfold EKP2P_init. destruct servers as [l|]; reflexivity.
Qed.
End nat.

(** ** What happens to segments *)

Definition all_segments (n : Node) : list SBSegment := concat (nd_queues n).
Definition refs (n : Node) : list nat := map sb_ref (all_segments n) ++ nd_freed n.

Lemma concat_insert (L : list (list SBSegment)) q l l' : L !! q = Some l ->
  concat (<[q := l']> L) ++ l ≡ₚ concat L ++ l'.
Proof.
  intros H. rewrite <- (take_drop_middle L q l H) at 2. rewrite insert_take_drop by (apply lookup_lt_is_Some_1; now exists l).
  rewrite !concat_app. cbn [concat]. solve_Permutation.
Qed.

(** Commands that move segments: which they put in and take out of the node, and what else they leave alone. *)
Record moves (n n' : Node) : Prop := {
  mv_broker : nd_broker n' = nd_broker n;
  mv_table : nd_table n' = nd_table n;
  mv_sent : nd_sent n' = nd_sent n;
  mv_queues : length (nd_queues n') = length (nd_queues n);
}.

Lemma moves_trans a b c : moves a b -> moves b c -> moves a c.
Proof. intros [A1 A2 A3 A4] [B1 B2 B3 B4]. split; congruence. Qed.

Lemma pushOne_run q sb n : match nd_queues n !! q with
  | None => pushOne q sb n = Undef
  | Some l => exists n', pushOne q sb n = Ok tt n' /\ moves n n' /\ nd_queues n' = <[q := l ++ [sb]]> (nd_queues n) /\ nd_freed n' = nd_freed n
  end.
Proof.
  unfold pushOne. rewrite run_get. destruct (nd_queues n !! q) as [l|]; [|reflexivity]. rewrite run_must.
  eexists. split; [reflexivity|]. split; [split; try reflexivity; apply length_insert|]. now split.
Qed.

Lemma pushOne_refs q sb n n' : pushOne q sb n = Ok tt n' -> moves n n' /\ refs n' ≡ₚ sb_ref sb :: refs n /\
  exists l, nd_queues n !! q = Some l /\ nd_queues n' = <[q := l ++ [sb]]> (nd_queues n).
Proof.
  intros E. pose proof (pushOne_run q sb n) as H. destruct (nd_queues n !! q) as [l|] eqn:El; [|congruence].
  destruct H as (m & E' & Hm & Hq & Hf). rewrite E in E'. injection E' as <-. split; [exact Hm|]. split; [|exists l; now split].
  unfold refs, all_segments. rewrite Hq, Hf. pose proof (concat_insert (nd_queues n) q l (l ++ [sb]) El) as Hp.
  rewrite (Permutation_app_comm _ l), (Permutation_app_comm (concat (nd_queues n))), <- app_assoc in Hp. apply Permutation_app_inv_l in Hp.
  rewrite Hp. reflexivity.
Qed.

Lemma popOne_refs q sb n n' : popOne q n = Ok sb n' -> moves n n' /\ refs n ≡ₚ sb_ref sb :: refs n' /\
  exists l, nd_queues n !! q = Some (sb :: l) /\ nd_queues n' = <[q := l]> (nd_queues n).
Proof.
  unfold popOne. rewrite run_get. destruct (nd_queues n !! q) as [[|x l]|] eqn:El; [discriminate| |discriminate].
  rewrite run_must. cbn [head]. rewrite run_must. intros [= <- <-]. split; [split; try reflexivity; apply length_insert|].
  split; [|exists l; now split]. unfold refs, all_segments. cbn [nd_queues set_queues nd_freed tail].
  pose proof (concat_insert (nd_queues n) q (x :: l) l El) as Hp. rewrite (Permutation_app_comm _ (x :: l)), (Permutation_app_comm _ l) in Hp.
  change ((x :: l) ++ ?y) with ([x] ++ l ++ y) in Hp. rewrite app_assoc, (Permutation_app_comm [x]), <- app_assoc in Hp.
  apply Permutation_app_inv_l in Hp. now rewrite <- Hp.
Qed.

Lemma release_refs sb n : release sb n = Ok tt (mkNodeState (nd_queues n) (nd_broker n) (nd_table n) (nd_wait n) (nd_response n) (nd_sent n) (nd_freed n ++ [sb_ref sb])) /\
  refs (mkNodeState (nd_queues n) (nd_broker n) (nd_table n) (nd_wait n) (nd_response n) (nd_sent n) (nd_freed n ++ [sb_ref sb])) ≡ₚ sb_ref sb :: refs n.
Proof. split; [reflexivity|]. unfold refs, all_segments. cbn [nd_queues nd_freed]. rewrite app_assoc. now rewrite Permutation_app_comm. Qed.

(** ** The threads together *)

(** Segments come in, from the receiver or from another module, and threads run their rounds, in any order.
    [step_exit]: the segment that ends a thread. Containers from the fourth on belong to other modules. *)
Inductive node_step {ssl : OpenSSL} (requiresRouting : bool) : list nat * Node -> list nat * Node -> Prop :=
  | step_in sb refs n n' : sb_isProcessed sb = false -> pushOne toBrokerSBC sb n = Ok tt n' -> node_step requiresRouting (refs, n) (sb_ref sb :: refs, n')
  | step_exit q sb refs n n' : sb_isProcessed sb = false -> sb_flag sb = SB_FLAG_MODULE_EXIT -> pushOne q sb n = Ok tt n' ->
      node_step requiresRouting (refs, n) (sb_ref sb :: refs, n')
  | step_broker refs n n' r : broker_step requiresRouting n = Ok r n' -> node_step requiresRouting (refs, n) (refs, n')
  | step_sender refs n n' r : sender_step n = Ok r n' -> node_step requiresRouting (refs, n) (refs, n')
  | step_manager fresh refs n n' r : manager_step fresh n = Ok r n' -> node_step requiresRouting (refs, n) (refs, n')
  | step_stun q refs n n' r : (3 <= q)%nat -> stun_step q n = Ok r n' -> node_step requiresRouting (refs, n) (refs, n')
  | step_chain q refs n n' r : (3 <= q)%nat -> chain_broker_step q n = Ok r n' -> node_step requiresRouting (refs, n) (refs, n').

Inductive node_reach {ssl : OpenSSL} (requiresRouting : bool) (start : Node) : list nat * Node -> Prop :=
  | reach_node_start : node_reach requiresRouting start ([], start)
  | reach_node_step x y : node_reach requiresRouting start x -> node_step requiresRouting x y -> node_reach requiresRouting start y.

Definition in_queue (n : Node) (q : nat) (sb : SBSegment) : Prop := exists l, nd_queues n !! q = Some l /\ sb ∈ l.

(** What holds of a node with the segments that came in. *)
Record node_inv (requiresRouting : bool) (start : Node) (x : list nat * Node) : Prop := {
  ni_refs : x.1 ≡ₚ refs x.2;
  ni_moves : moves start x.2;
  ni_unprocessed : forall q sb, in_queue x.2 q sb -> sb_isProcessed sb = false;
  ni_undelivered : requiresRouting = true -> forall q sb, (2 <= q)%nat -> in_queue x.2 q sb -> sb_flag sb = SB_FLAG_MODULE_EXIT;
}.

Lemma pushed_in_queue q sb n n' l p x : nd_queues n !! q = Some l -> nd_queues n' = <[q := l ++ [sb]]> (nd_queues n) ->
  in_queue n' p x -> in_queue n p x \/ (p = q /\ x = sb).
Proof.
  intros El Eq (m & Em & Hx). rewrite Eq in Em. destruct (decide (p = q)) as [->|Hne].
  - rewrite list_lookup_insert_eq in Em by (apply lookup_lt_is_Some_1; now exists l). injection Em as <-.
    apply elem_of_app in Hx as [Hx| ->%list_elem_of_singleton]; [left; now exists l|now right].
  - rewrite list_lookup_insert_ne in Em by congruence. left. now exists m.
Qed.

Lemma popped_in_queue q sb n n' l p x : nd_queues n !! q = Some (sb :: l) -> nd_queues n' = <[q := l]> (nd_queues n) ->
  in_queue n' p x -> in_queue n p x.
Proof.
  intros El Eq (m & Em & Hx). rewrite Eq in Em. destruct (decide (p = q)) as [->|Hne].
  - rewrite list_lookup_insert_eq in Em by (apply lookup_lt_is_Some_1; now exists (sb :: l)). injection Em as <-.
    exists (sb :: l). split; [exact El|now right].
  - rewrite list_lookup_insert_ne in Em by congruence. now exists m.
Qed.

(** A node out of which a thread holds the segment [sb]. *)
Record held (requiresRouting : bool) (start : Node) (r : list nat) (n : Node) (sb : SBSegment) : Prop := {
  hd_refs : r ≡ₚ sb_ref sb :: refs n;
  hd_moves : moves start n;
  hd_unprocessed : forall q x, in_queue n q x -> sb_isProcessed x = false;
  hd_undelivered : requiresRouting = true -> forall q x, (2 <= q)%nat -> in_queue n q x -> sb_flag x = SB_FLAG_MODULE_EXIT;
  hd_self : sb_isProcessed sb = false;
}.

Section node.
Context {ssl : OpenSSL} (requiresRouting : bool) (start : Node).

Lemma enters_held r n sb : node_inv requiresRouting start (r, n) -> sb_isProcessed sb = false -> held requiresRouting start (sb_ref sb :: r) n sb.
Proof. intros [I1 I2 I3 I4] H. cbn in *. split; try assumption. now rewrite I1. Qed.

Lemma pop_held r n q sb n' : node_inv requiresRouting start (r, n) -> popOne q n = Ok sb n' ->
  held requiresRouting start r n' sb /\ (requiresRouting = true -> (2 <= q)%nat -> sb_flag sb = SB_FLAG_MODULE_EXIT).
Proof.
  intros [I1 I2 I3 I4] E. cbn [fst snd] in *. destruct (popOne_refs _ _ _ _ E) as (Hm & Hr & l & El & Eq).
  assert (in_queue n q sb) as Hin by (exists (sb :: l); split; [exact El|now left]).
  split; [|intros Hq H2; exact (I4 Hq q sb H2 Hin)]. split.
  - now rewrite I1.
  - exact (moves_trans _ _ _ I2 Hm).
  - intros p x Hx. exact (I3 p x (popped_in_queue _ _ _ _ _ _ _ El Eq Hx)).
  - intros Hq p x H2 Hx. exact (I4 Hq p x H2 (popped_in_queue _ _ _ _ _ _ _ El Eq Hx)).
  - exact (I3 q sb Hin).
Qed.

Lemma held_push r n q sb sb' n' : held requiresRouting start r n sb -> pushOne q sb' n = Ok tt n' ->
  sb_ref sb' = sb_ref sb -> sb_isProcessed sb' = false -> (requiresRouting = true -> (2 <= q)%nat -> sb_flag sb' = SB_FLAG_MODULE_EXIT) ->
  node_inv requiresRouting start (r, n').
Proof.
  intros [H1 H2 H3 H4 H5] E Er Ep Ef. destruct (pushOne_refs _ _ _ _ E) as (Hm & Hr & l & El & Eq). split; cbn [fst snd].
  - now rewrite H1, Hr, Er.
  - exact (moves_trans _ _ _ H2 Hm).
  - intros p x Hx. destruct (pushed_in_queue _ _ _ _ _ _ _ El Eq Hx) as [Hx'|[-> ->]]; [exact (H3 p x Hx')|exact Ep].
  - intros Hq p x Hp Hx. destruct (pushed_in_queue _ _ _ _ _ _ _ El Eq Hx) as [Hx'|[-> ->]]; [exact (H4 Hq p x Hp Hx')|exact (Ef Hq Hp)].
Qed.

Lemma held_release r n sb n' : held requiresRouting start r n sb -> release sb n = Ok tt n' -> node_inv requiresRouting start (r, n').
Proof.
  intros [H1 H2 H3 H4 H5] E. destruct (release_refs sb n) as [E' Hr]. rewrite E in E'. injection E' as ->. split; cbn [fst snd].
  - now rewrite H1, Hr.
  - destruct H2. split; assumption.
  - exact H3.
  - exact H4.
Qed.

(** What a thread that has popped a segment does is the rest of its round. *)
Lemma popped_then {A} q (f : SBSegment -> prog Node A) n a n' : (sb ← popOne q; f sb) n = Ok a n' ->
  exists sb m, popOne q n = Ok sb m /\ f sb m = Ok a n'.
Proof. unfold mbind, prog_bind. destruct (popOne q n) as [sb m|e m|]; try discriminate. intros E. now exists sb, m. Qed.

Lemma then_ret {A B} (c : prog Node A) (b : B) n r n' : (_ ← c; mret b) n = Ok r n' -> exists a, c n = Ok a n' /\ r = b.
Proof. unfold mbind, prog_bind. destruct (c n) as [a m|e m|]; try discriminate. intros [= <- <-]. now exists a. Qed.

(** A segment the manager or the sender would have to act on is one whose type or protocol it
    asks for. *)
Lemma manager_popped fresh q sb n m : q = toRoutingTableManagerSBC -> popOne q n = Ok sb m -> sb_flag sb <> SB_FLAG_MODULE_EXIT -> manager_step fresh n = Undef.
Proof.
  intros -> E Hf. unfold manager_step. unfold mbind at 1, prog_bind at 1. rewrite E.
  destruct (Z.eqb_spec (sb_flag sb) SB_FLAG_MODULE_EXIT); [contradiction|]. reflexivity.
Qed.

Definition asks_to_send (z : Z) : bool := (z =? 2) || (z =? 3) || (z =? 5).

Lemma sender_popped sb n m : popOne toSenderSBC n = Ok sb m -> sb_flag sb <> SB_FLAG_MODULE_EXIT ->
  sender_step n = if asks_to_send (sb_sendFlag sb) then Undef else (_ ← release sb; mret true) m.
Proof.
  intros E Hf. unfold sender_step, asks_to_send. unfold mbind at 1, prog_bind at 1. rewrite E.
  destruct (Z.eqb_spec (sb_flag sb) SB_FLAG_MODULE_EXIT); [contradiction|].
  change EKP2P_SEND_UNICAST with 2. change (Z.lor EKP2P_SENDBACK 2) with 3. change (Z.lor EKP2P_SENDBACK EKP2P_SEND_BROADCAST) with 5.
  destruct (Z.eqb_spec (sb_sendFlag sb) 2); [reflexivity|]. destruct (Z.eqb_spec (sb_sendFlag sb) 3); [reflexivity|].
  destruct (Z.eqb_spec (sb_sendFlag sb) 5); reflexivity.
Qed.

Lemma broker_round_routed b sb q : broker_round requiresRouting toRoutingTableManagerSBC b sb = B_forwarded q ->
  sb_isProcessed sb = false -> requiresRouting = true -> q = toRoutingTableManagerSBC.
Proof.
  unfold broker_round. intros E Hp Hq. rewrite Hp, Hq in E. cbn [negb andb] in E.
  destruct (sb_flag sb =? SB_FLAG_MODULE_EXIT); [discriminate|]. destruct (MAX_PROTOCOL <=? sb_forwardingSBCID sb); [discriminate|].
  now injection E.
Qed.

Lemma broker_step_inv r n b n' : node_inv requiresRouting start (r, n) -> broker_step requiresRouting n = Ok b n' -> node_inv requiresRouting start (r, n').
Proof.
  intros I E. apply popped_then in E as (sb & m & Ep & E). destruct (pop_held _ _ _ _ _ I Ep) as [H _]. rewrite run_get in E.
  destruct (broker_round requiresRouting toRoutingTableManagerSBC (nd_broker m) sb) as [| |q] eqn:Eb; apply then_ret in E as ([] & E & _).
  - exact (held_release _ _ _ _ H E).
  - exact (held_release _ _ _ _ H E).
  - apply (held_push _ _ _ _ _ _ H E eq_refl (hd_self _ _ _ _ _ H)). intros Hq H2.
    pose proof (broker_round_routed _ _ _ Eb (hd_self _ _ _ _ _ H) Hq). unfold toRoutingTableManagerSBC in *. lia.
Qed.

Lemma manager_step_inv fresh r n b n' : node_inv requiresRouting start (r, n) -> manager_step fresh n = Ok b n' -> node_inv requiresRouting start (r, n').
Proof.
  intros I E. pose proof E as E0. unfold manager_step in E. apply popped_then in E as (sb & m & Ep & E). destruct (pop_held _ _ _ _ _ I Ep) as [H _].
  destruct (Z.eqb_spec (sb_flag sb) SB_FLAG_MODULE_EXIT) as [Hf|Hf].
  - apply then_ret in E as ([] & E & _). exact (held_release _ _ _ _ H E).
  - rewrite (manager_popped fresh _ _ _ _ eq_refl Ep Hf) in E0. discriminate.
Qed.

Lemma sender_step_inv r n b n' : node_inv requiresRouting start (r, n) -> sender_step n = Ok b n' -> node_inv requiresRouting start (r, n').
Proof.
  intros I E. pose proof E as E0. unfold sender_step in E. apply popped_then in E as (sb & m & Ep & E). destruct (pop_held _ _ _ _ _ I Ep) as [H _].
  destruct (Z.eqb_spec (sb_flag sb) SB_FLAG_MODULE_EXIT) as [Hf|Hf].
  - apply then_ret in E as ([] & E & _). exact (held_release _ _ _ _ H E).
  - rewrite (sender_popped _ _ _ Ep Hf) in E0. destruct (asks_to_send (sb_sendFlag sb)); [discriminate|].
    apply then_ret in E0 as ([] & E0 & _). exact (held_release _ _ _ _ H E0).
Qed.

Lemma stun_step_inv q r n b n' : node_inv requiresRouting start (r, n) -> stun_step q n = Ok b n' -> node_inv requiresRouting start (r, n').
Proof.
  intros I E. apply popped_then in E as (sb & m & Ep & E). destruct (pop_held _ _ _ _ _ I Ep) as [[H1 H2 H3 H4 H5] _]. rewrite run_get in E.
  unfold stun_handler_round in E. unfold mbind at 1, prog_bind at 1, set_state at 1 in E.
  apply then_ret in E as ([] & E & _). eapply held_push; [|exact E|reflexivity|exact H5|intros _ H; unfold toBrokerSBC in H; lia].
  split; [exact H1|destruct H2; split; assumption|exact H3|exact H4|exact H5].
Qed.

Lemma chain_broker_step_inv q r n b n' : node_inv requiresRouting start (r, n) -> chain_broker_step q n = Ok b n' -> node_inv requiresRouting start (r, n').
Proof.
  intros I E. apply popped_then in E as (sb & m & Ep & E). destruct (pop_held _ _ _ _ _ I Ep) as [H _].
  apply then_ret in E as ([] & E & _). eapply held_push; [exact H|exact E|reflexivity|exact (hd_self _ _ _ _ _ H)|intros _ H0; unfold toBrokerSBC in H0; lia].
Qed.

Lemma node_step_inv x y : node_inv requiresRouting start x -> node_step requiresRouting x y -> node_inv requiresRouting start y.
Proof.
  intros I S. destruct S as [sb r n n' Hp E|q sb r n n' Hp Hf E|r n n' b E|r n n' b E|fresh r n n' b E|q r n n' b _ E|q r n n' b _ E].
  - eapply held_push; [exact (enters_held _ _ sb I Hp)|exact E|reflexivity|exact Hp|intros _ H; unfold toBrokerSBC in H; lia].
  - eapply held_push; [exact (enters_held _ _ sb I Hp)|exact E|reflexivity|exact Hp|intros _ _; exact Hf].
  - exact (broker_step_inv _ _ _ _ I E).
  - exact (sender_step_inv _ _ _ _ I E).
  - exact (manager_step_inv _ _ _ _ _ I E).
  - exact (stun_step_inv _ _ _ _ _ I E).
  - exact (chain_broker_step_inv _ _ _ _ _ I E).
Qed.

Lemma node_reach_inv x : concat (nd_queues start) = [] -> nd_freed start = [] -> node_reach requiresRouting start x -> node_inv requiresRouting start x.
Proof.
  intros Hq Hf R. induction R as [|x y R IH S]; [|exact (node_step_inv _ _ IH S)].
  assert (forall q sb, in_queue start q sb -> False) as Hno.
  { intros q sb (l & El & Hin). assert (sb ∈ concat (nd_queues start)) as H by (apply list_elem_of_In, in_concat; exists l; split; apply list_elem_of_In; [now apply list_elem_of_lookup_2 with q|exact Hin]).
    rewrite Hq in H. now apply not_elem_of_nil in H. }
  split; cbn [fst snd].
  - unfold refs, all_segments. now rewrite Hq, Hf.
  - now split.
  - intros q sb H. destruct (Hno q sb H).
  - intros _ q sb _ H. destruct (Hno q sb H).
Qed.

(** C15: The threads of the peer-to-peer layer lose no segment and deliver none. Whatever comes in and
    in whatever order the threads run, every segment that came in is in exactly one container or has been let go of by
    the thread that owned it, the routing table is what it was, no datagram has been given to the socket,
    and, where segments are to be routed, nothing but exit segments ever reaches the sender or a module. The first other segment the routing
    manager takes is one whose type it asks for, which a getter without return answers; so is the first the sender
    would have to send. *)
Theorem node_delivers_nothing x : concat (nd_queues start) = [] -> nd_freed start = [] -> nd_sent start = [] -> node_reach requiresRouting start x ->
  x.1 ≡ₚ refs x.2 /\ nd_table x.2 = nd_table start /\ nd_sent x.2 = [] /\
  (requiresRouting = true -> forall q sb, (2 <= q)%nat -> in_queue x.2 q sb -> sb_flag sb = SB_FLAG_MODULE_EXIT) /\
  (forall fresh sb l, nd_queues x.2 !! toRoutingTableManagerSBC = Some (sb :: l) -> sb_flag sb <> SB_FLAG_MODULE_EXIT -> manager_step fresh x.2 = Undef) /\
  (forall sb l, nd_queues x.2 !! toSenderSBC = Some (sb :: l) -> sb_flag sb <> SB_FLAG_MODULE_EXIT -> asks_to_send (sb_sendFlag sb) = true -> sender_step x.2 = Undef).
Proof.
  intros Hq Hf Hs R. destruct (node_reach_inv x Hq Hf R) as [I1 [M1 M2 M3 M4] I3 I4].
  assert (forall q sb l, nd_queues x.2 !! q = Some (sb :: l) -> exists m, popOne q x.2 = Ok sb m) as Hpop.
  { intros q sb l E. unfold popOne. rewrite run_get, E, run_must. cbn [head]. rewrite run_must. now eexists. }
  split; [exact I1|]. split; [exact M2|]. split; [now rewrite M3|]. split; [exact I4|]. split.
  - intros fresh sb l E Hx. destruct (Hpop _ _ _ E) as [m Em]. exact (manager_popped fresh _ _ _ _ eq_refl Em Hx).
  - intros sb l E Hx Ha. destruct (Hpop _ _ _ E) as [m Em]. now rewrite (sender_popped _ _ _ Em Hx), Ha.
Qed.
End node.

(** ** The properties at concrete inputs *)

Definition sample_segment (ref : nat) (flag : Z) : SBSegment := SBSegment_new ref flag 0 6 (16777343, 8080) (0, 0).
Definition sample_response : StunResponse := mkStun 7 9 (0, 0).
Definition sample_start : Node :=
  mkNodeState [[]; []; []; []] EKP2PBroker_new (KRoutingTable_new (mkKNodeAddr 0 0 (replicate 20 x00))) (mkQueue [] []) sample_response [] [].

Lemma address_exchange_witness :
  (let sb' := (stun_handler_round sample_response (sample_segment 4 0)).2 in
   sb_sendFlag sb' = 3 /\ sb_forwardingSBCID sb' = 0 /\ sb_rawSenderAddr sb' = (16777343, 8080) /\ sb_ref sb' = 4%nat /\
   exists r, StunResponse_importRaw (sb_body sb') (sb_bodySize sb') sample_response = Ok 10 r /\ _requesterAddr r = (16777343, 8080)) /\
  EKP2P_init (Some [(1, 2)]) (fun i => sample_segment i 0) (fun _ => None) sample_response (nd_table sample_start) = None.
Proof.
  apply (address_exchange sample_response (sample_segment 4 0) sample_response (Some [(1, 2)]) (fun i => sample_segment i 0) (fun _ => None)
    (nd_table sample_start)); cbn; lia.
Defined.

(** Two segments come in and the broker has routed the first. *)
Definition sample_entered : Node := set_queues [[sample_segment 1 0; sample_segment 2 1]; []; []; []] sample_start.
Definition sample_routed : Node := set_queues [[sample_segment 2 1]; [sample_segment 1 0]; []; []] sample_start.

Lemma sample_node_reach : node_reach true sample_start ([2; 1]%nat, sample_routed).
Proof.
  apply reach_node_step with ([2; 1]%nat, sample_entered).
  - apply reach_node_step with ([1]%nat, set_queues [[sample_segment 1 0]; []; []; []] sample_start).
    + apply reach_node_step with ([], sample_start); [constructor|]. now apply (step_in true (sample_segment 1 0)).
    + now apply (step_in true (sample_segment 2 1)).
  - now apply step_broker with true.
Qed.

Lemma node_delivers_nothing_witness :
  [2; 1]%nat ≡ₚ refs sample_routed /\ nd_table sample_routed = nd_table sample_start /\ nd_sent sample_routed = [] /\
  (true = true -> forall q sb, (2 <= q)%nat -> in_queue sample_routed q sb -> sb_flag sb = SB_FLAG_MODULE_EXIT) /\
  (forall fresh sb l, nd_queues sample_routed !! toRoutingTableManagerSBC = Some (sb :: l) -> sb_flag sb <> SB_FLAG_MODULE_EXIT ->
    manager_step fresh sample_routed = Undef) /\
  (forall sb l, nd_queues sample_routed !! toSenderSBC = Some (sb :: l) -> sb_flag sb <> SB_FLAG_MODULE_EXIT ->
    asks_to_send (sb_sendFlag sb) = true -> sender_step sample_routed = Undef).
Proof. apply (node_delivers_nothing true sample_start ([2; 1]%nat, sample_routed)); [reflexivity..|exact sample_node_reach]. Defined.
